(* ===== verification/_CoqProject ===== *)
-Q . S2P
Prelude.v
Memory.v
Tcb.v
Bitmap.v
Partition.v
Can.v
Pmp.v
Spinlock.v
Telemetry.v
Broker.v
Kernel.v
Trap.v
KernelInv.v
TrapInv.v
Security.v
Boot.v
Host.v
Rtt.v
Handshake.v
Dashboard.v
Tests.v
Reach.v
SyscallSpec.v
Footprint.v
Parking.v
IpcSpec.v
Delivery.v
FaultSpec.v
Watchdog.v
Preempt.v
AbsSpec.v
Refine.v
Tasks.v
Messages.v
Discipline.v
IpcMoves.v
Compose.v
Protocol.v
Authentic.v
Endpoints.v
Stranded.v
Exchange.v
Context.v
Typing.v
System.v
