(* ===== verification/Prelude.v ===== *)
(** * Cerberus-OS: a verification development

    Cerberus-OS is a small dual-hart RISC-V (riscv32imac) real-time kernel in
    Rust.  After a secure-boot check, hart 0 registers seven tasks in the two
    cores' partition tables, both harts program their PMP and start their first
    task, and from then on everything happens in the trap handler: timer ticks
    and software interrupts, eight system calls, the emulation of counter reads,
    and the containment of faults.  A watchdog task restarts partitions that
    stop checking in; a CAN stack and a virtual HSM partition authenticate
    frames.

    ** Parts and files

    - [Prelude]: machine integers, the outcome type [result] (return, panic,
      spin), array slots, the lemmas and the hint database they share.
    - [Memory]: RAM as a finite map from addresses to bytes, volatile word
      accesses, the IPC copy, the register frame of trap_entry.s.
    - [Tcb]: scheduler/src/tcb.rs, capabilities, task states, task control
      blocks, [initialize_stack].
    - [Bitmap]: scheduler/src/bitmap.rs, [BitMapScheduler] with [new],
      [register_task] and [schedule].  [Partition] puts one scheduler in an
      arbitrary environment and bounds slices and waiting times.
    - [Can]: network/src/can.rs, [CanFrame::parse] and [CanRingBuffer].
    - [Pmp]: kernel/src/memory/pmp.rs and [init_memory_protection] of
      kernel/src/main.rs, on the PMP registers of the privileged specification.
    - [Spinlock]: kernel/src/kernel/spinlock.rs, once as sequential operations
      and once as a step relation of single memory accesses with traps.
    - [Telemetry]: the trace events of telemetry/src/lib.rs, [log_telemetry], and
      postcard's documented wire format as the class [Postcard].  [Broker]: the
      decoder of host/telemetry_broker.py at the other end of the channel.  [Rtt]: the
      log channels, [SEGGER_RTT_WriteNoLock] and the writers of both crates, with the
      static encoding buffers filled byte by byte.  [Host]: the broker's polling of
      the trace file, its broadcast, and the dashboard's counters.
    - [Kernel]: the statics of kernel/src/main.rs and kernel/src/trap.rs as one
      record, the state monad [K], the lock guards, the mutex table and
      [switch_task].
    - [Trap]: [trap_handler] of kernel/src/trap.rs, one definition per arm.
    - [KernelInv], [TrapInv]: the kernel invariant, a weakest-precondition
      calculus for [K], and the proof that every arm keeps the invariant.
    - [Security]: security/src/bootloader.rs, hsm.rs and hmac.rs, with FIPS
      180-4 and RFC 2104 stated as specifications.
    - [Boot]: [kmain] and its steps, in the order the barriers enforce.
      [Handshake]: the same code as two interleaved harts with their spin loops.
    - [Dashboard]: kernel/src/kernel/metrics.rs, the self-test's metrics, the
      [HexSlice] formatter and the logger's lock.
    - [Tests]: the repository's unit tests and its Kani harness.
    - [Reach]: kernel and user memory as a step relation, [reachable], and the
      properties of every reachable state.
    - [SyscallSpec], [IpcSpec], [FaultSpec]: the functional specifications of
      the system calls, of IPC and sleeping, and of faults, termination and the
      context switch.  [Footprint]: which bytes a trap may change; [Parking]: which
      saved stack pointers; [Delivery]: what whole IPC traps leave in buffers.
    - [Watchdog]: one iteration of [watchdog_task] of kernel/src/main.rs.
      [Preempt]: the same iteration as single accesses, with traps in between.
    - [AbsSpec]: an abstract kernel, task states, current tasks, mutex owners and
      waiters, with the moves a kernel may make; [Refine]: every trap is a path of
      moves its event allows.
    - [Tasks]: the six task functions (watchdog, A, B, C, idle of
      kernel/src/main.rs, the HSM of security/src/hsm.rs) as trees of system calls
      and memory accesses, and their lock discipline.  [Discipline]: what that
      discipline gives on the abstract kernel.  [Compose]: tasks and kernel together
      as one step relation, [total].
    - [Messages]: the message of each endpoint, the buffers of each task, and a logic
      for what a task knows of its buffers.  [IpcMoves]: what a trap does to tasks
      blocked on IPC.  [Protocol]: [exact], the composed system with its buffers
      followed exactly, and its invariant; [Authentic]: the resulting theorem.
      [Endpoints]: who may block on which endpoint.  [Stranded]: what a restart of the
      HSM does to Task A.  [Exchange]: [live], the exact system with the results of IPC
      calls, and the turns the two tasks take.
    - [Context]: kernel/src/trap_entry.s and the launch assembly of
      [start_first_task] as instruction lists with an interpreter, whole traps
      ([user_trap]), and the system call wrappers of telemetry/src/syscalls.rs and
      of kernel/src/main.rs on top of them.
    - [Typing]: a calculus showing that the integers of the state stay in the
      ranges of their Rust types.  [System]: the whole machine, the watchdog's
      direct accesses included, as a step relation.

    ** How the model corresponds to the code

    A function that touches the statics is a computation in [K]: a function from
    the record [Kernel] to a result and the next record.  Early returns are
    branches; [unwrap], slice indexing, [assert_eq!] and [panic!] are
    [Panicked]; a spinlock another hart owns gives [Spinning].  Names follow the
    source.  [Capability::None] is [CapNone], a raw pointer into a task control
    block is the block's index.  The two flags [lock_granted] and
    [permission_denied] of the mutex calls are one [verdict]; a nested
    [match] on two cores' tables is a function of the hart.  The two copies of
    the mutex recovery loop in trap.rs are the same code and one definition,
    [recovery].

    Choices that hold for the whole development:
    - integers are [Z] in the range of their type.  The flashed image is built
      with the release profile, so [+] wraps ([wrapping_add]); bounds checks,
      [unwrap] and asserts stay.  Pointer offsets are exact.
    - memory.x sets [_max_hart_id = 1]: there are two harts, [H0] and [H1].
    - memory is sequentially consistent.  A trap handler is one step of [Reach]:
      its critical section is under [SCHED_LOCK], whose mutual exclusion is proved
      in [Spinlock] under the condition stated there.
    - defmt messages to RTT are left out of the kernel state.  Telemetry events are
      kept in it as the list of logged events; the encoder is a parameter that follows
      postcard's format.  [Rtt] has the channels and their bytes.
    - the assembly is modelled for frames that do not wrap around the end of the
      address space; the trap handler is a C function to it, which preserves [sp],
      [gp] and [tp], returns in [a0] and may clobber every other register.
    - what the hart reads from [mtime], [mcycle] and [cycle], the link-time
      addresses of the stacks ([Layout]) and the sha2 crate's hash are
      parameters; the hypotheses on them are the records and predicates named in
      the statements, and each has a concrete instance in a witness.

    ** What the theorems show

    - Kernel safety ([Reach], [TrapInv], [Boot]): boot establishes the invariant;
      every trap, for every cause and register frame, that starts with the spinlocks
      free or held by its own hart returns without spinning, keeps the invariant and
      leaves the locks as they were, and panics only in the two ways the statement
      names.  Consequences for every reachable state: no lost mutex
      waiter, no missed rendezvous, no task but the current one Running on a
      hart, and the PMP programmed for that task, which leaves the kernel's own memory
      open to every task.
    - Refinement ([AbsSpec], [Refine]): the trap handler implements the abstract
      kernel; everything it does to task states and mutexes is a move the event
      allows.
    - The machine ([Typing], [System]): between whole watchdog iterations the
      invariant holds and the integers of the state are in the ranges of their types;
      the host decodes exactly the kernel's event trace from what the kernel wrote.
    - Boot ([Boot], [Handshake]): every interleaving of the two harts ends in the
      sequential boot's state and never deadlocks; after a failed verification no
      task is ever launched.
    - The demo system ([Compose]): until the watchdog terminates a task that hart 1
      is running, every trap of every task returns and critical sections exclude
      each other; a run in which it does ends in a kernel panic.
    - Authentication end to end ([Messages], [Protocol], [Authentic]): under the same
      condition the HSM is only asked for Task A's frame and never dies, and when Task
      A compares tags, both are right.  The hypotheses say where the compiler puts
      local buffers: apart from those of other tasks and from saved frames.
    - The exchange ([Exchange], [Stranded]): while the watchdog finds neither Task A nor
      the HSM at fault the two never deadlock, whatever the schedule: the HSM can run
      whenever Task A is blocked on a request or a reply.  A restart of the HSM while
      Task A waits for a reply leaves Task A blocked until it is terminated; a run shows
      that this happens.
    - Memory ([Footprint]): every byte a trap changes is the result or the program
      counter of its own frame, the frame of an emulated instruction, the result word of
      a task that waits for the event, or in a posted buffer.
    - Registers ([Context]): a task that traps is resumed with its registers, after any
      number of stores and traps of other tasks that keep off its frame; the first tasks start at their entry points in
      U-mode; a refused wrapper returns -1 and changes nothing but the caller's
      frame; the entry code writes where the task's stack pointer says, in M-mode.
    - The repository's own checks ([Tests]): its unit tests pass on the model, and
      its Kani harness holds for every value of its symbolic inputs.
    - Scheduling ([Bitmap], [Partition]): the next Ready partition in cyclic
      order runs, idle last; a slice is exact; no Ready partition but the idle one
      starves.
    - System calls ([SyscallSpec], [IpcSpec], [FaultSpec]): the state each call
      leaves, on every branch of its outcome: denial, success, blocking,
      hand-over to the best waiter, delivery of exactly the bytes that fit,
      wake-up at the right tick, containment and mutex recovery.
    - Memory protection ([Pmp]): the NAPOT encoding is exact, writable memory is
      never executable, the stacks behind entries 1 and 2 are isolated, and those
      behind entries 4 to 6 are not, because entry 3 shadows them.
    - Locks ([Spinlock]): reentrancy, mutual exclusion when traps are masked in
      the lock's own code, and a run that breaks it when they are not.
    - Data path ([Can], [Security]): parsing is exact and inverts the encoding,
      the ring buffer refines a bounded queue, tags are truncated RFC 2104 HMACs,
      secure boot accepts the trusted image and rejects altered ones.
    - Supervision ([Watchdog]): the overdue task checked last is terminated and
      recovered, the HSM and Task C are built anew, healthy tasks are left alone, and
      the nested environment call under the held lock is safe.  With traps between its
      accesses ([Preempt]) the kernel invariant holds, and the lock too, except in the
      two windows inside the lock routines, where a trap of hart 0 releases it.
    - Log channels ([Rtt], [Host]): however the harts interleave, whole records reach
      the trace file, and the broker decodes them if each of its reads gets all that is
      new; what the broker loses when the file
      is replaced, and what the dashboard's figures mean.

    ** Bounds

    One definition runs on fuel: [drain] of [Broker], whose fuel is the length of
    the byte stream, which [drain_terminates] shows to be enough.  The other loops of the source run over fixed ranges:
    the 32 slots of a table, the 32 bits of a waiter set, the 8 mutexes, the
    bytes of a slice; the model recurses over the same list of indices.  In
    [Spinlock] the nesting of traps on one hart is bounded by [MAX_NEST] = 1024,
    so that the 32-bit depth counter cannot wrap; the kernel's own nesting is 2.

    ** Not modelled

    The kernel's statics are fields of [Kernel], apart from the memory [ram] that tasks
    and the IPC copy write to.  The PMP does not keep tasks from the statics
    ([Reach.kernel_memory_exposed]), so the theorems on reachable states hold for tasks
    that do not write there.  [reachable] has no watchdog iterations; [System], [Preempt],
    [Compose] and what builds on it have them.  [init_timer] enables interrupts in
    M-mode before the first task is launched; an interrupt that comes in the boot code is
    not modelled, nor is one inside the M-mode lock routines, where they are masked.

    In [Compose] memory is arbitrary at every step, so a call may return and a load
    may read anything; [Protocol] follows the tasks' buffers, but the value a call
    returns stays arbitrary there as well.  [Exchange] takes the value an IPC call
    returns from the caller's frame at the end of the trap that writes it: that a task's
    frame stays as it is until the task resumes is [Context]'s theorem, not part of that
    system.  All of them take an iteration of the watchdog as one step
    ([Preempt] does not).  No theorem assumes a fair schedule, so that the exchange makes
    progress is shown only as far as the HSM being able to run.

    Left out because it only prints, loops or measures: the text of log messages, what
    the print macros expand to, the defmt encoder, the panic handler's messages, busy
    loops; the broker's sockets; the drawing of the dashboard; the timing benchmarks, the
    build script and the Renode scripts. *)
From Stdlib Require Export ZArith Lia.
From stdpp Require Export base decidable option list gmap strings numbers.

(** ** Machine integers

    The target is riscv32imac: [usize] and [u32] are 32 bits wide.  A value is
    a [Z] in range; the wrap-around of an operation is written where the source
    performs it.  The flashed image is built with the release profile, whose
    arithmetic operators wrap instead of panicking on overflow. *)

Open Scope Z_scope.

Definition u8 (z : Z) : Z := z mod 2 ^ 8.
Definition u16 (z : Z) : Z := z mod 2 ^ 16.
Definition u32 (z : Z) : Z := z mod 2 ^ 32.

Definition wrapping_add (a b : Z) : Z := u32 (a + b).
Definition wrapping_sub (a b : Z) : Z := u32 (a - b).

(** [-1isize as usize]: the error code system calls leave in [a0]. *)
Definition USIZE_MINUS_ONE : Z := 2 ^ 32 - 1.

(** ** Outcomes

    Trap handling either returns, panics (the panic handler parks the core in
    a [wfi] loop), or is still busy-waiting for a spinlock another hart owns. *)

Inductive panic :=
  | UnwrapNone
  | IndexOutOfBounds
  | AssertFailed
  | UnhandledException
  | UnsupportedPmpEntry.

Inductive result (A : Type) :=
  | Done (a : A)
  | Panicked (p : panic)
  | Spinning.
Arguments Done {A} a.
Arguments Panicked {A} p.
Arguments Spinning {A}.

#[export] Instance result_ret : MRet result := λ A, Done.
#[export] Instance result_bind : MBind result := λ A B f r,
  match r with
  | Done a => f a
  | Panicked p => Panicked p
  | Spinning => Spinning
  end.
#[export] Instance result_fmap : FMap result := λ A B f r,
  match r with
  | Done a => Done (f a)
  | Panicked p => Panicked p
  | Spinning => Spinning
  end.

#[export] Instance panic_eq_dec : EqDecision panic.
Proof. solve_decision. Defined.

(** [Option::unwrap] and slice indexing. *)
Definition unwrap {A} (o : option A) : result A :=
  match o with Some a => Done a | None => Panicked UnwrapNone end.

Definition index {A} (l : list A) (i : nat) : result A :=
  match l !! i with Some a => Done a | None => Panicked IndexOutOfBounds end.

(** A slot of an array of options: [None] also when the index is out of range. *)
Definition slot {A} (l : list (option A)) (i : nat) : option A := mjoin (l !! i).

(** A postcondition that also rules out panics and, on demand, spinning. *)
Definition returns {A} (r : result A) (Q : A → Prop) : Prop :=
  match r with Done a => Q a | Panicked _ => False | Spinning => False end.

(** Partial version: what holds if the computation returns. *)
Definition if_returns {A} (r : result A) (Q : A → Prop) : Prop :=
  match r with Done a => Q a | Panicked _ => True | Spinning => True end.

(** ** Lemmas on outcomes *)

Lemma returns_bind {A B} (r : result A) (f : A → result B) (Q : B → Prop) :
  returns r (λ a, returns (f a) Q) → returns (r ≫= f) Q.
Proof. by destruct r. Qed.

Lemma returns_mono {A} (r : result A) (P Q : A → Prop) :
  returns r P → (∀ a, P a → Q a) → returns r Q.
Proof. destruct r; simpl; auto. Qed.

Lemma returns_Done {A} (r : result A) (Q : A → Prop) :
  returns r Q → ∃ a, r = Done a ∧ Q a.
Proof. destruct r; simpl; naive_solver. Qed.

Lemma index_Some {A} (l : list A) i a : l !! i = Some a → index l i = Done a.
Proof. unfold index. by intros ->. Qed.

Lemma slot_Some {A} (l : list (option A)) i a :
  slot l i = Some a ↔ l !! i = Some (Some a).
Proof. unfold slot. destruct (l !! i) as [[?|]|]; simpl; naive_solver. Qed.

Lemma index_slot {A} (l : list (option A)) i a :
  slot l i = Some a → index l i = Done (Some a).
Proof. intros ?%slot_Some. by apply index_Some. Qed.

Lemma slot_insert {A} (l : list (option A)) i j o :
  (i < length l)%nat →
  slot (<[i:=o]> l) j = if decide (i = j) then o else slot l j.
Proof.
  intros Hi. unfold slot. case_decide; subst.
  - by rewrite list_lookup_insert_eq.
  - by rewrite list_lookup_insert_ne.
Qed.

Lemma slot_lt {A} (l : list (option A)) i a : slot l i = Some a → (i < length l)%nat.
Proof. intros ?%slot_Some. by eapply lookup_lt_Some. Qed.

Lemma u8_small z : 0 ≤ z < 256 → u8 z = z.
Proof. intros. unfold u8. by apply Z.mod_small. Qed.

(** Bits above and below position [s] do not overlap. *)
Lemma lor_low_high v b s : 0 ≤ s → 0 ≤ v < 2 ^ s → Z.lor v (b * 2 ^ s) = v + b * 2 ^ s.
Proof.
  intros Hs Hv. rewrite <- (Z.add_lor_land v (b * 2 ^ s)).
  assert (Hz : Z.land v (b * 2 ^ s) = 0); [|by rewrite Hz, Z.add_0_r].
  apply Z.bits_inj'. intros i Hi. rewrite Z.land_spec, Z.bits_0.
  destruct (decide (i < s)).
  - rewrite Z.mul_pow2_bits_low by done. apply andb_false_r.
  - destruct (decide (v = 0)) as [->|]; [by rewrite Z.testbit_0_l|].
    rewrite (Z.bits_above_log2 v i); [done|lia|].
    apply Z.log2_lt_pow2; [lia|]. apply Z.lt_le_trans with (2 ^ s); [lia|].
    apply Z.pow_le_mono_r; lia.
Qed.

Lemma u32_small z : 0 ≤ z < 2 ^ 32 → u32 z = z.
Proof. intros. unfold u32. by apply Z.mod_small. Qed.

Lemma u32_range z : 0 ≤ u32 z < 2 ^ 32.
Proof. unfold u32. by apply Z.mod_pos_bound. Qed.

Create HintDb cerberus.
#[export] Hint Resolve index_Some index_slot slot_lt : cerberus.

#[global] Arguments Nat.modulo : simpl never.
#[global] Arguments Nat.div : simpl never.
#[global] Arguments Z.pow : simpl never.
#[global] Arguments Z.modulo : simpl never.
#[global] Arguments Z.div : simpl never.
