(* ===== verification/Memory.v ===== *)
(** * Memory: the byte-addressed RAM that trap handling reads and writes

    Volatile word accesses through raw pointers ([read_volatile],
    [write_volatile]), the byte copy [core::ptr::copy_nonoverlapping] of the
    IPC path, and the 32-word register frame a trap saves on the task's stack
    (kernel/src/trap_entry.s, scheduler/src/tcb.rs).

    An address is a [Z]; [ptr.add(i)] is the exact offset, because Rust leaves
    an overflowing pointer offset undefined.  A byte that was never written
    reads as 0, so a state of the RAM is a finite map. *)
From S2P Require Import Prelude.

Abbreviation Mem := (gmap Z Z).

(** ** Operations *)

Definition load8 (m : Mem) (a : Z) : Z := default 0 (m !! a).
Definition store8 (m : Mem) (a v : Z) : Mem := <[a := u8 v]> m.

(** Little-endian 32-bit words. *)
Definition load32 (m : Mem) (a : Z) : Z :=
  load8 m a + load8 m (a + 1) * 2 ^ 8 + load8 m (a + 2) * 2 ^ 16 + load8 m (a + 3) * 2 ^ 24.

Definition store32 (m : Mem) (a v : Z) : Mem :=
  store8 (store8 (store8 (store8 m a v) (a + 1) (v / 2 ^ 8)) (a + 2) (v / 2 ^ 16))
         (a + 3) (v / 2 ^ 24).

(** [frame.add(i)] for [frame : *mut usize]. *)
Definition frame_read (m : Mem) (frame : Z) (i : nat) : Z := load32 m (frame + 4 * Z.of_nat i).
Definition frame_write (m : Mem) (frame : Z) (i : nat) (v : Z) : Mem :=
  store32 m (frame + 4 * Z.of_nat i) v.

Definition load_bytes (m : Mem) (a : Z) (n : nat) : list Z :=
  map (λ i, load8 m (a + Z.of_nat i)) (seq 0 n).

Fixpoint store_bytes (m : Mem) (a : Z) (bs : list Z) : Mem :=
  match bs with
  | [] => m
  | b :: bs => store_bytes (store8 m a b) (a + 1) bs
  end.

(** [core::ptr::copy_nonoverlapping(src, dst, n)]. *)
Definition copy_nonoverlapping (m : Mem) (src dst n : Z) : Mem :=
  store_bytes m dst (load_bytes m src (Z.to_nat n)).

(** Word indices of the saved frame used by the kernel. *)
Definition A0 : nat := 6.
Definition A1 : nat := 7.
Definition A2 : nat := 8.
Definition A7 : nat := 13.
Definition MEPC : nat := 28.
Definition MSTATUS : nat := 29.

(** ** Specification vocabulary *)

(** Every byte of the memory is a byte. *)
Definition mem_wf (m : Mem) : Prop := ∀ a b, m !! a = Some b → 0 ≤ b < 256.

(** The two memories agree outside [n] bytes from [a]. *)
Definition same_except (a n : Z) (m m' : Mem) : Prop :=
  ∀ x, ¬ (a ≤ x < a + n) → load8 m' x = load8 m x.

(** ** Lemmas *)

Lemma load8_store8 m a v x :
  load8 (store8 m a v) x = if decide (a = x) then u8 v else load8 m x.
Proof.
  unfold load8, store8. rewrite lookup_insert. by case_decide.
Qed.

Lemma load8_store8_eq m a v : load8 (store8 m a v) a = u8 v.
Proof. rewrite load8_store8. by rewrite decide_True. Qed.

Lemma load8_store8_ne m a v x : a ≠ x → load8 (store8 m a v) x = load8 m x.
Proof. intros. rewrite load8_store8. by rewrite decide_False. Qed.

Lemma load8_store32_out m a v x :
  ¬ (a ≤ x < a + 4) → load8 (store32 m a v) x = load8 m x.
Proof. intros. unfold store32. rewrite !load8_store8_ne by lia. done. Qed.

Lemma load32_store32_eq m a v : load32 (store32 m a v) a = u32 v.
Proof.
  unfold load32, store32.
  repeat first [rewrite load8_store8_eq | rewrite load8_store8_ne by lia].
  unfold u8, u32.
  pose proof (Z.div_mod v (2^8) ltac:(lia)).
  pose proof (Z.div_mod (v / 2^8) (2^8) ltac:(lia)).
  pose proof (Z.div_mod (v / 2^16) (2^8) ltac:(lia)).
  replace (v / 2 ^ 24) with (v / 2 ^ 16 / 2 ^ 8) by (rewrite Z.div_div by lia; done).
  replace (v / 2 ^ 16) with (v / 2 ^ 8 / 2 ^ 8) by (rewrite Z.div_div by lia; done).
  Z.div_mod_to_equations. lia.
Qed.

Lemma load32_ext m m' a :
  (∀ x, a ≤ x < a + 4 → load8 m' x = load8 m x) → load32 m' a = load32 m a.
Proof. intros H. unfold load32. by rewrite !H by lia. Qed.

Lemma load32_store32_ne m a b v :
  b + 4 ≤ a ∨ a + 4 ≤ b → load32 (store32 m b v) a = load32 m a.
Proof. intros. apply load32_ext. intros. apply load8_store32_out. lia. Qed.

Lemma frame_read_write_eq m f i v : frame_read (frame_write m f i v) f i = u32 v.
Proof. apply load32_store32_eq. Qed.

Lemma frame_read_write_ne m f i j v :
  i ≠ j → frame_read (frame_write m f i v) f j = frame_read m f j.
Proof. intros. apply load32_store32_ne. lia. Qed.

Lemma frame_read_write_disjoint m f g i j v :
  (i < 32)%nat → (j < 32)%nat → f + 128 ≤ g ∨ g + 128 ≤ f →
  frame_read (frame_write m f i v) g j = frame_read m g j.
Proof. intros. apply load32_store32_ne. lia. Qed.

Lemma load8_frame_write_out m f i v x :
  ¬ (f + 4 * Z.of_nat i ≤ x < f + 4 * Z.of_nat i + 4) →
  load8 (frame_write m f i v) x = load8 m x.
Proof. apply load8_store32_out. Qed.

Lemma load_bytes_length m a n : length (load_bytes m a n) = n.
Proof. unfold load_bytes. by rewrite length_map, length_seq. Qed.

Lemma load_bytes_S m a n : load_bytes m a (S n) = load8 m a :: load_bytes m (a + 1) n.
Proof.
  unfold load_bytes. simpl. f_equal.
  - f_equal. lia.
  - rewrite <- seq_shift, map_map. apply map_ext. intros. f_equal. lia.
Qed.

Lemma load_bytes_app m a n p :
  load_bytes m a (n + p) = load_bytes m a n ++ load_bytes m (a + Z.of_nat n) p.
Proof.
  revert a. induction n as [|n IH]; intros a; [cbn; by rewrite Z.add_0_r|].
  change (S n + p)%nat with (S (n + p)). rewrite !load_bytes_S, IH. cbn. do 3 f_equal. lia.
Qed.

Lemma load_bytes_ext m m' a n :
  (∀ x, a ≤ x < a + Z.of_nat n → load8 m' x = load8 m x) →
  load_bytes m' a n = load_bytes m a n.
Proof.
  intros H. unfold load_bytes. apply map_ext_in.
  intros i [_ Hi]%in_seq. apply H. lia.
Qed.

Lemma load_bytes_range m a n : mem_wf m → Forall (λ b, 0 ≤ b < 256) (load_bytes m a n).
Proof.
  intros Hm. apply List.Forall_forall. intros b (i & <- & _)%in_map_iff.
  unfold load8. destruct (m !! _) eqn:E; simpl; [by eapply Hm | lia].
Qed.

Lemma load8_store_bytes_out m a bs x :
  ¬ (a ≤ x < a + Z.of_nat (length bs)) → load8 (store_bytes m a bs) x = load8 m x.
Proof.
  revert m a. induction bs as [|b bs IH]; intros m a H; simpl in *; [done|].
  rewrite IH by lia. apply load8_store8_ne. lia.
Qed.

Lemma load_store_bytes m a bs :
  Forall (λ b, 0 ≤ b < 256) bs → load_bytes (store_bytes m a bs) a (length bs) = bs.
Proof.
  revert m a. induction bs as [|b bs IH]; intros m a H; [done|].
  apply Forall_cons_1 in H as [Hb Hbs]. simpl length. rewrite load_bytes_S. simpl.
  rewrite IH by done. f_equal.
  rewrite load8_store_bytes_out by lia. rewrite load8_store8_eq. by apply u8_small.
Qed.

Lemma copy_dst m src dst n :
  mem_wf m → load_bytes (copy_nonoverlapping m src dst n) dst (Z.to_nat n)
             = load_bytes m src (Z.to_nat n).
Proof.
  intros Hm. unfold copy_nonoverlapping.
  rewrite <- (load_bytes_length m src (Z.to_nat n)) at 2.
  apply load_store_bytes. by apply load_bytes_range.
Qed.

Lemma copy_out m src dst n :
  0 ≤ n → same_except dst n m (copy_nonoverlapping m src dst n).
Proof.
  intros Hn x Hx. unfold copy_nonoverlapping. apply load8_store_bytes_out.
  rewrite load_bytes_length. lia.
Qed.

Lemma store8_wf m a v : mem_wf m → mem_wf (store8 m a v).
Proof.
  intros Hm x b. unfold store8. rewrite lookup_insert. case_decide; [|apply Hm].
  intros [= <-]. unfold u8. by apply Z.mod_pos_bound.
Qed.

Lemma store32_wf m a v : mem_wf m → mem_wf (store32 m a v).
Proof. intros. unfold store32. by repeat apply store8_wf. Qed.

Lemma store_bytes_wf m a bs : mem_wf m → mem_wf (store_bytes m a bs).
Proof. revert m a. induction bs; simpl; auto using store8_wf. Qed.

Lemma mem_wf_empty : mem_wf ∅.
Proof. intros a b. by rewrite lookup_empty. Qed.

Lemma load8_range m a : mem_wf m → 0 ≤ load8 m a < 256.
Proof.
  intros Hm. unfold load8. destruct (m !! a) eqn:He; simpl; [by eapply Hm|lia].
Qed.

Lemma frame_read_range m f i : mem_wf m → 0 ≤ frame_read m f i < 2 ^ 32.
Proof.
  intros Hm. unfold frame_read, load32.
  pose proof (load8_range m (f + 4 * Z.of_nat i) Hm). pose proof (load8_range m (f + 4 * Z.of_nat i + 1) Hm).
  pose proof (load8_range m (f + 4 * Z.of_nat i + 2) Hm). pose proof (load8_range m (f + 4 * Z.of_nat i + 3) Hm).
  lia.
Qed.

#[export] Hint Resolve store8_wf store32_wf store_bytes_wf mem_wf_empty : cerberus.
