(* ===== verification/Tcb.v ===== *)
(** * Tcb: capabilities, task states and task control blocks

    Models scheduler/src/tcb.rs: the data types, and
    [TaskControlBlock::initialize_stack], which builds the first register frame
    of a task at the top of its stack. *)
From S2P Require Import Prelude Memory.

(** ** Data *)

Inductive Capability :=
  | CapNone
  | CapMutex (mutex_idx : Z) (can_lock can_unlock : bool)
  | CapIpc (endpoint_idx : Z) (can_send can_recv : bool).

Inductive TaskState :=
  | Ready
  | Running
  | Blocked (wake_tick : Z)
  | BlockedOnMutex (mutex_idx : Z)
  | BlockedOnIpcSend (endpoint_idx msg_addr msg_len : Z)
  | BlockedOnIpcRecv (endpoint_idx buf_addr max_len : Z)
  | Terminated.

#[export] Instance Capability_eq_dec : EqDecision Capability.
Proof. solve_decision. Defined.
#[export] Instance TaskState_eq_dec : EqDecision TaskState.
Proof. solve_decision. Defined.

Record TaskControlBlock := mkTcb {
  saved_sp : Z;
  priority : Z;
  active_priority : Z;
  state : TaskState;
  name : string;
  capabilities : list Capability
}.

Definition set_state (st : TaskState) (t : TaskControlBlock) : TaskControlBlock :=
  mkTcb (saved_sp t) (priority t) (active_priority t) st (name t) (capabilities t).
Definition set_saved_sp (sp : Z) (t : TaskControlBlock) : TaskControlBlock :=
  mkTcb sp (priority t) (active_priority t) (state t) (name t) (capabilities t).

(** Not blocked and not terminated. *)
Definition runnable (st : TaskState) : bool :=
  bool_decide (st = Running) || bool_decide (st = Ready).

(** ** [initialize_stack] *)

(** [stack_end & !0xF], the reservation of 32 words below it, and the writes:
    the frame cleared, then the entry point and the U-mode [mstatus]. *)
Definition FRAME_BYTES : Z := 32 * 4.

Definition initial_sp (stack_start len : Z) : Z :=
  u32 (Z.land (u32 (stack_start + len)) (Z.lxor (2 ^ 32 - 1) 15) - FRAME_BYTES).

Fixpoint clear_frame (m : Mem) (frame : Z) (n : nat) : Mem :=
  match n with
  | O => m
  | S n' => frame_write (clear_frame m frame n') frame n' 0
  end.

Definition initialize_stack (m : Mem) (stack_start len entry_fn : Z) : Z * Mem :=
  let aligned_sp := initial_sp stack_start len in
  let m := clear_frame m aligned_sp 32 in
  let m := frame_write m aligned_sp MEPC entry_fn in
  let m := frame_write m aligned_sp MSTATUS 128 in
  (aligned_sp, m).

(** ** Lemmas *)

Lemma runnable_spec st : runnable st = true ↔ st = Running ∨ st = Ready.
Proof. unfold runnable. rewrite orb_true_iff, !bool_decide_eq_true. done. Qed.

Lemma clear_frame_read m f n i :
  (i < n)%nat → frame_read (clear_frame m f n) f i = 0.
Proof.
  induction n as [|n IH]; [lia|]. intros Hi. simpl.
  destruct (decide (i = n)) as [->|Hne].
  - by rewrite frame_read_write_eq.
  - rewrite frame_read_write_ne by done. apply IH. lia.
Qed.

Lemma clear_frame_out m f n x :
  ¬ (f ≤ x < f + 4 * Z.of_nat n) → load8 (clear_frame m f n) x = load8 m x.
Proof.
  induction n as [|n IH]; intros Hx; simpl; [done|].
  rewrite load8_frame_write_out by lia. apply IH. lia.
Qed.

Lemma initial_sp_val s len :
  0 ≤ s → 144 ≤ len → s + len < 2 ^ 32 →
  initial_sp s len = (s + len) / 16 * 16 - 128.
Proof.
  intros Hs Hl Hb. unfold initial_sp, FRAME_BYTES.
  rewrite (u32_small (s + len)) by lia.
  assert (Hx : Z.land (s + len) (Z.lxor (2 ^ 32 - 1) 15) = (s + len) / 16 * 16).
  { change (Z.lxor (2 ^ 32 - 1) 15) with (Z.shiftl (Z.ones 28) 4).
    rewrite <- (Z.shiftl_mul_pow2 _ 4) by lia. rewrite <- (Z.shiftr_div_pow2 _ 4) by lia.
    apply Z.bits_inj'. intros n Hn.
    rewrite Z.land_spec, !Z.shiftl_spec by lia.
    destruct (decide (n < 4)).
    - rewrite (Z.testbit_neg_r _ (n - 4)) by lia.
      rewrite (Z.testbit_neg_r _ (n - 4)) by lia. by rewrite andb_false_r.
    - rewrite Z.shiftr_spec by lia. replace (n - 4 + 4) with n by lia.
      destruct (decide (n < 32)).
      + rewrite Z.ones_spec_low by lia. apply andb_true_r.
      + rewrite Z.ones_spec_high by lia. rewrite andb_false_r. symmetry.
        destruct (decide (s + len = 0)) as [->|]; [apply Z.testbit_0_l|].
        apply Z.bits_above_log2; [lia|]. apply Z.log2_lt_pow2; [lia|].
        apply Z.lt_le_trans with (2 ^ 32); [done|]. by apply Z.pow_le_mono_r; lia. }
  rewrite Hx. apply u32_small. Z.div_mod_to_equations. lia.
Qed.

(** The frame [initialize_stack] leaves at the returned stack pointer. *)
Lemma initialize_stack_frame m s len entry i :
  (i < 32)%nat →
  let '(sp, m') := initialize_stack m s len entry in
  frame_read m' sp i =
    if decide (i = MEPC) then u32 entry else if decide (i = MSTATUS) then 128 else 0.
Proof.
  intros Hi. unfold initialize_stack. set (sp := initial_sp s len).
  destruct (decide (i = MEPC)) as [->|H1].
  - rewrite frame_read_write_ne by done. apply frame_read_write_eq.
  - destruct (decide (i = MSTATUS)) as [->|H2].
    + by rewrite frame_read_write_eq.
    + rewrite !frame_read_write_ne by done. by apply clear_frame_read.
Qed.

Lemma initialize_stack_out m s len entry x :
  let '(sp, m') := initialize_stack m s len entry in
  ¬ (sp ≤ x < sp + 128) → load8 m' x = load8 m x.
Proof.
  unfold initialize_stack. set (sp := initial_sp s len). intros Hx.
  rewrite !load8_frame_write_out by (unfold MEPC, MSTATUS; lia).
  apply clear_frame_out. lia.
Qed.
