(* ===== verification/Bitmap.v ===== *)
(** * Bitmap: the ARINC-653 style partition scheduler

    Models scheduler/src/bitmap.rs: [BitMapScheduler], [new], [register_task]
    and [schedule], with the two scheduling passes, the fall-back branches and
    the early returns of [?].  A raw pointer to a task's [saved_sp] field is the
    index of the partition that owns the field. *)
From S2P Require Import Prelude Memory Tcb.

Definition MAX_PARTITIONS : nat := 32.

Record BitMapScheduler := mkSched {
  task_table : list (option TaskControlBlock);
  current_partition_idx : nat;
  partition_durations : list Z;
  remaining_mif_ticks : Z
}.

(** ** Operations *)

Definition new : BitMapScheduler :=
  mkSched (replicate MAX_PARTITIONS None) 0 (replicate MAX_PARTITIONS 100) 100.

(** The [Default] of the scheduler. *)
Definition BitMapScheduler_default : Inhabited BitMapScheduler := populate new.
#[export] Existing Instance BitMapScheduler_default.

Definition set_active_priority (t : TaskControlBlock) : TaskControlBlock :=
  mkTcb (saved_sp t) (priority t) (priority t) (state t) (name t) (capabilities t).

Definition set_table (tbl : list (option TaskControlBlock)) (s : BitMapScheduler) :=
  mkSched tbl (current_partition_idx s) (partition_durations s) (remaining_mif_ticks s).
Definition set_remaining (r : Z) (s : BitMapScheduler) :=
  mkSched (task_table s) (current_partition_idx s) (partition_durations s) r.

Definition register_task (s : BitMapScheduler) (tcb : TaskControlBlock) : result BitMapScheduler :=
  let idx := Z.to_nat (priority tcb) in
  if bool_decide (idx < MAX_PARTITIONS)%nat
  then Done (set_table (<[idx := Some (set_active_priority tcb)]> (task_table s)) s)
  else Panicked AssertFailed.

Definition slot_ready (tbl : list (option TaskControlBlock)) (i : nat) : bool :=
  match slot tbl i with Some t => bool_decide (state t = Ready) | None => false end.

Definition slot_runnable (tbl : list (option TaskControlBlock)) (i : nat) : bool :=
  match slot tbl i with Some t => runnable (state t) | None => false end.

(** Pass 1: [for _ in 0..MAX_PARTITIONS] from the partition after the current
    one, skipping the idle partition 31. *)
Fixpoint scan_ready (tbl : list (option TaskControlBlock)) (n next_idx : nat) : option nat :=
  match n with
  | O => None
  | S n =>
      if negb (Nat.eqb next_idx 31) && slot_ready tbl next_idx then Some next_idx
      else scan_ready tbl n ((next_idx + 1) mod MAX_PARTITIONS)%nat
  end.

(** Pass 1, then pass 2: the idle partition if it is ready. *)
Definition select (tbl : list (option TaskControlBlock)) (current_idx : nat) : option nat :=
  match scan_ready tbl MAX_PARTITIONS ((current_idx + 1) mod MAX_PARTITIONS)%nat with
  | Some next_idx => Some next_idx
  | None => if slot_ready tbl 31 then Some 31%nat else None
  end.

(** The TCB transitions of a partition swap. *)
Definition demote (t : TaskControlBlock) : TaskControlBlock :=
  if bool_decide (state t = Running) then set_state Ready t else t.
Definition swap_states (tbl : list (option TaskControlBlock)) (old new : nat) :=
  alter (fmap (set_state Running)) new (alter (fmap demote) old tbl).

Definition schedule (s : BitMapScheduler) (is_tick : bool)
    : result (option (nat * Z) * BitMapScheduler) :=
  let current_idx := current_partition_idx s in
  let remaining :=
    if is_tick && (0 <? remaining_mif_ticks s) then remaining_mif_ticks s - 1
    else remaining_mif_ticks s in
  if negb (bool_decide (current_idx < MAX_PARTITIONS)%nat) then Panicked IndexOutOfBounds else
  let current_runnable := slot_runnable (task_table s) current_idx in
  if (remaining =? 0) || negb is_tick || negb current_runnable then
    match select (task_table s) current_idx with
    | None =>
        if current_runnable && (remaining =? 0) then
          d ← index (partition_durations s) current_idx;
          Done (None, set_remaining d s)
        else Done (None, set_remaining remaining s)
    | Some next_idx =>
        d ← index (partition_durations s) next_idx;
        let tbl := swap_states (task_table s) current_idx next_idx in
        let s' := mkSched tbl next_idx (partition_durations s) d in
        match slot tbl current_idx, slot tbl next_idx with
        | Some _, Some t => Done (Some (current_idx, saved_sp t), s')
        | _, _ => Done (None, s')
        end
    end
  else Done (None, set_remaining remaining s).

(** ** Specification vocabulary *)

(** What the array types and the trap handler's use of the scheduler rely on:
    the current index points at a registered slot. *)
Record sched_shape (s : BitMapScheduler) : Prop := {
  wf_table : length (task_table s) = MAX_PARTITIONS;
  wf_durations : length (partition_durations s) = MAX_PARTITIONS;
  wf_current : (current_partition_idx s < MAX_PARTITIONS)%nat;
  wf_registered : is_Some (slot (task_table s) (current_partition_idx s))
}.

Record sched_wf (s : BitMapScheduler) : Prop := {
  wf_shape : sched_shape s;
  wf_priority : ∀ i t, slot (task_table s) i = Some t →
    priority t = Z.of_nat i ∧ active_priority t = Z.of_nat i;
  wf_running : ∀ i t, slot (task_table s) i = Some t → state t = Running →
    i = current_partition_idx s
}.

(** Partitions pass 1 may choose. *)
Definition eligible (tbl : list (option TaskControlBlock)) (i : nat) : Prop :=
  i ≠ 31%nat ∧ slot_ready tbl i = true.

(** How many partitions the cyclic scan visits before it reaches [j]. *)
Definition cyc_dist (cur j : nat) : nat := ((j + 31 - cur) mod 32)%nat.

(** The fields of a task that only registration writes. *)
Definition static_tcb (t : TaskControlBlock) := (priority t, active_priority t, name t, capabilities t).
Definition static_eq (tbl tbl' : list (option TaskControlBlock)) : Prop :=
  ∀ i, static_tcb <$> slot tbl' i = static_tcb <$> slot tbl i.

(** The reschedule trigger of [schedule], after the tick was charged. *)
Definition charged (s : BitMapScheduler) (is_tick : bool) : Z :=
  if is_tick && (0 <? remaining_mif_ticks s) then remaining_mif_ticks s - 1
  else remaining_mif_ticks s.
Definition triggered (s : BitMapScheduler) (is_tick : bool) : bool :=
  (charged s is_tick =? 0) || negb is_tick
  || negb (slot_runnable (task_table s) (current_partition_idx s)).

(** ** Lemmas on the table *)

Lemma slot_alter (tbl : list (option TaskControlBlock)) f i j :
  slot (alter (fmap f) i tbl) j = if decide (i = j) then f <$> slot tbl j else slot tbl j.
Proof.
  unfold slot. case_decide; subst.
  - rewrite list_lookup_alter_eq. by destruct (tbl !! j) as [[]|].
  - by rewrite list_lookup_alter_ne.
Qed.

Lemma slot_swap tbl old new j :
  slot (swap_states tbl old new) j =
    if decide (new = j) then
      set_state Running <$> slot tbl j
    else if decide (old = j) then demote <$> slot tbl j else slot tbl j.
Proof.
  unfold swap_states. rewrite !slot_alter. repeat case_decide; subst; try done.
  destruct (slot tbl j) as [t|]; [|done]. simpl. f_equal.
  unfold demote. by case_bool_decide.
Qed.

Lemma length_swap tbl old new : length (swap_states tbl old new) = length tbl.
Proof. unfold swap_states. by rewrite !length_alter. Qed.

Lemma static_demote t : static_tcb (demote t) = static_tcb t.
Proof. unfold demote. by case_bool_decide. Qed.

Lemma static_swap tbl old new : static_eq tbl (swap_states tbl old new).
Proof.
  intros j. rewrite slot_swap. repeat case_decide; destruct (slot tbl j); simpl; try done.
  by rewrite static_demote.
Qed.

#[export] Instance static_eq_equiv : Equivalence static_eq.
Proof.
  split.
  - by intros x i.
  - intros x y H i. by rewrite (H i).
  - intros x y z H1 H2 i. by rewrite (H2 i), (H1 i).
Qed.

Lemma static_slot tbl tbl' i t' :
  static_eq tbl tbl' → slot tbl' i = Some t' →
  ∃ t, slot tbl i = Some t ∧ static_tcb t' = static_tcb t.
Proof.
  intros Hs Hi. specialize (Hs i). rewrite Hi in Hs.
  destruct (slot tbl i) as [t|]; [|done]. exists t. split; [done|]. by apply (inj Some) in Hs.
Qed.

Lemma static_is_Some tbl tbl' i :
  static_eq tbl tbl' → is_Some (slot tbl i) ↔ is_Some (slot tbl' i).
Proof.
  intros Hs. specialize (Hs i).
  destruct (slot tbl i), (slot tbl' i); try done; split; intros; eauto.
Qed.

Lemma slot_ready_iff tbl i :
  slot_ready tbl i = true ↔ ∃ t, slot tbl i = Some t ∧ state t = Ready.
Proof.
  unfold slot_ready. destruct (slot tbl i); [|naive_solver].
  rewrite bool_decide_eq_true. naive_solver.
Qed.

Lemma slot_runnable_iff tbl i :
  slot_runnable tbl i = true ↔
  ∃ t, slot tbl i = Some t ∧ (state t = Running ∨ state t = Ready).
Proof.
  unfold slot_runnable. destruct (slot tbl i); [|naive_solver].
  rewrite runnable_spec. naive_solver.
Qed.

(** ** Lemmas on the scan *)

Lemma scan_ready_Some tbl n i j :
  (i < 32)%nat → scan_ready tbl n i = Some j →
  ∃ k, (k < n)%nat ∧ j = ((i + k) mod 32)%nat ∧ eligible tbl j ∧
       ∀ k', (k' < k)%nat → ¬ eligible tbl ((i + k') mod 32)%nat.
Proof.
  revert i. induction n as [|n IH]; intros i Hi; simpl; [done|].
  destruct (negb (Nat.eqb i 31) && slot_ready tbl i) eqn:E.
  - intros [= <-]. exists 0%nat. rewrite Nat.add_0_r, Nat.mod_small by lia.
    apply andb_true_iff in E as [E1%negb_true_iff%Nat.eqb_neq E2].
    split_and!; [lia|done|by split|lia].
  - intros Hs. apply IH in Hs as (k & Hk & -> & He & Hmin); [|by apply Nat.mod_upper_bound].
    exists (S k). unfold MAX_PARTITIONS in *.
    assert (Hadd : ∀ k, (((i + 1) mod 32 + k) mod 32 = (i + S k) mod 32)%nat).
    { intros k0. rewrite Nat.Div0.add_mod_idemp_l. f_equal. lia. }
    rewrite Hadd in *. split_and!; [lia|done|done|].
    intros [|k'] Hk'.
    + rewrite Nat.add_0_r, Nat.mod_small by lia. intros [H1 H2].
      apply Nat.eqb_neq in H1. by rewrite H1, H2 in E.
    + rewrite <- Hadd. apply Hmin. lia.
Qed.

Lemma scan_ready_None tbl n i :
  (i < 32)%nat → scan_ready tbl n i = None →
  ∀ k, (k < n)%nat → ¬ eligible tbl ((i + k) mod 32)%nat.
Proof.
  revert i. induction n as [|n IH]; intros i Hi; simpl; [lia|].
  destruct (negb (Nat.eqb i 31) && slot_ready tbl i) eqn:E; [done|].
  intros Hs [|k] Hk.
  - rewrite Nat.add_0_r, Nat.mod_small by lia. intros [H1 H2].
    apply Nat.eqb_neq in H1. by rewrite H1, H2 in E.
  - unfold MAX_PARTITIONS in *.
    replace ((i + S k) mod 32)%nat with (((i + 1) mod 32 + k) mod 32)%nat.
    2: { rewrite Nat.Div0.add_mod_idemp_l. f_equal. lia. }
    apply IH; [by apply Nat.mod_upper_bound|done|lia].
Qed.

Lemma cyc_dist_lt cur j : (cyc_dist cur j < 32)%nat.
Proof. by apply Nat.mod_upper_bound. Qed.

Lemma cyc_dist_spec cur j :
  (cur < 32)%nat → (j < 32)%nat → (((cur + 1) mod 32 + cyc_dist cur j) mod 32)%nat = j.
Proof.
  intros Hc Hj. unfold cyc_dist.
  rewrite Nat.Div0.add_mod_idemp_l, Nat.Div0.add_mod_idemp_r.
  replace (cur + 1 + (j + 31 - cur))%nat with (j + 1 * 32)%nat by lia.
  rewrite Nat.Div0.mod_add. by apply Nat.mod_small.
Qed.

Lemma cyc_dist_of cur k :
  (cur < 32)%nat → (k < 32)%nat → cyc_dist cur (((cur + 1) mod 32 + k) mod 32) = k.
Proof.
  intros Hc Hk. unfold cyc_dist.
  destruct (decide (cur = 31%nat)) as [->|].
  - change ((31 + 1) mod 32)%nat with 0%nat. simpl.
    rewrite (Nat.mod_small k) by lia. replace (k + 31 - 31)%nat with k by lia.
    by apply Nat.mod_small.
  - rewrite (Nat.mod_small (cur + 1)) by lia.
    destruct (decide (cur + 1 + k < 32)%nat).
    + rewrite (Nat.mod_small (cur + 1 + k)) by lia.
      replace (cur + 1 + k + 31 - cur)%nat with (k + 1 * 32)%nat by lia.
      rewrite Nat.Div0.mod_add. by apply Nat.mod_small.
    + replace (cur + 1 + k)%nat with (cur + 1 + k - 32 + 1 * 32)%nat by lia.
      rewrite Nat.Div0.mod_add. rewrite (Nat.mod_small (_ - 32)) by lia.
      replace (cur + 1 + k - 32 + 31 - cur)%nat with k by lia. by apply Nat.mod_small.
Qed.

(** ** What [select] chooses *)

Lemma select_Some tbl cur j :
  (cur < 32)%nat → select tbl cur = Some j →
  (j < 32)%nat ∧ slot_ready tbl j = true ∧
  (j ≠ 31%nat → ∀ i, (i < 32)%nat → eligible tbl i → (cyc_dist cur j ≤ cyc_dist cur i)%nat) ∧
  (j = 31%nat → ∀ i, (i < 32)%nat → ¬ eligible tbl i).
Proof.
  intros Hc. unfold select.
  assert (Hn : ((cur + 1) mod MAX_PARTITIONS < 32)%nat) by by apply Nat.mod_upper_bound.
  destruct (scan_ready _ _ _) as [i|] eqn:E.
  - intros [= <-]. apply scan_ready_Some in E as (k & Hk & -> & [Hne Hr] & Hmin); [|done].
    split_and!; [by apply Nat.mod_upper_bound|done| |done].
    intros _ i Hi He. unfold MAX_PARTITIONS in *. rewrite cyc_dist_of by lia.
    destruct (decide (k ≤ cyc_dist cur i)%nat); [done|].
    exfalso. apply (Hmin (cyc_dist cur i)); [lia|]. by rewrite cyc_dist_spec.
  - destruct (slot_ready tbl 31) eqn:E31; [|done]. intros [= <-].
    split_and!; [lia|done|done|]. intros _ i Hi He.
    apply (scan_ready_None _ _ _ Hn E (cyc_dist cur i)); [apply cyc_dist_lt|].
    unfold MAX_PARTITIONS. by rewrite cyc_dist_spec.
Qed.

Lemma select_None tbl cur :
  (cur < 32)%nat → select tbl cur = None → ∀ i, (i < 32)%nat → slot_ready tbl i = false.
Proof.
  intros Hc. unfold select.
  assert (Hn : ((cur + 1) mod MAX_PARTITIONS < 32)%nat) by by apply Nat.mod_upper_bound.
  destruct (scan_ready _ _ _) as [i|] eqn:E; [done|].
  destruct (slot_ready tbl 31) eqn:E31; [done|]. intros _ i Hi.
  destruct (decide (i = 31%nat)) as [->|Hne]; [done|].
  destruct (slot_ready tbl i) eqn:Er; [|done]. exfalso.
  apply (scan_ready_None _ _ _ Hn E (cyc_dist cur i)); [apply cyc_dist_lt|].
  unfold MAX_PARTITIONS. rewrite cyc_dist_spec by done. by split.
Qed.

Lemma select_ready_exists tbl cur i :
  (cur < 32)%nat → (i < 32)%nat → slot_ready tbl i = true → ∃ j, select tbl cur = Some j.
Proof.
  intros Hc Hi Hr. destruct (select tbl cur) eqn:E; [by eexists|].
  by rewrite (select_None _ _ Hc E) in Hr.
Qed.

(** ** The branches of [schedule] *)

Definition dispatch (s : BitMapScheduler) (j : nat) (d : Z) : BitMapScheduler :=
  mkSched (swap_states (task_table s) (current_partition_idx s) j) j (partition_durations s) d.

Lemma schedule_stay s b :
  sched_shape s → triggered s b = false → schedule s b = Done (None, set_remaining (charged s b) s).
Proof.
  intros Hwf Ht. unfold schedule. rewrite bool_decide_true by apply Hwf.
  unfold triggered, charged in *. cbn [negb]. by rewrite Ht.
Qed.

Lemma schedule_none s b :
  sched_shape s → triggered s b = true →
  select (task_table s) (current_partition_idx s) = None →
  ∃ r, schedule s b = Done (None, set_remaining r s).
Proof.
  intros Hwf Ht Hs. unfold schedule. rewrite bool_decide_true by apply Hwf.
  unfold triggered, charged in *. cbn [negb]. rewrite Ht, Hs. cbv beta iota zeta.
  match goal with |- ∃ r, (if ?c then _ else _) = _ => destruct c end; [|by eexists].
  destruct (lookup_lt_is_Some_2 (partition_durations s) (current_partition_idx s)) as [d Hd].
  { rewrite (wf_durations _ Hwf). apply Hwf. }
  rewrite (index_Some _ _ _ Hd). by eexists.
Qed.

Lemma schedule_switch s b j :
  sched_shape s → triggered s b = true →
  select (task_table s) (current_partition_idx s) = Some j →
  ∃ t d, slot (task_table s) j = Some t ∧ partition_durations s !! j = Some d ∧
    schedule s b = Done (Some (current_partition_idx s, saved_sp t), dispatch s j d).
Proof.
  intros Hwf Ht Hs. pose proof (wf_current _ Hwf) as Hc.
  destruct (select_Some _ _ _ Hc Hs) as (Hj & Hr & _).
  apply slot_ready_iff in Hr as (t & Htj & _).
  destruct (lookup_lt_is_Some_2 (partition_durations s) j) as [d Hd].
  { by rewrite (wf_durations _ Hwf). }
  exists t, d. split_and!; [done..|].
  unfold schedule. rewrite bool_decide_true by done.
  unfold triggered, charged in *. cbn [negb]. rewrite Ht, Hs.
  rewrite (index_Some _ _ _ Hd). cbn [mbind result_bind].
  rewrite !slot_swap. rewrite (decide_True (P := j = j)) by done. rewrite Htj.
  destruct (wf_registered _ Hwf) as [t0 Ht0]. rewrite Ht0.
  repeat case_decide; done.
Qed.

(** The three outcomes, as one case analysis. *)
Lemma schedule_cases s b :
  sched_shape s →
  (∃ r, schedule s b = Done (None, set_remaining r s) ∧
     (triggered s b = false ∧ r = charged s b ∨
      triggered s b = true ∧ select (task_table s) (current_partition_idx s) = None)) ∨
  (∃ j t d, triggered s b = true ∧
     select (task_table s) (current_partition_idx s) = Some j ∧
     slot (task_table s) j = Some t ∧ state t = Ready ∧ (j < 32)%nat ∧
     partition_durations s !! j = Some d ∧
     schedule s b = Done (Some (current_partition_idx s, saved_sp t), dispatch s j d)).
Proof.
  intros Hwf. destruct (triggered s b) eqn:Ht.
  - destruct (select (task_table s) (current_partition_idx s)) as [j|] eqn:Hs.
    + right. destruct (schedule_switch _ _ _ Hwf Ht Hs) as (t & d & Hj & Hd & He).
      destruct (select_Some _ _ _ (wf_current _ Hwf) Hs) as (Hlt & Hr & _).
      apply slot_ready_iff in Hr as (t' & Ht' & Hst).
      exists j, t, d. split_and!; try done. by simplify_eq.
    + left. destruct (schedule_none _ _ Hwf Ht Hs) as [r Hr]. eauto 10.
  - left. eexists. split; [by apply schedule_stay|]. by left.
Qed.

Lemma static_wf_priority tbl tbl' :
  static_eq tbl tbl' →
  (∀ i t, slot tbl i = Some t → priority t = Z.of_nat i ∧ active_priority t = Z.of_nat i) →
  ∀ i t, slot tbl' i = Some t → priority t = Z.of_nat i ∧ active_priority t = Z.of_nat i.
Proof.
  intros Hs Hp i t' Ht'. destruct (static_slot _ _ _ _ Hs Ht') as (t & Ht & He).
  apply Hp in Ht. unfold static_tcb in He. destruct Ht. split; congruence.
Qed.

Lemma dispatch_shape s j t d :
  sched_shape s → slot (task_table s) j = Some t → (j < 32)%nat → sched_shape (dispatch s j d).
Proof.
  intros Hwf Hj Hlt. split; simpl.
  - rewrite length_swap. apply Hwf.
  - apply Hwf.
  - done.
  - apply (static_is_Some (task_table s)); [apply static_swap|by eexists].
Qed.

Lemma dispatch_wf s j t d :
  sched_wf s → slot (task_table s) j = Some t → (j < 32)%nat → sched_wf (dispatch s j d).
Proof.
  intros Hwf Hj Hlt. split; simpl.
  - by eapply dispatch_shape; [apply Hwf|..].
  - eapply static_wf_priority; [apply static_swap|apply Hwf].
  - intros i t' Hi Hr. rewrite slot_swap in Hi. case_decide; [done|]. case_decide.
    + destruct (slot (task_table s) i) as [t0|]; [|done]. simplify_eq/=.
      unfold demote in Hr. by case_bool_decide.
    + by pose proof (wf_running _ Hwf _ _ Hi Hr).
Qed.

Lemma set_remaining_wf s r : sched_wf s → sched_wf (set_remaining r s).
Proof. intros [[] ? ?]. constructor; [by constructor|done|done]. Qed.

Lemma schedule_wf s b :
  sched_wf s →
  returns (schedule s b) (λ '(_, s'),
    sched_wf s' ∧ static_eq (task_table s) (task_table s')).
Proof.
  intros Hwf.
  destruct (schedule_cases s b (wf_shape _ Hwf)) as [(r & -> & _)|(j & t & d & _ & _ & Hj & _ & Hlt & _ & ->)];
    simpl.
  - split; [by apply set_remaining_wf|reflexivity].
  - split; [by eapply dispatch_wf|apply static_swap].
Qed.

#[export] Hint Resolve dispatch_wf set_remaining_wf static_swap schedule_wf : cerberus.

(** ** Deciding well-formedness of a concrete scheduler *)

Definition slot_wfb (s : BitMapScheduler) (i : nat) : bool :=
  match slot (task_table s) i with
  | None => true
  | Some t =>
      (priority t =? Z.of_nat i) && (active_priority t =? Z.of_nat i) &&
      (negb (bool_decide (state t = Running)) || Nat.eqb i (current_partition_idx s))
  end.

Definition sched_wfb (s : BitMapScheduler) : bool :=
  Nat.eqb (length (task_table s)) 32 && Nat.eqb (length (partition_durations s)) 32 &&
  bool_decide (current_partition_idx s < 32)%nat &&
  bool_decide (is_Some (slot (task_table s) (current_partition_idx s))) &&
  forallb (slot_wfb s) (seq 0 32).

Lemma sched_wfb_sound s : sched_wfb s = true → sched_wf s.
Proof.
  unfold sched_wfb. rewrite !andb_true_iff, !Nat.eqb_eq, !bool_decide_eq_true.
  intros ((((H1 & H2) & H3) & H4) & H5).
  assert (Hs : ∀ i t, slot (task_table s) i = Some t → slot_wfb s i = true).
  { intros i t Hi. rewrite forallb_forall in H5. apply H5, in_seq.
    apply slot_lt in Hi. lia. }
  split; [by split|..]; intros i t Hi; specialize (Hs _ _ Hi); unfold slot_wfb in Hs;
    rewrite Hi, !andb_true_iff, !Z.eqb_eq, orb_true_iff, negb_true_iff, Nat.eqb_eq,
      bool_decide_eq_false in Hs; naive_solver.
Qed.

(** A three-task scheduler for the witnesses. *)
Definition test_tcb (prio : nat) (st : TaskState) : TaskControlBlock :=
  mkTcb (4096 + 256 * Z.of_nat prio) (Z.of_nat prio) (Z.of_nat prio) st "test" (replicate 8 CapNone).

Definition test_sched (remaining : Z) (st0 st1 st31 : TaskState) : BitMapScheduler :=
  mkSched (<[0%nat := Some (test_tcb 0 st0)]> (<[1%nat := Some (test_tcb 1 st1)]>
          (<[31%nat := Some (test_tcb 31 st31)]> (task_table new))))
          0 (partition_durations new) remaining.

(** ** Properties of the scheduler *)

(** C15. Cyclic selection.  Whenever a reschedule is triggered and some
    partition is Ready, [schedule] performs a swap to the Ready partition that
    comes first in cyclic order after the current one, the idle partition 31
    being chosen only when no other partition is Ready.  The swap hands the old
    partition's [saved_sp] slot and the new stack pointer to the caller, makes
    the chosen task Running, turns the old task from Running to Ready, touches
    no other task and grants the new partition its full slice. *)
Theorem schedule_next_partition s b i :
  sched_wf s → triggered s b = true → (i < 32)%nat → slot_ready (task_table s) i = true →
  let cur := current_partition_idx s in
  ∃ j t d s', schedule s b = Done (Some (cur, saved_sp t), s') ∧
    slot (task_table s) j = Some t ∧ state t = Ready ∧
    current_partition_idx s' = j ∧
    partition_durations s !! j = Some d ∧ remaining_mif_ticks s' = d ∧
    slot (task_table s') j = Some (set_state Running t) ∧
    (j ≠ cur → slot (task_table s') cur = demote <$> slot (task_table s) cur) ∧
    (∀ k, k ≠ j → k ≠ cur → slot (task_table s') k = slot (task_table s) k) ∧
    (j ≠ 31%nat → ∀ k, (k < 32)%nat → eligible (task_table s) k →
       (cyc_dist cur j ≤ cyc_dist cur k)%nat) ∧
    (j = 31%nat → ∀ k, (k < 32)%nat → ¬ eligible (task_table s) k).
Proof.
  intros Hwf Ht Hi Hr cur. pose proof (wf_shape _ Hwf) as Hsh.
  destruct (select_ready_exists _ _ _ (wf_current _ Hsh) Hi Hr) as [j Hj].
  destruct (schedule_switch _ _ _ Hsh Ht Hj) as (t & d & Hsl & Hd & He).
  destruct (select_Some _ _ _ (wf_current _ Hsh) Hj) as (_ & Hrj & Hmin & Hidle).
  apply slot_ready_iff in Hrj as (t' & Ht' & Hst). simplify_eq.
  exists j, t, d, (dispatch s j d). split_and!; try done; simpl; intros; rewrite slot_swap.
  - rewrite decide_True by done. by rewrite Hsl.
  - rewrite decide_False by done. by rewrite decide_True.
  - rewrite !decide_False by done. done.
Qed.

Lemma schedule_next_partition_witness :
  ∃ j t d s', schedule (test_sched 1 Running Ready Ready) true = Done (Some (0%nat, saved_sp t), s') ∧
    current_partition_idx s' = j ∧ remaining_mif_ticks s' = d ∧ d = 100 ∧ j = 1%nat.
Proof.
  destruct (schedule_next_partition (test_sched 1 Running Ready Ready) true 1)
    as (j & t & d & s' & He & _ & _ & Hj & _ & Hd & _).
  - apply sched_wfb_sound. reflexivity.
  - reflexivity.
  - lia.
  - reflexivity.
  - exists j, t, d, s'. split_and!; [exact He|exact Hj|exact Hd|..].
    all: vm_compute in He; injection He as _ Hs; subst s'; simpl in *; congruence.
Defined.

(** The two invariants of the repository's Kani harness, for every table,
    current partition and budget: after a swap the partition the scheduler
    points at is Running, and when no swap happens although some task was Ready
    (or the current one Running), the current task is still runnable. *)
Lemma schedule_kani_invariants s b :
  sched_shape s →
  returns (schedule s b) (λ '(r, s'),
    match r with
    | Some _ => ∃ t, slot (task_table s') (current_partition_idx s') = Some t ∧ state t = Running
    | None =>
        (∃ i t, slot (task_table s) i = Some t ∧
           (state t = Ready ∨ i = current_partition_idx s ∧ state t = Running)) →
        slot_runnable (task_table s') (current_partition_idx s) = true
    end).
Proof.
  intros Hsh.
  destruct (schedule_cases s b Hsh) as [(r & -> & Hc)|(j & t & d & _ & _ & Hj & _ & _ & _ & ->)];
    simpl.
  - intros (i & t & Hi & Hst). destruct Hc as [[Ht _]|[_ Hn]].
    + unfold triggered in Ht. apply orb_false_iff in Ht as [_ Ht].
      by apply negb_false_iff in Ht.
    + destruct Hst as [Hst|[-> Hst]]; [|apply slot_runnable_iff; eauto].
      assert (slot_ready (task_table s) i = false) as Hf.
      { apply (select_None _ _ (wf_current _ Hsh) Hn).
        pose proof (slot_lt _ _ _ Hi) as Hlt. by rewrite (wf_table _ Hsh) in Hlt. }
      assert (slot_ready (task_table s) i = true) as Ht by (apply slot_ready_iff; eauto).
      congruence.
  - exists (set_state Running t). split; [|done].
    rewrite slot_swap, decide_True by done. by rewrite Hj.
Qed.
