(* ===== verification/Partition.v ===== *)
(** * Partition: temporal isolation of the partition scheduler

    The scheduler of one core under an arbitrary environment: timer ticks and
    forced reschedules call [schedule]; in between, tasks other than the
    observed one may block, wake up or terminate in any way.  The theorems bound
    how long a partition keeps the core and how long a Ready partition can be
    kept waiting (docs/adr/014: "starvation is impossible"). *)
From S2P Require Import Prelude Memory Tcb Bitmap.

(** ** The environment of one core's scheduler *)

Inductive sched_event :=
  | EvTick                          (* timer interrupt: [schedule(true)] *)
  | EvYield                         (* yield, block, fault: [schedule(false)] *)
  | EvState (i : nat) (st : TaskState).  (* some task changes state *)

Definition set_slot_state (i : nat) (st : TaskState) (s : BitMapScheduler) : BitMapScheduler :=
  set_table (alter (fmap (set_state st)) i (task_table s)) s.

Definition sched_step (s : BitMapScheduler) (e : sched_event) : result BitMapScheduler :=
  match e with
  | EvTick => snd <$> schedule s true
  | EvYield => snd <$> schedule s false
  | EvState i st => Done (set_slot_state i st s)
  end.

Fixpoint sched_run (s : BitMapScheduler) (es : list sched_event) : result BitMapScheduler :=
  match es with
  | [] => Done s
  | e :: es => s' ← sched_step s e; sched_run s' es
  end.

Fixpoint count_ticks (es : list sched_event) : Z :=
  match es with
  | [] => 0
  | EvTick :: es => 1 + count_ticks es
  | _ :: es => count_ticks es
  end.

(** [es] never touches the state of partition [t]. *)
Fixpoint leaves_alone (t : nat) (es : list sched_event) : Prop :=
  match es with
  | [] => True
  | EvState i _ :: es => i ≠ t ∧ leaves_alone t es
  | _ :: es => leaves_alone t es
  end.

(** Slices are bounded by [D] ticks. *)
Definition slices_le (D : Z) (s : BitMapScheduler) : Prop :=
  0 ≤ remaining_mif_ticks s ≤ D ∧ Forall (λ d, 0 ≤ d ≤ D) (partition_durations s).

(** Ticks that can pass, at most, before partition [t] is dispatched. *)
Definition waiting_bound (D : Z) (s : BitMapScheduler) (t : nat) : Z :=
  (Z.of_nat (cyc_dist (current_partition_idx s) t) + 1) * (D + 1) + remaining_mif_ticks s - D.

(** ** Lemmas *)

Lemma set_slot_state_shape i st s : sched_shape s → sched_shape (set_slot_state i st s).
Proof.
  intros [H1 H2 H3 H4]. split; simpl; try done.
  - by rewrite length_alter.
  - rewrite slot_alter. case_decide; [|done]. destruct H4 as [t ->]. by eexists.
Qed.

Lemma set_slot_state_ready i st s t :
  i ≠ t → slot_ready (task_table (set_slot_state i st s)) t = slot_ready (task_table s) t.
Proof. intros. unfold slot_ready. simpl. by rewrite slot_alter, decide_False. Qed.

Lemma dispatch_ready s j d t :
  t ≠ j → slot_ready (task_table s) t = true → slot_ready (task_table (dispatch s j d)) t = true.
Proof.
  intros Hne (u & Hu & Hst)%slot_ready_iff. unfold slot_ready. simpl.
  rewrite slot_swap, decide_False by done. rewrite Hu. case_decide; simpl.
  - unfold demote. rewrite (bool_decide_false (state u = Running)) by congruence.
    by rewrite bool_decide_true.
  - by rewrite bool_decide_true.
Qed.

(** Distances along the cycle: choosing a partition nearer than [t] brings the
    scheduler strictly closer to [t]. *)
Lemma cyc_dist_closer cur j t :
  (cur < 32)%nat → (j < 32)%nat → (t < 32)%nat → j ≠ t →
  (cyc_dist cur j ≤ cyc_dist cur t)%nat → (cyc_dist j t < cyc_dist cur t)%nat.
Proof.
  intros Hc Hj Ht Hne Hle.
  assert (H : cyc_dist cur t = (cyc_dist cur j + 1 + cyc_dist j t)%nat); [|lia].
  unfold cyc_dist in *.
  assert (Hm : ∀ a b, (a < 32)%nat → (b < 32)%nat →
    ((b + 31 - a) mod 32 = if decide (a < b)%nat then b - a - 1 else b + 31 - a)%nat).
  { intros a b Ha Hb. case_decide.
    - replace (b + 31 - a)%nat with (b - a - 1 + 1 * 32)%nat by lia.
      rewrite Nat.Div0.mod_add. apply Nat.mod_small. lia.
    - apply Nat.mod_small. lia. }
  rewrite !Hm in * by done. repeat case_decide; lia.
Qed.

Lemma slices_dispatch D s j d :
  slices_le D s → partition_durations s !! j = Some d → slices_le D (dispatch s j d).
Proof.
  intros [_ HF] Hd. split; [|done]. simpl. rewrite Forall_lookup in HF. by eapply HF.
Qed.

(** One call of [schedule] with [t] Ready and not current: either [t] is
    dispatched, or the waiting bound of [t] does not grow, and shrinks on a tick. *)
Lemma schedule_progress D s b t :
  sched_shape s → slices_le D s → (t < 31)%nat →
  current_partition_idx s ≠ t → slot_ready (task_table s) t = true →
  ∃ r s', schedule s b = Done (r, s') ∧
    (current_partition_idx s' = t ∨
     sched_shape s' ∧ slices_le D s' ∧ current_partition_idx s' ≠ t ∧
     slot_ready (task_table s') t = true ∧
     waiting_bound D s' t + (if b then 1 else 0) ≤ waiting_bound D s t).
Proof.
  intros Hsh Hsl Ht Hne Hr. pose proof (wf_current _ Hsh) as Hc. unfold MAX_PARTITIONS in Hc.
  destruct (schedule_cases s b Hsh)
    as [(r & He & Hcase)|(j & u & d & _ & Hs & Hj & _ & Hlt & Hd & He)].
  - exists None, (set_remaining r s). split; [done|]. right.
    destruct Hcase as [[Htr ->]|[_ Hn]].
    2: { rewrite (select_None _ _ Hc Hn) in Hr by lia. done. }
    unfold triggered in Htr. rewrite !orb_false_iff, Z.eqb_neq in Htr.
    destruct Htr as [[Hz Hb] _]. destruct b; [|done].
    destruct Hsl as [Hrem HF]. unfold charged in *. simpl in *.
    destruct (Z.ltb_spec 0 (remaining_mif_ticks s)) as [Hp|Hp]; [|lia]. split_and!; try done.
    + destruct Hsh. by split.
    + split; simpl; [lia|done].
    + unfold waiting_bound. simpl. lia.
  - exists (Some (current_partition_idx s, saved_sp u)), (dispatch s j d). split; [done|].
    destruct (decide (j = t)) as [->|Hjt]; [by left|]. right.
    destruct (select_Some _ _ _ Hc Hs) as (_ & _ & Hmin & Hidle).
    assert (Hel : eligible (task_table s) t) by (split; [lia|done]).
    destruct (decide (j = 31%nat)) as [->|Hj31].
    { exfalso. by apply (Hidle eq_refl t); [lia|]. }
    pose proof (cyc_dist_closer _ j t Hc Hlt ltac:(lia) Hjt (Hmin Hj31 t ltac:(lia) Hel)).
    split_and!; [by eapply dispatch_shape|by eapply slices_dispatch|done|by apply dispatch_ready|].
    pose proof (slices_dispatch _ _ _ _ Hsl Hd) as [Hd' _]. simpl in Hd'.
    destruct Hsl as [Hrem _].
    unfold waiting_bound. cbn [current_partition_idx remaining_mif_ticks dispatch]. destruct b; nia.
Qed.

Lemma count_ticks_nonneg es : 0 ≤ count_ticks es.
Proof. induction es as [|[] es]; simpl; lia. Qed.

Lemma bounded_waiting D es s t :
  sched_shape s → slices_le D s → (t < 31)%nat →
  slot_ready (task_table s) t = true → leaves_alone t es →
  waiting_bound D s t ≤ count_ticks es →
  ∃ es1 es2 s', es = es1 ++ es2 ∧ sched_run s es1 = Done s' ∧ current_partition_idx s' = t.
Proof.
  revert s. induction es as [|e es IH]; intros s Hsh Hsl Ht Hr Hla Hb;
    (destruct (decide (current_partition_idx s = t)) as [Hcur|Hne]; [by eexists [], _, s|]).
  - exfalso. simpl in Hb. destruct Hsl as [Hrem HF]. unfold waiting_bound in Hb.
    pose proof (cyc_dist_lt (current_partition_idx s) t). nia.
  - assert (Hstep : ∃ s', sched_step s e = Done s' ∧
        (current_partition_idx s' = t ∨
         sched_shape s' ∧ slices_le D s' ∧ slot_ready (task_table s') t = true ∧
         waiting_bound D s' t ≤ count_ticks es)).
    { destruct e as [| |i st]; simpl in *.
      - destruct (schedule_progress D s true t) as (r & s' & He & H); [done..|].
        exists s'. rewrite He. split; [done|]. destruct H as [H|(?&?&?&?&?)]; [by left|right].
        split_and!; [done..|lia].
      - destruct (schedule_progress D s false t) as (r & s' & He & H); [done..|].
        exists s'. rewrite He. split; [done|]. destruct H as [H|(?&?&?&?&?)]; [by left|right].
        split_and!; [done..|lia].
      - eexists. split; [done|]. right. destruct Hla as [Hi _]. split_and!.
        + by apply set_slot_state_shape.
        + done.
        + by rewrite set_slot_state_ready.
        + done. }
    destruct Hstep as (s' & He & [Hcur|(Hsh' & Hsl' & Hr' & Hb')]).
    + exists [e], es, s'. simpl. by rewrite He.
    + destruct (IH s') as (es1 & es2 & s'' & -> & Hrun & Hc'); try done.
      { destruct e; simpl in Hla; tauto. }
      exists (e :: es1), es2, s''. simpl. rewrite He. done.
Qed.

Lemma tick_within_slice s :
  sched_shape s → slot_runnable (task_table s) (current_partition_idx s) = true →
  1 < remaining_mif_ticks s →
  sched_step s EvTick = Done (set_remaining (remaining_mif_ticks s - 1) s).
Proof.
  intros Hsh Hrun Hrem.
  assert (Hch : charged s true = remaining_mif_ticks s - 1).
  { unfold charged. destruct (Z.ltb_spec 0 (remaining_mif_ticks s)); simpl; lia. }
  simpl. rewrite schedule_stay; [by rewrite Hch|done|].
  unfold triggered. rewrite Hch, Hrun. simpl. rewrite !orb_false_r. apply Z.eqb_neq. lia.
Qed.

Lemma set_remaining_shape r s : sched_shape s → sched_shape (set_remaining r s).
Proof. intros []. by split. Qed.

Lemma ticks_within_slice n s :
  sched_shape s → slot_runnable (task_table s) (current_partition_idx s) = true →
  Z.of_nat n < remaining_mif_ticks s →
  sched_run s (replicate n EvTick) = Done (set_remaining (remaining_mif_ticks s - Z.of_nat n) s).
Proof.
  revert s. induction n as [|n IH]; intros s Hsh Hrun Hn.
  - simpl. rewrite Z.sub_0_r. by destruct s.
  - cbn [replicate sched_run]. rewrite tick_within_slice by (done || lia). cbn [mbind result_bind].
    rewrite IH; [|by apply set_remaining_shape|done|simpl; lia].
    unfold set_remaining. simpl. do 2 f_equal. lia.
Qed.

Lemma sched_run_app s es1 es2 :
  sched_run s (es1 ++ es2) = s' ← sched_run s es1; sched_run s' es2.
Proof.
  revert s. induction es1 as [|e es1 IH]; intros s; simpl; [done|].
  destruct (sched_step s e); simpl; [apply IH|done|done].
Qed.

(** ** Properties *)

(** C16. Bounded waiting (temporal isolation).  If every slice is at most [D]
    ticks, then a Ready partition [t] (other than the idle one) is dispatched
    before [waiting_bound D s t] timer ticks have passed, whatever the other
    partitions do in between: run their slices out, yield, block, wake up,
    terminate.  With the default slices of 100 ticks the bound is at most
    32 * 101 + 100 - 100 = 3232 ticks. *)
Theorem no_starvation D es s t :
  sched_shape s → slices_le D s → (t < 31)%nat →
  slot_ready (task_table s) t = true → leaves_alone t es →
  waiting_bound D s t ≤ count_ticks es →
  ∃ es1 es2 s', es = es1 ++ es2 ∧ sched_run s es1 = Done s' ∧ current_partition_idx s' = t.
Proof. apply bounded_waiting. Qed.

Lemma no_starvation_witness :
  ∃ es1 es2 s', replicate 200 EvTick = es1 ++ es2 ∧
    sched_run (test_sched 100 Running Ready Ready) es1 = Done s' ∧ current_partition_idx s' = 1%nat.
Proof.
  apply (no_starvation 100 (replicate 200 EvTick) (test_sched 100 Running Ready Ready) 1).
  - apply wf_shape, sched_wfb_sound. reflexivity.
  - split; [vm_compute; split; discriminate|].
    apply Forall_replicate. lia.
  - lia.
  - reflexivity.
  - vm_compute. exact I.
  - vm_compute. discriminate.
Defined.

(** C17. A partition owns exactly its slice: while the running task stays
    runnable, none of the first [r - 1] of the [r] ticks left to it changes
    anything but the remaining budget, and the [r]-th tick hands the core to the
    partition the cyclic scan selects, with that partition's full budget. *)
Theorem slice_is_exact s j :
  sched_shape s → slot_runnable (task_table s) (current_partition_idx s) = true →
  0 < remaining_mif_ticks s →
  select (task_table s) (current_partition_idx s) = Some j →
  (∀ n, Z.of_nat n < remaining_mif_ticks s →
     sched_run s (replicate n EvTick)
       = Done (set_remaining (remaining_mif_ticks s - Z.of_nat n) s)) ∧
  (∃ d, partition_durations s !! j = Some d ∧
     sched_run s (replicate (Z.to_nat (remaining_mif_ticks s)) EvTick) = Done (dispatch s j d)).
Proof.
  intros Hsh Hrun Hrem Hsel. split; [intros; by apply ticks_within_slice|].
  set (n := Z.to_nat (remaining_mif_ticks s - 1)).
  set (s1 := set_remaining (remaining_mif_ticks s - Z.of_nat n) s).
  assert (Hr1 : remaining_mif_ticks s1 = 1) by (simpl; lia).
  destruct (schedule_switch s1 true j) as (t & d & _ & Hd & He).
  - by apply set_remaining_shape.
  - unfold triggered, charged. by rewrite Hr1.
  - done.
  - exists d. split; [done|].
    replace (Z.to_nat (remaining_mif_ticks s)) with (n + 1)%nat by lia.
    rewrite replicate_add, sched_run_app, ticks_within_slice by (done || lia).
    fold s1. cbn [mbind result_bind replicate sched_run sched_step]. by rewrite He.
Qed.

Lemma slice_is_exact_witness :
  ∃ d, sched_run (test_sched 100 Running Ready Ready) (replicate 100 EvTick)
         = Done (dispatch (test_sched 100 Running Ready Ready) 1 d).
Proof.
  destruct (slice_is_exact (test_sched 100 Running Ready Ready) 1) as [_ (d & _ & Hd)].
  - apply wf_shape, sched_wfb_sound. reflexivity.
  - reflexivity.
  - reflexivity.
  - reflexivity.
  - exists d. exact Hd.
Defined.
