(* ===== verification/Can.v ===== *)
(** * Can: CAN frame parsing and the SPSC ring buffer

    Models network/src/can.rs.  [CanFrame::parse] reads the 13 raw bytes of a
    transceiver frame; [CanRingBuffer] is shown to implement a bounded FIFO
    queue of [RING_CAPACITY - 1] frames. *)
From S2P Require Import Prelude.

Definition CAN_MAX_PAYLOAD : nat := 8.
Definition RING_CAPACITY : Z := 16.

Record CanFrame := mkFrame {
  id : Z;
  dlc : Z;
  payload : list Z
}.

Inductive CanError :=
  | BlockedId (id : Z)
  | InvalidDlc (dlc : Z)
  | BufferFull.

#[export] Instance CanFrame_eq_dec : EqDecision CanFrame.
Proof. solve_decision. Defined.
#[export] Instance CanError_eq_dec : EqDecision CanError.
Proof. solve_decision. Defined.

(** ** Parsing *)

Definition BLOCKED_IDS : list Z := [0x7DF; 0x7E0; 0x7E1; 0x7E8].

(** [payload[..n].copy_from_slice(&raw[3..3 + n])] on a zeroed payload. *)
Definition copy_payload (raw : list Z) (n : nat) : list Z :=
  take n (drop 3 raw) ++ replicate (CAN_MAX_PAYLOAD - n) 0.

Definition raw_id (raw : list Z) : Z :=
  Z.lor (u16 (Z.shiftl (nth 0 raw 0) 3)) (Z.shiftr (nth 1 raw 0) 5).

Definition parse (raw : list Z) : CanFrame + CanError :=
  let id := raw_id raw in
  if bool_decide (id ∈ BLOCKED_IDS) then inr (BlockedId id)
  else
    let dlc := Z.land (nth 2 raw 0) 0x0F in
    if 8 <? dlc then inr (InvalidDlc dlc)
    else inl (mkFrame id dlc (copy_payload raw (Z.to_nat dlc))).

(** The encoder of the crate's unit tests ([raw_frame]). *)
Definition raw_frame (id dlc : Z) (payload : list Z) : list Z :=
  [u8 (Z.shiftr id 3); u8 (Z.shiftl (Z.land id 7) 5); dlc]
    ++ payload ++ replicate (10 - length payload) 0.

(** ** The ring buffer *)

Record CanRingBuffer := mkRing {
  frames : list (option CanFrame);
  head : Z;
  tail : Z
}.

Definition ring_new : CanRingBuffer := mkRing (replicate 16 None) 0 0.

Definition CanRingBuffer_default : Inhabited CanRingBuffer := populate ring_new.
#[export] Existing Instance CanRingBuffer_default.

Definition mask_next (i : Z) : Z := Z.land (i + 1) (RING_CAPACITY - 1).

Definition is_full (r : CanRingBuffer) : bool := mask_next (tail r) =? head r.
Definition is_empty (r : CanRingBuffer) : bool := head r =? tail r.

Definition push (r : CanRingBuffer) (f : CanFrame) : result (unit + CanError) * CanRingBuffer :=
  if is_full r then (Done (inr BufferFull), r)
  else if bool_decide (Z.to_nat (tail r) < length (frames r))%nat then
    (Done (inl tt),
     mkRing (<[Z.to_nat (tail r) := Some f]> (frames r)) (head r) (mask_next (tail r)))
  else (Panicked IndexOutOfBounds, r).

Definition pop (r : CanRingBuffer) : result (option CanFrame) * CanRingBuffer :=
  if is_empty r then (Done None, r)
  else match frames r !! Z.to_nat (head r) with
       | Some f =>
           (Done f, mkRing (<[Z.to_nat (head r) := None]> (frames r)) (mask_next (head r)) (tail r))
       | None => (Panicked IndexOutOfBounds, r)
       end.

(** ** Specification: a bounded queue *)

Module QueueSpec.

Definition capacity : nat := 15.

Definition push (q : list CanFrame) (f : CanFrame) : (unit + CanError) * list CanFrame :=
  if bool_decide (length q < capacity)%nat then (inl tt, q ++ [f]) else (inr BufferFull, q).

Definition pop (q : list CanFrame) : option CanFrame * list CanFrame :=
  match q with [] => (None, []) | f :: q => (Some f, q) end.

End QueueSpec.

(** [r] represents the queue [q]; slots outside the queue are empty. *)
Record ring_repr (r : CanRingBuffer) (q : list CanFrame) : Prop := {
  repr_len : length (frames r) = 16%nat;
  repr_head : 0 ≤ head r < 16;
  repr_tail : tail r = (head r + Z.of_nat (length q)) mod 16;
  repr_bound : (length q ≤ QueueSpec.capacity)%nat;
  repr_full : ∀ k f, q !! k = Some f →
    slot (frames r) (Z.to_nat ((head r + Z.of_nat k) mod 16)) = Some f;
  repr_free : ∀ k, (length q ≤ k < 16)%nat →
    slot (frames r) (Z.to_nat ((head r + Z.of_nat k) mod 16)) = None
}.

(** ** Lemmas on the ring *)

Lemma mask_next_mod i : 0 ≤ i → mask_next i = (i + 1) mod 16.
Proof.
  intros. unfold mask_next, RING_CAPACITY. change (16 - 1) with (Z.ones 4).
  by rewrite Z.land_ones by lia.
Qed.

Lemma ring_slot_inj h j k :
  0 ≤ h → (j < 16)%nat → (k < 16)%nat →
  Z.to_nat ((h + Z.of_nat j) mod 16) = Z.to_nat ((h + Z.of_nat k) mod 16) → j = k.
Proof. intros. Z.div_mod_to_equations. lia. Qed.

Lemma ring_slot_lt h j : (Z.to_nat ((h + Z.of_nat j) mod 16) < 16)%nat.
Proof. Z.div_mod_to_equations. lia. Qed.

Lemma ring_is_full r q :
  ring_repr r q → is_full r = bool_decide (length q = QueueSpec.capacity).
Proof.
  intros [_ Hh Ht Hb _ _]. unfold is_full, QueueSpec.capacity in *.
  assert (0 ≤ tail r) by (rewrite Ht; by apply Z.mod_pos_bound).
  rewrite mask_next_mod, Ht by done.
  case_bool_decide as Hl; [apply Z.eqb_eq|apply Z.eqb_neq]; Z.div_mod_to_equations; lia.
Qed.

Lemma ring_is_empty r q : ring_repr r q → is_empty r = bool_decide (q = []).
Proof.
  intros [_ Hh Ht Hb _ _]. unfold is_empty, QueueSpec.capacity in *. rewrite Ht.
  case_bool_decide as Hl; [apply Z.eqb_eq|apply Z.eqb_neq].
  - subst. simpl. rewrite Z.add_0_r. symmetry. by apply Z.mod_small.
  - destruct q; [done|]. simpl length in *. Z.div_mod_to_equations. lia.
Qed.

Lemma ring_new_repr : ring_repr ring_new [].
Proof.
  split; unfold ring_new; cbn [frames head tail]; try done.
  - simpl. unfold QueueSpec.capacity. lia.
  - intros k Hk. unfold slot. by rewrite lookup_replicate_2 by apply ring_slot_lt.
Qed.

Lemma push_refines r q f :
  ring_repr r q →
  (push r f).1 = Done (QueueSpec.push q f).1 ∧ ring_repr (push r f).2 (QueueSpec.push q f).2.
Proof.
  intros Hr. pose proof Hr as [Hl Hh Ht Hb Hfull Hfree].
  unfold push, QueueSpec.push. rewrite (ring_is_full _ _ Hr).
  case_bool_decide as Hc; [rewrite bool_decide_false by lia; done|].
  rewrite (bool_decide_true (length q < _)%nat) by lia. unfold QueueSpec.capacity in *.
  assert (Htb : 0 ≤ tail r) by (rewrite Ht; by apply Z.mod_pos_bound).
  rewrite (bool_decide_true (Z.to_nat (tail r) < _)%nat).
  2: { rewrite Hl, Ht. apply ring_slot_lt. }
  split; [done|]. simpl. split; simpl.
  - by rewrite length_insert.
  - done.
  - rewrite mask_next_mod, Ht by done. rewrite length_app. simpl.
    Z.div_mod_to_equations. lia.
  - rewrite length_app. simpl. unfold QueueSpec.capacity. lia.
  - intros k g Hk. rewrite slot_insert by (rewrite Hl, Ht; apply ring_slot_lt). case_decide as He.
    + rewrite Ht in He. apply lookup_lt_Some in Hk as Hlt. rewrite length_app in Hlt. simpl in Hlt.
      apply ring_slot_inj in He; [|lia..]. subst k. rewrite list_lookup_middle in Hk by done. done.
    + apply lookup_app_Some in Hk as [Hk|[Hge Hk]]; [by apply Hfull|].
      exfalso. apply He. rewrite Ht. do 2 f_equal.
      apply lookup_lt_Some in Hk. simpl in Hk. lia.
  - intros k Hk. rewrite length_app in Hk. simpl in Hk.
    rewrite slot_insert by (rewrite Hl, Ht; apply ring_slot_lt). case_decide as He.
    + rewrite Ht in He. apply ring_slot_inj in He; lia.
    + apply Hfree. lia.
Qed.

Lemma pop_refines r q :
  ring_repr r q →
  (pop r).1 = Done (QueueSpec.pop q).1 ∧ ring_repr (pop r).2 (QueueSpec.pop q).2.
Proof.
  intros Hr. pose proof Hr as [Hl Hh Ht Hb Hfull Hfree].
  unfold pop, QueueSpec.pop. rewrite (ring_is_empty _ _ Hr).
  destruct q as [|f q]; [done|]. rewrite bool_decide_false by done.
  assert (Hd : (head r + Z.of_nat 0) mod 16 = head r).
  { rewrite Z.add_0_r. by apply Z.mod_small. }
  assert (Hs : slot (frames r) (Z.to_nat (head r)) = Some f).
  { rewrite <- Hd. by apply Hfull. }
  apply slot_Some in Hs as Hlk. rewrite Hlk. split; [done|]. simpl.
  simpl length in *. unfold QueueSpec.capacity in *.
  assert (Hmod : ∀ k, (mask_next (head r) + Z.of_nat k) mod 16 = (head r + Z.of_nat (S k)) mod 16).
  { intros k. rewrite mask_next_mod by lia. rewrite Z.add_mod_idemp_l by done. f_equal. lia. }
  assert (Hins : ∀ k, (S k < 16)%nat → slot (<[Z.to_nat (head r):=None]> (frames r))
    (Z.to_nat ((head r + Z.of_nat (S k)) mod 16)) =
    slot (frames r) (Z.to_nat ((head r + Z.of_nat (S k)) mod 16))).
  { intros k Hk. rewrite slot_insert by lia. rewrite decide_False; [done|].
    rewrite <- Hd at 1. intros He%ring_slot_inj; lia. }
  split; simpl; unfold QueueSpec.capacity.
  - by rewrite length_insert.
  - rewrite mask_next_mod by lia. by apply Z.mod_pos_bound.
  - rewrite Hmod. done.
  - lia.
  - intros k g Hk. rewrite Hmod, Hins; [by apply Hfull|].
    apply lookup_lt_Some in Hk. lia.
  - intros k Hk. rewrite Hmod. destruct (decide (S k = 16)%nat) as [Hk16|Hk16].
    + rewrite Hk16. rewrite slot_insert by lia. rewrite decide_True; [done|].
      change (Z.of_nat 16) with (1 * 16). rewrite Z_mod_plus_full. by rewrite Z.mod_small.
    + rewrite Hins by lia. apply Hfree. lia.
Qed.

(** ** Lemmas on parsing *)

Lemma raw_id_roundtrip i :
  0 ≤ i < 2048 →
  Z.lor (u16 (Z.shiftl (u8 (Z.shiftr i 3)) 3)) (Z.shiftr (u8 (Z.shiftl (Z.land i 7) 5)) 5) = i.
Proof.
  intros Hi.
  assert (Hall : forallb (λ i, Z.lor (u16 (Z.shiftl (u8 (Z.shiftr i 3)) 3))
    (Z.shiftr (u8 (Z.shiftl (Z.land i 7) 5)) 5) =? i) (seqZ 0 2048) = true) by by vm_compute.
  rewrite forallb_forall in Hall. apply Z.eqb_eq, Hall.
  apply list_elem_of_In, elem_of_seqZ. lia.
Qed.

Lemma raw_frame_payload i d p :
  (length p ≤ 8)%nat → copy_payload (raw_frame i d p) (length p) = p ++ replicate (8 - length p) 0.
Proof.
  intros Hp. unfold copy_payload, raw_frame, CAN_MAX_PAYLOAD. cbn [app drop].
  by rewrite drop_0, take_app_length.
Qed.

Lemma land_15_small d : 0 ≤ d ≤ 8 → Z.land d 15 = d.
Proof. intros. change 15 with (Z.ones 4). rewrite Z.land_ones by lia. apply Z.mod_small. lia. Qed.

Lemma parse_raw_frame i p :
  0 ≤ i < 2048 → (length p ≤ 8)%nat →
  parse (raw_frame i (Z.of_nat (length p)) p) =
    if bool_decide (i ∈ BLOCKED_IDS) then inr (BlockedId i)
    else inl (mkFrame i (Z.of_nat (length p)) (p ++ replicate (8 - length p) 0)).
Proof.
  intros Hi Hp. unfold parse.
  assert (Hid : raw_id (raw_frame i (Z.of_nat (length p)) p) = i) by by apply raw_id_roundtrip.
  rewrite Hid. case_bool_decide; [done|].
  assert (Hd : Z.land (nth 2 (raw_frame i (Z.of_nat (length p)) p) 0) 15 = Z.of_nat (length p)).
  { simpl nth. apply land_15_small. lia. }
  rewrite Hd. destruct (Z.ltb_spec 8 (Z.of_nat (length p))); [lia|].
  rewrite Nat2Z.id. by rewrite raw_frame_payload.
Qed.

(** The bit operations of the parser are the layout's arithmetic: byte 0 holds bits
    10 to 3 of the identifier, the top three bits of byte 1 its bits 2 to 0. *)
Lemma raw_id_layout raw :
  Forall (λ b, 0 ≤ b < 256) raw →
  raw_id raw = 8 * nth 0 raw 0 + nth 1 raw 0 / 32 ∧ 0 ≤ 8 * nth 0 raw 0 + nth 1 raw 0 / 32 < 2048.
Proof.
  intros HF.
  assert (Hn : ∀ i, 0 ≤ nth i raw 0 < 256).
  { intros i. destruct (nth_in_or_default i raw 0) as [Hin| ->]; [|lia].
    rewrite List.Forall_forall in HF. by apply HF. }
  pose proof (Hn 0%nat) as H0. pose proof (Hn 1%nat) as H1. unfold raw_id.
  rewrite Z.shiftl_mul_pow2, Z.shiftr_div_pow2 by lia.
  unfold u16. rewrite Z.mod_small by lia.
  assert (Hb : 0 ≤ nth 1 raw 0 / 2 ^ 5 < 2 ^ 3) by (Z.div_mod_to_equations; lia).
  change 32 with (2 ^ 5). split; [|lia].
  rewrite Z.lor_comm, lor_low_high by lia. lia.
Qed.

(** ** Runs of the ring buffer *)

Inductive ring_op :=
  | OpPush (f : CanFrame)
  | OpPop.

Inductive ring_out :=
  | OutPush (r : unit + CanError)
  | OutPop (o : option CanFrame).

Fixpoint ring_run (r : CanRingBuffer) (ops : list ring_op) : list (result ring_out) :=
  match ops with
  | [] => []
  | OpPush f :: ops => (OutPush <$> (push r f).1) :: ring_run (push r f).2 ops
  | OpPop :: ops => (OutPop <$> (pop r).1) :: ring_run (pop r).2 ops
  end.

Fixpoint queue_run (q : list CanFrame) (ops : list ring_op) : list ring_out :=
  match ops with
  | [] => []
  | OpPush f :: ops => OutPush (QueueSpec.push q f).1 :: queue_run (QueueSpec.push q f).2 ops
  | OpPop :: ops => OutPop (QueueSpec.pop q).1 :: queue_run (QueueSpec.pop q).2 ops
  end.

Lemma ring_run_refines r q ops : ring_repr r q → ring_run r ops = map Done (queue_run q ops).
Proof.
  revert r q. induction ops as [|[f|] ops IH]; intros r q Hr; simpl; [done|..].
  - destruct (push_refines _ _ f Hr) as [-> Hr']. simpl. f_equal. by apply IH.
  - destruct (pop_refines _ _ Hr) as [-> Hr']. simpl. f_equal. by apply IH.
Qed.

(** ** Properties *)

(** C24. The ring buffer is a bounded FIFO queue.  For every sequence of pushes
    and pops on a new buffer, each call returns exactly what a first-in
    first-out queue of 15 frames returns (in particular a push on a full queue
    fails with [BufferFull] and loses nothing, and a pop on an empty one yields
    [None]), and no call panics on an index. *)
Theorem ring_implements_queue ops : ring_run ring_new ops = map Done (queue_run [] ops).
Proof. apply ring_run_refines, ring_new_repr. Qed.

(** C36. What [CanFrame::parse] accepts.  For every 13 raw bytes, the identifier
    being eight times byte 0 plus the top three bits of byte 1: the parser
    rejects with [BlockedId] exactly the identifiers 0x7DF, 0x7E0, 0x7E1 and 0x7E8, else
    with [InvalidDlc] exactly the data length codes above 8, else returns a frame with
    that identifier, whose length code is the low nibble of byte 2, and whose payload is
    that many raw bytes from byte 3 on, padded with zeros to 8. *)
Theorem parse_spec raw :
  length raw = 13%nat → Forall (λ b, 0 ≤ b < 256) raw →
  let i := 8 * nth 0 raw 0 + nth 1 raw 0 / 32 in
  let d := nth 2 raw 0 mod 16 in
  let blocked := [0x7DF; 0x7E0; 0x7E1; 0x7E8] in
  match parse raw with
  | inr (BlockedId i') => i' = i ∧ i ∈ blocked
  | inr (InvalidDlc d') => i ∉ blocked ∧ d' = d ∧ 8 < d
  | inr BufferFull => False
  | inl f =>
      id f = i ∧ 0 ≤ i < 2 ^ 11 ∧ i ∉ blocked ∧ dlc f = d ∧ 0 ≤ d ≤ 8 ∧
      length (payload f) = 8%nat ∧
      (∀ n, (n < 8)%nat →
        nth n (payload f) 0 = if decide (Z.of_nat n < d) then nth (3 + n) raw 0 else 0)
  end.
Proof.
  intros Hl HF i d blocked. unfold parse. destruct (raw_id_layout _ HF) as [-> Hid]. fold i in Hid |- *.
  case_bool_decide as Hb; [done|].
  assert (Hd : Z.land (nth 2 raw 0) 15 = nth 2 raw 0 mod 16).
  { change 15 with (Z.ones 4). by rewrite Z.land_ones. }
  rewrite Hd. pose proof (Z.mod_pos_bound (nth 2 raw 0) 16 ltac:(lia)) as Hm.
  destruct (Z.ltb_spec 8 (nth 2 raw 0 mod 16)) as [H8|H8]; [done|]. simpl.
  fold d in Hm, H8 |- *. unfold copy_payload, CAN_MAX_PAYLOAD.
  assert (Ht : length (take (Z.to_nat d) (drop 3 raw)) = Z.to_nat d).
  { rewrite length_take, length_drop. lia. }
  split_and!; try done; try lia.
  - rewrite length_app, Ht, length_replicate. lia.
  - intros n Hn. case_decide as Hc.
    + rewrite app_nth1 by lia. rewrite nth_firstn, nth_skipn.
      by destruct (Nat.ltb_spec n (Z.to_nat d)); [|lia].
    + rewrite app_nth2 by lia. destruct (nth_in_or_default (n - length (take (Z.to_nat d) (drop 3 raw)))
        (replicate (8 - Z.to_nat d) 0) 0) as [Hin| ->]; [|done].
      by apply list_elem_of_In, elem_of_replicate in Hin as [-> _].
Qed.

Lemma parse_spec_witness :
  match parse (raw_frame 0x123 4 [0xAA; 0xBB; 0xCC; 0xDD]) with
  | inr _ => False
  | inl f => id f = 0x123 ∧ (id f ∉ BLOCKED_IDS) ∧ length (payload f) = 8%nat
  end.
Proof.
  pose proof (parse_spec (raw_frame 0x123 4 [0xAA; 0xBB; 0xCC; 0xDD]) eq_refl
    ltac:(repeat constructor; vm_compute; congruence)) as H.
  change (parse (raw_frame 0x123 4 [0xAA; 0xBB; 0xCC; 0xDD]))
    with (@inl CanFrame CanError (mkFrame 0x123 4 [0xAA; 0xBB; 0xCC; 0xDD; 0; 0; 0; 0])) in *.
  destruct H as (_ & _ & H & _ & _ & Hl & _). split_and!; [reflexivity|exact H|exact Hl].
Defined.

(** Encode/parse round trip: every frame with an unfiltered 11-bit
    identifier and at most 8 payload bytes is recovered by [parse] from its wire
    form, the unused payload bytes reading zero. *)
Lemma parse_roundtrip i p :
  0 ≤ i < 2 ^ 11 → i ∉ BLOCKED_IDS → (length p ≤ 8)%nat →
  parse (raw_frame i (Z.of_nat (length p)) p)
    = inl (mkFrame i (Z.of_nat (length p)) (p ++ replicate (8 - length p) 0)).
Proof. intros Hi Hb Hp. rewrite parse_raw_frame by done. by rewrite bool_decide_false. Qed.

Lemma parse_roundtrip_witness :
  parse (raw_frame 0x123 4 [0xAA; 0xBB; 0xCC; 0xDD])
    = inl (mkFrame 0x123 4 [0xAA; 0xBB; 0xCC; 0xDD; 0; 0; 0; 0]).
Proof.
  apply (parse_roundtrip 0x123 [0xAA; 0xBB; 0xCC; 0xDD]).
  - lia.
  - apply (bool_decide_unpack _). reflexivity.
  - simpl. lia.
Defined.

(** The filter covers four identifiers, not the diagnostic range: a frame
    whose identifier is one of the ECU query/response addresses 0x7E2..0x7E7 or
    0x7E9..0x7EF passes the parser, although the filter's comment and
    ARCHITECTURE.md announce that 0x7E0-0x7EF are rejected. *)
Lemma diagnostic_range_passes i p :
  0x7E2 ≤ i ≤ 0x7EF → i ≠ 0x7E8 → (length p ≤ 8)%nat →
  ∃ f, parse (raw_frame i (Z.of_nat (length p)) p) = inl f ∧ id f = i.
Proof.
  intros Hi Hne Hp. rewrite parse_raw_frame by lia. rewrite bool_decide_false; [by eexists|].
  unfold BLOCKED_IDS. rewrite !elem_of_cons, elem_of_nil. lia.
Qed.

Lemma diagnostic_range_passes_witness :
  ∃ f, parse (raw_frame 0x7E2 0 []) = inl f ∧ id f = 0x7E2.
Proof. apply (diagnostic_range_passes 0x7E2 []); [lia|lia|simpl; lia]. Defined.
