(* ===== verification/Pmp.v ===== *)
(** * Pmp: physical memory protection

    Models kernel/src/memory/pmp.rs ([PmpConfig::to_byte], [configure_pmp],
    [reprogram_pmp_stack]) and [init_memory_protection] of kernel/src/main.rs on
    the PMP control registers of one hart.

    The registers follow the RISC-V privileged architecture (volume II, "Physical
    Memory Protection"): a write to a locked entry is ignored, entries are
    matched in increasing order, and a U-mode access that no entry matches is
    refused.  The addresses of the statically allocated stacks are fixed by the
    linker, so they are a parameter ([Layout]). *)
From S2P Require Import Prelude.

(** ** The driver's data *)

Inductive PmpAddressMode := Off | Tor | Na4 | Napot.

Definition mode_u8 (m : PmpAddressMode) : Z :=
  match m with Off => 0 | Tor => 1 | Na4 => 2 | Napot => 3 end.

Record PmpConfig := mkPmpConfig {
  read : bool;
  write : bool;
  execute : bool;
  mode : PmpAddressMode;
  locked : bool
}.

Definition to_byte (c : PmpConfig) : Z :=
  let val := 0 in
  let val := if read c then Z.lor val (Z.shiftl 1 0) else val in
  let val := if write c then Z.lor val (Z.shiftl 1 1) else val in
  let val := if execute c then Z.lor val (Z.shiftl 1 2) else val in
  let val := Z.lor val (Z.shiftl (mode_u8 (mode c)) 3) in
  if locked c then Z.lor val (Z.shiftl 1 7) else val.

(** ** The PMP registers of a hart *)

Record PmpRegs := mkPmpRegs {
  pmpaddr : list Z;
  pmpcfg0 : Z;
  pmpcfg1 : Z
}.

Definition cfg_byte (w : Z) (k : nat) : Z := Z.land (Z.shiftr w (8 * Z.of_nat k)) 255.

Definition entry_cfg (r : PmpRegs) (e : nat) : Z :=
  if (e <? 4)%nat then cfg_byte (pmpcfg0 r) e else cfg_byte (pmpcfg1 r) (e - 4).

Definition entry_locked (r : PmpRegs) (e : nat) : bool := Z.testbit (entry_cfg r e) 7.

(** [csrw pmpaddr<e>, v] and [csrw pmpcfg<b>, v]: locked entries keep their value. *)
Definition csrw_pmpaddr (e : nat) (v : Z) (r : PmpRegs) : PmpRegs :=
  if entry_locked r e then r
  else mkPmpRegs (<[e := v]> (pmpaddr r)) (pmpcfg0 r) (pmpcfg1 r).

Definition keep_locked (old new : Z) (k : nat) : Z :=
  if Z.testbit (cfg_byte old k) 7 then cfg_byte old k else cfg_byte new k.

Definition cfg_write (old new : Z) : Z :=
  keep_locked old new 0 + keep_locked old new 1 * 2 ^ 8
  + keep_locked old new 2 * 2 ^ 16 + keep_locked old new 3 * 2 ^ 24.

Definition csrw_pmpcfg0 (v : Z) (r : PmpRegs) : PmpRegs :=
  mkPmpRegs (pmpaddr r) (cfg_write (pmpcfg0 r) v) (pmpcfg1 r).
Definition csrw_pmpcfg1 (v : Z) (r : PmpRegs) : PmpRegs :=
  mkPmpRegs (pmpaddr r) (pmpcfg0 r) (cfg_write (pmpcfg1 r) v).

(** ** The driver *)

(** [(base_addr >> 2) | ((size / 2 - 1) >> 2)]. *)
Definition napot_val (base_addr size : Z) : Z :=
  Z.lor (Z.shiftr base_addr 2) (Z.shiftr (u32 (size / 2 - 1)) 2).

(** [(cfg & !(0xFF << shift)) | (config_byte << shift)]. *)
Definition cfg_insert (w byte shift : Z) : Z :=
  Z.lor (Z.land w (Z.lxor (2 ^ 32 - 1) (Z.shiftl 255 shift))) (Z.shiftl byte shift).

Definition configure_pmp (entry : nat) (base_addr size : Z) (config : PmpConfig) (r : PmpRegs)
    : result PmpRegs :=
  let napot := napot_val base_addr size in
  if (6 <? entry)%nat then Panicked UnsupportedPmpEntry else
  let r := csrw_pmpaddr entry napot r in
  let cfg_reg := (entry / 4)%nat in
  let shift := Z.of_nat (entry mod 4) * 8 in
  let config_byte := to_byte config in
  if (cfg_reg =? 0)%nat then Done (csrw_pmpcfg0 (cfg_insert (pmpcfg0 r) config_byte shift) r)
  else if (cfg_reg =? 1)%nat then Done (csrw_pmpcfg1 (cfg_insert (pmpcfg1 r) config_byte shift) r)
  else Done r.

(** Addresses of the [#[repr(align(1024))]] statics of kernel/src/main.rs. *)
Record Layout := mkLayout {
  TASK_A_STACK : Z;
  TASK_B_STACK : Z;
  TASK_C_STACK : Z;
  TASK_WD_STACK : Z;
  HSM_STACK : Z;
  IDLE_STACK_0 : Z;
  IDLE_STACK_1 : Z;
  KERNEL_STACK_0 : Z;
  KERNEL_STACK_1 : Z
}.

Definition stacks (L : Layout) : list (string * Z * nat) :=
  [("Watchdog", TASK_WD_STACK L, 1%nat);
   ("Task A", TASK_A_STACK L, 2%nat);
   ("Task B", TASK_B_STACK L, 4%nat);
   ("Task C", TASK_C_STACK L, 5%nat);
   ("HSM Task", HSM_STACK L, 6%nat)].

Definition cfg_off : PmpConfig := mkPmpConfig false false false Off false.
Definition cfg_block : PmpConfig := mkPmpConfig false false false Napot false.

Definition reprogram_one (active_task_name : string) (st : string * Z * nat) (r : PmpRegs)
    : result PmpRegs :=
  let '(nm, addr, entry) := st in
  if bool_decide (nm = active_task_name)
  then configure_pmp entry 0 1024 cfg_off r
  else configure_pmp entry addr 1024 cfg_block r.

Fixpoint reprogram_all (active_task_name : string) (sts : list (string * Z * nat)) (r : PmpRegs)
    : result PmpRegs :=
  match sts with
  | [] => Done r
  | st :: sts => r' ← reprogram_one active_task_name st r; reprogram_all active_task_name sts r'
  end.

Definition reprogram_pmp_stack (L : Layout) (active_task_name : string) (r : PmpRegs)
    : result PmpRegs :=
  reprogram_all active_task_name (stacks L) r.

Definition FLASH_BASE : Z := 0x42000000.
Definition FLASH_SIZE : Z := 4 * 1024 * 1024.
Definition SRAM_BASE : Z := 0x3FC80000.
Definition SRAM_SIZE : Z := 512 * 1024.

Definition init_memory_protection (L : Layout) (r : PmpRegs) : result PmpRegs :=
  r ← configure_pmp 0 FLASH_BASE FLASH_SIZE (mkPmpConfig true false true Napot true) r;
  r ← configure_pmp 1 (TASK_WD_STACK L) 1024 cfg_block r;
  r ← configure_pmp 2 (TASK_A_STACK L) 1024 cfg_block r;
  r ← configure_pmp 4 (TASK_B_STACK L) 1024 cfg_block r;
  r ← configure_pmp 5 (TASK_C_STACK L) 1024 cfg_block r;
  r ← configure_pmp 6 (HSM_STACK L) 1024 cfg_block r;
  configure_pmp 3 SRAM_BASE SRAM_SIZE (mkPmpConfig true true false Napot false) r.

(** ** Specification: how the hart checks a U-mode access *)

Inductive access := Load | Store | Fetch.

(** NAPOT: the address agrees with the register above its trailing ones and the
    zero that ends them. *)
Definition napot_match (p a : Z) : bool :=
  Z.lor (Z.shiftr a 2) (Z.lxor p (p + 1)) =? Z.lor p (Z.lxor p (p + 1)).

Definition entry_addr (r : PmpRegs) (e : nat) : Z := default 0 (pmpaddr r !! e).

Definition entry_mode (r : PmpRegs) (e : nat) : Z := Z.land (Z.shiftr (entry_cfg r e) 3) 3.

Definition entry_match (r : PmpRegs) (a : Z) (e : nat) : bool :=
  let m := entry_mode r e in
  if m =? 3 then napot_match (entry_addr r e) a
  else if m =? 2 then Z.shiftr a 2 =? entry_addr r e
  else if m =? 1 then
    (match e with O => true | S e' => entry_addr r e' <=? Z.shiftr a 2 end)
    && (Z.shiftr a 2 <? entry_addr r e)
  else false.

Definition entry_perm (r : PmpRegs) (e : nat) (acc : access) : bool :=
  Z.testbit (entry_cfg r e) (match acc with Load => 0 | Store => 1 | Fetch => 2 end).

(** The lowest-numbered matching entry decides; no match refuses the access.
    The driver uses entries 0 to 6; the others are off after reset. *)
Definition user_allows (r : PmpRegs) (acc : access) (a : Z) : bool :=
  match find (entry_match r a) (seq 0 7) with
  | Some e => entry_perm r e acc
  | None => false
  end.

(** ** Specification: the link-time layout *)

Definition in_block (base size a : Z) : Prop := base ≤ a < base + size.

Definition all_stacks (L : Layout) : list Z :=
  [TASK_A_STACK L; TASK_B_STACK L; TASK_C_STACK L; TASK_WD_STACK L; HSM_STACK L;
   IDLE_STACK_0 L; IDLE_STACK_1 L; KERNEL_STACK_0 L; KERNEL_STACK_1 L].

(** Alignment from [repr(align(1024))], placement from memory.x (RAM at
    0x3FC80000, 328K), distinct objects. *)
Record layout_ok (L : Layout) : Prop := {
  lay_aligned : Forall (λ a, a mod 1024 = 0) (all_stacks L);
  lay_in_ram : Forall (λ a, 0x3FC80000 ≤ a ∧ a + 1024 ≤ 0x3FC80000 + 328 * 1024) (all_stacks L);
  lay_distinct : NoDup (all_stacks L)
}.

(** The registers as [init_memory_protection] and the last
    [reprogram_pmp_stack active] leave them. *)
Record pmp_configured (L : Layout) (active : string) (r : PmpRegs) : Prop := {
  conf_len : length (pmpaddr r) = 16%nat;
  conf_flash : entry_cfg r 0 = 157 ∧ entry_addr r 0 = napot_val FLASH_BASE FLASH_SIZE;
  conf_sram : entry_cfg r 3 = 27 ∧ entry_addr r 3 = napot_val SRAM_BASE SRAM_SIZE;
  conf_stack : ∀ nm addr e, (nm, addr, e) ∈ stacks L →
    if bool_decide (nm = active) then entry_cfg r e = 0
    else entry_cfg r e = 24 ∧ entry_addr r e = napot_val addr 1024
}.

(** Registers as the hart has them when the kernel starts: 16 entries, none locked. *)
Definition pmp_reset_ok (r : PmpRegs) : Prop :=
  length (pmpaddr r) = 16%nat ∧ ∀ e, (e < 7)%nat → entry_locked r e = false.

Definition pmp_reset : PmpRegs := mkPmpRegs (replicate 16 0) 0 0.

(** ** Lemmas: configuration bytes *)

Lemma cfg_byte_div w k : cfg_byte w k = (w / 2 ^ (8 * Z.of_nat k)) mod 256.
Proof.
  unfold cfg_byte. change 255 with (Z.ones 8).
  rewrite Z.land_ones, Z.shiftr_div_pow2 by lia. done.
Qed.

Lemma cfg_byte_range w k : 0 ≤ cfg_byte w k < 256.
Proof. rewrite cfg_byte_div. by apply Z.mod_pos_bound. Qed.

Lemma keep_locked_range old new k : 0 ≤ keep_locked old new k < 256.
Proof. unfold keep_locked. case_match; apply cfg_byte_range. Qed.

Lemma cfg_byte_write old new k :
  (k < 4)%nat → cfg_byte (cfg_write old new) k = keep_locked old new k.
Proof.
  intros Hk. rewrite cfg_byte_div. unfold cfg_write.
  pose proof (keep_locked_range old new 0). pose proof (keep_locked_range old new 1).
  pose proof (keep_locked_range old new 2). pose proof (keep_locked_range old new 3).
  destruct k as [|[|[|[|]]]]; [..|lia].
  - change (2 ^ (8 * Z.of_nat 0)) with 1. Z.div_mod_to_equations. lia.
  - change (2 ^ (8 * Z.of_nat 1)) with (2 ^ 8). Z.div_mod_to_equations. lia.
  - change (2 ^ (8 * Z.of_nat 2)) with (2 ^ 16). Z.div_mod_to_equations. lia.
  - change (2 ^ (8 * Z.of_nat 3)) with (2 ^ 24). Z.div_mod_to_equations. lia.
Qed.

Lemma testbit_small b n : 0 ≤ b < 256 → 8 ≤ n → Z.testbit b n = false.
Proof.
  intros Hb Hn. destruct (decide (b = 0)) as [->|]; [apply Z.testbit_0_l|].
  apply Z.bits_above_log2; [lia|]. apply Z.lt_le_trans with 8; [|done].
  apply Z.log2_lt_pow2; lia.
Qed.

Lemma testbit_cfg_byte w k n :
  0 ≤ n → Z.testbit (cfg_byte w k) n = (Z.testbit w (n + 8 * Z.of_nat k) && (n <? 8)).
Proof.
  intros Hn. unfold cfg_byte. rewrite Z.land_spec, Z.shiftr_spec by lia. f_equal.
  change 255 with (Z.ones 8). destruct (Z.ltb_spec n 8).
  - by apply Z.ones_spec_low.
  - apply Z.ones_spec_high. lia.
Qed.

Lemma cfg_byte_insert w b j k :
  0 ≤ b < 256 → (j < 4)%nat → (k < 4)%nat →
  cfg_byte (cfg_insert w b (Z.of_nat j * 8)) k = if decide (k = j) then b else cfg_byte w k.
Proof.
  intros Hb Hj Hk. apply Z.bits_inj'. intros n Hn.
  rewrite testbit_cfg_byte by lia. unfold cfg_insert.
  set (m := n + 8 * Z.of_nat k).
  rewrite Z.lor_spec, Z.land_spec, Z.lxor_spec, !Z.shiftl_spec by lia.
  destruct (Z.ltb_spec n 8) as [H8|H8].
  2: { rewrite andb_false_r. case_decide.
       - symmetry. by apply testbit_small.
       - rewrite testbit_cfg_byte by lia. destruct (Z.ltb_spec n 8); [lia|]. by rewrite andb_false_r. }
  rewrite andb_true_r. change (2 ^ 32 - 1) with (Z.ones 32).
  rewrite (Z.ones_spec_low 32) by lia. case_decide as Hkj.
  - subst k. replace (m - Z.of_nat j * 8) with n by lia.
    change 255 with (Z.ones 8). rewrite Z.ones_spec_low by lia. simpl. by rewrite andb_false_r.
  - rewrite testbit_cfg_byte by lia. destruct (Z.ltb_spec n 8); [|lia]. fold m.
    destruct (decide (m - Z.of_nat j * 8 < 0)).
    + rewrite !(Z.testbit_neg_r _ (m - Z.of_nat j * 8)) by lia. simpl.
      by rewrite !andb_true_r, orb_false_r.
    + rewrite !(testbit_small _ (m - Z.of_nat j * 8)) by lia. simpl.
      by rewrite !andb_true_r, orb_false_r.
Qed.

Lemma to_byte_range c : 0 ≤ to_byte c < 256.
Proof. by destruct c as [[] [] [] [] []]; vm_compute; split; congruence. Qed.

(** ** Lemmas: [configure_pmp] *)

Lemma cfg_write_insert w b j k :
  0 ≤ b < 256 → (j < 4)%nat → (k < 4)%nat →
  cfg_byte (cfg_write w (cfg_insert w b (Z.of_nat j * 8))) k =
    if decide (k = j) then if Z.testbit (cfg_byte w k) 7 then cfg_byte w k else b
    else cfg_byte w k.
Proof.
  intros. rewrite cfg_byte_write by done. unfold keep_locked.
  rewrite cfg_byte_insert by done. case_decide; case_match; done.
Qed.

Lemma entry_cfg_low r e : (e < 4)%nat → entry_cfg r e = cfg_byte (pmpcfg0 r) e.
Proof. intros. unfold entry_cfg. by destruct (Nat.ltb_spec e 4); [|lia]. Qed.

Lemma entry_cfg_high r e : (4 ≤ e)%nat → entry_cfg r e = cfg_byte (pmpcfg1 r) (e - 4).
Proof. intros. unfold entry_cfg. by destruct (Nat.ltb_spec e 4); [lia|]. Qed.

Lemma csrw_pmpaddr_cfg e v r :
  pmpcfg0 (csrw_pmpaddr e v r) = pmpcfg0 r ∧ pmpcfg1 (csrw_pmpaddr e v r) = pmpcfg1 r.
Proof. unfold csrw_pmpaddr. by case_match. Qed.

Lemma csrw_pmpaddr_addr e v r e' :
  length (pmpaddr r) = 16%nat → (e < 16)%nat →
  default 0 (pmpaddr (csrw_pmpaddr e v r) !! e') =
    if decide (e' = e ∧ entry_locked r e = false) then v else entry_addr r e'.
Proof.
  intros Hl He. unfold csrw_pmpaddr, entry_addr.
  destruct (entry_locked r e).
  - by rewrite decide_False by naive_solver.
  - simpl. case_decide as Hc.
    + destruct Hc as [-> _]. rewrite list_lookup_insert_eq by lia. done.
    + rewrite list_lookup_insert_ne by naive_solver. done.
Qed.

(** The whole effect of [configure_pmp] on the registers. *)
Lemma configure_pmp_spec e base size c r :
  (e ≤ 6)%nat → length (pmpaddr r) = 16%nat →
  ∃ r', configure_pmp e base size c r = Done r' ∧ length (pmpaddr r') = 16%nat ∧
    ∀ e', (e' < 8)%nat →
      entry_cfg r' e' =
        (if decide (e' = e ∧ entry_locked r e = false) then to_byte c else entry_cfg r e') ∧
      entry_addr r' e' =
        (if decide (e' = e ∧ entry_locked r e = false) then napot_val base size
         else entry_addr r e').
Proof.
  intros He Hl. unfold configure_pmp. destruct (Nat.ltb_spec 6 e); [lia|].
  pose proof (csrw_pmpaddr_cfg e (napot_val base size) r) as [Hc0 Hc1].
  pose proof (csrw_pmpaddr_addr e (napot_val base size) r) as Haddr.
  set (r1 := csrw_pmpaddr e (napot_val base size) r) in *.
  assert (Hl1 : length (pmpaddr r1) = 16%nat).
  { unfold r1, csrw_pmpaddr. case_match; [done|]. simpl. by rewrite length_insert. }
  pose proof (to_byte_range c) as Hb.
  destruct (decide (e < 4)%nat) as [Hlo|Hhi].
  - rewrite Nat.div_small, Nat.mod_small by lia. simpl.
    eexists. split; [done|]. split; [done|]. intros e' He'. split.
    2: { unfold entry_addr at 1. simpl. by rewrite Haddr by lia. }
    destruct (decide (e' < 4)%nat) as [Hlo'|Hhi'].
    + rewrite !entry_cfg_low by done. simpl. rewrite Hc0, cfg_write_insert by done.
      unfold entry_locked. rewrite entry_cfg_low by done.
      destruct (decide (e' = e)) as [->|Hne].
      * destruct (Z.testbit (cfg_byte (pmpcfg0 r) e) 7);
          [by rewrite decide_False by naive_solver|by rewrite decide_True].
      * by rewrite decide_False by naive_solver.
    + rewrite !entry_cfg_high by lia. simpl. rewrite Hc1.
      rewrite decide_False; [done|]. intros [-> _]. lia.
  - assert (e / 4 = 1)%nat as -> by (symmetry; apply (Nat.div_unique _ _ _ (e - 4)); lia).
    assert (e mod 4 = e - 4)%nat as -> by (symmetry; apply (Nat.mod_unique _ _ 1); lia). simpl.
    eexists. split; [done|]. split; [done|]. intros e' He'. split.
    2: { unfold entry_addr at 1. simpl. by rewrite Haddr by lia. }
    destruct (decide (e' < 4)%nat) as [Hlo'|Hhi'].
    + rewrite !entry_cfg_low by done. simpl. rewrite Hc0.
      rewrite decide_False; [done|]. intros [-> _]. lia.
    + rewrite !entry_cfg_high by lia. simpl. rewrite Hc1, cfg_write_insert by lia.
      unfold entry_locked. rewrite entry_cfg_high by lia.
      destruct (decide (e' = e)) as [->|Hne].
      * rewrite decide_True by done. destruct (Z.testbit (cfg_byte (pmpcfg1 r) (e - 4)) 7);
          [by rewrite decide_False by naive_solver|by rewrite decide_True].
      * rewrite decide_False by lia. by rewrite decide_False by naive_solver.
Qed.

(** ** Lemmas: naturally aligned regions *)

Lemma lor_ones_shiftr x y k :
  0 ≤ k → Z.lor x (Z.ones k) = Z.lor y (Z.ones k) ↔ Z.shiftr x k = Z.shiftr y k.
Proof.
  intros Hk. split; intros H; apply Z.bits_inj'; intros n Hn.
  - rewrite !Z.shiftr_spec by lia.
    apply (f_equal (λ z, Z.testbit z (n + k))) in H.
    by rewrite !Z.lor_spec, !Z.ones_spec_high, !orb_false_r in H by lia.
  - rewrite !Z.lor_spec. destruct (decide (n < k)).
    + by rewrite !Z.ones_spec_low, !orb_true_r by lia.
    + rewrite !Z.ones_spec_high, !orb_false_r by lia.
      apply (f_equal (λ z, Z.testbit z (n - k))) in H.
      rewrite !Z.shiftr_spec in H by lia. by replace (n - k + k) with n in H by lia.
Qed.

Lemma land_shiftl_small q b k :
  0 ≤ k → 0 ≤ b < 2 ^ k → Z.land (Z.shiftl q k) b = 0.
Proof.
  intros Hk Hb. apply Z.bits_inj'. intros n Hn.
  rewrite Z.land_spec, Z.shiftl_spec, Z.testbit_0_l by lia.
  destruct (decide (n < k)); [by rewrite Z.testbit_neg_r by lia|].
  destruct (decide (b = 0)) as [->|]; [by rewrite Z.testbit_0_l, andb_false_r|].
  rewrite (Z.bits_above_log2 b n), andb_false_r; [done|lia|].
  apply Z.lt_le_trans with k; [|lia]. by apply Z.log2_lt_pow2; lia.
Qed.

Lemma lor_shiftl_add q b k :
  0 ≤ k → 0 ≤ b < 2 ^ k → Z.lor (Z.shiftl q k) b = q * 2 ^ k + b.
Proof.
  intros Hk Hb. pose proof (land_shiftl_small q b k Hk Hb) as Hz.
  rewrite <- Z.lxor_lor by done. rewrite <- Z.add_nocarry_lxor by done.
  by rewrite Z.shiftl_mul_pow2.
Qed.

Lemma napot_val_eq q n :
  3 ≤ n ≤ 32 → napot_val (q * 2 ^ n) (2 ^ n) = q * 2 ^ (n - 2) + (2 ^ (n - 3) - 1).
Proof.
  intros Hn. unfold napot_val.
  assert (Hp : 0 < 2 ^ (n - 3)) by (apply Z.pow_pos_nonneg; lia).
  assert (H2 : 2 ^ (n - 2) = 2 * 2 ^ (n - 3)).
  { replace (n - 2) with (1 + (n - 3)) by lia. rewrite Z.pow_add_r by lia. done. }
  assert (Hpn : 2 ^ n = 8 * 2 ^ (n - 3)).
  { replace n with (3 + (n - 3)) at 1 by lia. rewrite Z.pow_add_r by lia. done. }
  assert (Hle : 2 ^ n ≤ 2 ^ 32) by (apply Z.pow_le_mono_r; lia).
  replace (Z.shiftr (q * 2 ^ n) 2) with (Z.shiftl q (n - 2)).
  2: { rewrite Z.shiftl_mul_pow2, Z.shiftr_div_pow2 by lia. rewrite H2, Hpn.
       replace (q * (8 * 2 ^ (n - 3))) with (q * (2 * 2 ^ (n - 3)) * 2 ^ 2) by lia.
       by rewrite Z.div_mul. }
  replace (2 ^ n / 2 - 1) with (4 * 2 ^ (n - 3) - 1).
  2: { rewrite Hpn. replace (8 * 2 ^ (n - 3)) with (4 * 2 ^ (n - 3) * 2) by lia.
       by rewrite Z.div_mul. }
  rewrite u32_small by lia.
  replace (Z.shiftr (4 * 2 ^ (n - 3) - 1) 2) with (2 ^ (n - 3) - 1).
  2: { rewrite Z.shiftr_div_pow2 by lia. change (2 ^ 2) with 4. Z.div_mod_to_equations. lia. }
  apply lor_shiftl_add; lia.
Qed.

(** The mask of a NAPOT register: its trailing ones and the zero above them. *)
Lemma napot_mask q k :
  0 ≤ k → let p := q * 2 ^ (k + 1) + (2 ^ k - 1) in Z.lxor p (p + 1) = Z.ones (k + 1).
Proof.
  intros Hk p. assert (0 < 2 ^ k) by (apply Z.pow_pos_nonneg; lia).
  assert (Hk1 : 2 ^ (k + 1) = 2 * 2 ^ k) by (rewrite Z.pow_add_r; lia).
  replace (p + 1) with (q * 2 ^ (k + 1) + 2 ^ k) by lia. unfold p.
  rewrite <- !lor_shiftl_add by lia. apply Z.bits_inj'. intros n Hn.
  rewrite Z.lxor_spec, !Z.lor_spec, !Z.shiftl_spec by lia.
  replace (2 ^ k - 1) with (Z.ones k) by (rewrite Z.ones_equiv; lia).
  rewrite Z.pow2_bits_eqb by lia.
  destruct (decide (n < k + 1)).
  - rewrite (Z.testbit_neg_r _ (n - (k + 1))) by lia. rewrite (Z.ones_spec_low (k + 1)) by lia.
    destruct (decide (n = k)) as [->|].
    + rewrite Z.ones_spec_high by lia. by rewrite Z.eqb_refl.
    + rewrite Z.ones_spec_low by lia. by destruct (Z.eqb_spec k n); [lia|].
  - rewrite !Z.ones_spec_high by lia. destruct (Z.eqb_spec k n); [lia|].
    by rewrite !orb_false_r, xorb_nilpotent.
Qed.

Lemma napot_match_block base n a :
  3 ≤ n ≤ 32 → base mod 2 ^ n = 0 →
  napot_match (napot_val base (2 ^ n)) a = true ↔ in_block base (2 ^ n) a.
Proof.
  intros Hn Hal. assert (Hp : 0 < 2 ^ n) by (apply Z.pow_pos_nonneg; lia).
  apply Z.mod_divide in Hal as [q ->]; [|lia].
  rewrite napot_val_eq by done. unfold napot_match, in_block.
  replace (n - 2) with ((n - 3) + 1) by lia. rewrite napot_mask by lia.
  rewrite Z.eqb_eq, lor_ones_shiftr by lia.
  rewrite Z.shiftr_shiftr by lia. replace (2 + (n - 3 + 1)) with n by lia.
  rewrite !Z.shiftr_div_pow2 by lia.
  assert (Hq : (q * 2 ^ (n - 3 + 1) + (2 ^ (n - 3) - 1)) / 2 ^ (n - 3 + 1) = q).
  { assert (0 < 2 ^ (n - 3)) by (apply Z.pow_pos_nonneg; lia).
    assert (2 ^ (n - 3 + 1) = 2 * 2 ^ (n - 3)) by (rewrite Z.pow_add_r; lia).
    rewrite Z.div_add_l by lia. rewrite Z.div_small by lia. lia. }
  rewrite Hq. split.
  - intros <-. pose proof (Z.div_mod a (2 ^ n) ltac:(lia)).
    pose proof (Z.mod_pos_bound a (2 ^ n) Hp). lia.
  - intros [H1 H2]. symmetry. apply (Z.div_unique _ _ _ (a - q * 2 ^ n)); lia.
Qed.

(** ** Lemmas: sequences of configurations *)

(** Both [init_memory_protection] and [reprogram_pmp_stack] are runs of
    [configure_pmp] over a list of settings. *)
Abbreviation setting := (nat * Z * Z * PmpConfig)%type.

Fixpoint configure_all (l : list setting) (r : PmpRegs) : result PmpRegs :=
  match l with
  | [] => Done r
  | (e, base, size, c) :: l => r' ← configure_pmp e base size c r; configure_all l r'
  end.

Definition setting_entry (x : setting) : nat := let '(e, _, _, _) := x in e.

Lemma configure_all_spec l r :
  length (pmpaddr r) = 16%nat → NoDup (map setting_entry l) →
  (∀ e, e ∈ map setting_entry l → (e ≤ 6)%nat ∧ entry_locked r e = false) →
  ∃ r', configure_all l r = Done r' ∧ length (pmpaddr r') = 16%nat ∧
    (∀ e base size c, (e, base, size, c) ∈ l →
       entry_cfg r' e = to_byte c ∧ entry_addr r' e = napot_val base size) ∧
    (∀ e, (e < 8)%nat → e ∉ map setting_entry l →
       entry_cfg r' e = entry_cfg r e ∧ entry_addr r' e = entry_addr r e).
Proof.
  revert r. induction l as [|[[[e base] size] c] l IH]; intros r Hl Hnd Hok.
  { exists r. split_and!; [done..| |done]. by intros ? ? ? ? Hin%elem_of_nil. }
  simpl in *. pose proof (NoDup_cons_1_1 _ _ Hnd) as Hnin. apply NoDup_cons_1_2 in Hnd.
  destruct (Hok e) as [He Hun]; [by left|].
  destruct (configure_pmp_spec e base size c r He Hl) as (r1 & -> & Hl1 & H1). simpl.
  assert (Hother : ∀ e', (e' < 8)%nat → e' ≠ e →
    entry_cfg r1 e' = entry_cfg r e' ∧ entry_addr r1 e' = entry_addr r e').
  { intros e' He' Hne. destruct (H1 e' He') as [-> ->].
    by rewrite !decide_False by naive_solver. }
  destruct (IH r1 Hl1 Hnd) as (r' & -> & Hl' & Hin & Hout).
  { intros e' Hin. destruct (Hok e') as [He' Hun']; [by right|]. split; [done|].
    unfold entry_locked in *. destruct (Hother e') as [-> _]; [lia| |done].
    by intros ->. }
  exists r'. split_and!; [done..| |].
  - intros e' b' s' c' [Heq|Hin']%elem_of_cons; [|by apply Hin].
    simplify_eq. destruct (Hout e) as [-> ->]; [lia|done|].
    destruct (H1 e) as [-> ->]; [lia|]. by rewrite !decide_True.
  - intros e' He' [Hne Hnin']%not_elem_of_cons.
    destruct (Hout e' He' Hnin') as [-> ->]. by apply Hother.
Qed.

Definition stack_setting (active : string) (st : string * Z * nat) : setting :=
  let '(nm, addr, e) := st in
  if bool_decide (nm = active) then (e, 0, 1024, cfg_off) else (e, addr, 1024, cfg_block).

Lemma reprogram_all_settings active sts r :
  reprogram_all active sts r = configure_all (map (stack_setting active) sts) r.
Proof.
  revert r. induction sts as [|[[nm addr] e] sts IH]; intros r; simpl; [done|].
  unfold stack_setting. case_bool_decide; simpl.
  all: destruct (configure_pmp _ _ _ _ r); simpl; [apply IH|done..].
Qed.

Lemma setting_entries active L :
  map setting_entry (map (stack_setting active) (stacks L)) = [1; 2; 4; 5; 6]%nat.
Proof.
  rewrite map_map. simpl. unfold stack_setting.
  by repeat case_bool_decide.
Qed.

Lemma stack_unlocked L active r e :
  pmp_configured L active r → e ∈ [1; 2; 4; 5; 6]%nat → entry_locked r e = false.
Proof.
  intros Hc He. assert (∃ nm addr, (nm, addr, e) ∈ stacks L) as (nm & addr & Hin).
  { rewrite !elem_of_cons, elem_of_nil in He. unfold stacks.
    destruct_or! He; subst; try done; do 2 eexists; repeat first [by left | right]. }
  pose proof (conf_stack _ _ _ Hc _ _ _ Hin) as H. unfold entry_locked.
  case_bool_decide; [by rewrite H|]. destruct H as [-> _]. done.
Qed.

Lemma reprogram_configured L name0 name r :
  pmp_configured L name0 r →
  returns (reprogram_pmp_stack L name r) (pmp_configured L name).
Proof.
  intros Hc. unfold reprogram_pmp_stack. rewrite reprogram_all_settings.
  destruct (configure_all_spec (map (stack_setting name) (stacks L)) r)
    as (r' & -> & Hl & Hin & Hout).
  - apply Hc.
  - rewrite setting_entries. apply (bool_decide_unpack _). reflexivity.
  - rewrite setting_entries. intros e He. split; [|by eapply stack_unlocked].
    rewrite !elem_of_cons, elem_of_nil in He. lia.
  - simpl. rewrite setting_entries in Hout. split; [done|..].
    + destruct (Hout 0%nat) as [-> ->]; [lia|by apply (bool_decide_unpack _)|]. apply Hc.
    + destruct (Hout 3%nat) as [-> ->]; [lia|by apply (bool_decide_unpack _)|]. apply Hc.
    + intros nm addr e He.
      assert (Hs : stack_setting name (nm, addr, e) ∈ map (stack_setting name) (stacks L)).
      { apply list_elem_of_In, in_map, list_elem_of_In. done. }
      unfold stack_setting in Hs at 1. case_bool_decide; apply Hin in Hs; naive_solver.
Qed.

Lemma init_configured L r :
  pmp_reset_ok r →
  returns (init_memory_protection L r) (pmp_configured L EmptyString).
Proof.
  intros [Hl Hun].
  set (l := [(0%nat, FLASH_BASE, FLASH_SIZE, mkPmpConfig true false true Napot true);
    (1%nat, TASK_WD_STACK L, 1024, cfg_block); (2%nat, TASK_A_STACK L, 1024, cfg_block);
    (4%nat, TASK_B_STACK L, 1024, cfg_block); (5%nat, TASK_C_STACK L, 1024, cfg_block);
    (6%nat, HSM_STACK L, 1024, cfg_block);
    (3%nat, SRAM_BASE, SRAM_SIZE, mkPmpConfig true true false Napot false)] : list setting).
  assert (Heq : init_memory_protection L r = configure_all l r).
  { unfold init_memory_protection, l. cbn [configure_all].
    repeat (destruct (configure_pmp _ _ _ _ _); cbn [mbind result_bind]; try done). }
  rewrite Heq. destruct (configure_all_spec l r) as (r' & -> & Hl' & Hin & _).
  - done.
  - apply (bool_decide_unpack _). reflexivity.
  - intros e He. simpl in He. rewrite !elem_of_cons, elem_of_nil in He. split; [lia|]. apply Hun. lia.
  - simpl. split; [done|..].
    + destruct (Hin 0%nat FLASH_BASE FLASH_SIZE (mkPmpConfig true false true Napot true)) as [-> ->];
        [by left|done].
    + destruct (Hin 3%nat SRAM_BASE SRAM_SIZE (mkPmpConfig true true false Napot false)) as [-> ->];
        [by do 6 right; left|done].
    + intros nm addr e He. assert ((e, addr, 1024, cfg_block) ∈ l) as Hs.
      { unfold l, stacks in *. rewrite !elem_of_cons, elem_of_nil in He.
        destruct_or! He; simplify_eq; repeat first [by left | right]. }
      apply Hin in Hs. case_bool_decide; [|done]. subst.
      unfold stacks in He. rewrite !elem_of_cons, elem_of_nil in He. by destruct_or! He.
Qed.

(** ** Lemmas: checking an access *)

Lemma user_allows_first r acc a e :
  (e < 7)%nat → entry_match r a e = true →
  (∀ e', (e' < e)%nat → entry_match r a e' = false) →
  user_allows r acc a = entry_perm r e acc.
Proof.
  intros He Hm Hlow. unfold user_allows. cbn [seq find].
  do 7 (destruct e as [|e]; [rewrite Hm; rewrite ?Hlow by lia; done|
    rewrite Hlow by lia]). lia.
Qed.

Lemma match_napot r a e base n :
  3 ≤ n ≤ 32 → base mod 2 ^ n = 0 →
  entry_mode r e = 3 → entry_addr r e = napot_val base (2 ^ n) →
  entry_match r a e = true ↔ in_block base (2 ^ n) a.
Proof.
  intros Hn Hb Hm Ha. unfold entry_match. rewrite Hm, Ha. by apply napot_match_block.
Qed.

Lemma match_flash L act r a :
  pmp_configured L act r → entry_match r a 0 = true ↔ in_block FLASH_BASE FLASH_SIZE a.
Proof.
  intros Hc. destruct (conf_flash _ _ _ Hc) as [H1 H2].
  apply (match_napot r a 0 FLASH_BASE 22); [lia|done| |done].
  unfold entry_mode. by rewrite H1.
Qed.

Lemma match_sram L act r a :
  pmp_configured L act r → entry_match r a 3 = true ↔ in_block SRAM_BASE SRAM_SIZE a.
Proof.
  intros Hc. destruct (conf_sram _ _ _ Hc) as [H1 H2].
  apply (match_napot r a 3 SRAM_BASE 19); [lia|done| |done].
  unfold entry_mode. by rewrite H1.
Qed.

Lemma stacks_all L nm addr e : (nm, addr, e) ∈ stacks L → addr ∈ all_stacks L.
Proof.
  unfold stacks, all_stacks. intros He. rewrite !elem_of_cons, elem_of_nil in He.
  destruct_or! He; simplify_eq; repeat first [by left | right].
Qed.

Lemma stack_block L addr :
  layout_ok L → addr ∈ all_stacks L →
  addr mod 1024 = 0 ∧ (∀ a, in_block addr 1024 a → in_block SRAM_BASE SRAM_SIZE a).
Proof.
  intros [Hal Hram _] Hin. rewrite List.Forall_forall in Hal, Hram.
  apply list_elem_of_In in Hin. split; [by apply Hal|]. intros a. apply Hram in Hin.
  unfold in_block, SRAM_BASE, SRAM_SIZE. lia.
Qed.

Lemma match_stack L act r a nm addr e :
  layout_ok L → pmp_configured L act r → (nm, addr, e) ∈ stacks L →
  entry_match r a e = true ↔ nm ≠ act ∧ in_block addr 1024 a.
Proof.
  intros HL Hc Hin. pose proof (conf_stack _ _ _ Hc _ _ _ Hin) as H.
  destruct (stack_block _ _ HL (stacks_all _ _ _ _ Hin)) as [Hal _].
  case_bool_decide as Hn.
  - unfold entry_match, entry_mode. rewrite H. simpl. naive_solver.
  - destruct H as [H1 H2].
    rewrite (match_napot r a e addr 10); [|lia|done|unfold entry_mode; by rewrite H1|done].
    naive_solver.
Qed.

Lemma flash_sram_disjoint a :
  in_block FLASH_BASE FLASH_SIZE a → in_block SRAM_BASE SRAM_SIZE a → False.
Proof. unfold in_block, FLASH_BASE, FLASH_SIZE, SRAM_BASE, SRAM_SIZE. lia. Qed.

Lemma not_match r a e (P : Prop) : (entry_match r a e = true ↔ P) → ¬ P → entry_match r a e = false.
Proof. intros H HP. destruct (entry_match r a e); [|done]. exfalso. by apply HP, H. Qed.

Lemma stacks_disjoint L nm1 a1 e1 nm2 a2 e2 a :
  layout_ok L → (nm1, a1, e1) ∈ stacks L → (nm2, a2, e2) ∈ stacks L → e1 ≠ e2 →
  in_block a1 1024 a → in_block a2 1024 a → False.
Proof.
  intros HL H1 H2 Hne Hb1 Hb2.
  assert (a1 = a2) as ->.
  { destruct (stack_block _ _ HL (stacks_all _ _ _ _ H1)) as [Ha1 _].
    destruct (stack_block _ _ HL (stacks_all _ _ _ _ H2)) as [Ha2 _].
    unfold in_block in *. Z.div_mod_to_equations. lia. }
  destruct HL as [_ _ Hd]. unfold all_stacks, stacks in *.
  rewrite !elem_of_cons, elem_of_nil in H1, H2.
  repeat (let Hn := fresh "Hn" in pose proof (NoDup_cons_1_1 _ _ Hd) as Hn;
    rewrite !not_elem_of_cons in Hn; apply NoDup_cons_1_2 in Hd).
  destruct_or! H1; destruct_or! H2; simplify_eq; destruct_and!; congruence.
Qed.

Lemma block_unique L b1 b2 a :
  layout_ok L → b1 ∈ all_stacks L → b2 ∈ all_stacks L → in_block b1 1024 a → in_block b2 1024 a → b1 = b2.
Proof.
  intros HL H1 H2 Hb1 Hb2. destruct (stack_block _ _ HL H1) as [Ha1 _]. destruct (stack_block _ _ HL H2) as [Ha2 _].
  unfold in_block in *. Z.div_mod_to_equations. lia.
Qed.

(** The kernel's stacks are in SRAM and apart from the two protected ones. *)
Lemma kernel_stacks_apart L b a :
  layout_ok L → b ∈ [KERNEL_STACK_0 L; KERNEL_STACK_1 L] → in_block b 1024 a →
  in_block SRAM_BASE SRAM_SIZE a ∧ ¬ in_block (TASK_WD_STACK L) 1024 a ∧ ¬ in_block (TASK_A_STACK L) 1024 a.
Proof.
  intros HL Hb Ha.
  assert (Hin : b ∈ all_stacks L) by (unfold all_stacks; rewrite !elem_of_cons, elem_of_nil in *; tauto).
  assert (Hd : b ≠ TASK_WD_STACK L ∧ b ≠ TASK_A_STACK L).
  { destruct HL as [_ _ Hd]. unfold all_stacks in Hd. rewrite !elem_of_cons, elem_of_nil in Hb.
    repeat (let Hn := fresh "Hn" in pose proof (NoDup_cons_1_1 _ _ Hd) as Hn;
      rewrite !not_elem_of_cons in Hn; apply NoDup_cons_1_2 in Hd).
    destruct_or! Hb; subst; destruct_and!; split; congruence. }
  destruct Hd as [Hw Hta]. split_and!.
  - by apply (stack_block L b HL).
  - intros Hb'. apply Hw. eapply (block_unique L _ _ a HL); try done. unfold all_stacks. rewrite !elem_of_cons. tauto.
  - intros Hb'. apply Hta. eapply (block_unique L _ _ a HL); try done. unfold all_stacks. rewrite !elem_of_cons. tauto.
Qed.

(** ** The registers from boot through any number of context switches *)

Fixpoint reprogram_seq (L : Layout) (names : list string) (r : PmpRegs) : result PmpRegs :=
  match names with
  | [] => Done r
  | n :: names => r' ← reprogram_pmp_stack L n r; reprogram_seq L names r'
  end.

Definition pmp_after (L : Layout) (names : list string) (active : string) (r : PmpRegs)
    : result PmpRegs :=
  r ← init_memory_protection L r;
  r ← reprogram_seq L names r;
  reprogram_pmp_stack L active r.

Lemma pmp_after_configured L names active r :
  pmp_reset_ok r → returns (pmp_after L names active r) (pmp_configured L active).
Proof.
  intros Hr. unfold pmp_after.
  destruct (returns_Done _ _ (init_configured L r Hr)) as (r1 & -> & Hc1). simpl.
  assert (∃ r2 n, reprogram_seq L names r1 = Done r2 ∧ pmp_configured L n r2) as (r2 & n & -> & Hc2).
  { clear Hr. revert r1 Hc1. generalize EmptyString.
    induction names as [|nm names IH]; intros n0 r1 Hc; simpl; [by eauto|].
    destruct (returns_Done _ _ (reprogram_configured L n0 nm r1 Hc)) as (r2 & -> & Hc2). simpl.
    by eapply IH. }
  simpl. by eapply reprogram_configured.
Qed.

(** ** Properties *)

(** C33. NAPOT encoding.  For every power-of-two size of at least 8 bytes and
    every base aligned to it, the address register value computed by
    [configure_pmp] makes the hart match exactly the bytes of the block
    [base, base + size). *)
Theorem napot_encoding_exact base n a :
  3 ≤ n ≤ 32 → base mod 2 ^ n = 0 →
  napot_match (napot_val base (2 ^ n)) a = true ↔ base ≤ a < base + 2 ^ n.
Proof. apply napot_match_block. Qed.

Lemma napot_encoding_exact_witness :
  napot_match (napot_val 0x3FC80000 (2 ^ 10)) 0x3FC803FF = true ↔
  0x3FC80000 ≤ 0x3FC803FF < 0x3FC80000 + 2 ^ 10.
Proof. apply (napot_encoding_exact 0x3FC80000 10 0x3FC803FF); [lia|reflexivity]. Defined.

(** What configured registers allow on a stack block. *)
Section configured.
Context (L : Layout) (active : string) (r : PmpRegs) (HL : layout_ok L) (Hc : pmp_configured L active r).

Lemma no_flash_match nm addr e a :
  (nm, addr, e) ∈ stacks L → in_block addr 1024 a → entry_match r a 0 = false.
Proof.
  intros Hin Ha. destruct (stack_block _ _ HL (stacks_all _ _ _ _ Hin)) as [_ Hsram].
  eapply not_match; [by eapply match_flash|]. intros Hf. eapply flash_sram_disjoint; eauto.
Qed.

Lemma no_other_match nm addr e a nm' addr' e' :
  (nm, addr, e) ∈ stacks L → in_block addr 1024 a →
  (nm', addr', e') ∈ stacks L → e' ≠ e → entry_match r a e' = false.
Proof.
  intros Hin Ha Hin' Hne. eapply not_match; [by eapply match_stack|].
  intros [_ Hb]. by eapply (stacks_disjoint L nm' addr' e' nm addr e a).
Qed.

Lemma wd_stack : ("Watchdog"%string, TASK_WD_STACK L, 1%nat) ∈ stacks L.
Proof. by left. Qed.
Lemma ta_stack : ("Task A"%string, TASK_A_STACK L, 2%nat) ∈ stacks L.
Proof. by right; left. Qed.

Lemma configured_isolates nm addr e a acc :
  (nm, addr, e) ∈ stacks L → in_block addr 1024 a → (e < 3)%nat → nm ≠ active →
  user_allows r acc a = false.
Proof.
  intros Hin Ha He Hne. pose proof (conf_stack _ _ _ Hc _ _ _ Hin) as Hcfg.
  rewrite bool_decide_false in Hcfg by done. destruct Hcfg as [Hcfg _].
  rewrite (user_allows_first r acc a e).
  - unfold entry_perm. rewrite Hcfg. by destruct acc.
  - lia.
  - apply (match_stack L active r a nm addr e); done.
  - intros [|[|[|]]] He'; [by eapply no_flash_match| |lia|lia].
    eapply no_other_match; [done|done|exact wd_stack|lia].
Qed.

Lemma configured_own_stack addr e a :
  (active, addr, e) ∈ stacks L → in_block addr 1024 a →
  user_allows r Load a = true ∧ user_allows r Store a = true ∧ user_allows r Fetch a = false.
Proof.
  intros Hin Ha. destruct (stack_block _ _ HL (stacks_all _ _ _ _ Hin)) as [_ Hsram].
  assert (He : entry_match r a e = false).
  { eapply not_match; [by eapply match_stack|]. by intros [? _]. }
  assert (Hst : ∀ acc, user_allows r acc a = entry_perm r 3 acc).
  { intros acc. apply user_allows_first; [lia|by apply (match_sram L active), Hsram|].
    intros [|[|[|]]] He'; [by eapply no_flash_match| | |lia].
    - destruct (decide (e = 1%nat)) as [->|]; [done|].
      eapply no_other_match; [done|done|exact wd_stack|done].
    - destruct (decide (e = 2%nat)) as [->|]; [done|].
      eapply no_other_match; [done|done|exact ta_stack|done]. }
  rewrite !Hst. unfold entry_perm. destruct (conf_sram _ _ _ Hc) as [-> _]. done.
Qed.

(** Everywhere else in SRAM entry 3 decides. *)
Lemma configured_open a :
  in_block SRAM_BASE SRAM_SIZE a →
  (∀ nm addr e, (nm, addr, e) ∈ stacks L → (e < 3)%nat → nm ≠ active → ¬ in_block addr 1024 a) →
  user_allows r Load a = true ∧ user_allows r Store a = true.
Proof.
  intros Hsram Hout.
  assert (Hlow : ∀ nm addr e, (nm, addr, e) ∈ stacks L → (e < 3)%nat → entry_match r a e = false).
  { intros nm addr e Hin He. eapply not_match; [by eapply match_stack|]. intros [Hne Hb]. by eapply Hout. }
  assert (Hst : ∀ acc, user_allows r acc a = entry_perm r 3 acc).
  { intros acc. apply user_allows_first; [lia|by apply (match_sram L active)|].
    intros [|[|[|]]] He'; [|by eapply Hlow; [exact wd_stack|lia]|by eapply Hlow; [exact ta_stack|lia]|lia].
    eapply not_match; [by eapply match_flash|]. intros Hf. by eapply flash_sram_disjoint. }
  rewrite !Hst. unfold entry_perm. destruct (conf_sram _ _ _ Hc) as [-> _]. done.
Qed.
End configured.

(** Stack isolation that holds.  From boot through any sequence of context
    switches, while task [active] runs, a U-mode access of any kind to the stack
    of the Watchdog or of Task A (the two tasks with an entry below the broad
    SRAM entry 3) is refused unless it is the active task's own stack, and the
    active task may read and write, but not execute, its own stack. *)
Lemma pmp_isolates_low_entries L names active r nm addr e a :
  layout_ok L → pmp_reset_ok r → (nm, addr, e) ∈ stacks L → in_block addr 1024 a →
  returns (pmp_after L names active r) (λ r',
    ((e < 3)%nat → nm ≠ active → ∀ acc, user_allows r' acc a = false) ∧
    (nm = active →
       user_allows r' Load a = true ∧ user_allows r' Store a = true ∧
       user_allows r' Fetch a = false)).
Proof.
  intros HL Hr Hin Ha. eapply returns_mono; [by apply pmp_after_configured|].
  intros r' Hc. split.
  - intros He Hne acc. by eapply configured_isolates.
  - intros ->. by eapply configured_own_stack.
Qed.

(** A layout the linker could produce: nine consecutive blocks in RAM. *)
Definition sample_layout : Layout :=
  mkLayout 0x3FC80400 0x3FC80800 0x3FC80C00 0x3FC80000 0x3FC81000
           0x3FC81400 0x3FC81800 0x3FC81C00 0x3FC82000.

Lemma sample_layout_ok : layout_ok sample_layout.
Proof. split; apply (bool_decide_unpack _); vm_compute; exact I. Qed.

Lemma pmp_reset_reset_ok : pmp_reset_ok pmp_reset.
Proof. split; [done|]. intros e He. do 7 (destruct e as [|e]; [done|]). lia. Qed.

Lemma pmp_isolates_low_entries_witness :
  returns (pmp_after sample_layout ["Task A"%string] "Task C" pmp_reset) (λ r',
    ∀ acc, user_allows r' acc 0x3FC80400 = false).
Proof.
  eapply returns_mono.
  - apply (pmp_isolates_low_entries sample_layout ["Task A"%string] "Task C" pmp_reset
             "Task A" 0x3FC80400 2 0x3FC80400).
    + exact sample_layout_ok.
    + exact pmp_reset_reset_ok.
    + right. left.
    + split; vm_compute; congruence.
  - simpl. intros r' [H _]. apply H; [lia|discriminate].
Defined.

(** C34. Entries 4, 5 and 6 are shadowed.  The hart serves the lowest-numbered
    matching entry, and entry 3 covers all of SRAM with read and write access, so
    whichever task is active, U-mode loads and stores to the stacks of Task B,
    Task C and the HSM partition are allowed: the blocking entries that
    [reprogram_pmp_stack] installs for them are never consulted. *)
Theorem pmp_high_entries_shadowed L names active r nm addr e a :
  layout_ok L → pmp_reset_ok r → (nm, addr, e) ∈ stacks L → (3 < e)%nat →
  in_block addr 1024 a →
  returns (pmp_after L names active r) (λ r',
    user_allows r' Load a = true ∧ user_allows r' Store a = true).
Proof.
  intros HL Hr Hin He Ha. eapply returns_mono; [by apply pmp_after_configured|].
  intros r' Hc. destruct (stack_block _ _ HL (stacks_all _ _ _ _ Hin)) as [_ Hsram].
  apply (configured_open L active r' HL Hc); [by apply Hsram|].
  intros nm' addr' e' Hin' He' _ Hb. apply (stacks_disjoint L nm addr e nm' addr' e' a); try done. lia.
Qed.

Lemma pmp_high_entries_shadowed_witness :
  returns (pmp_after sample_layout ["HSM Task"%string] "Task B" pmp_reset) (λ r',
    user_allows r' Load 0x3FC81000 = true ∧ user_allows r' Store 0x3FC81000 = true).
Proof.
  apply (pmp_high_entries_shadowed sample_layout ["HSM Task"%string] "Task B" pmp_reset
           "HSM Task" 0x3FC81000 6 0x3FC81000).
  - exact sample_layout_ok.
  - exact pmp_reset_reset_ok.
  - do 4 right. left.
  - lia.
  - split; vm_compute; congruence.
Defined.

Lemma configured_entry_cases L act r e :
  pmp_configured L act r → (e < 7)%nat →
  entry_cfg r e = 157 ∨ entry_cfg r e = 27 ∨ entry_cfg r e = 24 ∨ entry_cfg r e = 0.
Proof.
  intros Hc He.
  assert (Hs : ∀ nm addr e', (nm, addr, e') ∈ stacks L → entry_cfg r e' = 24 ∨ entry_cfg r e' = 0).
  { intros nm addr e' Hin. pose proof (conf_stack _ _ _ Hc _ _ _ Hin) as H.
    case_bool_decide; [by right|]. left. apply H. }
  unfold stacks in Hs.
  destruct e as [|[|[|[|[|[|[|]]]]]]]; [..|lia].
  - left. apply Hc.
  - do 2 right. eapply Hs. by left.
  - do 2 right. eapply Hs. by right; left.
  - right. left. apply Hc.
  - do 2 right. eapply Hs. by do 2 right; left.
  - do 2 right. eapply Hs. by do 3 right; left.
  - do 2 right. eapply Hs. by do 4 right; left.
Qed.

(** Write XOR execute.  From boot through any sequence of context switches
    no address can be both written and executed from U-mode; all of Flash is
    readable and executable but never writable, and its entry carries the lock
    bit, so no later [configure_pmp] call can change it. *)
Lemma pmp_write_xor_execute L names active r a :
  pmp_reset_ok r →
  returns (pmp_after L names active r) (λ r',
    ¬ (user_allows r' Store a = true ∧ user_allows r' Fetch a = true) ∧
    (in_block FLASH_BASE FLASH_SIZE a →
       user_allows r' Load a = true ∧ user_allows r' Store a = false ∧
       user_allows r' Fetch a = true) ∧
    (∀ base size c, returns (configure_pmp 0 base size c r') (λ r'',
       entry_cfg r'' 0 = entry_cfg r' 0 ∧ entry_addr r'' 0 = entry_addr r' 0))).
Proof.
  intros Hr. eapply returns_mono; [by apply pmp_after_configured|].
  intros r' Hc. destruct (conf_flash _ _ _ Hc) as [Hcfg Haddr]. split_and!.
  - unfold user_allows. destruct (find (entry_match r' a) (seq 0 7)) as [e|] eqn:E; [|by intros [? _]].
    apply find_some in E as [[_ He]%in_seq _].
    destruct (configured_entry_cases _ _ _ e Hc He) as [Hx|[Hx|[Hx|Hx]]];
      unfold entry_perm; rewrite Hx; by intros [? ?].
  - intros Hf.
    assert (Hst : ∀ acc, user_allows r' acc a = entry_perm r' 0 acc).
    { intros acc. apply user_allows_first; [lia|by apply (match_flash L active)|lia]. }
    rewrite !Hst. unfold entry_perm. by rewrite Hcfg.
  - intros base size c.
    destruct (configure_pmp_spec 0 base size c r') as (r'' & -> & _ & H); [lia|apply Hc|].
    simpl. destruct (H 0%nat) as [-> ->]; [lia|].
    assert (entry_locked r' 0 = true) as -> by (unfold entry_locked; by rewrite Hcfg).
    by rewrite !decide_False by naive_solver.
Qed.

Lemma pmp_write_xor_execute_witness :
  returns (pmp_after sample_layout [] "Task A" pmp_reset) (λ r',
    ¬ (user_allows r' Store 0x42000000 = true ∧ user_allows r' Fetch 0x42000000 = true)).
Proof.
  refine (returns_mono _ _ _ (pmp_write_xor_execute sample_layout [] "Task A" pmp_reset 0x42000000
    pmp_reset_reset_ok) _).
  intros r' H. exact (proj1 H).
Defined.
