(* ===== verification/Spinlock.v ===== *)
(** * Spinlock: the per-hart reentrant spinlock

    Models kernel/src/kernel/spinlock.rs twice.  [lock] and [unlock] are the
    sequential operations the trap handlers call.  The second model executes the
    same code one memory access at a time on any number of harts, with traps
    that suspend a hart's current code and run a handler on top of it, and is
    used for mutual exclusion. *)
From S2P Require Import Prelude.

Record Spinlock := mkLock {
  owner : Z;   (* 0 = unlocked, otherwise the owning hart id + 1 *)
  depth : Z
}.

(** ** Sequential operations *)

Definition spin_new : Spinlock := mkLock 0 0.

Definition Spinlock_default : Inhabited Spinlock := populate spin_new.
#[export] Existing Instance Spinlock_default.

(** [Spinning]: another hart owns the lock, so the loop does not exit. *)
Definition lock (l : Spinlock) (hart_id : Z) : result Spinlock :=
  let me := wrapping_add hart_id 1 in
  if owner l =? me then Done (mkLock (owner l) (wrapping_add (depth l) 1))
  else if owner l =? 0 then Done (mkLock me 1)
  else Spinning.

Definition unlock (l : Spinlock) : Spinlock :=
  let d := wrapping_sub (depth l) 1 in
  if d =? 0 then mkLock 0 d else mkLock (owner l) d.

(** ** The code at the granularity of memory accesses *)

Inductive pc :=
  | PRun        (* outside [lock] and [unlock] *)
  | PLoad       (* [lock]: before [owner.load] *)
  | PIncr       (* [lock]: owner was me, before [depth += 1] *)
  | PCas        (* [lock]: before (another) compare-exchange *)
  | PSet        (* [lock]: compare-exchange done, before [depth = 1] *)
  | PDec        (* [unlock]: before [depth -= 1] *)
  | PStore.     (* [unlock]: depth is zero, before [owner.store(0)] *)

#[export] Instance pc_eq_dec : EqDecision pc.
Proof. solve_decision. Defined.

(** One flow of control: where it is, and how many guards it holds. *)
Record ctx := mkCtx { at_pc : pc; held : nat }.

(** A hart runs [top]; [below] are the flows its traps suspended. *)
Record thread := mkThread { top : ctx; below : list ctx }.

Record world := mkWorld { lk : Spinlock; threads : nat → thread }.

Definition me (h : nat) : Z := Z.of_nat h + 1.

Definition upd (f : nat → thread) (h : nat) (t : thread) : nat → thread :=
  λ h', if decide (h' = h) then t else f h'.

Definition goto (w : world) (h : nat) (l : Spinlock) (p : pc) (n : nat) : world :=
  mkWorld l (upd (threads w) h (mkThread (mkCtx p n) (below (threads w h)))).

(** Guards a hart holds in total. *)
Definition total_held (t : thread) : nat := held (top t) + sum_list_with held (below t).

(** Nested acquisitions are bounded: each one needs its own stack frame on a
    1 KiB stack. *)
Definition MAX_NEST : nat := 1024.

(** One step of hart [h].  [trap_ok p] says whether a trap may suspend the code
    at [p]. *)
Inductive spin_step (trap_ok : pc → bool) (w : world) (h : nat) : world → Prop :=
  | SCallLock n :
      top (threads w h) = mkCtx PRun n → (total_held (threads w h) < MAX_NEST)%nat →
      spin_step trap_ok w h (goto w h (lk w) PLoad n)
  | SLoadMine n :
      top (threads w h) = mkCtx PLoad n → owner (lk w) = me h →
      spin_step trap_ok w h (goto w h (lk w) PIncr n)
  | SLoadOther n :
      top (threads w h) = mkCtx PLoad n → owner (lk w) ≠ me h →
      spin_step trap_ok w h (goto w h (lk w) PCas n)
  | SIncr n :
      top (threads w h) = mkCtx PIncr n →
      spin_step trap_ok w h
        (goto w h (mkLock (owner (lk w)) (wrapping_add (depth (lk w)) 1)) PRun (S n))
  | SCasOk n :
      top (threads w h) = mkCtx PCas n → owner (lk w) = 0 →
      spin_step trap_ok w h (goto w h (mkLock (me h) (depth (lk w))) PSet n)
  | SCasFail n :    (* also the spurious failures of the weak compare-exchange *)
      top (threads w h) = mkCtx PCas n →
      spin_step trap_ok w h (goto w h (lk w) PCas n)
  | SSet n :
      top (threads w h) = mkCtx PSet n →
      spin_step trap_ok w h (goto w h (mkLock (owner (lk w)) 1) PRun (S n))
  | SCallUnlock n :
      top (threads w h) = mkCtx PRun (S n) →
      spin_step trap_ok w h (goto w h (lk w) PDec (S n))
  | SDecMore n :
      top (threads w h) = mkCtx PDec (S n) → wrapping_sub (depth (lk w)) 1 ≠ 0 →
      spin_step trap_ok w h
        (goto w h (mkLock (owner (lk w)) (wrapping_sub (depth (lk w)) 1)) PRun n)
  | SDecLast n :
      top (threads w h) = mkCtx PDec (S n) → wrapping_sub (depth (lk w)) 1 = 0 →
      spin_step trap_ok w h (goto w h (mkLock (owner (lk w)) 0) PStore (S n))
  | SStore n :
      top (threads w h) = mkCtx PStore (S n) →
      spin_step trap_ok w h (goto w h (mkLock 0 (depth (lk w))) PRun n)
  | STrap :
      trap_ok (at_pc (top (threads w h))) = true →
      spin_step trap_ok w h
        (mkWorld (lk w) (upd (threads w) h
           (mkThread (mkCtx PRun 0) (top (threads w h) :: below (threads w h)))))
  | SMret c cs :
      top (threads w h) = mkCtx PRun 0 → below (threads w h) = c :: cs →
      spin_step trap_ok w h (mkWorld (lk w) (upd (threads w) h (mkThread c cs))).

Definition world0 : world := mkWorld spin_new (λ _, mkThread (mkCtx PRun 0) []).

Inductive spin_reachable (trap_ok : pc → bool) : world → Prop :=
  | SReach0 : spin_reachable trap_ok world0
  | SReachS w h w' :
      spin_reachable trap_ok w → spin_step trap_ok w h w' → spin_reachable trap_ok w'.

(** Traps only outside the two lock routines, as when they run with interrupts
    disabled (M-mode trap handlers). *)
Definition masked (p : pc) : bool := bool_decide (p = PRun).
(** Traps anywhere, as in U-mode code. *)
Definition unmasked (p : pc) : bool := true.

(** ** The invariant *)

Definition outside (p : pc) : Prop := p = PRun ∨ p = PLoad ∨ p = PCas.

Definition idle_thread (t : thread) : Prop := total_held t = 0%nat ∧ outside (at_pc (top t)).

Definition owner_thread (l : Spinlock) (t : thread) : Prop :=
  match at_pc (top t) with
  | PSet => total_held t = 0%nat
  | PStore => total_held t = 1%nat ∧ held (top t) = 1%nat ∧ depth l = 0
  | PCas => False
  | PDec => (0 < held (top t))%nat ∧ depth l = Z.of_nat (total_held t)
  | PRun | PLoad | PIncr => (0 < total_held t)%nat ∧ depth l = Z.of_nat (total_held t)
  end.

Record spin_inv (w : world) : Prop := {
  inv_bound : ∀ h, (total_held (threads w h) ≤ MAX_NEST)%nat;
  inv_nest : ∀ h, at_pc (top (threads w h)) = PIncr ∨ at_pc (top (threads w h)) = PLoad →
    (total_held (threads w h) < MAX_NEST)%nat;
  inv_below : ∀ h, Forall (λ c, at_pc c = PRun) (below (threads w h));
  inv_owner : ∀ h, if decide (owner (lk w) = me h) then owner_thread (lk w) (threads w h)
                   else idle_thread (threads w h)
}.

(** ** Lemmas *)

Lemma me_inj h h' : me h = me h' → h = h'.
Proof. unfold me. lia. Qed.

Lemma me_pos h : me h ≠ 0.
Proof. unfold me. lia. Qed.

Lemma upd_eq f h t : upd f h t h = t.
Proof. unfold upd. by rewrite decide_True. Qed.

Lemma upd_ne f h t h' : h' ≠ h → upd f h t h' = f h'.
Proof. intros. unfold upd. by rewrite decide_False. Qed.

(** What a step of hart [h] owes: its own thread, and to the others that
    ownership did not move from or to them and that the lock is theirs untouched. *)
Lemma spin_inv_update w h l t :
  spin_inv w →
  (total_held t ≤ MAX_NEST)%nat →
  (at_pc (top t) = PIncr ∨ at_pc (top t) = PLoad → (total_held t < MAX_NEST)%nat) →
  Forall (λ c, at_pc c = PRun) (below t) →
  (if decide (owner l = me h) then owner_thread l t else idle_thread t) →
  (l = lk w ∨ (owner (lk w) = me h ∨ owner (lk w) = 0) ∧ (owner l = me h ∨ owner l = 0)) →
  spin_inv (mkWorld l (upd (threads w) h t)).
Proof.
  intros [Hb Hn Hbe Ho] H1 H2 H3 H4 H5.
  split; simpl; intros h'; (destruct (decide (h' = h)) as [->|Hne];
    [rewrite upd_eq; by auto|rewrite upd_ne by done]); auto.
  specialize (Ho h'). destruct H5 as [->|[H5 H6]]; [done|].
  rewrite decide_False in Ho; [rewrite decide_False; [done|]|]; intros E.
  - destruct H6 as [H6|H6]; rewrite H6 in E; [by apply me_inj in E|]. by apply (me_pos h').
  - destruct H5 as [H5|H5]; rewrite H5 in E; [by apply me_inj in E|]. by apply (me_pos h').
Qed.

Lemma wrapping_add_1 z : 0 ≤ z < 2 ^ 32 - 1 → wrapping_add z 1 = z + 1.
Proof. intros. unfold wrapping_add. apply u32_small. lia. Qed.

Lemma wrapping_sub_1 z : 0 < z < 2 ^ 32 → wrapping_sub z 1 = z - 1.
Proof. intros. unfold wrapping_sub. apply u32_small. lia. Qed.

(** Everything known about hart [h] when its code is at [p]. *)
Lemma spin_inv_at w h p n T :
  spin_inv w → top (threads w h) = mkCtx p n →
  T = (n + sum_list_with held (below (threads w h)))%nat →
  (T ≤ MAX_NEST)%nat ∧ Forall (λ c, at_pc c = PRun) (below (threads w h)) ∧
  ((p = PIncr ∨ p = PLoad) → (T < MAX_NEST)%nat) ∧
  (owner (lk w) = me h ∧
     match p with
     | PSet => T = 0%nat
     | PStore => T = 1%nat ∧ n = 1%nat ∧ depth (lk w) = 0
     | PCas => False
     | PDec => (0 < n)%nat ∧ depth (lk w) = Z.of_nat T
     | _ => (0 < T)%nat ∧ depth (lk w) = Z.of_nat T
     end
   ∨ owner (lk w) ≠ me h ∧ T = 0%nat ∧ outside p).
Proof.
  intros [Hb Hn Hbe Ho] Ht ->. specialize (Hb h). specialize (Hn h). specialize (Hbe h).
  specialize (Ho h). unfold owner_thread, idle_thread, total_held in *. rewrite Ht in *.
  simpl in *. split_and!; [done|done|done|].
  case_decide; [left; split; [done|]; by destruct p|right; by destruct Ho].
Qed.

(** The obligations of a step that moves hart [h] to [p] with [n] guards. *)
Lemma spin_inv_goto w h l p n T :
  spin_inv w → T = (n + sum_list_with held (below (threads w h)))%nat → (T ≤ MAX_NEST)%nat →
  (p = PIncr ∨ p = PLoad → (T < MAX_NEST)%nat) →
  (owner l = me h ∧ owner_thread l (mkThread (mkCtx p n) (below (threads w h))) ∨
   owner l ≠ me h ∧ T = 0%nat ∧ outside p) →
  (l = lk w ∨ (owner (lk w) = me h ∨ owner (lk w) = 0) ∧ (owner l = me h ∨ owner l = 0)) →
  spin_inv (goto w h l p n).
Proof.
  intros Hinv -> Hb Hn Ho Hl. apply spin_inv_update; try done.
  - apply Hinv.
  - destruct Ho as [[He Ho]|(Hne & HT & Hout)]; [by rewrite decide_True|rewrite decide_False by done].
    by split.
Qed.

Lemma spin_inv_trap w h :
  spin_inv w → at_pc (top (threads w h)) = PRun →
  spin_inv (mkWorld (lk w) (upd (threads w) h
    (mkThread (mkCtx PRun 0) (top (threads w h) :: below (threads w h))))).
Proof.
  intros Hinv Hp. destruct (top (threads w h)) as [p n] eqn:Ht. simpl in Hp. subst p.
  destruct (spin_inv_at _ _ _ _ _ Hinv Ht eq_refl) as (Hb & Hbe & _ & Ho).
  apply spin_inv_update; try done; unfold total_held; simpl.
  - by intros [?|?].
  - by constructor.
  - case_decide as Hc; unfold owner_thread, idle_thread, total_held; simpl.
    + destruct Ho as [[_ Ho]|[? _]]; [done|]. done.
    + destruct Ho as [[? _]|(_ & HT & _)]; [done|]. split; [done|by left].
  - by left.
Qed.

Lemma spin_inv_mret w h c cs :
  spin_inv w → top (threads w h) = mkCtx PRun 0 → below (threads w h) = c :: cs →
  spin_inv (mkWorld (lk w) (upd (threads w) h (mkThread c cs))).
Proof.
  intros Hinv Ht Hc. destruct (spin_inv_at _ _ _ _ _ Hinv Ht eq_refl) as (Hb & Hbe & _ & Ho).
  rewrite Hc in *. simpl in *. apply Forall_cons_1 in Hbe as [Hp Hbe].
  destruct c as [p n]. simpl in *. subst p.
  apply spin_inv_update; try done; unfold total_held; simpl.
  - by intros [?|?].
  - case_decide; unfold owner_thread, idle_thread, total_held; simpl.
    + destruct Ho as [[_ Ho]|[? _]]; done.
    + destruct Ho as [[? _]|(_ & HT & _)]; [done|]. split; [done|by left].
  - by left.
Qed.

Lemma spin_inv_step w h w' : spin_inv w → spin_step masked w h w' → spin_inv w'.
Proof.
  intros Hinv Hstep.
  destruct Hstep as [n Ht Hlt|n Ht Ho|n Ht Ho|n Ht|n Ht Ho|n Ht|n Ht|n Ht|n Ht Hd|n Ht Hd|n Ht|Hok|c cs Ht Hc];
    [..|by apply spin_inv_trap; [|apply bool_decide_eq_true in Hok]|by eapply spin_inv_mret].
  all: destruct (spin_inv_at _ _ _ _ _ Hinv Ht eq_refl) as (Hb & Hbe & Hn & Hcase);
    unfold outside in Hcase; simpl in Hcase.
  all: eapply (spin_inv_goto w h); [done|reflexivity|..];
    unfold owner_thread, outside, total_held in *; try rewrite Ht in *; simpl in *; unfold MAX_NEST in *.
  all: try (intros [?|?]; done).
  all: try (intros _; lia).
  all: destruct Hcase as [[Hown Hcase]|(Hown & HT & Hout)]; try naive_solver lia.
  all: try lia.
  - left. rewrite wrapping_add_1; [naive_solver lia|]. destruct Hcase. lia.
  - left. destruct Hcase as [_ Hdep]. rewrite wrapping_sub_1 in * by lia. naive_solver lia.
  - left. destruct Hcase as [_ Hdep]. rewrite wrapping_sub_1 in Hd by lia. naive_solver lia.
  - right. pose proof (me_pos h). naive_solver lia.
Qed.

Lemma spin_inv_reachable w : spin_reachable masked w → spin_inv w.
Proof.
  induction 1 as [|w h w' _ IH Hstep]; [|by eapply spin_inv_step].
  split; simpl; intros h; unfold total_held; simpl; unfold MAX_NEST; try lia; try done.
  rewrite decide_False by (intros E; by apply (me_pos h)).
  split; [done|by left].
Qed.

(** Extend the run [R] by one step of hart [h]. *)
Ltac spin_by R ok h rule :=
  eapply (SReachS ok _ h) in R;
  [|eapply rule; first [reflexivity|discriminate|vm_compute; lia|vm_compute; congruence]];
  cbn [goto threads lk owner depth top below at_pc held] in R.

(** ** Properties *)

(** C25. Mutual exclusion.  With traps masked inside the lock routines, in every
    reachable state of any number of harts, at most one hart holds a guard, and
    the hold depth counts exactly the guards of that hart, nested trap handlers
    included. *)
Theorem spinlock_mutual_exclusion w h h' :
  spin_reachable masked w →
  (0 < total_held (threads w h))%nat → (0 < total_held (threads w h'))%nat →
  h = h' ∧ owner (lk w) = me h ∧
  (at_pc (top (threads w h)) = PRun → depth (lk w) = Z.of_nat (total_held (threads w h))).
Proof.
  intros Hr Hh Hh'. apply spin_inv_reachable in Hr as [_ _ _ Ho].
  assert (Hown : ∀ h, (0 < total_held (threads w h))%nat → owner (lk w) = me h).
  { intros k Hk. specialize (Ho k). case_decide; [done|]. destruct Ho. lia. }
  split_and!; [apply me_inj; by rewrite <- !Hown|by apply Hown|].
  intros Hpc. specialize (Ho h). rewrite decide_True in Ho by by apply Hown.
  unfold owner_thread in Ho. rewrite Hpc in Ho. tauto.
Qed.

Lemma spinlock_mutual_exclusion_witness :
  ∃ w, spin_reachable masked w ∧ total_held (threads w 0) = 2%nat ∧ depth (lk w) = 2.
Proof.
  pose proof (SReach0 masked) as R.
  spin_by R masked 0%nat SCallLock. spin_by R masked 0%nat SLoadOther.
  spin_by R masked 0%nat SCasOk. spin_by R masked 0%nat SSet.
  spin_by R masked 0%nat STrap. spin_by R masked 0%nat SCallLock.
  spin_by R masked 0%nat SLoadMine. spin_by R masked 0%nat SIncr.
  eexists. split; [exact R|]. split; [reflexivity|].
  destruct (spinlock_mutual_exclusion _ 0 0 R) as (_ & _ & H);
    [vm_compute; lia|vm_compute; lia|]. exact (H eq_refl).
Defined.

(** No self-deadlock.  A hart that already holds a guard (for instance in
    the code its trap handler interrupted) never enters the compare-exchange
    loop: its next [lock] call takes the reentrant path and succeeds in two steps
    of its own, whatever the other harts do. *)
Lemma spinlock_reentrant w h :
  spin_reachable masked w → (0 < total_held (threads w h))%nat →
  at_pc (top (threads w h)) ≠ PCas ∧
  ∀ n, top (threads w h) = mkCtx PLoad n →
    spin_step masked w h (goto w h (lk w) PIncr n) ∧
    (∀ w', spin_step masked w h w' → at_pc (top (threads w' h)) = PIncr) ∧
    (∀ w', spin_reachable masked w' → top (threads w' h) = mkCtx PIncr n →
       spin_step masked w' h
         (goto w' h (mkLock (owner (lk w')) (wrapping_add (depth (lk w')) 1)) PRun (S n))).
Proof.
  intros Hr Hh. apply spin_inv_reachable in Hr as [_ _ _ Ho]. specialize (Ho h).
  case_decide as Hown; [|destruct Ho; lia]. split.
  - intros Hpc. unfold owner_thread in Ho. by rewrite Hpc in Ho.
  - intros n Ht. split_and!; [by apply SLoadMine| |intros; by apply SIncr].
    intros w' Hstep. inversion Hstep; simplify_eq; try (by rewrite Ht in *); simpl.
    by rewrite upd_eq.
Qed.

Lemma spinlock_reentrant_witness :
  ∃ w n, spin_reachable masked w ∧ top (threads w 0) = mkCtx PLoad n ∧
    spin_step masked w 0 (goto w 0 (lk w) PIncr n).
Proof.
  pose proof (SReach0 masked) as R.
  spin_by R masked 0%nat SCallLock. spin_by R masked 0%nat SLoadOther.
  spin_by R masked 0%nat SCasOk. spin_by R masked 0%nat SSet.
  spin_by R masked 0%nat STrap. spin_by R masked 0%nat SCallLock.
  eexists _, _. split; [exact R|]. split; [reflexivity|].
  apply (spinlock_reentrant _ 0 R); [vm_compute; lia|reflexivity].
Defined.

(** The reentrant path is unsound under interrupts.  If a trap may suspend
    a hart between its compare-exchange and the store [depth = 1], which is what
    a timer interrupt can do to the watchdog task (it takes [SCHED_LOCK] in
    U-mode), then two harts can hold the lock at the same time: the handler sees
    the lock as its own, counts the depth up and down again and releases it. *)
Lemma spinlock_broken_by_interrupt :
  ∃ w, spin_reachable unmasked w ∧
    (0 < total_held (threads w 0))%nat ∧ (0 < total_held (threads w 1))%nat.
Proof.
  pose proof (SReach0 unmasked) as R.
  spin_by R unmasked 0%nat SCallLock. spin_by R unmasked 0%nat SLoadOther.
  spin_by R unmasked 0%nat SCasOk. spin_by R unmasked 0%nat STrap.
  spin_by R unmasked 0%nat SCallLock. spin_by R unmasked 0%nat SLoadMine.
  spin_by R unmasked 0%nat SIncr. spin_by R unmasked 0%nat SCallUnlock.
  spin_by R unmasked 0%nat SDecLast. spin_by R unmasked 0%nat SStore.
  spin_by R unmasked 0%nat SMret. spin_by R unmasked 0%nat SSet.
  spin_by R unmasked 1%nat SCallLock. spin_by R unmasked 1%nat SLoadOther.
  spin_by R unmasked 1%nat SCasOk. spin_by R unmasked 1%nat SSet.
  eexists. split; [exact R|]. split; vm_compute; lia.
Qed.
