(* ===== verification/Telemetry.v ===== *)
(** * Telemetry: trace events and their wire format

    Models telemetry/src/lib.rs: the [TraceEvent] type and [log_telemetry].  The
    encoder is postcard's, a third-party crate, so it is a parameter of
    [log_telemetry]; what the crate documents of its wire format (an enum is its
    variant number and its fields, a [u8] is itself, every other unsigned integer
    a little-endian base-128 varint) is [wire], and [Postcard] is the class of the
    encoders that follow it. *)
From S2P Require Import Prelude.

Inductive TraceEvent :=
  | TaskSwap (from to cycles : Z)
  | IpcTransfer (endpoint bytes : Z)
  | FaultInterception (cause pc : Z).

#[export] Instance TraceEvent_eq_dec : EqDecision TraceEvent.
Proof. solve_decision. Defined.

Section log.
Context (to_slice : TraceEvent → nat → option (list Z)).

(** Writes to RTT channel 1, oldest first; an encoding error writes nothing. *)
Definition log_telemetry (event : TraceEvent) (rtt : list (list Z)) : list (list Z) :=
  match to_slice event 32 with
  | Some used => rtt ++ [used]
  | None => rtt
  end.
End log.

(** ** The wire format *)

(** At most [n] groups of seven bits, least significant first; every group but
    the last carries the continuation bit. *)
Fixpoint varint (n : nat) (v : Z) : list Z :=
  match n with
  | O => []
  | S n' => if v <? 128 then [v] else (128 + v mod 128) :: varint n' (v / 128)
  end.

(** 32 bits need five groups. *)
Definition varint_u32 (v : Z) : list Z := varint 5 v.

Definition wire (e : TraceEvent) : list Z :=
  match e with
  | TaskSwap from to cycles => varint_u32 0 ++ [from; to] ++ varint_u32 cycles
  | IpcTransfer endpoint bytes => varint_u32 1 ++ [endpoint; bytes]
  | FaultInterception cause pc => varint_u32 2 ++ varint_u32 cause ++ varint_u32 pc
  end.

(** The fields fit their Rust types. *)
Definition is_u8 (v : Z) : Prop := 0 ≤ v < 2 ^ 8.
Definition is_u32 (v : Z) : Prop := 0 ≤ v < 2 ^ 32.

Definition event_wf (e : TraceEvent) : Prop :=
  match e with
  | TaskSwap from to cycles => is_u8 from ∧ is_u8 to ∧ is_u32 cycles
  | IpcTransfer endpoint bytes => is_u8 endpoint ∧ is_u8 bytes
  | FaultInterception cause pc => is_u32 cause ∧ is_u32 pc
  end.

(** An encoder that follows the format and fails only for lack of room. *)
Class Postcard (to_slice : TraceEvent → nat → option (list Z)) : Prop :=
  to_slice_wire : ∀ e n, event_wf e →
    to_slice e n = if decide (length (wire e) ≤ n)%nat then Some (wire e) else None.

Definition reference_to_slice (e : TraceEvent) (n : nat) : option (list Z) :=
  if decide (length (wire e) ≤ n)%nat then Some (wire e) else None.

#[export] Instance reference_postcard : Postcard reference_to_slice.
Proof. done. Qed.

(** ** Lemmas *)

Lemma varint_length n v : (length (varint n v) ≤ n)%nat.
Proof. revert v. induction n as [|n IH]; intros v; simpl; [done|]. case_match; simpl; [lia|]. specialize (IH (v / 128)). lia. Qed.

Lemma varint_bytes n v : 0 ≤ v → Forall is_u8 (varint n v).
Proof.
  revert v. induction n as [|n IH]; intros v Hv; simpl; [constructor|]. case_match eqn:E.
  - constructor; [unfold is_u8; lia|constructor].
  - constructor; [|apply IH, Z.div_pos; lia].
    pose proof (Z.mod_pos_bound v 128 ltac:(lia)). unfold is_u8. lia.
Qed.

Lemma wire_length e : (length (wire e) ≤ 11)%nat.
Proof.
  destruct e as [f t c|ep b|c pc]; simpl.
  - pose proof (varint_length 5 c). unfold varint_u32. lia.
  - lia.
  - rewrite length_app. pose proof (varint_length 5 c). pose proof (varint_length 5 pc).
    unfold varint_u32. lia.
Qed.

Lemma log_telemetry_wire to_slice e rtt :
  Postcard to_slice → event_wf e → log_telemetry to_slice e rtt = rtt ++ [wire e].
Proof.
  intros HP He. unfold log_telemetry. rewrite (to_slice_wire e 32 He). rewrite decide_True; [done|].
  pose proof (wire_length e). lia.
Qed.

Lemma wire_bytes e : event_wf e → Forall is_u8 (wire e).
Proof.
  assert (Hn : ∀ n, n ∈ [0; 1; 2] → Forall is_u8 (varint_u32 n)).
  { intros n Hn. apply varint_bytes. rewrite !elem_of_cons, elem_of_nil in Hn. lia. }
  destruct e as [f t c|ep b|c pc]; cbn [wire event_wf]; intros He.
  - destruct He as (Hf & Ht & Hc). apply Forall_app. split; [apply Hn; set_solver|].
    do 2 (apply List.Forall_cons; [done|]). apply varint_bytes, Hc.
  - destruct He as (Hep & Hb). apply Forall_app. split; [apply Hn; set_solver|].
    do 2 (apply List.Forall_cons; [done|]). constructor.
  - destruct He as (Hc & Hpc). apply Forall_app. split; [apply Hn; set_solver|].
    apply Forall_app. split; apply varint_bytes; [apply Hc|apply Hpc].
Qed.

(** ** Properties *)

(** C31. An event always fits.  Whatever encoder follows postcard's format, an event
    whose fields fit their Rust types takes at most eleven bytes on the wire, each
    in the range of [u8], so [log_telemetry] never drops an event for lack of room
    in its 32-byte buffer: it appends exactly one record to the channel, the event's
    encoding. *)
Theorem log_telemetry_fits to_slice e rtt :
  Postcard to_slice → event_wf e →
  log_telemetry to_slice e rtt = rtt ++ [wire e] ∧ (length (wire e) ≤ 11)%nat ∧ Forall is_u8 (wire e).
Proof.
  intros HP He. split_and!; [by apply log_telemetry_wire|apply wire_length|by apply wire_bytes].
Qed.

(** The longest event. *)
Lemma log_telemetry_fits_witness :
  log_telemetry reference_to_slice (FaultInterception (2 ^ 32 - 1) (2 ^ 32 - 1)) [] =
    [[2; 255; 255; 255; 255; 15; 255; 255; 255; 255; 15]].
Proof.
  destruct (log_telemetry_fits reference_to_slice (FaultInterception (2 ^ 32 - 1) (2 ^ 32 - 1)) []
    reference_postcard) as (Hu & _).
  - split; vm_compute; split; congruence.
  - rewrite Hu. vm_compute. reflexivity.
Defined.
