(* ===== verification/Broker.v ===== *)
(** * Broker: the host side of the telemetry stream

    Models the decoder of host/telemetry_broker.py: [read_varint], [parse_event]
    and the loop of [tail_file] that turns the chunks it reads from the trace
    file into events.  A Python stream is the list of its bytes with a position;
    a raised [EOFError] is [Raised].  Sockets, time stamps, printing and the
    rewind after a truncation of the file are left out. *)
From S2P Require Import Prelude Telemetry.

(** ** Reading *)

(** [None] is [EOFError]. *)
Fixpoint read_varint (value shift : Z) (stream : list Z) : option (Z * list Z) :=
  match stream with
  | [] => None
  | byte :: stream =>
      let value := Z.lor value (Z.shiftl (Z.land byte 0x7F) shift) in
      if Z.land byte 0x80 =? 0 then Some (value, stream)
      else read_varint value (shift + 7) stream
  end.

(** What [parse_event] does with a stream: an event and the rest of the stream,
    [return None], or an exception. *)
Inductive parsed :=
  | Event (e : TraceEvent) (rest : list Z)
  | NoEvent
  | Raised.

Definition parse_event (stream : list Z) : parsed :=
  match read_varint 0 0 stream with
  | None => NoEvent
  | Some (tag, stream) =>
      if tag =? 0 then
        match stream with
        | from_val :: to_val :: stream =>
            match read_varint 0 0 stream with
            | Some (cycles, stream) => Event (TaskSwap from_val to_val cycles) stream
            | None => Raised
            end
        | _ => NoEvent
        end
      else if tag =? 1 then
        match stream with
        | ep_val :: bytes_val :: stream => Event (IpcTransfer ep_val bytes_val) stream
        | _ => NoEvent
        end
      else if tag =? 2 then
        match read_varint 0 0 stream with
        | Some (cause, stream) =>
            match read_varint 0 0 stream with
            | Some (pc, stream) => Event (FaultInterception cause pc) stream
            | None => Raised
            end
        | None => Raised
        end
      else NoEvent
  end.

(** ** The loop of [tail_file] *)

(** The inner [while True]: the events, and [remaining] when no event parses.
    Every event takes a byte, so the length of the stream is enough fuel. *)
Fixpoint drain (fuel : nat) (stream : list Z) : list TraceEvent * list Z :=
  match fuel with
  | O => ([], stream)
  | S fuel =>
      match parse_event stream with
      | Event e rest => let '(es, remaining) := drain fuel rest in (e :: es, remaining)
      | _ => ([], stream)
      end
  end.

(** [io.BytesIO]: a buffer and a position; writing overwrites from there. *)
Record BytesIO := mkBytesIO { buffer : list Z; position : nat }.

Definition bytesio_write (s : BytesIO) (chunk : list Z) : BytesIO :=
  mkBytesIO (take (position s) (buffer s) ++ chunk ++ drop (position s + length chunk) (buffer s))
    (position s + length chunk).

(** One chunk: write it, seek to 0, drain, and start a new stream that holds the
    remaining bytes, at position 0. *)
Definition tail_chunk (s : BytesIO) (chunk : list Z) : list TraceEvent * BytesIO :=
  let s := bytesio_write s chunk in
  let '(es, remaining) := drain (length (buffer s)) (buffer s) in
  (es, mkBytesIO remaining 0).

Fixpoint tail_file (s : BytesIO) (chunks : list (list Z)) : list TraceEvent :=
  match chunks with
  | [] => []
  | chunk :: chunks => let '(es, s) := tail_chunk s chunk in es ++ tail_file s chunks
  end.

(** ** Lemmas *)

Lemma read_varint_spec n v value shift rest :
  0 ≤ v < 128 ^ Z.of_nat n → 0 ≤ value < 2 ^ shift → 0 ≤ shift → (0 < n)%nat →
  read_varint value shift (varint n v ++ rest) = Some (value + v * 2 ^ shift, rest).
Proof.
  revert v value shift. induction n as [|n IH]; intros v value shift Hv Hval Hs Hn; [lia|].
  assert (Hlor : ∀ b, 0 ≤ b → Z.lor value (Z.shiftl b shift) = value + b * 2 ^ shift).
  { intros b Hb. rewrite Z.shiftl_mul_pow2 by done. by apply lor_low_high. }
  assert (Hlow : ∀ b, Z.land b 0x7F = b mod 128) by (intros b; apply (Z.land_ones b 7); lia).
  cbn [varint]. case_match eqn:E.
  - cbn [app read_varint]. rewrite Hlow, Z.mod_small by lia. rewrite Hlor by lia.
    replace (Z.land v 0x80) with 0; [done|]. symmetry.
    apply Z.bits_inj'. intros i Hi. rewrite Z.land_spec, Z.bits_0. change 0x80 with (2 ^ 7).
    destruct (decide (i = 7)) as [->|]; [|by rewrite Z.pow2_bits_false, andb_false_r by lia].
    destruct (decide (v = 0)) as [->|]; [by rewrite Z.testbit_0_l|].
    rewrite Z.bits_above_log2; [done|lia|]. apply Z.log2_lt_pow2; lia.
  - pose proof (Z.mod_pos_bound v 128 ltac:(lia)). pose proof (Z.div_mod v 128 ltac:(lia)).
    cbn [app read_varint]. rewrite Hlow.
    replace ((128 + v mod 128) mod 128) with (v mod 128)
      by (replace (128 + v mod 128) with (v mod 128 + 1 * 128) by lia;
          by rewrite Z_mod_plus_full, Z.mod_mod by lia).
    rewrite Hlor by lia.
    assert (Hb : Z.land (128 + v mod 128) 0x80 ≠ 0).
    { intros Hz. apply (f_equal (λ z, Z.testbit z 7)) in Hz.
      rewrite Z.land_spec, Z.testbit_0_l, andb_true_r, Z.testbit_eqb in Hz by lia.
      replace ((128 + v mod 128) / 2 ^ 7) with 1 in Hz by (Z.div_mod_to_equations; lia). done. }
    apply Z.eqb_neq in Hb. rewrite Hb.
    assert (Hn0 : (0 < n)%nat).
    { destruct n; [|lia]. change (128 ^ Z.of_nat 1) with 128 in Hv. lia. }
    rewrite IH.
    + f_equal. f_equal. rewrite Z.pow_add_r by lia. change (2 ^ 7) with 128. nia.
    + split; [apply Z.div_pos; lia|]. apply Z.div_lt_upper_bound; [lia|].
      rewrite Nat2Z.inj_succ, Z.pow_succ_r in Hv by lia. lia.
    + rewrite Z.pow_add_r by lia. change (2 ^ 7) with 128. nia.
    + lia.
    + done.
Qed.

Lemma read_varint_u32 v rest :
  is_u32 v → read_varint 0 0 (varint_u32 v ++ rest) = Some (v, rest).
Proof.
  unfold is_u32. intros Hv. unfold varint_u32. rewrite (read_varint_spec 5 v 0 0 rest).
  - by rewrite Z.mul_1_r.
  - change (128 ^ Z.of_nat 5) with (2 ^ 35). lia.
  - done.
  - done.
  - lia.
Qed.

Lemma read_varint_shorter value shift stream v rest :
  read_varint value shift stream = Some (v, rest) → (length rest < length stream)%nat.
Proof.
  revert value shift. induction stream as [|b l IH]; intros value shift; cbn [read_varint]; [done|].
  case_match; [intros [= <- <-]; simpl; lia|]. intros Hr. apply IH in Hr. simpl. lia.
Qed.

Lemma parse_event_shorter stream e rest :
  parse_event stream = Event e rest → (length rest < length stream)%nat.
Proof.
  unfold parse_event. destruct (read_varint 0 0 stream) as [[tag s]|] eqn:E; [|done].
  apply read_varint_shorter in E. repeat case_match; intros [= <- <-];
    repeat match goal with H : read_varint _ _ _ = Some _ |- _ => apply read_varint_shorter in H end;
    simpl in *; lia.
Qed.

Lemma parse_event_wire e rest : event_wf e → parse_event (wire e ++ rest) = Event e rest.
Proof.
  intros He. unfold parse_event.
  assert (Hu : is_u32 0 ∧ is_u32 1 ∧ is_u32 2) by (unfold is_u32; lia). destruct Hu as (H0 & H1 & H2).
  destruct e as [f t c|ep b|c pc]; simpl in He; cbn [wire]; rewrite <- !app_assoc.
  - rewrite (read_varint_u32 0) by done. cbn [app Z.eqb]. by rewrite read_varint_u32 by apply He.
  - rewrite (read_varint_u32 1) by done. done.
  - rewrite (read_varint_u32 2) by done. cbn [Z.eqb Pos.eqb]. destruct He as [Hc Hpc].
    by rewrite (read_varint_u32 c _ Hc), (read_varint_u32 pc _ Hpc).
Qed.

(** A whole number of events drains completely, whatever follows. *)
Lemma drain_wire es rest fuel :
  Forall event_wf es → (length (concat (map wire es) ++ rest) ≤ fuel)%nat →
  ∃ fuel', (length rest ≤ fuel')%nat ∧
    drain fuel (concat (map wire es) ++ rest) =
      (es ++ fst (drain fuel' rest), snd (drain fuel' rest)).
Proof.
  intros Hes. revert fuel. induction Hes as [|e es He _ IH]; intros fuel Hf; cbn [map concat] in *.
  { exists fuel. split; [done|]. by destruct (drain fuel _). }
  rewrite <- app_assoc in *. pose proof (parse_event_wire e (concat (map wire es) ++ rest) He) as Hp.
  pose proof (parse_event_shorter _ _ _ Hp). destruct fuel as [|fuel]; [lia|]. cbn [drain].
  rewrite Hp. destruct (IH fuel) as (fuel' & Hf' & ->); [lia|]. by exists fuel'.
Qed.

Lemma drain_nil fuel : drain fuel [] = ([], []).
Proof. by destruct fuel. Qed.

(** Enough fuel reaches a point where nothing parses. *)
Lemma drain_enough n fuel stream :
  (length stream ≤ n)%nat →
  let '(es, remaining) := drain n stream in
  (∀ e rest, parse_event remaining ≠ Event e rest) ∧
  (length es + length remaining ≤ length stream)%nat ∧
  drain (n + fuel) stream = (es, remaining).
Proof.
  revert stream. induction n as [|n IH]; intros stream Hl; cbn [drain].
  - assert (stream = []) as -> by (by destruct stream; simpl in *; [|lia]).
    split_and!; [done|done|apply drain_nil].
  - cbn [Nat.add drain]. destruct (parse_event stream) as [e rest| |] eqn:E.
    + apply parse_event_shorter in E. specialize (IH rest ltac:(lia)).
      destruct (drain n rest) as [es remaining]. destruct IH as (H1 & H2 & ->).
      split_and!; [done|simpl; lia|done].
    + split_and!; [by rewrite E|simpl; lia|done].
    + split_and!; [by rewrite E|simpl; lia|done].
Qed.

Lemma records_wire to_slice es rtt :
  Postcard to_slice → Forall event_wf es →
  foldl (λ rtt e, log_telemetry to_slice e rtt) rtt es = rtt ++ map wire es.
Proof.
  intros HP Hes. revert rtt. induction Hes as [|e es He _ IH]; intros rtt; simpl.
  - by rewrite app_nil_r.
  - rewrite log_telemetry_wire by done. rewrite IH, <- app_assoc. done.
Qed.

(** Chunks that end between two events leave nothing behind. *)
Lemma tail_file_aligned chunks :
  Forall (Forall event_wf) chunks →
  tail_file (mkBytesIO [] 0) (map (λ es, concat (map wire es)) chunks) = concat chunks.
Proof.
  induction 1 as [|es chunks Hes _ IH]; [done|]. cbn [map tail_file concat].
  unfold tail_chunk, bytesio_write. cbn [buffer position].
  rewrite take_nil, drop_nil. cbn [app Nat.add].
  destruct (drain_wire es [] (length (concat (map wire es) ++ [])) Hes ltac:(done)) as (fuel' & _ & Hd).
  rewrite drain_nil in Hd. cbn [fst snd] in Hd. rewrite Hd, app_nil_r. by rewrite IH.
Qed.

(** ** Properties *)

(** C32. The drain loop ends.  On every sequence of bytes, the inner loop of
    [tail_file] stops after at most one round per byte, at a point where no
    event can be parsed: with the length of the stream as fuel, and with any more
    fuel, it produces the same events and leaves the same bytes. *)
Theorem drain_terminates stream fuel :
  let '(es, remaining) := drain (length stream) stream in
  (∀ e rest, parse_event remaining ≠ Event e rest) ∧
  (length es ≤ length stream - length remaining)%nat ∧
  drain (length stream + fuel) stream = (es, remaining).
Proof.
  pose proof (drain_enough (length stream) fuel stream ltac:(lia)) as H.
  destruct (drain (length stream) stream) as [es remaining]. naive_solver lia.
Qed.

(** Telemetry round trip.  Every event whose fields fit their types is at most
    eleven bytes on the wire, so [log_telemetry] never drops it for lack of room in
    its 32-byte buffer, whatever encoder implements postcard's format; and the
    broker decodes the concatenation of the records the kernel wrote, cut into
    chunks anywhere between two events, into exactly the events logged, in order. *)
Lemma telemetry_roundtrip to_slice (chunks : list (list TraceEvent)) :
  Postcard to_slice → Forall (Forall event_wf) chunks →
  let records es := foldl (λ rtt e, log_telemetry to_slice e rtt) [] es in
  (∀ es, es ∈ chunks → length (records es) = length es ∧
                       Forall (λ r, (length r ≤ 11)%nat) (records es)) ∧
  tail_file (mkBytesIO [] 0) (map (λ es, concat (records es)) chunks) = concat chunks.
Proof.
  intros HP Hc records.
  assert (Hr : ∀ es, es ∈ chunks → records es = map wire es).
  { intros es Hes. apply (records_wire to_slice es []); [done|]. rewrite List.Forall_forall in Hc.
    apply Hc. by apply list_elem_of_In. }
  split.
  - intros es Hes. rewrite (Hr es Hes), length_map. split; [done|].
    apply List.Forall_forall. intros r (e & <- & _)%in_map_iff. apply wire_length.
  - rewrite <- (tail_file_aligned chunks Hc). f_equal. apply map_ext_in.
    intros es Hes%list_elem_of_In. by rewrite (Hr es Hes).
Qed.

Definition sample_events : list (list TraceEvent) :=
  [[TaskSwap 1 2 12345; IpcTransfer 2 64]; []; [FaultInterception 6 0x20001234]].

Lemma telemetry_roundtrip_witness :
  tail_file (mkBytesIO [] 0)
    (map (λ es, concat (foldl (λ rtt e, log_telemetry reference_to_slice e rtt) [] es)) sample_events)
  = [TaskSwap 1 2 12345; IpcTransfer 2 64; FaultInterception 6 0x20001234].
Proof.
  apply (telemetry_roundtrip reference_to_slice sample_events).
  - exact reference_postcard.
  - repeat constructor; vm_compute; congruence.
Defined.

(** Events split between two reads are lost.  [tail_file] keeps the bytes of an
    incomplete event, but in a new stream positioned at 0, so the next chunk is
    written over them instead of after them.  Here a fault record is cut after its
    first byte: read in one piece both events are decoded, read in two pieces the
    fault is never reported. *)
Lemma broker_loses_split_events :
  let bytes := wire (TaskSwap 1 2 5) ++ wire (FaultInterception 0 0x82) in
  tail_file (mkBytesIO [] 0) [bytes] = [TaskSwap 1 2 5; FaultInterception 0 0x82] ∧
  tail_file (mkBytesIO [] 0) [take 5 bytes; drop 5 bytes] = [TaskSwap 1 2 5].
Proof. split; vm_compute; reflexivity. Qed.
