(* ===== verification/Kernel.v ===== *)
(** * Kernel: the global state and the operations trap handling is built from

    The static variables of kernel/src/main.rs, kernel/src/trap.rs and
    kernel/src/kernel/metrics.rs, the RAM, the CLINT registers and the PMP
    registers of both harts as one record, a state monad whose computations
    return, panic or spin on a lock, and [switch_task].

    The machine has two harts (memory.x: [_max_hart_id = 1]), so [mhartid] reads
    0 or 1 and [SCHEDULERS[hart_id]] is always in range. *)
From S2P Require Import Prelude Memory Tcb Bitmap Pmp Spinlock Telemetry.

(** ** State *)

Inductive hart := H0 | H1.

#[export] Instance hart_eq_dec : EqDecision hart.
Proof. solve_decision. Defined.

Definition hart_id (h : hart) : Z := match h with H0 => 0 | H1 => 1 end.
Definition other_hart (h : hart) : hart := match h with H0 => H1 | H1 => H0 end.

Record per_hart (A : Type) := mkPerHart { on0 : A; on1 : A }.
Arguments mkPerHart {A}.
Arguments on0 {A}.
Arguments on1 {A}.

Definition ph_get {A} (h : hart) (p : per_hart A) : A := match h with H0 => on0 p | H1 => on1 p end.
Definition ph_set {A} (h : hart) (v : A) (p : per_hart A) : per_hart A :=
  match h with H0 => mkPerHart v (on1 p) | H1 => mkPerHart (on0 p) v end.

Record KernelMutex := mkMutex {
  locked : bool;
  owner_task_idx : option Z;
  waiters_bitmap : Z
}.

Record Kernel := mkKernel {
  SCHEDULERS : per_hart BitMapScheduler;
  MUTEXES : list (option KernelMutex);
  TICK_COUNT : Z;
  LAST_CHECKIN_TICK : list Z;
  METRIC_TRAP_LATENCY_CYCLES : Z;
  METRIC_PMP_VIOLATIONS : Z;
  SCHED_LOCK : Spinlock;
  MUTEX_LOCK : Spinlock;
  TEST_COUNTER : Z;
  ram : Mem;
  msip : per_hart Z;
  mtimecmp : per_hart Z;
  pmp : per_hart PmpRegs;
  trace : list TraceEvent
}.

Definition set_SCHEDULERS (v : per_hart BitMapScheduler) (k : Kernel) : Kernel :=
    mkKernel v (MUTEXES k) (TICK_COUNT k) (LAST_CHECKIN_TICK k) (METRIC_TRAP_LATENCY_CYCLES k)
    (METRIC_PMP_VIOLATIONS k) (SCHED_LOCK k) (MUTEX_LOCK k) (TEST_COUNTER k) (ram k) (msip k)
    (mtimecmp k) (pmp k) (trace k).
Definition set_MUTEXES (v : list (option KernelMutex)) (k : Kernel) : Kernel :=
    mkKernel (SCHEDULERS k) v (TICK_COUNT k) (LAST_CHECKIN_TICK k) (METRIC_TRAP_LATENCY_CYCLES
    k) (METRIC_PMP_VIOLATIONS k) (SCHED_LOCK k) (MUTEX_LOCK k) (TEST_COUNTER k) (ram k) (msip k)
    (mtimecmp k) (pmp k) (trace k).
Definition set_TICK_COUNT (v : Z) (k : Kernel) : Kernel :=
    mkKernel (SCHEDULERS k) (MUTEXES k) v (LAST_CHECKIN_TICK k) (METRIC_TRAP_LATENCY_CYCLES k)
    (METRIC_PMP_VIOLATIONS k) (SCHED_LOCK k) (MUTEX_LOCK k) (TEST_COUNTER k) (ram k) (msip k)
    (mtimecmp k) (pmp k) (trace k).
Definition set_LAST_CHECKIN_TICK (v : list Z) (k : Kernel) : Kernel :=
    mkKernel (SCHEDULERS k) (MUTEXES k) (TICK_COUNT k) v (METRIC_TRAP_LATENCY_CYCLES k)
    (METRIC_PMP_VIOLATIONS k) (SCHED_LOCK k) (MUTEX_LOCK k) (TEST_COUNTER k) (ram k) (msip k)
    (mtimecmp k) (pmp k) (trace k).
Definition set_METRIC_TRAP_LATENCY_CYCLES (v : Z) (k : Kernel) : Kernel :=
    mkKernel (SCHEDULERS k) (MUTEXES k) (TICK_COUNT k) (LAST_CHECKIN_TICK k) v
    (METRIC_PMP_VIOLATIONS k) (SCHED_LOCK k) (MUTEX_LOCK k) (TEST_COUNTER k) (ram k) (msip k)
    (mtimecmp k) (pmp k) (trace k).
Definition set_METRIC_PMP_VIOLATIONS (v : Z) (k : Kernel) : Kernel :=
    mkKernel (SCHEDULERS k) (MUTEXES k) (TICK_COUNT k) (LAST_CHECKIN_TICK k)
    (METRIC_TRAP_LATENCY_CYCLES k) v (SCHED_LOCK k) (MUTEX_LOCK k) (TEST_COUNTER k) (ram k)
    (msip k) (mtimecmp k) (pmp k) (trace k).
Definition set_SCHED_LOCK (v : Spinlock) (k : Kernel) : Kernel :=
    mkKernel (SCHEDULERS k) (MUTEXES k) (TICK_COUNT k) (LAST_CHECKIN_TICK k)
    (METRIC_TRAP_LATENCY_CYCLES k) (METRIC_PMP_VIOLATIONS k) v (MUTEX_LOCK k) (TEST_COUNTER k)
    (ram k) (msip k) (mtimecmp k) (pmp k) (trace k).
Definition set_MUTEX_LOCK (v : Spinlock) (k : Kernel) : Kernel :=
    mkKernel (SCHEDULERS k) (MUTEXES k) (TICK_COUNT k) (LAST_CHECKIN_TICK k)
    (METRIC_TRAP_LATENCY_CYCLES k) (METRIC_PMP_VIOLATIONS k) (SCHED_LOCK k) v (TEST_COUNTER k)
    (ram k) (msip k) (mtimecmp k) (pmp k) (trace k).
Definition set_TEST_COUNTER (v : Z) (k : Kernel) : Kernel :=
    mkKernel (SCHEDULERS k) (MUTEXES k) (TICK_COUNT k) (LAST_CHECKIN_TICK k)
    (METRIC_TRAP_LATENCY_CYCLES k) (METRIC_PMP_VIOLATIONS k) (SCHED_LOCK k) (MUTEX_LOCK k) v
    (ram k) (msip k) (mtimecmp k) (pmp k) (trace k).
Definition set_ram (v : Mem) (k : Kernel) : Kernel :=
    mkKernel (SCHEDULERS k) (MUTEXES k) (TICK_COUNT k) (LAST_CHECKIN_TICK k)
    (METRIC_TRAP_LATENCY_CYCLES k) (METRIC_PMP_VIOLATIONS k) (SCHED_LOCK k) (MUTEX_LOCK k)
    (TEST_COUNTER k) v (msip k) (mtimecmp k) (pmp k) (trace k).
Definition set_msip (v : per_hart Z) (k : Kernel) : Kernel :=
    mkKernel (SCHEDULERS k) (MUTEXES k) (TICK_COUNT k) (LAST_CHECKIN_TICK k)
    (METRIC_TRAP_LATENCY_CYCLES k) (METRIC_PMP_VIOLATIONS k) (SCHED_LOCK k) (MUTEX_LOCK k)
    (TEST_COUNTER k) (ram k) v (mtimecmp k) (pmp k) (trace k).
Definition set_mtimecmp (v : per_hart Z) (k : Kernel) : Kernel :=
    mkKernel (SCHEDULERS k) (MUTEXES k) (TICK_COUNT k) (LAST_CHECKIN_TICK k)
    (METRIC_TRAP_LATENCY_CYCLES k) (METRIC_PMP_VIOLATIONS k) (SCHED_LOCK k) (MUTEX_LOCK k)
    (TEST_COUNTER k) (ram k) (msip k) v (pmp k) (trace k).
Definition set_pmp (v : per_hart PmpRegs) (k : Kernel) : Kernel :=
    mkKernel (SCHEDULERS k) (MUTEXES k) (TICK_COUNT k) (LAST_CHECKIN_TICK k)
    (METRIC_TRAP_LATENCY_CYCLES k) (METRIC_PMP_VIOLATIONS k) (SCHED_LOCK k) (MUTEX_LOCK k)
    (TEST_COUNTER k) (ram k) (msip k) (mtimecmp k) v (trace k).
Definition set_trace (v : list TraceEvent) (k : Kernel) : Kernel :=
    mkKernel (SCHEDULERS k) (MUTEXES k) (TICK_COUNT k) (LAST_CHECKIN_TICK k)
    (METRIC_TRAP_LATENCY_CYCLES k) (METRIC_PMP_VIOLATIONS k) (SCHED_LOCK k) (MUTEX_LOCK k)
    (TEST_COUNTER k) (ram k) (msip k) (mtimecmp k) (pmp k) v.

(** ** The monad *)

Definition K (A : Type) : Type := Kernel → result (A * Kernel).

#[export] Instance K_ret : MRet K := λ A a k, Done (a, k).
#[export] Instance K_bind : MBind K := λ A B f m k,
  match m k with
  | Done (a, k') => f a k'
  | Panicked p => Panicked p
  | Spinning => Spinning
  end.

Definition gets {A} (f : Kernel → A) : K A := λ k, Done (f k, k).
Definition modify (f : Kernel → Kernel) : K unit := λ k, Done (tt, f k).
Definition lift {A} (r : result A) : K A := λ k,
  match r with Done a => Done (a, k) | Panicked p => Panicked p | Spinning => Spinning end.
Definition kpanic {A} (p : panic) : K A := λ _, Panicked p.

(** ** Inputs: the link-time layout and what the hart's counters read *)

Record Env := mkEnv {
  layout : Layout;
  csr_mcycle : Z;    (* [csrr mcycle] in the trap handler *)
  csr_cycle : Z;     (* [csrr cycle] in [switch_task] *)
  clint_mtime : Z
}.

(** ** Accesses *)

Definition get_sched (h : hart) : K BitMapScheduler := gets (λ k, ph_get h (SCHEDULERS k)).
Definition put_sched (h : hart) (s : BitMapScheduler) : K unit :=
  modify (λ k, set_SCHEDULERS (ph_set h s (SCHEDULERS k)) k).

(** [SCHEDULERS[h].task_table[i].as_ref().unwrap()]. *)
Definition get_task (h : hart) (i : nat) : K TaskControlBlock :=
  s ← get_sched h;
  o ← lift (index (task_table s) i);
  lift (unwrap o).

(** [SCHEDULERS[h].task_table[i].as_mut().unwrap().state = st]. *)
Definition put_state (h : hart) (i : nat) (st : TaskState) : K unit :=
  _ ← get_task h i;
  s ← get_sched h;
  put_sched h (set_table (alter (fmap (set_state st)) i (task_table s)) s).

(** [if let Some(tcb) = &mut SCHEDULERS[h].task_table[i] { tcb.state = st }]. *)
Definition put_state_if_some (h : hart) (i : nat) (st : TaskState) : K unit :=
  s ← get_sched h;
  o ← lift (index (task_table s) i);
  match o with
  | Some _ => put_sched h (set_table (alter (fmap (set_state st)) i (task_table s)) s)
  | None => mret tt
  end.

Definition get_mutex (i : nat) : K (option KernelMutex) :=
  ms ← gets MUTEXES; lift (index ms i).
Definition put_mutex (i : nat) (m : KernelMutex) : K unit :=
  modify (λ k, set_MUTEXES (<[i := Some m]> (MUTEXES k)) k).

Definition fread (frame : Z) (i : nat) : K Z := gets (λ k, frame_read (ram k) frame i).
Definition fwrite (frame : Z) (i : nat) (v : Z) : K unit :=
  modify (λ k, set_ram (frame_write (ram k) frame i v) k).

Definition log (e : TraceEvent) : K unit := modify (λ k, set_trace (trace k ++ [e]) k).

(** [msip.write_volatile(v)] on hart [h]'s software-interrupt register. *)
Definition write_msip (h : hart) (v : Z) : K unit :=
  modify (λ k, set_msip (ph_set h v (msip k)) k).

Definition sched_lock (h : hart) : K unit :=
  l ← gets SCHED_LOCK; l' ← lift (Spinlock.lock l (hart_id h)); modify (set_SCHED_LOCK l').
Definition sched_unlock : K unit := modify (λ k, set_SCHED_LOCK (unlock (SCHED_LOCK k)) k).
Definition mutex_lock (h : hart) : K unit :=
  l ← gets MUTEX_LOCK; l' ← lift (Spinlock.lock l (hart_id h)); modify (set_MUTEX_LOCK l').
Definition mutex_unlock : K unit := modify (λ k, set_MUTEX_LOCK (unlock (MUTEX_LOCK k)) k).

(** [let _sched_guard = SCHED_LOCK.lock_guard(hart_id); body]. *)
Definition sched_guard {A} (h : hart) (body : K A) : K A :=
  _ ← sched_lock h; a ← body; _ ← sched_unlock; mret a.

(** ** [switch_task] *)

Definition reprogram (E : Env) (h : hart) (nm : string) : K unit :=
  r ← gets (λ k, ph_get h (pmp k));
  r' ← lift (reprogram_pmp_stack (layout E) nm r);
  modify (λ k, set_pmp (ph_set h r' (pmp k)) k).

(** Returns the stack pointer to resume with. *)
Definition switch_task (E : Env) (h : hart) (current_sp : Z) (is_tick : bool) : K Z :=
  s ← get_sched h;
  rs ← lift (schedule s is_tick);
  _ ← put_sched h (snd rs);
  match fst rs with
  | None => mret current_sp
  | Some (old, new_sp) =>
      let to := current_partition_idx (snd rs) in
      _ ← log (TaskSwap (u8 (Z.of_nat (current_partition_idx s))) (u8 (Z.of_nat to)) (u32 (csr_cycle E)));
      let tbl := alter (fmap (set_saved_sp current_sp)) old (task_table (snd rs)) in
      _ ← put_sched h (set_table tbl (snd rs));
      _ ← match slot tbl to with
          | Some new_tcb => reprogram E h (name new_tcb)
          | None => mret tt
          end;
      mret new_sp
  end.

(** The core a mutex waiter is looked up on. *)
Definition home (i : nat) : hart := if (i <? 2)%nat then H0 else H1.

(** The scan for the waiter with the smallest base priority. *)
Fixpoint scan_waiters (bitmap : Z) (cands : list nat) (highest : option nat) : K (option nat) :=
  match cands with
  | [] => mret highest
  | i :: cands =>
      if negb (Z.land bitmap (Z.shiftl 1 (Z.of_nat i)) =? 0) then
        match highest with
        | Some w =>
            tw ← get_task (home w) w;
            ti ← get_task (home i) i;
            scan_waiters bitmap cands (if priority ti <? priority tw then Some i else Some w)
        | None => scan_waiters bitmap cands (Some i)
        end
      else scan_waiters bitmap cands highest
  end.

Definition highest_waiter (bitmap : Z) : K (option nat) := scan_waiters bitmap (seq 0 32) None.

(** [bitmap |= 1 << i] and [bitmap &= !(1 << i)] on [u32]. *)
Definition set_bit (bitmap : Z) (i : nat) : Z := Z.lor bitmap (Z.shiftl 1 (Z.of_nat i)).
Definition clear_bit (bitmap : Z) (i : nat) : Z :=
  Z.land bitmap (Z.lxor (2 ^ 32 - 1) (Z.shiftl 1 (Z.of_nat i))).
