(* ===== verification/Trap.v ===== *)
(** * Trap: the trap handler

    Models [trap_handler] of kernel/src/trap.rs: the timer and software
    interrupts, the eight system calls, the emulation of cycle-counter reads, and
    the containment of synchronous faults.  One definition per arm of the match;
    [trap_handler] composes them.  Log messages to RTT are left out. *)
From S2P Require Import Prelude Memory Tcb Bitmap Pmp Spinlock Telemetry Kernel.

(** ** Interrupts *)

(** [for i in 0..MAX_PARTITIONS]: wake tasks whose sleep is over. *)
Definition wake_one (tick : Z) (t : TaskControlBlock) : TaskControlBlock :=
  match state t with
  | Blocked wake_tick => if wake_tick <=? tick then set_state Ready t else t
  | _ => t
  end.

Definition wake_sleepers (tick : Z) (s : BitMapScheduler) : BitMapScheduler :=
  set_table (map (option_map (wake_one tick)) (task_table s)) s.

Definition timer_interrupt (E : Env) (h : hart) (sp : Z) : K Z :=
  t ← gets TICK_COUNT;
  let tick := wrapping_add t 1 in
  _ ← modify (set_TICK_COUNT tick);
  _ ← modify (λ k, set_mtimecmp (ph_set h ((clint_mtime E + 40000) mod 2 ^ 64) (mtimecmp k)) k);
  sched_guard h (
    s ← get_sched h;
    _ ← put_sched h (wake_sleepers tick s);
    switch_task E h sp true).

Definition software_interrupt (E : Env) (h : hart) (sp : Z) : K Z :=
  _ ← write_msip h 0;
  sched_guard h (switch_task E h sp false).

(** ** System calls 1, 2 and 5: yield, sleep, watchdog check-in *)

Definition sys_yield (E : Env) (h : hart) (sp : Z) : K Z :=
  sched_guard h (switch_task E h sp false).

Definition sys_sleep (E : Env) (h : hart) (sp : Z) : K Z :=
  ticks ← fread sp A0;
  sched_guard h (
    s ← get_sched h;
    current_tick ← gets TICK_COUNT;
    _ ← put_state h (current_partition_idx s) (Blocked (wrapping_add current_tick (u32 ticks)));
    switch_task E h sp false).

Definition sys_checkin (h : hart) (sp : Z) : K Z :=
  sched_guard h (
    s ← get_sched h;
    current_tick ← gets TICK_COUNT;
    l ← gets LAST_CHECKIN_TICK;
    _ ← lift (index l (current_partition_idx s));
    _ ← modify (set_LAST_CHECKIN_TICK (<[current_partition_idx s := current_tick]> l));
    mret sp).

(** ** System calls 3 and 4: mutexes *)

(** The local flags [lock_granted] and [permission_denied], as one outcome. *)
Inductive verdict := Granted | Denied.

(** [capabilities[cap_idx]] of the running task, when [cap_idx < 8]. *)
Definition running_cap (h : hart) (cap_idx : Z) : K Capability :=
  if cap_idx <? 8 then
    s ← get_sched h;
    t ← get_task h (current_partition_idx s);
    lift (index (capabilities t) (Z.to_nat cap_idx))
  else mret CapNone.

Definition deny_locked {A} (a : A) : K A := _ ← mutex_unlock; mret a.

Definition sys_lock (E : Env) (h : hart) (sp : Z) : K Z :=
  cap_idx ← fread sp A0;
  sched_guard h (
    s ← get_sched h;
    let running_idx := current_partition_idx s in
    _ ← mutex_lock h;
    cap ← running_cap h cap_idx;
    vs ← match cap with
         | CapMutex mutex_idx true _ =>
             mo ← get_mutex (Z.to_nat mutex_idx);
             match mo with
             | Some m =>
                 if negb (locked m) then
                   _ ← put_mutex (Z.to_nat mutex_idx)
                         (mkMutex true (Some (u8 (Z.of_nat running_idx))) (waiters_bitmap m));
                   deny_locked (Granted, sp)
                 else
                   _ ← put_state h running_idx (BlockedOnMutex mutex_idx);
                   _ ← put_mutex (Z.to_nat mutex_idx)
                         (mkMutex (locked m) (owner_task_idx m) (set_bit (waiters_bitmap m) running_idx));
                   _ ← mutex_unlock;
                   sp' ← switch_task E h sp false;
                   mret (Granted, sp')
             | None => deny_locked (Denied, sp)
             end
         | _ => deny_locked (Denied, sp)
         end;
    _ ← match fst vs with
        | Denied => fwrite sp A0 USIZE_MINUS_ONE
        | Granted =>
            t ← get_task h running_idx;
            match state t with
            | BlockedOnMutex _ => mret tt
            | _ => fwrite sp A0 0
            end
        end;
    mret (snd vs)).

Definition sys_unlock (E : Env) (h : hart) (sp : Z) : K Z :=
  cap_idx ← fread sp A0;
  sched_guard h (
    s ← get_sched h;
    let running_idx := current_partition_idx s in
    _ ← mutex_lock h;
    cap ← running_cap h cap_idx;
    vs ← match cap with
         | CapMutex mutex_idx _ true =>
             mo ← get_mutex (Z.to_nat mutex_idx);
             match mo with
             | Some m =>
                 if negb (bool_decide (owner_task_idx m = Some (u8 (Z.of_nat running_idx))))
                 then kpanic AssertFailed else
                 hw ← highest_waiter (waiters_bitmap m);
                 _ ← match hw with
                     | Some w =>
                         _ ← put_mutex (Z.to_nat mutex_idx)
                               (mkMutex (locked m) (Some (u8 (Z.of_nat w)))
                                        (clear_bit (waiters_bitmap m) w));
                         _ ← put_state (home w) w Ready;
                         t ← get_task (home w) w;
                         _ ← fwrite (saved_sp t) A0 0;
                         _ ← mutex_unlock;
                         if bool_decide (home w = h) then mret tt else write_msip (home w) 1
                     | None =>
                         _ ← put_mutex (Z.to_nat mutex_idx) (mkMutex false None (waiters_bitmap m));
                         mutex_unlock
                     end;
                 sp' ← switch_task E h sp false;
                 mret (Granted, sp')
             | None => deny_locked (Denied, sp)
             end
         | _ => deny_locked (Denied, sp)
         end;
    _ ← fwrite sp A0 (match fst vs with Denied => USIZE_MINUS_ONE | Granted => 0 end);
    mret (snd vs)).

(** ** System calls 6 and 7: synchronous IPC *)

(** First match over core 0's table, then core 1's. *)
Definition find_slot (p : TaskState → bool) (tbl : list (option TaskControlBlock)) : option nat :=
  find (λ i, match slot tbl i with Some t => p (state t) | None => false end) (seq 0 32).

Definition find_task (p : TaskState → bool) : K (option (hart * nat)) :=
  s0 ← get_sched H0;
  s1 ← get_sched H1;
  match find_slot p (task_table s0) with
  | Some i => mret (Some (H0, i))
  | None =>
      match find_slot p (task_table s1) with
      | Some i => mret (Some (H1, i))
      | None => mret None
      end
  end.

Definition waits_recv (ep : Z) (st : TaskState) : bool :=
  match st with BlockedOnIpcRecv rx_ep _ _ => rx_ep =? ep | _ => false end.
Definition waits_send (ep : Z) (st : TaskState) : bool :=
  match st with BlockedOnIpcSend tx_ep _ _ => tx_ep =? ep | _ => false end.

Definition copy_mem (src dst len : Z) : K unit :=
  modify (λ k, set_ram (copy_nonoverlapping (ram k) src dst len) k).

Definition notify (h target : hart) : K unit :=
  if bool_decide (target = h) then mret tt else write_msip target 1.

Definition sys_send (E : Env) (h : hart) (sp : Z) : K Z :=
  cap_idx ← fread sp A0;
  msg_addr ← fread sp A1;
  msg_len ← fread sp A2;
  sched_guard h (
    s ← get_sched h;
    let running_idx := current_partition_idx s in
    cap ← running_cap h cap_idx;
    match cap with
    | CapIpc endpoint_idx true _ =>
        rx ← find_task (waits_recv endpoint_idx);
        match rx with
        | Some (rx_hart, rx_idx) =>
            t ← get_task rx_hart rx_idx;
            match state t with
            | BlockedOnIpcRecv _ buf_addr max_len =>
                let transfer_len := Z.min msg_len max_len in
                _ ← copy_mem msg_addr buf_addr transfer_len;
                _ ← put_state rx_hart rx_idx Ready;
                _ ← fwrite (saved_sp t) A0 transfer_len;
                _ ← fwrite sp A0 0;
                _ ← log (IpcTransfer endpoint_idx (u8 transfer_len));
                _ ← notify h rx_hart;
                mret sp
            | _ => mret sp
            end
        | None =>
            _ ← put_state h running_idx (BlockedOnIpcSend endpoint_idx msg_addr msg_len);
            switch_task E h sp false
        end
    | _ =>
        _ ← fwrite sp A0 USIZE_MINUS_ONE;
        mret sp
    end).

Definition sys_recv (E : Env) (h : hart) (sp : Z) : K Z :=
  cap_idx ← fread sp A0;
  buf_addr ← fread sp A1;
  max_len ← fread sp A2;
  sched_guard h (
    s ← get_sched h;
    let running_idx := current_partition_idx s in
    cap ← running_cap h cap_idx;
    match cap with
    | CapIpc endpoint_idx _ true =>
        tx ← find_task (waits_send endpoint_idx);
        match tx with
        | Some (tx_hart, tx_idx) =>
            t ← get_task tx_hart tx_idx;
            match state t with
            | BlockedOnIpcSend _ msg_addr msg_len =>
                let transfer_len := Z.min msg_len max_len in
                _ ← copy_mem msg_addr buf_addr transfer_len;
                _ ← put_state tx_hart tx_idx Ready;
                _ ← fwrite (saved_sp t) A0 0;
                _ ← fwrite sp A0 transfer_len;
                _ ← log (IpcTransfer endpoint_idx (u8 transfer_len));
                _ ← notify h tx_hart;
                mret sp
            | _ => mret sp
            end
        | None =>
            _ ← put_state h running_idx (BlockedOnIpcRecv endpoint_idx buf_addr max_len);
            switch_task E h sp false
        end
    | _ =>
        _ ← fwrite sp A0 USIZE_MINUS_ONE;
        mret sp
    end).

(** ** Mutex recovery, shared by system call 8 and fault containment *)

Definition recover_mutex (target : nat) (i : nat) : K unit :=
  mo ← get_mutex i;
  match mo with
  | Some m =>
      if bool_decide (owner_task_idx m = Some (u8 (Z.of_nat target))) then
        hw ← highest_waiter (waiters_bitmap m);
        match hw with
        | Some w =>
            _ ← put_mutex i (mkMutex true (Some (u8 (Z.of_nat w))) (clear_bit (waiters_bitmap m) w));
            put_state_if_some (home w) w Ready
        | None => put_mutex i (mkMutex false None (waiters_bitmap m))
        end
      else mret tt
  | None => mret tt
  end.

Fixpoint recover_mutexes (target : nat) (idxs : list nat) : K unit :=
  match idxs with
  | [] => mret tt
  | i :: idxs => _ ← recover_mutex target i; recover_mutexes target idxs
  end.

(** [for (i, mutex_opt) in mutexes.iter_mut().enumerate()], under [MUTEX_LOCK]. *)
Definition recovery (h : hart) (target : nat) : K unit :=
  _ ← mutex_lock h;
  ms ← gets MUTEXES;
  _ ← recover_mutexes target (seq 0 (length ms));
  mutex_unlock.

(** ** System call 8: terminate a task *)

(** Marks the task on the first core that has it; returns that core. *)
Definition terminate_slot (target : nat) : K (option hart) :=
  s0 ← get_sched H0;
  s1 ← get_sched H1;
  match slot (task_table s0) target with
  | Some _ => _ ← put_state H0 target Terminated; mret (Some H0)
  | None =>
      match slot (task_table s1) target with
      | Some _ => _ ← put_state H1 target Terminated; mret (Some H1)
      | None => mret None
      end
  end.

Definition sys_terminate (E : Env) (h : hart) (sp : Z) : K Z :=
  target_prio ← fread sp A0;
  let target := Z.to_nat target_prio in
  sched_guard h (
    found ← (if target_prio <? Z.of_nat MAX_PARTITIONS then terminate_slot target else mret None);
    match found with
    | Some found_hart =>
        _ ← recovery h target;
        _ ← fwrite sp A0 0;
        if bool_decide (found_hart = h) then
          s ← get_sched h;
          if Nat.eqb target (current_partition_idx s) then switch_task E h sp false else mret sp
        else
          _ ← write_msip found_hart 1;
          mret sp
    | None =>
        _ ← fwrite sp A0 USIZE_MINUS_ONE;
        mret sp
    end).

(** ** Environment calls *)

Definition ecall (E : Env) (h : hart) (sp : Z) : K Z :=
  syscall_id ← fread sp A7;
  mepc ← fread sp MEPC;
  _ ← fwrite sp MEPC (wrapping_add mepc 4);
  if syscall_id =? 1 then sys_yield E h sp
  else if syscall_id =? 2 then sys_sleep E h sp
  else if syscall_id =? 3 then sys_lock E h sp
  else if syscall_id =? 4 then sys_unlock E h sp
  else if syscall_id =? 5 then sys_checkin h sp
  else if syscall_id =? 6 then sys_send E h sp
  else if syscall_id =? 7 then sys_recv E h sp
  else if syscall_id =? 8 then sys_terminate E h sp
  else mret sp.

(** ** Exceptions *)

(** Where the frame keeps register [x<rd>]. *)
Definition frame_idx (rd_idx : Z) : option nat :=
  if rd_idx =? 1 then Some 0%nat
  else if (5 <=? rd_idx) && (rd_idx <=? 31) then Some (Z.to_nat (rd_idx - 4))
  else None.

(** Is the faulting instruction a read of [cycle] or [mcycle]? *)
Definition emulated_csr (instruction : Z) : bool :=
  let csr := Z.shiftr instruction 20 in
  (Z.land instruction 0x7F =? 0x73) && ((csr =? 0xC00) || (csr =? 0xB00)).

Definition emulate_csr (E : Env) (sp : Z) (instruction mepc : Z) : K Z :=
  let rd_idx := Z.land (Z.shiftr instruction 7) 0x1F in
  _ ← match frame_idx rd_idx with
      | Some i => fwrite sp i (csr_mcycle E)
      | None => mret tt
      end;
  _ ← fwrite sp MEPC (wrapping_add mepc 4);
  mret sp.

Definition contained_cause (cause : Z) : bool :=
  (cause =? 1) || (cause =? 2) || (cause =? 4) || (cause =? 5) || (cause =? 6) || (cause =? 7).

(** Terminate the running task, recover its mutexes, reschedule. *)
Definition contain_fault (E : Env) (h : hart) (sp cause : Z) : K Z :=
  mepc ← fread sp MEPC;
  _ ← log (FaultInterception (u32 cause) (u32 mepc));
  _ ← (if negb (cause =? 2)
       then modify (λ k, set_METRIC_PMP_VIOLATIONS (wrapping_add (METRIC_PMP_VIOLATIONS k) 1) k)
       else mret tt);
  sched_guard h (
    s ← get_sched h;
    let running_idx := current_partition_idx s in
    o ← lift (index (task_table s) running_idx);
    _ ← match o with
        | Some _ =>
            _ ← put_state h running_idx Terminated;
            recovery h running_idx
        | None => mret tt
        end;
    switch_task E h sp false).

Definition exception (E : Env) (h : hart) (sp cause : Z) : K Z :=
  mepc ← fread sp MEPC;
  instruction ← gets (λ k, load32 (ram k) mepc);
  if (cause =? 2) && emulated_csr instruction then emulate_csr E sp instruction mepc
  else if contained_cause cause then contain_fault E h sp cause
  else kpanic UnhandledException.

(** ** The dispatcher *)

Definition TIMER_INTERRUPT : Z := Z.lor (Z.shiftl 1 31) 7.
Definition SOFTWARE_INTERRUPT : Z := Z.lor (Z.shiftl 1 31) 3.
Definition ECALL_UMODE : Z := 8.

Definition trap_handler (E : Env) (h : hart) (mcause user_sp start_cycle : Z) : K Z :=
  _ ← modify (set_METRIC_TRAP_LATENCY_CYCLES (wrapping_sub (csr_mcycle E) start_cycle));
  if mcause =? TIMER_INTERRUPT then timer_interrupt E h user_sp
  else if mcause =? SOFTWARE_INTERRUPT then software_interrupt E h user_sp
  else if mcause =? ECALL_UMODE then ecall E h user_sp
  else exception E h user_sp mcause.
