(* ===== verification/KernelInv.v ===== *)
(** * KernelInv: the kernel invariant and a calculus of weakest preconditions

    What every trap finds and leaves behind: both schedulers well-formed, every
    capability naming an existing mutex slot of a task on its home core, every
    waiter bit naming a registered task, no task blocked on a mutex that does
    not list it as a waiter, no sender and receiver blocked on the same
    endpoint, and each hart's PMP programmed for the task the hart runs. *)
From S2P Require Import Prelude Memory Tcb Bitmap Pmp Spinlock Telemetry Kernel Trap.

(** ** Views of the state *)

Definition sched_of (h : hart) (k : Kernel) : BitMapScheduler := ph_get h (SCHEDULERS k).
Definition task_of (h : hart) (i : nat) (k : Kernel) : option TaskControlBlock :=
  slot (task_table (sched_of h k)) i.
Definition mutex_of (i : nat) (k : Kernel) : option KernelMutex := slot (MUTEXES k) i.

(** Registered on the core its mutex waits are looked up on. *)
Definition registered (k : Kernel) (n : nat) : Prop := is_Some (task_of (home n) n k).

Definition upd_task (h : hart) (i : nat) (f : TaskControlBlock → TaskControlBlock) (k : Kernel)
    : Kernel :=
  let s := sched_of h k in
  set_SCHEDULERS (ph_set h (set_table (alter (fmap f) i (task_table s)) s) (SCHEDULERS k)) k.

(** ** The invariant *)

Definition cap_ok (h : hart) (i : nat) (c : Capability) : Prop :=
  match c with CapMutex m _ _ => 0 ≤ m < 8 ∧ home i = h | _ => True end.

Definition caps_ok (h : hart) (i : nat) (t : TaskControlBlock) : Prop :=
  length (capabilities t) = 8%nat ∧ Forall (cap_ok h i) (capabilities t).

Record mutex_ok (reg : nat → Prop) (m : KernelMutex) : Prop := {
  mx_locked : locked m = true ↔ is_Some (owner_task_idx m);
  mx_range : 0 ≤ waiters_bitmap m < 2 ^ 32;
  mx_waiters : ∀ n, Z.testbit (waiters_bitmap m) (Z.of_nat n) = true → reg n;
  mx_free : locked m = false → waiters_bitmap m = 0;
  mx_owner : ∀ z, owner_task_idx m = Some z → ∃ n, z = Z.of_nat n ∧ (n < 32)%nat ∧ reg n
}.

(** A task blocked on a mutex is one of the mutex's waiters. *)
Definition listed (k : Kernel) (h : hart) (i : nat) (mi : Z) : Prop :=
  home i = h ∧ ∃ m, mutex_of (Z.to_nat mi) k = Some m ∧
                    Z.testbit (waiters_bitmap m) (Z.of_nat i) = true.

Record kernel_inv (L : Layout) (k : Kernel) : Prop := {
  inv_sched : ∀ h, sched_wf (sched_of h k);
  inv_mutexes : length (MUTEXES k) = 8%nat;
  inv_checkin : length (LAST_CHECKIN_TICK k) = 32%nat;
  inv_caps : ∀ h i t, task_of h i k = Some t → caps_ok h i t;
  inv_mutex : ∀ i m, mutex_of i k = Some m → mutex_ok (registered k) m;
  inv_blocked : ∀ h i t mi,
    task_of h i k = Some t → state t = BlockedOnMutex mi → listed k h i mi;
  inv_rendezvous : ∀ ep h i t h' i' t',
    task_of h i k = Some t → task_of h' i' k = Some t' →
    waits_send ep (state t) = true → waits_recv ep (state t') = true → False;
  inv_pmp : ∀ h t, task_of h (current_partition_idx (sched_of h k)) k = Some t →
    pmp_configured L (name t) (ph_get h (pmp k))
}.

(** Registration data (priorities, names, capabilities) never changes. *)
Definition static_kernel (k k' : Kernel) : Prop :=
  ∀ h, static_eq (task_table (sched_of h k)) (task_table (sched_of h k')).

#[export] Instance static_kernel_preorder : PreOrder static_kernel.
Proof. split; [by intros k h|]. intros k1 k2 k3 H1 H2 h. etrans; [apply H1|apply H2]. Qed.

(** ** Weakest preconditions

    [wp P m Q k]: run from [k], [m] does not spin, panics only with a panic in
    [P], and establishes [Q] if it returns. *)

Definition wp {A} (P : panic → Prop) (m : K A) (Q : A → Kernel → Prop) (k : Kernel) : Prop :=
  match m k with
  | Done (a, k') => Q a k'
  | Panicked p => P p
  | Spinning => False
  end.

Definition no_panic (p : panic) : Prop := False.

Section wp.
Context (P : panic → Prop).

Lemma wp_bind {A B} (m : K A) (f : A → K B) Q k :
  wp P m (λ a k', wp P (f a) Q k') k → wp P (m ≫= f) Q k.
Proof. unfold wp, mbind, K_bind. by destruct (m k) as [[]| |]. Qed.

Lemma wp_mono {A} (m : K A) (Q Q' : A → Kernel → Prop) k :
  wp P m Q k → (∀ a k', Q a k' → Q' a k') → wp P m Q' k.
Proof. unfold wp. destruct (m k) as [[]| |]; auto. Qed.

Lemma wp_ret {A} (a : A) (Q : A → Kernel → Prop) k : Q a k → wp P (mret a) Q k.
Proof. done. Qed.

Lemma wp_gets {A} (f : Kernel → A) Q k : Q (f k) k → wp P (gets f) Q k.
Proof. done. Qed.

Lemma wp_modify f (Q : unit → Kernel → Prop) k : Q tt (f k) → wp P (modify f) Q k.
Proof. done. Qed.

Lemma wp_lift {A} (r : result A) (Q : A → Kernel → Prop) k :
  returns r (λ a, Q a k) → wp P (lift r) Q k.
Proof. by destruct r. Qed.

Lemma wp_Done {A} (m : K A) Q k a k' : m k = Done (a, k') → Q a k' → wp P m Q k.
Proof. unfold wp. by intros ->. Qed.
End wp.

(** Runs the state-passing steps up to the next access that can fail. *)
Ltac wp_step :=
  lazymatch goal with
  | |- wp _ (_ ≫= _) _ _ => apply wp_bind
  | |- wp _ (gets _) _ _ => apply wp_gets
  | |- wp _ (modify _) _ _ => apply wp_modify
  | |- wp _ (mret _) _ _ => apply wp_ret
  | |- wp _ (get_sched _) _ _ => apply wp_gets
  | |- wp _ (put_sched _ _) _ _ => apply wp_modify
  | |- wp _ (put_mutex _ _) _ _ => apply wp_modify
  | |- wp _ (fread _ _) _ _ => apply wp_gets
  | |- wp _ (fwrite _ _ _) _ _ => apply wp_modify
  | |- wp _ (log _) _ _ => apply wp_modify
  | |- wp _ (write_msip _ _) _ _ => apply wp_modify
  | |- wp _ mutex_unlock _ _ => apply wp_modify
  | |- wp _ (deny_locked _) _ _ => unfold deny_locked
  | |- wp _ (copy_mem _ _ _) _ _ => apply wp_modify
  end.
Ltac wp_run := repeat (wp_step; cbv beta).

Lemma wp_no_panic {A} (m : K A) Q k :
  wp no_panic m Q k → ∃ a k', m k = Done (a, k') ∧ Q a k'.
Proof. unfold wp. destruct (m k) as [[a k']| |]; [eauto|done|done]. Qed.

Lemma wp_weaken {A} (P P' : panic → Prop) (m : K A) Q k :
  (∀ p, P p → P' p) → wp P m Q k → wp P' m Q k.
Proof. unfold wp. destruct (m k) as [[]| |]; auto. Qed.

(** ** Views after updates *)

Lemma ph_get_set {A} h h' (v : A) p :
  ph_get h' (ph_set h v p) = if decide (h = h') then v else ph_get h' p.
Proof. by destruct h, h', p. Qed.

Lemma ph_set_id {A} h (p : per_hart A) : ph_set h (ph_get h p) p = p.
Proof. by destruct h, p. Qed.

Lemma ph_set_set {A} h (v w : A) p : ph_set h v (ph_set h w p) = ph_set h v p.
Proof. by destruct h, p. Qed.

Lemma task_of_upd h i f k h' j :
  task_of h' j (upd_task h i f k) =
    if decide (h = h' ∧ i = j) then f <$> task_of h' j k else task_of h' j k.
Proof.
  unfold task_of, upd_task, sched_of. simpl. rewrite ph_get_set.
  destruct (decide (h = h')) as [->|Hh].
  - simpl. rewrite slot_alter. repeat case_decide; naive_solver.
  - rewrite decide_False by naive_solver. done.
Qed.

Lemma current_upd h i f k h' :
  current_partition_idx (sched_of h' (upd_task h i f k)) = current_partition_idx (sched_of h' k).
Proof. unfold upd_task, sched_of. simpl. rewrite ph_get_set. by case_decide; subst. Qed.

Lemma static_upd h i f k :
  (∀ t, static_tcb (f t) = static_tcb t) → static_kernel k (upd_task h i f k).
Proof.
  intros Hf h' j. fold (task_of h' j k) (task_of h' j (upd_task h i f k)).
  rewrite task_of_upd. case_decide; [|done]. destruct (task_of h' j k); simpl; by rewrite ?Hf.
Qed.

Lemma static_capabilities t t' :
  static_tcb t' = static_tcb t → capabilities t' = capabilities t.
Proof. by intros [=]. Qed.

Lemma static_name t t' : static_tcb t' = static_tcb t → name t' = name t.
Proof. by intros [=]. Qed.

Lemma static_task k k' h i t' :
  static_kernel k k' → task_of h i k' = Some t' →
  ∃ t, task_of h i k = Some t ∧ static_tcb t' = static_tcb t.
Proof. intros Hs. apply (static_slot _ _ _ _ (Hs h)). Qed.

Lemma static_registered k k' n : static_kernel k k' → registered k n ↔ registered k' n.
Proof. intros Hs. apply static_is_Some, Hs. Qed.

Lemma mutex_ok_iff (P Q : nat → Prop) m : (∀ n, P n → Q n) → mutex_ok P m → mutex_ok Q m.
Proof. intros H []. split; [done..|naive_solver|done|naive_solver]. Qed.

Lemma sched_wf_upd s i f :
  sched_wf s → (∀ t, static_tcb (f t) = static_tcb t) →
  (∀ t, state (f t) = state t ∨ state (f t) ≠ Running) →
  sched_wf (set_table (alter (fmap f) i (task_table s)) s).
Proof.
  intros [[] Hp Hr] Hf Hst.
  assert (Hse : static_eq (task_table s) (alter (fmap f) i (task_table s))).
  { intros j. rewrite slot_alter. case_decide; [|done]. destruct (slot _ j); simpl; by rewrite ?Hf. }
  split; [split|..]; simpl.
  - by rewrite length_alter.
  - done.
  - done.
  - by apply (static_is_Some _ _ _ Hse).
  - by eapply static_wf_priority.
  - intros j t. rewrite slot_alter. case_decide as Hij; [|apply Hr].
    destruct (slot (task_table s) j) as [t0|] eqn:E; [|done]. intros [= <-] Hrun.
    destruct (Hst t0); [|done]. apply (Hr j t0); congruence.
Qed.

(** ** Changes that keep the invariant *)

(** States that impose nothing on the rest of the kernel. *)
Definition quiet (st : TaskState) : Prop :=
  match st with
  | Ready | Running | Blocked _ | Terminated => True
  | BlockedOnMutex _ | BlockedOnIpcSend _ _ _ | BlockedOnIpcRecv _ _ _ => False
  end.

(** Every task of [k'] is quiet or has the state it had in [k]. *)
Definition calmer (k k' : Kernel) : Prop :=
  ∀ h i t', task_of h i k' = Some t' →
    quiet (state t') ∨ ∃ t, task_of h i k = Some t ∧ state t = state t'.

Lemma listed_mutexes k k' h i mi : MUTEXES k' = MUTEXES k → listed k h i mi → listed k' h i mi.
Proof. unfold listed, mutex_of. by intros ->. Qed.

Lemma caps_static k k' h i t' :
  static_kernel k k' → (∀ h i t, task_of h i k = Some t → caps_ok h i t) →
  task_of h i k' = Some t' → caps_ok h i t'.
Proof.
  intros Hs Hc Ht'. destruct (static_task _ _ _ _ _ Hs Ht') as (t & Ht & He).
  apply Hc in Ht. unfold caps_ok in *. by rewrite (static_capabilities _ _ He).
Qed.

(** The general rule for changes to the task tables. *)
Lemma inv_tasks L k k' :
  kernel_inv L k → static_kernel k k' → calmer k k' →
  (∀ h, sched_wf (sched_of h k')) → MUTEXES k' = MUTEXES k →
  length (LAST_CHECKIN_TICK k') = 32%nat →
  (∀ h t, task_of h (current_partition_idx (sched_of h k')) k' = Some t →
     pmp_configured L (name t) (ph_get h (pmp k'))) →
  kernel_inv L k'.
Proof.
  intros Hi Hs Hcalm Hwf Hm Hl Hp. split.
  - done.
  - rewrite Hm. apply Hi.
  - done.
  - intros h i t. apply (caps_static k); [done|apply Hi].
  - unfold mutex_of. rewrite Hm. intros i m Him. eapply mutex_ok_iff; [|by eapply Hi].
    intros n. apply (static_registered k k' n Hs).
  - intros h i t' mi Ht' Hst. destruct (Hcalm _ _ _ Ht') as [Hq|(t & Ht & He)].
    + by rewrite Hst in Hq.
    + apply (listed_mutexes k); [done|]. eapply Hi; [done|congruence].
  - intros ep h i t h' i' t' Ht Ht' Hw Hw'.
    destruct (Hcalm _ _ _ Ht) as [Hq|(u & Hu & He)].
    { unfold waits_send in Hw. by destruct (state t). }
    destruct (Hcalm _ _ _ Ht') as [Hq|(u' & Hu' & He')].
    { unfold waits_recv in Hw'. by destruct (state t'). }
    rewrite <- He in Hw. rewrite <- He' in Hw'. exact (inv_rendezvous _ _ Hi _ _ _ _ _ _ _ Hu Hu' Hw Hw').
  - done.
Qed.

(** Fields the invariant does not mention may change freely. *)
Lemma inv_fields L k k' :
  SCHEDULERS k' = SCHEDULERS k → MUTEXES k' = MUTEXES k →
  length (LAST_CHECKIN_TICK k') = length (LAST_CHECKIN_TICK k) → pmp k' = pmp k →
  kernel_inv L k → kernel_inv L k'.
Proof.
  destruct k, k'; simpl. intros -> -> Hl -> []. split; try done. simpl in *. congruence.
Qed.

Lemma pmp_static L k k' :
  static_kernel k k' → kernel_inv L k → pmp k' = pmp k →
  (∀ h, current_partition_idx (sched_of h k') = current_partition_idx (sched_of h k)) →
  ∀ h t, task_of h (current_partition_idx (sched_of h k')) k' = Some t →
    pmp_configured L (name t) (ph_get h (pmp k')).
Proof.
  intros Hs Hi Hp Hc h t' Ht'. rewrite Hp. rewrite Hc in Ht'.
  destruct (static_task _ _ _ _ _ Hs Ht') as (t & Ht & He).
  apply (inv_pmp _ _ Hi) in Ht. by rewrite (static_name _ _ He).
Qed.

(** One task updated: its registration data kept, its state kept or made quiet. *)
Lemma inv_upd L h i f k :
  kernel_inv L k → (∀ t, static_tcb (f t) = static_tcb t) →
  (∀ t, state (f t) = state t ∨ quiet (state (f t)) ∧ state (f t) ≠ Running) →
  kernel_inv L (upd_task h i f k).
Proof.
  intros Hi Hf Hst. pose proof (static_upd h i f k Hf) as Hs.
  apply (inv_tasks L k); try done.
  - intros h' j t'. rewrite task_of_upd. case_decide as Hd; [|eauto].
    destruct (task_of h' j k) as [t|] eqn:E; [|done]. intros [= <-].
    destruct (Hst t) as [He|[Hq _]]; [right; eauto|by left].
  - intros h'. unfold sched_of, upd_task. simpl. rewrite ph_get_set. case_decide; [|apply Hi].
    apply sched_wf_upd; [apply Hi|done|]. intros t. destruct (Hst t) as [|[]]; auto.
  - apply Hi.
  - apply (pmp_static L k); [done..|]. intros. apply current_upd.
Qed.

Lemma inv_set_state L h i st k :
  kernel_inv L k → quiet st → st ≠ Running → kernel_inv L (upd_task h i (set_state st) k).
Proof. intros. apply inv_upd; [done|by intros []|]. intros []; simpl; auto. Qed.

(** A mutex replaced: still consistent, and no blocked task dropped. *)
Lemma inv_set_mutex L i m k :
  kernel_inv L k → (i < 8)%nat → mutex_ok (registered k) m →
  (∀ h n t mi, task_of h n k = Some t → state t = BlockedOnMutex mi → Z.to_nat mi = i →
     Z.testbit (waiters_bitmap m) (Z.of_nat n) = true) →
  kernel_inv L (set_MUTEXES (<[i := Some m]> (MUTEXES k)) k).
Proof.
  intros Hi Hlt Hm Hb.
  assert (Hlen : (i < length (MUTEXES k))%nat) by (rewrite (inv_mutexes _ _ Hi); lia).
  assert (Hof : ∀ j, mutex_of j (set_MUTEXES (<[i := Some m]> (MUTEXES k)) k)
                     = if decide (i = j) then Some m else mutex_of j k).
  { intros j. by apply slot_insert. }
  split; try apply Hi.
  - simpl. rewrite length_insert. apply Hi.
  - intros j m'. rewrite Hof. case_decide; [|by apply (inv_mutex _ _ Hi)]. by intros [= <-].
  - intros h n t mi Ht Hst. destruct (inv_blocked _ _ Hi _ _ _ _ Ht Hst) as (Hh & m0 & Hm0 & Hbit).
    split; [done|]. rewrite Hof. case_decide as Hd; [|eauto]. exists m. split; [done|]. by eapply Hb.
Qed.

(** ** Rules for the accesses *)

(** Free, or held by this hart with room for one more level. *)
Definition avail (h : hart) (l : Spinlock) : Prop :=
  l = spin_new ∨ owner l = hart_id h + 1 ∧ 1 ≤ depth l < 2 ^ 32 - 1.

Lemma lock_avail h l :
  avail h l → ∃ l', Spinlock.lock l (hart_id h) = Done l' ∧ unlock l' = l.
Proof.
  assert (Hme : wrapping_add (hart_id h) 1 = hart_id h + 1) by by destruct h.
  intros [->|[Ho Hd]].
  - exists (mkLock (hart_id h + 1) 1). by destruct h.
  - exists (mkLock (owner l) (depth l + 1)). unfold Spinlock.lock. rewrite Hme, Ho, Z.eqb_refl.
    rewrite wrapping_add_1 by lia. split; [done|].
    unfold unlock. simpl. rewrite wrapping_sub_1 by lia.
    replace (depth l + 1 - 1) with (depth l) by lia.
    rewrite (proj2 (Z.eqb_neq _ _)) by lia. destruct l; simpl in *. by subst.
Qed.

Lemma set_SCHED_LOCK_id k : set_SCHED_LOCK (SCHED_LOCK k) k = k.
Proof. by destruct k. Qed.
Lemma set_MUTEX_LOCK_id k : set_MUTEX_LOCK (MUTEX_LOCK k) k = k.
Proof. by destruct k. Qed.

Section rules.
Context (P : panic → Prop).

(** The guard is transparent: the body runs with the lock held, and the lock is
    as it was once the guard is dropped. *)
Lemma wp_sched_guard {A} h (body : K A) Q k :
  avail h (SCHED_LOCK k) →
  (∀ l', wp P body (λ a k', SCHED_LOCK k' = l' ∧ Q a (set_SCHED_LOCK (SCHED_LOCK k) k'))
            (set_SCHED_LOCK l' k)) →
  wp P (sched_guard h body) Q k.
Proof.
  intros Ha Hb. destruct (lock_avail _ _ Ha) as (l' & Hl & Hu). specialize (Hb l').
  unfold sched_guard, sched_lock. wp_run. apply wp_lift. rewrite Hl. simpl.
  wp_run. eapply wp_mono; [exact Hb|].
  intros a k' [Hk HQ]. simpl. unfold sched_unlock. wp_run. rewrite Hk, Hu. done.
Qed.

Lemma wp_mutex_lock h Q k :
  avail h (MUTEX_LOCK k) →
  (∀ l', unlock l' = MUTEX_LOCK k → Q tt (set_MUTEX_LOCK l' k)) → wp P (mutex_lock h) Q k.
Proof.
  intros Ha HQ. destruct (lock_avail _ _ Ha) as (l' & Hl & Hu).
  unfold mutex_lock. apply wp_bind, wp_gets, wp_bind, wp_lift. rewrite Hl. simpl.
  by apply wp_modify, HQ.
Qed.

Lemma wp_get_task h i t (Q : TaskControlBlock → Kernel → Prop) k :
  task_of h i k = Some t → Q t k → wp P (get_task h i) Q k.
Proof.
  intros Ht HQ. unfold get_task, get_sched. apply wp_bind, wp_gets, wp_bind, wp_lift.
  fold (sched_of h k). rewrite (index_slot _ _ _ Ht). simpl. by apply wp_lift.
Qed.

Lemma wp_put_state h i st (Q : unit → Kernel → Prop) k :
  is_Some (task_of h i k) → Q tt (upd_task h i (set_state st) k) → wp P (put_state h i st) Q k.
Proof.
  intros [t Ht] HQ. unfold put_state. apply wp_bind. eapply wp_get_task; [done|].
  unfold get_sched. apply wp_bind, wp_gets, wp_modify. exact HQ.
Qed.

Lemma wp_put_state_if_some h i st (Q : unit → Kernel → Prop) k :
  is_Some (task_of h i k) → Q tt (upd_task h i (set_state st) k) →
  wp P (put_state_if_some h i st) Q k.
Proof.
  intros [t Ht] HQ. unfold put_state_if_some, get_sched. apply wp_bind, wp_gets, wp_bind, wp_lift.
  fold (sched_of h k). rewrite (index_slot _ _ _ Ht). by apply wp_modify.
Qed.

Lemma wp_get_mutex i (Q : option KernelMutex → Kernel → Prop) k :
  (i < length (MUTEXES k))%nat → Q (mutex_of i k) k → wp P (get_mutex i) Q k.
Proof.
  intros [o Ho]%lookup_lt_is_Some_2 HQ. unfold get_mutex. apply wp_bind, wp_gets, wp_lift.
  rewrite (index_Some _ _ _ Ho). unfold mutex_of, slot in HQ. rewrite Ho in HQ. by destruct o.
Qed.

Lemma wp_notify h h' (Q : unit → Kernel → Prop) k :
  Q tt (if decide (h' = h) then k else set_msip (ph_set h' 1 (msip k)) k) →
  wp P (notify h h') Q k.
Proof.
  unfold notify, write_msip. intros HQ. case_decide.
  - by rewrite bool_decide_true.
  - by rewrite bool_decide_false.
Qed.
End rules.

(** ** The waiter scan

    Tasks are registered under their priority, so the waiter with the smallest
    priority is the lowest bit of the bitmap. *)

Definition lowest_waiter (bitmap : Z) : option nat :=
  find (λ i, Z.testbit bitmap (Z.of_nat i)) (seq 0 32).

Lemma bit_test b i : negb (Z.land b (Z.shiftl 1 (Z.of_nat i)) =? 0) = Z.testbit b (Z.of_nat i).
Proof.
  destruct (Z.testbit b (Z.of_nat i)) eqn:E.
  - apply negb_true_iff, Z.eqb_neq. intros H0.
    assert (Z.testbit (Z.land b (Z.shiftl 1 (Z.of_nat i))) (Z.of_nat i) = true) as Ht.
    { rewrite Z.land_spec, E, Z.shiftl_spec, Z.sub_diag by lia. done. }
    rewrite H0, Z.testbit_0_l in Ht. done.
  - apply negb_false_iff, Z.eqb_eq, Z.bits_inj'. intros n Hn.
    rewrite Z.land_spec, Z.testbit_0_l. destruct (decide (n = Z.of_nat i)) as [->|Hne].
    + by rewrite E.
    + rewrite Z.shiftl_1_l, Z.pow2_bits_false by lia. apply andb_false_r.
Qed.

Lemma scan_waiters_first L b cands w k P Q :
  kernel_inv L k → (∀ n, Z.testbit b (Z.of_nat n) = true → registered k n) →
  Z.testbit b (Z.of_nat w) = true → Forall (λ i, (w < i)%nat) cands →
  Q (Some w) k → wp P (scan_waiters b cands (Some w)) Q k.
Proof.
  intros Hi Hb Hw Hc HQ. induction cands as [|i cands IH]; [done|].
  apply Forall_cons_1 in Hc as [Hlt Hc]. cbn [scan_waiters]. rewrite bit_test.
  destruct (Z.testbit b (Z.of_nat i)) eqn:Ei; [|by apply IH].
  destruct (Hb _ Hw) as [tw Htw], (Hb _ Ei) as [ti Hti].
  apply wp_bind. eapply wp_get_task; [done|]. apply wp_bind. eapply wp_get_task; [done|].
  destruct (wf_priority _ (inv_sched _ _ Hi _) _ _ Htw) as [-> _].
  destruct (wf_priority _ (inv_sched _ _ Hi _) _ _ Hti) as [-> _].
  rewrite (proj2 (Z.ltb_ge _ _)) by lia. by apply IH.
Qed.

Lemma scan_waiters_none L b n m k P Q :
  kernel_inv L k → (∀ n, Z.testbit b (Z.of_nat n) = true → registered k n) →
  Q (find (λ i, Z.testbit b (Z.of_nat i)) (seq m n)) k →
  wp P (scan_waiters b (seq m n) None) Q k.
Proof.
  intros Hi Hb. revert m. induction n as [|n IH]; intros m; [done|].
  cbn [seq scan_waiters find]. rewrite bit_test.
  destruct (Z.testbit b (Z.of_nat m)) eqn:E; [|by apply IH].
  intros HQ. eapply scan_waiters_first; try done.
  apply List.Forall_forall. intros i [Hle _]%in_seq. lia.
Qed.

Lemma wp_highest_waiter L b k P (Q : option nat → Kernel → Prop) :
  kernel_inv L k → (∀ n, Z.testbit b (Z.of_nat n) = true → registered k n) →
  Q (lowest_waiter b) k → wp P (highest_waiter b) Q k.
Proof. apply scan_waiters_none. Qed.

Lemma lowest_waiter_Some b w :
  lowest_waiter b = Some w →
  (w < 32)%nat ∧ Z.testbit b (Z.of_nat w) = true ∧
  ∀ i, (i < w)%nat → Z.testbit b (Z.of_nat i) = false.
Proof.
  unfold lowest_waiter. change 32%nat with (0 + 32)%nat at 2.
  assert (H : ∀ n m, find (λ i, Z.testbit b (Z.of_nat i)) (seq m n) = Some w →
    (w < m + n)%nat ∧ Z.testbit b (Z.of_nat w) = true ∧
    ∀ i, (m ≤ i < w)%nat → Z.testbit b (Z.of_nat i) = false).
  { induction n as [|n IH]; intros m; simpl; [done|].
    destruct (Z.testbit b (Z.of_nat m)) eqn:E.
    - intros [= <-]. split_and!; [lia|done|]. intros. lia.
    - intros (H1 & H2 & H3)%IH. split_and!; [lia|done|]. intros i Hi.
      destruct (decide (i = m)) as [->|]; [done|]. apply H3. lia. }
  intros (H1 & H2 & H3)%H. split_and!; [lia|done|]. intros. apply H3. lia.
Qed.

Lemma lowest_waiter_None b : 0 ≤ b < 2 ^ 32 → lowest_waiter b = None → b = 0.
Proof.
  intros Hb Hn. apply Z.bits_inj'. intros n Hn0. rewrite Z.testbit_0_l.
  destruct (decide (n < 32)).
  - pose proof (find_none _ _ Hn (Z.to_nat n)) as Hf. cbv beta in Hf.
    rewrite Z2Nat.id in Hf by lia. apply Hf. apply in_seq. lia.
  - destruct (decide (b = 0)) as [->|]; [apply Z.testbit_0_l|].
    apply Z.bits_above_log2; [lia|]. apply Z.log2_lt_pow2; [lia|].
    apply Z.lt_le_trans with (2 ^ 32); [lia|]. apply Z.pow_le_mono_r; lia.
Qed.

(** ** [switch_task] *)

(** The scheduler after a swap to [j], with the outgoing stack pointer saved. *)
Definition switch_to (s : BitMapScheduler) (j : nat) (d sp : Z) : BitMapScheduler :=
  set_table (alter (fmap (set_saved_sp sp)) (current_partition_idx s) (task_table (dispatch s j d)))
            (dispatch s j d).

(** What [switch_task] does to [k] and the stack pointer it returns. *)
Inductive switched (E : Env) (h : hart) (sp : Z) (b : bool) (k : Kernel) : Z → Kernel → Prop :=
  | switched_stay r :
      triggered (sched_of h k) b = false ∨
      select (task_table (sched_of h k)) (current_partition_idx (sched_of h k)) = None →
      switched E h sp b k sp
        (set_SCHEDULERS (ph_set h (set_remaining r (sched_of h k)) (SCHEDULERS k)) k)
  | switched_to j t d p' :
      triggered (sched_of h k) b = true →
      select (task_table (sched_of h k)) (current_partition_idx (sched_of h k)) = Some j →
      task_of h j k = Some t → state t = Ready → (j < 32)%nat →
      partition_durations (sched_of h k) !! j = Some d →
      reprogram_pmp_stack (layout E) (name t) (ph_get h (pmp k)) = Done p' →
      pmp_configured (layout E) (name t) p' →
      switched E h sp b k (saved_sp t)
        (set_trace (trace k ++ [TaskSwap (u8 (Z.of_nat (current_partition_idx (sched_of h k))))
                                  (u8 (Z.of_nat j)) (u32 (csr_cycle E))])
          (set_pmp (ph_set h p' (pmp k))
            (set_SCHEDULERS (ph_set h (switch_to (sched_of h k) j d sp) (SCHEDULERS k)) k))).

Lemma wp_switch_task P E h sp b k (Q : Z → Kernel → Prop) :
  kernel_inv (layout E) k → (∀ sp' k', switched E h sp b k sp' k' → Q sp' k') →
  wp P (switch_task E h sp b) Q k.
Proof.
  intros Hi HQ. pose proof (wf_shape _ (inv_sched _ _ Hi h)) as Hsh.
  unfold switch_task. wp_run. apply wp_lift. fold (sched_of h k).
  destruct (schedule_cases (sched_of h k) b Hsh)
    as [(r & -> & Hc)|(j & t & d & Htr & Hsel & Hj & Hst & Hlt & Hd & ->)]; simpl; wp_run.
  - apply HQ, switched_stay. naive_solver.
  - rewrite slot_alter, slot_swap.
    rewrite (decide_True (P := j = j)) by done. rewrite Hj.
    destruct (wf_registered _ Hsh) as [tc Htc].
    pose proof (inv_pmp _ _ Hi _ _ Htc) as Hp.
    pose proof (reprogram_configured _ _ (name t) _ Hp) as Hr.
    destruct (returns_Done _ _ Hr) as (p' & Hp' & Hcfg).
    assert (Hrep : ∀ k0, ph_get h (pmp k0) = ph_get h (pmp k) →
      wp P (reprogram E h (name t)) (λ _ k1, k1 = set_pmp (ph_set h p' (pmp k0)) k0) k0).
    { intros k0 Hk0. unfold reprogram. wp_run. apply wp_lift. rewrite Hk0, Hp'. simpl. by wp_run. }
    assert (Hfin : ∀ o, option_map name o = Some (name t) →
      wp P (match o with Some new_tcb => reprogram E h (name new_tcb) | None => mret () end)
        (λ _ k', Q (saved_sp t) k')
        (set_SCHEDULERS (ph_set h (switch_to (sched_of h k) j d sp) (SCHEDULERS k))
          (set_trace (trace k ++ [TaskSwap (u8 (Z.of_nat (current_partition_idx (sched_of h k))))
                                  (u8 (Z.of_nat j)) (u32 (csr_cycle E))]) k))).
    { intros [o|]; [|done]. intros [= ->]. eapply wp_mono; [by apply Hrep|].
      intros [] k' ->. by apply HQ, (switched_to E h sp b k j t d p'). }
    cbn [SCHEDULERS set_trace set_SCHEDULERS]. rewrite ph_set_set. eapply wp_mono; [apply Hfin|].
    + by case_decide.
    + intros [] k' Hk'. by wp_run.
Qed.

Lemma sched_wf_switch_to s j t d sp :
  sched_wf s → slot (task_table s) j = Some t → (j < 32)%nat → sched_wf (switch_to s j d sp).
Proof.
  intros Hs Hj Hlt. apply (sched_wf_upd (dispatch s j d)); [by eapply dispatch_wf|by intros []|].
  intros []. by left.
Qed.

Lemma slot_switch_to s j d sp i :
  slot (task_table (switch_to s j d sp)) i =
    let cur := current_partition_idx s in
    let t' := if decide (j = i) then set_state Running <$> slot (task_table s) i
              else if decide (cur = i) then demote <$> slot (task_table s) i
              else slot (task_table s) i in
    if decide (cur = i) then set_saved_sp sp <$> t' else t'.
Proof. unfold switch_to. cbn [task_table set_table dispatch]. by rewrite slot_alter, slot_swap. Qed.

Lemma static_switch_to s j d sp : static_eq (task_table s) (task_table (switch_to s j d sp)).
Proof.
  intros i. rewrite slot_switch_to. cbv zeta.
  destruct (slot (task_table s) i) as [t|]; repeat case_decide; simpl; try done;
    by rewrite <- (static_demote t).
Qed.

Lemma state_switch_to s j d sp i t' :
  slot (task_table (switch_to s j d sp)) i = Some t' →
  quiet (state t') ∨ ∃ t, slot (task_table s) i = Some t ∧ state t = state t'.
Proof.
  rewrite slot_switch_to. cbv zeta.
  destruct (slot (task_table s) i) as [t|]; repeat case_decide; simpl; try done;
    intros [= <-]; simpl; eauto; unfold demote; case_bool_decide; simpl; eauto.
Qed.

Lemma switched_inv E h sp b k sp' k' :
  kernel_inv (layout E) k → switched E h sp b k sp' k' →
  kernel_inv (layout E) k' ∧ static_kernel k k'.
Proof.
  intros Hi Hsw. pose proof (inv_sched _ _ Hi h) as Hwf.
  assert (Hgen : ∀ s' p' tr, sched_wf s' → static_eq (task_table (sched_of h k)) (task_table s') →
    (∀ i t', slot (task_table s') i = Some t' →
       quiet (state t') ∨ ∃ t, task_of h i k = Some t ∧ state t = state t') →
    (∀ t, slot (task_table s') (current_partition_idx s') = Some t →
       pmp_configured (layout E) (name t) p') →
    let k' := set_trace tr (set_pmp (ph_set h p' (pmp k))
                (set_SCHEDULERS (ph_set h s' (SCHEDULERS k)) k)) in
    kernel_inv (layout E) k' ∧ static_kernel k k').
  { intros s' p' tr Hwf' Hse Hq Hp kk. assert (Hs : static_kernel k kk).
    { intros h'. unfold sched_of, kk. simpl. rewrite ph_get_set. case_decide; subst; done. }
    split; [|done]. apply (inv_tasks _ k); try done.
    - intros h' i t'. unfold task_of, sched_of, kk. simpl. rewrite ph_get_set.
      case_decide; subst; [apply Hq|eauto].
    - intros h'. unfold sched_of, kk. simpl. rewrite ph_get_set. case_decide; [done|apply Hi].
    - apply Hi.
    - intros h' t. unfold task_of, sched_of, kk. simpl. rewrite !ph_get_set.
      case_decide; [apply Hp|]. apply (inv_pmp _ _ Hi). }
  destruct Hsw as [r _|j t d p' _ _ Ht _ Hlt _ _ Hp'].
  - destruct (Hgen (set_remaining r (sched_of h k)) (ph_get h (pmp k)) (trace k)) as [H1 H2].
    + by apply set_remaining_wf.
    + done.
    + eauto.
    + intros t Ht. by apply (inv_pmp _ _ Hi).
    + simpl in *. rewrite ph_set_id in *. by destruct k.
  - apply Hgen.
    + by eapply sched_wf_switch_to.
    + apply static_switch_to.
    + intros i t'. apply state_switch_to.
    + intros t'. rewrite slot_switch_to. cbn [current_partition_idx switch_to set_table dispatch].
      rewrite (decide_True (P := j = j)) by done. fold (task_of h j k). rewrite Ht.
      case_decide; by intros [= <-].
Qed.
