(* ===== verification/TrapInv.v ===== *)
(** * TrapInv: every trap keeps the kernel invariant

    For each arm of the trap handler: from a state that satisfies the kernel
    invariant, with the two spinlocks free or held by this hart, the arm does
    not spin, does not panic (system call 4 apart, which may fail its
    assertion, and unknown exceptions), re-establishes the invariant, leaves
    every task's registration data alone and releases what it locked. *)
From S2P Require Import Prelude Memory Tcb Bitmap Pmp Spinlock Telemetry Kernel Trap.
From S2P Require Import KernelInv.

(** ** Bit sets *)

Lemma set_bit_spec b i n :
  Z.testbit (set_bit b i) (Z.of_nat n) = Z.testbit b (Z.of_nat n) || bool_decide (n = i).
Proof.
  unfold set_bit. rewrite Z.lor_spec, Z.shiftl_1_l. f_equal. case_bool_decide as H.
  - subst. apply Z.pow2_bits_true. lia.
  - apply Z.pow2_bits_false. lia.
Qed.

Lemma clear_bit_spec b i n :
  (n < 32)%nat →
  Z.testbit (clear_bit b i) (Z.of_nat n) = Z.testbit b (Z.of_nat n) && negb (bool_decide (n = i)).
Proof.
  intros Hn. unfold clear_bit. rewrite Z.land_spec, Z.lxor_spec, Z.shiftl_1_l.
  change (2 ^ 32 - 1) with (Z.ones 32). rewrite Z.ones_spec_low by lia. f_equal.
  case_bool_decide as H.
  - subst. by rewrite Z.pow2_bits_true by lia.
  - by rewrite Z.pow2_bits_false by lia.
Qed.

Lemma clear_bit_sub b i n :
  Z.testbit (clear_bit b i) (Z.of_nat n) = true → Z.testbit b (Z.of_nat n) = true.
Proof. unfold clear_bit. rewrite Z.land_spec. by intros [? _]%andb_true_iff. Qed.

Lemma bits_range b : 0 ≤ b → (∀ n, 32 ≤ n → Z.testbit b n = false) → b < 2 ^ 32.
Proof.
  intros Hb Hn. destruct (decide (b = 0)) as [->|]; [done|].
  apply Z.log2_lt_pow2; [lia|]. destruct (decide (Z.log2 b < 32)); [done|].
  assert (Z.testbit b (Z.log2 b) = true) as Ht by (apply Z.bit_log2; lia).
  rewrite Hn in Ht; [done|lia].
Qed.

Lemma set_bit_range b i : 0 ≤ b < 2 ^ 32 → (i < 32)%nat → 0 ≤ set_bit b i < 2 ^ 32.
Proof.
  intros Hb Hi. unfold set_bit. rewrite Z.shiftl_1_l.
  assert (0 < 2 ^ Z.of_nat i) by (apply Z.pow_pos_nonneg; lia).
  assert (0 ≤ Z.lor b (2 ^ Z.of_nat i)) by (apply Z.lor_nonneg; lia).
  split; [done|]. apply bits_range; [done|]. intros n Hn.
  rewrite Z.lor_spec, Z.pow2_bits_false by lia. rewrite orb_false_r.
  destruct (decide (b = 0)) as [->|]; [apply Z.testbit_0_l|].
  apply Z.bits_above_log2; [lia|]. apply Z.log2_lt_pow2; [lia|].
  apply Z.lt_le_trans with (2 ^ 32); [lia|]. apply Z.pow_le_mono_r; lia.
Qed.

Lemma clear_bit_range b i : 0 ≤ b < 2 ^ 32 → 0 ≤ clear_bit b i < 2 ^ 32.
Proof.
  intros Hb. unfold clear_bit.
  assert (0 ≤ Z.land b (Z.lxor (2 ^ 32 - 1) (Z.shiftl 1 (Z.of_nat i)))) by (apply Z.land_nonneg; lia).
  split; [done|]. apply bits_range; [done|]. intros n Hn. rewrite Z.land_spec.
  rewrite (proj2 (Z.testbit_false b n ltac:(lia))); [done|].
  rewrite Z.div_small; [done|]. split; [lia|]. apply Z.lt_le_trans with (2 ^ 32); [lia|].
  apply Z.pow_le_mono_r; lia.
Qed.

(** ** Invariant steps of the mutex operations *)

Section steps.
Context (L : Layout).

Lemma mutex_lt k i m : kernel_inv L k → mutex_of i k = Some m → (i < 8)%nat.
Proof. intros Hi Hm. rewrite <- (inv_mutexes _ _ Hi). by eapply slot_lt. Qed.

Lemma inv_waiters k i m :
  kernel_inv L k → mutex_of i k = Some m →
  ∀ n, Z.testbit (waiters_bitmap m) (Z.of_nat n) = true → registered k n.
Proof. intros Hi Hm. by apply mx_waiters, (inv_mutex _ _ Hi i). Qed.

(** The mutex goes to the lowest waiter, which becomes Ready. *)
Lemma inv_handover k i m w :
  kernel_inv L k → mutex_of i k = Some m → lowest_waiter (waiters_bitmap m) = Some w →
  kernel_inv L
    (upd_task (home w) w (set_state Ready)
      (set_MUTEXES (<[i := Some (mkMutex true (Some (u8 (Z.of_nat w)))
                              (clear_bit (waiters_bitmap m) w))]> (MUTEXES k)) k)).
Proof.
  intros Hi Hm (Hw & Hbit & _)%lowest_waiter_Some. pose proof (inv_mutex _ _ Hi _ _ Hm) as Hok.
  set (k1 := upd_task (home w) w (set_state Ready) k).
  assert (Hs : static_kernel k k1) by (apply static_upd; by intros []).
  assert (Hi1 : kernel_inv L k1) by by apply inv_set_state.
  apply (inv_set_mutex L i _ k1); [done|by eapply mutex_lt| |].
  - split; simpl.
    + split; eauto.
    + apply clear_bit_range, Hok.
    + intros n Hn. apply (static_registered k k1 n Hs). by eapply mx_waiters, clear_bit_sub.
    + done.
    + intros z [= <-]. exists w. rewrite u8_small by lia. split_and!; [done..|].
      apply (static_registered k k1 w Hs). by eapply mx_waiters.
  - intros h n t mi Ht Hst <-. cbn [waiters_bitmap].
    destruct (inv_blocked _ _ Hi1 _ _ _ _ Ht Hst) as (Hh & m' & Hm' & Hb').
    change (mutex_of (Z.to_nat mi) k1) with (mutex_of (Z.to_nat mi) k) in Hm'. simplify_eq.
    assert (Hn32 : (n < 32)%nat).
    { apply slot_lt in Ht. by rewrite (wf_table _ (wf_shape _ (inv_sched _ _ Hi1 (home n)))) in Ht. }
    rewrite clear_bit_spec, Hb' by done. simpl. rewrite bool_decide_false; [done|]. intros ->.
    unfold k1 in Ht. rewrite task_of_upd, decide_True in Ht by done.
    destruct (task_of (home w) w k); by simplify_eq/=.
Qed.

(** Nobody waits: the mutex becomes free. *)
Lemma inv_release k i m :
  kernel_inv L k → mutex_of i k = Some m → lowest_waiter (waiters_bitmap m) = None →
  kernel_inv L (set_MUTEXES (<[i := Some (mkMutex false None (waiters_bitmap m))]> (MUTEXES k)) k).
Proof.
  intros Hi Hm Hn. pose proof (inv_mutex _ _ Hi _ _ Hm) as Hok.
  assert (Hz : waiters_bitmap m = 0) by (eapply lowest_waiter_None; [apply Hok|done]).
  apply inv_set_mutex; [done|by eapply mutex_lt| |].
  - split; simpl; [|apply Hok|apply Hok|done|done]. split; [done|]. by intros [].
  - intros h n t mi Ht Hst <-. destruct (inv_blocked _ _ Hi _ _ _ _ Ht Hst) as (_ & m' & Hm' & Hb').
    simplify_eq. by rewrite Hz, Z.testbit_0_l in Hb'.
Qed.

(** A free mutex is taken by a task registered on its home core. *)
Lemma inv_acquire k i m n :
  kernel_inv L k → mutex_of i k = Some m → locked m = false → registered k n → (n < 32)%nat →
  kernel_inv L (set_MUTEXES (<[i := Some (mkMutex true (Some (u8 (Z.of_nat n)))
                                          (waiters_bitmap m))]> (MUTEXES k)) k).
Proof.
  intros Hi Hm Hl Hr Hn. pose proof (inv_mutex _ _ Hi _ _ Hm) as Hok.
  apply inv_set_mutex; [done|by eapply mutex_lt| |].
  - split; simpl; [|apply Hok|apply Hok|done|].
    + split; eauto.
    + intros z [= <-]. exists n. by rewrite u8_small by lia.
  - intros h j t mi Ht Hst <-. destruct (inv_blocked _ _ Hi _ _ _ _ Ht Hst) as (_ & m' & Hm' & Hb').
    by simplify_eq.
Qed.

(** A task joins the waiters of a locked mutex. *)
Lemma inv_wait k i m n :
  kernel_inv L k → mutex_of i k = Some m → locked m = true → registered k n → (n < 32)%nat →
  kernel_inv L (set_MUTEXES (<[i := Some (mkMutex (locked m) (owner_task_idx m)
                                          (set_bit (waiters_bitmap m) n))]> (MUTEXES k)) k).
Proof.
  intros Hi Hm Hl Hr Hn. pose proof (inv_mutex _ _ Hi _ _ Hm) as Hok.
  apply inv_set_mutex; [done|by eapply mutex_lt| |].
  - split; simpl; [apply Hok|apply set_bit_range; [apply Hok|done]| |congruence|apply Hok].
    intros j. rewrite set_bit_spec, orb_true_iff, bool_decide_eq_true.
    intros [Hj| ->]; [by eapply mx_waiters|done].
  - intros h j t mi Ht Hst <-. destruct (inv_blocked _ _ Hi _ _ _ _ Ht Hst) as (_ & m' & Hm' & Hb').
    simplify_eq. simpl. by rewrite set_bit_spec, Hb'.
Qed.

(** The current task's new state, when it is not Running. *)
Lemma inv_block k h i st :
  kernel_inv L k → st ≠ Running →
  (∀ mi, st = BlockedOnMutex mi → listed k h i mi) →
  (∀ ep h' j t, task_of h' j k = Some t → waits_send ep st = true → waits_recv ep (state t) = false) →
  (∀ ep h' j t, task_of h' j k = Some t → waits_recv ep st = true → waits_send ep (state t) = false) →
  kernel_inv L (upd_task h i (set_state st) k).
Proof.
  intros Hi Hne Hm Hs Hr.
  assert (Hst : static_kernel k (upd_task h i (set_state st) k)) by (apply static_upd; by intros []).
  assert (Ht : ∀ h' j t', task_of h' j (upd_task h i (set_state st) k) = Some t' →
    (h' = h ∧ j = i ∧ state t' = st) ∨ ∃ t, task_of h' j k = Some t ∧ state t = state t').
  { intros h' j t'. rewrite task_of_upd. case_decide as Hd; [|eauto].
    destruct Hd as [-> ->]. destruct (task_of h' j k); [|done]. intros [= <-]. by left. }
  split.
  - intros h'. unfold sched_of, upd_task. simpl. rewrite ph_get_set. case_decide; [|apply Hi].
    apply sched_wf_upd; [apply Hi|by intros []|]. intros []; simpl; auto.
  - apply Hi.
  - apply Hi.
  - intros h' j t'. apply (caps_static k); [done|apply Hi].
  - intros j m Hjm. eapply mutex_ok_iff; [|by eapply (inv_mutex _ _ Hi)].
    intros n. apply (static_registered _ _ _ Hst).
  - intros h' j t' mi Ht' He. destruct (Ht _ _ _ Ht') as [(-> & -> & Hst')|(t & Htt & Hst')].
    + apply Hm. congruence.
    + apply (inv_blocked _ _ Hi h' j t); congruence.
  - intros ep h1 i1 t1 h2 i2 t2 H1 H2 W1 W2.
    destruct (Ht _ _ _ H1) as [(_ & _ & E1)|(u1 & U1 & E1)],
             (Ht _ _ _ H2) as [(_ & _ & E2)|(u2 & U2 & E2)].
    + rewrite E1 in W1. rewrite E2 in W2. by destruct st.
    + rewrite E1 in W1. rewrite <- E2 in W2. by rewrite (Hs _ _ _ _ U2 W1) in W2.
    + rewrite E2 in W2. rewrite <- E1 in W1. by rewrite (Hr _ _ _ _ U1 W2) in W1.
    + rewrite <- E1 in W1. rewrite <- E2 in W2. exact (inv_rendezvous _ _ Hi _ _ _ _ _ _ _ U1 U2 W1 W2).
  - apply (pmp_static L k); [done..|]. intros. apply current_upd.
Qed.
End steps.

(** ** What every arm keeps *)

Record keeps (L : Layout) (k k' : Kernel) : Prop := {
  keeps_inv : kernel_inv L k';
  keeps_static : static_kernel k k';
  keeps_sched_lock : SCHED_LOCK k' = SCHED_LOCK k;
  keeps_mutex_lock : MUTEX_LOCK k' = MUTEX_LOCK k
}.

Lemma keeps_refl L k : kernel_inv L k → keeps L k k.
Proof. intros. by split. Qed.

Lemma keeps_trans L k1 k2 k3 : keeps L k1 k2 → keeps L k2 k3 → keeps L k1 k3.
Proof. intros [] []. split; [done|by etrans|congruence|congruence]. Qed.

(** Changes outside the invariant's fields and the locks. *)
Lemma keeps_fields L k k' :
  SCHEDULERS k' = SCHEDULERS k → MUTEXES k' = MUTEXES k →
  length (LAST_CHECKIN_TICK k') = length (LAST_CHECKIN_TICK k) → pmp k' = pmp k →
  SCHED_LOCK k' = SCHED_LOCK k → MUTEX_LOCK k' = MUTEX_LOCK k →
  kernel_inv L k → keeps L k k'.
Proof.
  intros Hs Hm Hl Hp H1 H2 Hi. split; [by apply (inv_fields L k)| |done|done].
  intros h. unfold sched_of. by rewrite Hs.
Qed.

Lemma keeps_upd L h i f k :
  kernel_inv L (upd_task h i f k) → (∀ t, static_tcb (f t) = static_tcb t) →
  keeps L k (upd_task h i f k).
Proof. intros. split; [done|by apply static_upd|done|done]. Qed.

Lemma keeps_set_state L h i st k :
  kernel_inv L (upd_task h i (set_state st) k) → keeps L k (upd_task h i (set_state st) k).
Proof. intros. apply keeps_upd; [done|by intros []]. Qed.

Lemma keeps_mutexes L ms k : kernel_inv L (set_MUTEXES ms k) → keeps L k (set_MUTEXES ms k).
Proof. intros. by split. Qed.

Lemma keeps_switched E h sp b k sp' k' :
  kernel_inv (layout E) k → switched E h sp b k sp' k' → keeps (layout E) k k'.
Proof.
  intros Hi Hs. destruct (switched_inv _ _ _ _ _ _ _ Hi Hs). split; try done; by destruct Hs.
Qed.

(** Same state up to a lock that is restored afterwards. *)
Lemma inv_lock_fields L k l1 l2 :
  kernel_inv L k → kernel_inv L (set_MUTEX_LOCK l1 (set_SCHED_LOCK l2 k)).
Proof. by apply inv_fields. Qed.

Ltac keep_fields := apply keeps_fields; [reflexivity..|].

(** Causes the dispatcher has no arm for. *)
Definition unknown_cause (mcause : Z) : Prop :=
  mcause ≠ TIMER_INTERRUPT ∧ mcause ≠ SOFTWARE_INTERRUPT ∧ mcause ≠ ECALL_UMODE ∧
  contained_cause mcause = false.

(** ** What the capability check and the rendezvous search read *)

(** The capability the running task of [h] has in slot [cap_idx]. *)
Definition cap_at (h : hart) (cap_idx : Z) (k : Kernel) : Capability :=
  if cap_idx <? 8 then
    match task_of h (current_partition_idx (sched_of h k)) k with
    | Some t => default CapNone (capabilities t !! Z.to_nat cap_idx)
    | None => CapNone
    end
  else CapNone.

(** The first task, core 0 first, whose state satisfies [p]. *)
Definition find_any (p : TaskState → bool) (k : Kernel) : option (hart * nat) :=
  match find_slot p (task_table (sched_of H0 k)) with
  | Some i => Some (H0, i)
  | None =>
      match find_slot p (task_table (sched_of H1 k)) with
      | Some i => Some (H1, i)
      | None => None
      end
  end.

Lemma find_slot_Some p tbl i :
  find_slot p tbl = Some i → ∃ t, slot tbl i = Some t ∧ p (state t) = true.
Proof.
  unfold find_slot. intros [_ Hf]%find_some. destruct (slot tbl i) as [t|]; [eauto|done].
Qed.

Lemma find_slot_None p tbl i t :
  length tbl = 32%nat → find_slot p tbl = None → slot tbl i = Some t → p (state t) = false.
Proof.
  unfold find_slot. intros Hl Hn Hi. pose proof (slot_lt _ _ _ Hi) as Hlt. rewrite Hl in Hlt.
  pose proof (find_none _ _ Hn i) as Hf. cbv beta in Hf. rewrite Hi in Hf. apply Hf.
  apply in_seq. lia.
Qed.

Lemma find_any_Some p k h i :
  find_any p k = Some (h, i) → ∃ t, task_of h i k = Some t ∧ p (state t) = true.
Proof.
  unfold find_any, task_of.
  destruct (find_slot p (task_table (sched_of H0 k))) as [n|] eqn:E0;
    [|destruct (find_slot p (task_table (sched_of H1 k))) as [n|] eqn:E1]; intros [=]; subst.
  - exact (find_slot_Some _ _ _ E0).
  - exact (find_slot_Some _ _ _ E1).
Qed.

Lemma find_any_None L p k h i t :
  kernel_inv L k → find_any p k = None → task_of h i k = Some t → p (state t) = false.
Proof.
  intros Hi. unfold find_any.
  destruct (find_slot p (task_table (sched_of H0 k))) as [n|] eqn:E0; [discriminate|].
  destruct (find_slot p (task_table (sched_of H1 k))) as [n|] eqn:E1; [discriminate|].
  intros _. pose proof (wf_table _ (wf_shape _ (inv_sched _ _ Hi h))) as Hl.
  destruct h; [exact (find_slot_None _ _ _ _ Hl E0)|exact (find_slot_None _ _ _ _ Hl E1)].
Qed.

Section arms.
Context (P : panic → Prop) (E : Env).
Local Abbreviation keeps := (keeps (layout E)).
Local Abbreviation inv := (kernel_inv (layout E)).

Lemma wp_guard_keeps h (body : K Z) k :
  inv k → avail h (SCHED_LOCK k) →
  (∀ k1, inv k1 → MUTEX_LOCK k1 = MUTEX_LOCK k → SCHEDULERS k1 = SCHEDULERS k →
     MUTEXES k1 = MUTEXES k → wp P body (λ _, keeps k1) k1) →
  wp P (sched_guard h body) (λ _, keeps k) k.
Proof.
  intros Hi Ha Hb. apply wp_sched_guard; [done|]. intros l'.
  eapply wp_mono; [apply Hb; [by apply (inv_fields _ k)|done..]|].
  intros sp k' [H1 H2 H3 H4]. split; [done|]. split; [by apply (inv_fields _ k')|done..].
Qed.

Lemma wp_switch_keeps k0 h sp b k :
  keeps k0 k → wp P (switch_task E h sp b) (λ _, keeps k0) k.
Proof.
  intros Hk. apply wp_switch_task; [apply Hk|]. intros sp' k' Hs.
  eapply keeps_trans; [done|]. eapply keeps_switched; [apply Hk|done].
Qed.

Lemma keeps_wake tick h k :
  inv k → keeps k (set_SCHEDULERS (ph_set h (wake_sleepers tick (sched_of h k)) (SCHEDULERS k)) k).
Proof.
  intros Hi. set (k' := set_SCHEDULERS _ k).
  assert (Hslot : ∀ i, slot (task_table (wake_sleepers tick (sched_of h k))) i
                       = wake_one tick <$> task_of h i k).
  { intros i. unfold wake_sleepers, task_of, slot. cbn [task_table set_table].
    change (map ?f ?l) with (f <$> l). rewrite list_lookup_fmap. by destruct (task_table (sched_of h k) !! i) as [[]|]. }
  assert (Hst : ∀ t, static_tcb (wake_one tick t) = static_tcb t).
  { intros t. unfold wake_one. destruct (state t); try done. by case_match. }
  assert (Hstate : ∀ t, state (wake_one tick t) = state t ∨ state (wake_one tick t) = Ready).
  { intros t. unfold wake_one. destruct (state t) eqn:Et; auto. case_match; auto. }
  pose proof (inv_sched _ _ Hi h) as Hwf.
  assert (Hse : static_eq (task_table (sched_of h k)) (task_table (wake_sleepers tick (sched_of h k)))).
  { intros i. rewrite Hslot. unfold task_of. destruct (slot _ i); simpl; by rewrite ?Hst. }
  assert (Hsk : static_kernel k k').
  { intros h'. unfold sched_of, k'. simpl. rewrite ph_get_set. case_decide; by subst. }
  split; try done. apply (inv_tasks _ k); try done.
  - intros h' i t'. unfold task_of at 1, sched_of, k'. simpl. rewrite ph_get_set.
    case_decide; [subst h'|eauto]. fold (sched_of h k). rewrite Hslot.
    destruct (task_of h i k) as [t|]; [|done]. intros [= <-].
    destruct (Hstate t) as [He|He]; [right; eauto|left; by rewrite He].
  - intros h'. unfold sched_of, k'. simpl. rewrite ph_get_set. case_decide; [|apply Hi].
    destruct Hwf as [[] Hpr Hrun]. split; [split|..].
    + unfold wake_sleepers. simpl. by rewrite length_map.
    + done.
    + done.
    + by apply (static_is_Some _ _ _ Hse).
    + by eapply static_wf_priority.
    + intros i t'. fold (sched_of h k). rewrite Hslot.
      destruct (task_of h i k) as [t|] eqn:Et; [|done]. intros [= <-] Hr.
      apply (Hrun i t); [done|]. destruct (Hstate t); congruence.
  - apply Hi.
  - apply (pmp_static _ k); [done..|]. intros h'. unfold sched_of, k'. simpl.
    rewrite ph_get_set. by case_decide; subst.
Qed.

Lemma timer_keeps h sp k :
  inv k → avail h (SCHED_LOCK k) → wp P (timer_interrupt E h sp) (λ _, keeps k) k.
Proof.
  intros Hi Ha. unfold timer_interrupt. wp_run.
  set (tick := wrapping_add _ 1). set (k1 := set_mtimecmp _ _).
  assert (Hk1 : keeps k k1) by by keep_fields.
  eapply wp_mono; [apply wp_guard_keeps; [apply Hk1|done|]|].
  - intros k2 Hi2 _ _ _. wp_run. apply wp_switch_keeps. by apply keeps_wake.
  - intros ? k' Hk'. by eapply keeps_trans.
Qed.

Lemma software_keeps h sp k :
  inv k → avail h (SCHED_LOCK k) → wp P (software_interrupt E h sp) (λ _, keeps k) k.
Proof.
  intros Hi Ha. unfold software_interrupt. wp_run. set (k1 := set_msip _ _).
  assert (Hk1 : keeps k k1) by by keep_fields.
  eapply wp_mono; [apply wp_guard_keeps; [apply Hk1|done|]|].
  - intros k2 Hi2 _ _ _. by apply wp_switch_keeps, keeps_refl.
  - intros ? k' Hk'. by eapply keeps_trans.
Qed.

Lemma yield_keeps h sp k :
  inv k → avail h (SCHED_LOCK k) → wp P (sys_yield E h sp) (λ _, keeps k) k.
Proof.
  intros Hi Ha. apply wp_guard_keeps; [done..|]. intros. by apply wp_switch_keeps, keeps_refl.
Qed.

Lemma current_registered h k :
  inv k → is_Some (task_of h (current_partition_idx (sched_of h k)) k).
Proof. intros Hi. apply (wf_registered _ (wf_shape _ (inv_sched _ _ Hi h))). Qed.

Lemma current_lt h k : inv k → (current_partition_idx (sched_of h k) < 32)%nat.
Proof. intros Hi. apply (wf_current _ (wf_shape _ (inv_sched _ _ Hi h))). Qed.

Lemma sleep_keeps h sp k :
  inv k → avail h (SCHED_LOCK k) → wp P (sys_sleep E h sp) (λ _, keeps k) k.
Proof.
  intros Hi Ha. unfold sys_sleep. wp_run. apply wp_guard_keeps; [done..|].
  intros k1 Hi1 _ _ _. wp_run. apply wp_put_state; [by apply current_registered|].
  apply wp_switch_keeps, keeps_set_state. by apply inv_set_state.
Qed.

Lemma checkin_keeps h sp k :
  inv k → avail h (SCHED_LOCK k) → wp P (sys_checkin h sp) (λ _, keeps k) k.
Proof.
  intros Hi Ha. apply wp_guard_keeps; [done..|]. intros k1 Hi1 _ _ _. wp_run. fold (sched_of h k1).
  destruct (lookup_lt_is_Some_2 (LAST_CHECKIN_TICK k1) (current_partition_idx (sched_of h k1)))
    as [v Hv].
  { rewrite (inv_checkin _ _ Hi1). by apply current_lt. }
  apply wp_lift. rewrite (index_Some _ _ _ Hv). simpl. wp_run.
  apply keeps_fields; try done. apply length_insert.
Qed.

Lemma wp_running_cap h cap_idx (Q : Capability → Kernel → Prop) k :
  inv k → (cap_ok h (current_partition_idx (sched_of h k)) (cap_at h cap_idx k) →
           Q (cap_at h cap_idx k) k) →
  wp P (running_cap h cap_idx) Q k.
Proof.
  intros Hi HQ. unfold running_cap, cap_at in *. destruct (Z.ltb_spec cap_idx 8); [|by apply HQ].
  wp_run. fold (sched_of h k). destruct (current_registered h k Hi) as [t Ht].
  apply (wp_get_task P h _ t); [done|]. rewrite Ht in HQ.
  destruct (inv_caps _ _ Hi _ _ _ Ht) as [Hl Hok].
  destruct (lookup_lt_is_Some_2 (capabilities t) (Z.to_nat cap_idx)) as [c Hc]; [lia|].
  rewrite Hc in HQ. apply wp_lift. rewrite (index_Some _ _ _ Hc). apply HQ.
  by eapply Forall_lookup_1 in Hok.
Qed.

Lemma wp_find_task p (Q : option (hart * nat) → Kernel → Prop) k :
  Q (find_any p k) k → wp P (find_task p) Q k.
Proof.
  intros HQ. unfold find_task. wp_run. fold (sched_of H0 k) (sched_of H1 k). unfold find_any in HQ.
  destruct (find_slot p (task_table (sched_of H0 k))) as [n|]; [by wp_run|].
  by destruct (find_slot p (task_table (sched_of H1 k))) as [n|]; wp_run.
Qed.

(** Fields written after the last lock operation of an arm. *)
Lemma wp_keeps_then {A B} (m : K A) (f : A → K B) k :
  wp P m (λ _, keeps k) k → (∀ a k', keeps k k' → wp P (f a) (λ _, keeps k) k') →
  wp P (m ≫= f) (λ _, keeps k) k.
Proof. intros Hm Hf. wp_run. eapply wp_mono; [exact Hm|]. intros a k' Hk'. by apply Hf. Qed.

Lemma keeps_fwrite k k' sp i v :
  keeps k k' → keeps k (set_ram (frame_write (ram k') sp i v) k').
Proof. intros Hk. eapply keeps_trans; [done|]. keep_fields. apply Hk. Qed.

(** The caller queues for a held mutex. *)
Lemma keeps_wait h i mi m k :
  inv k → 0 ≤ mi < 8 → home i = h → (i < 32)%nat → is_Some (task_of h i k) → locked m = true →
  mutex_of (Z.to_nat mi) k = Some m →
  keeps k (set_MUTEXES (<[Z.to_nat mi := Some (mkMutex (locked m) (owner_task_idx m) (set_bit (waiters_bitmap m) i))]> (MUTEXES k))
    (upd_task h i (set_state (BlockedOnMutex mi)) k)).
Proof.
  intros Hi Hmi Hhome Hlt Hreg Hl Hm. set (ms := <[Z.to_nat mi := _]> _).
  assert (Hr : registered k i) by (unfold registered; by rewrite Hhome).
  assert (Hw : inv (set_MUTEXES ms k)) by by apply (inv_wait _ k).
  eapply keeps_trans; [by apply (keeps_mutexes _ ms)|].
  apply (keeps_set_state _ h i (BlockedOnMutex mi)). apply inv_block; try done.
  intros mi' [= <-]. split; [done|]. unfold mutex_of. simpl.
  unfold ms. rewrite slot_insert by by eapply slot_lt.
  rewrite decide_True by done. eexists. split; [done|]. cbn [waiters_bitmap].
  rewrite set_bit_spec. apply orb_true_iff. right. by apply bool_decide_eq_true.
Qed.

Lemma lock_keeps h sp k :
  inv k → avail h (SCHED_LOCK k) → avail h (MUTEX_LOCK k) →
  wp P (sys_lock E h sp) (λ _, keeps k) k.
Proof.
  intros Hi Ha Hb. unfold sys_lock. wp_run. set (cap_idx := frame_read _ _ _).
  apply wp_guard_keeps; [done..|]. intros k1 Hi1 Hml _ _. wp_run. fold (sched_of h k1).
  apply wp_mutex_lock; [by rewrite Hml|]. intros l' Hu. set (k2 := set_MUTEX_LOCK l' k1).
  assert (Hi2 : inv k2) by by apply (inv_fields _ k1).
  assert (Hdone : ∀ k', keeps k2 k' → keeps k1 (set_MUTEX_LOCK (unlock (MUTEX_LOCK k')) k')).
  { intros k' [H1 H2 H3 H4]. split; [by apply (inv_fields _ k')|done|done|]. simpl.
    by rewrite H4. }
  set (i := current_partition_idx (sched_of h k1)).
  assert (Hreg : is_Some (task_of h i k2)) by by apply (current_registered h k2).
  assert (Hlt : (i < 32)%nat) by by apply (current_lt h k2).
  (* the tail of the arm, after the mutex lock was released *)
  assert (Htail : ∀ (vs : verdict * Z) k', keeps k1 k' → wp P
    (_ ← match fst vs with
         | Denied => fwrite sp A0 USIZE_MINUS_ONE
         | Granted => t ← get_task h i; match state t with BlockedOnMutex _ => mret () | _ => fwrite sp A0 0 end
         end; mret (snd vs)) (λ _, keeps k1) k').
  { intros [v sp'] k' Hk'. simpl. destruct v; wp_run; [|by apply keeps_fwrite].
    assert (is_Some (task_of h i k')) as [t Ht].
    { apply (static_is_Some _ _ _ (keeps_static _ _ _ Hk' h)). exact Hreg. }
    apply (wp_get_task P h i t); [done|]. destruct (state t); wp_run; try done; by apply keeps_fwrite. }
  apply wp_bind. apply wp_running_cap; [done|]. intros Hcap. apply wp_bind.
  apply (wp_mono P _ (λ _, keeps k1)); [clear Htail|exact Htail].
  assert (Hdeny : wp P (deny_locked (Denied, sp)) (λ _, keeps k1) k2).
  { wp_run. apply (Hdone k2). by apply keeps_refl. }
  destruct (cap_at h cap_idx k2) as [|mi [] cu|]; [exact Hdeny| |exact Hdeny|exact Hdeny].
  destruct Hcap as [Hmi Hhome]. change (home i = h) in Hhome. apply wp_bind. apply wp_get_mutex.
  { rewrite (inv_mutexes _ _ Hi2). lia. }
  destruct (mutex_of (Z.to_nat mi) k2) as [m|] eqn:Hm; [|exact Hdeny].
  assert (Hr : registered k2 i) by (unfold registered; by rewrite Hhome).
  destruct (locked m) eqn:Hl; cbn [negb].
  - apply wp_bind. apply wp_put_state; [done|]. wp_run.
    set (k3 := set_MUTEXES _ _).
    assert (Hk3 : keeps k2 k3).
    { pose proof (keeps_wait h i mi m k2 Hi2 Hmi Hhome Hlt Hreg Hl Hm) as Hk. rewrite Hl in Hk. exact Hk. }
    eapply wp_mono; [apply wp_switch_keeps; apply (Hdone k3 Hk3)|].
    intros sp' k' Hk'. by wp_run.
  - wp_run. apply Hdone. apply keeps_mutexes. by apply (inv_acquire _ k2).
Qed.

(** The mutex lock taken and released inside an arm leaves it as it was. *)
Lemma keeps_mutex_unlock l' k k' :
  unlock l' = MUTEX_LOCK k → keeps (set_MUTEX_LOCK l' k) k' →
  keeps k (set_MUTEX_LOCK (unlock (MUTEX_LOCK k')) k').
Proof.
  intros Hu [H1 H2 H3 H4]. split; [by apply (inv_fields _ k')|done|done|]. simpl. by rewrite H4.
Qed.

Lemma handover_keeps k i m w :
  inv k → mutex_of i k = Some m → lowest_waiter (waiters_bitmap m) = Some w →
  keeps k (upd_task (home w) w (set_state Ready)
      (set_MUTEXES (<[i := Some (mkMutex true (Some (u8 (Z.of_nat w)))
                              (clear_bit (waiters_bitmap m) w))]> (MUTEXES k)) k)).
Proof.
  intros Hi Hm Hw. split; [by apply inv_handover| |done|done].
  set (k1 := set_MUTEXES _ k). change (static_kernel k1 (upd_task (home w) w (set_state Ready) k1)).
  apply static_upd. by intros [].
Qed.

Lemma unlock_keeps h sp k :
  P AssertFailed → inv k → avail h (SCHED_LOCK k) → avail h (MUTEX_LOCK k) →
  wp P (sys_unlock E h sp) (λ _, keeps k) k.
Proof.
  intros HP Hi Ha Hb. unfold sys_unlock. wp_run. set (cap_idx := frame_read _ _ _).
  apply wp_guard_keeps; [done..|]. intros k1 Hi1 Hml _ _. wp_run. fold (sched_of h k1).
  apply wp_mutex_lock; [by rewrite Hml|]. intros l' Hu. set (k2 := set_MUTEX_LOCK l' k1).
  assert (Hi2 : inv k2) by by apply (inv_fields _ k1).
  set (i := current_partition_idx (sched_of h k1)).
  apply wp_bind. apply wp_running_cap; [done|]. intros Hcap. apply wp_bind.
  apply (wp_mono P _ (λ _, keeps k1)).
  2: { intros [v sp'] k' Hk'. wp_run. by apply keeps_fwrite. }
  assert (Hdeny : wp P (deny_locked (Denied, sp)) (λ _, keeps k1) k2).
  { wp_run. apply (keeps_mutex_unlock l' k1 k2); [done|]. by apply keeps_refl. }
  destruct (cap_at h cap_idx k2) as [|mi cl []|]; [exact Hdeny| |exact Hdeny|exact Hdeny].
  destruct Hcap as [Hmi Hhome]. apply wp_bind. apply wp_get_mutex.
  { rewrite (inv_mutexes _ _ Hi2). lia. }
  destruct (mutex_of (Z.to_nat mi) k2) as [m|] eqn:Hm; [|exact Hdeny].
  case_bool_decide as Hown; [|exact HP]. cbn [negb].
  assert (Hl : locked m = true) by (apply (mx_locked _ _ (inv_mutex _ _ Hi2 _ _ Hm)); eauto).
  apply wp_bind. apply (wp_highest_waiter (layout E)); [done|by eapply inv_waiters|].
  apply wp_bind. apply (wp_mono P _ (λ _, keeps k1)).
  2: { intros [] k' Hk'. apply wp_bind. eapply wp_mono; [by apply wp_switch_keeps|].
       intros sp' k'' Hk''. by wp_run. }
  destruct (lowest_waiter (waiters_bitmap m)) as [w|] eqn:Hw.
  - rewrite Hl. wp_run.
    pose proof (handover_keeps k2 _ m w Hi2 Hm Hw) as Hk3.
    destruct (lowest_waiter_Some _ _ Hw) as (_ & Hbit & _).
    destruct (inv_waiters _ _ _ _ Hi2 Hm w Hbit) as [t Ht].
    apply wp_put_state; [by eexists|]. apply wp_bind.
    apply (wp_get_task P (home w) w (set_state Ready t)).
    { rewrite task_of_upd, decide_True by done. change (task_of (home w) w (set_MUTEXES _ k2)) with (task_of (home w) w k2). by rewrite Ht. }
    wp_run. set (k4 := set_MUTEX_LOCK _ _).
    assert (Hk4 : keeps k1 k4).
    { apply (keeps_mutex_unlock l' k1 (set_ram _ _)); [done|]. by apply keeps_fwrite. }
    case_bool_decide; wp_run; [done|]. eapply keeps_trans; [done|]. keep_fields. apply Hk4.
  - wp_run. apply (keeps_mutex_unlock l' k1 (set_MUTEXES _ k2)); [done|].
    apply keeps_mutexes. by apply inv_release.
Qed.

(** One side of a rendezvous found its peer: the peer becomes Ready, the rest
    is memory, trace and a software interrupt. *)
Lemma keeps_wake_peer h i k1 k' :
  inv k1 → SCHEDULERS k' = SCHEDULERS (upd_task h i (set_state Ready) k1) →
  MUTEXES k' = MUTEXES k1 → LAST_CHECKIN_TICK k' = LAST_CHECKIN_TICK k1 → pmp k' = pmp k1 →
  SCHED_LOCK k' = SCHED_LOCK k1 → MUTEX_LOCK k' = MUTEX_LOCK k1 → keeps k1 k'.
Proof.
  intros Hi H1 H2 H3 H4 H5 H6.
  apply keeps_trans with (upd_task h i (set_state Ready) k1).
  - apply keeps_set_state. by apply inv_set_state.
  - apply keeps_fields; [done|done|by rewrite H3|done..|]. by apply inv_set_state.
Qed.

Lemma send_keeps h sp k :
  inv k → avail h (SCHED_LOCK k) → wp P (sys_send E h sp) (λ _, keeps k) k.
Proof.
  intros Hi Ha. unfold sys_send. wp_run. set (cap_idx := frame_read _ _ A0).
  set (a1 := frame_read _ _ A1). set (a2 := frame_read _ _ A2).
  apply wp_guard_keeps; [done..|]. intros k1 Hi1 _ _ _. wp_run. fold (sched_of h k1).
  apply wp_running_cap; [done|]. intros _.
  assert (Hdeny : wp P (_ ← fwrite sp A0 USIZE_MINUS_ONE; mret sp) (λ _, keeps k1) k1).
  { wp_run. by apply keeps_fwrite, keeps_refl. }
  destruct (cap_at h cap_idx k1) as [| |ep [] cr]; [exact Hdeny|exact Hdeny| |exact Hdeny].
  apply wp_bind, wp_find_task.
  destruct (find_any (waits_recv ep) k1) as [[rh ri]|] eqn:Hf.
  - destruct (find_any_Some _ _ _ _ Hf) as (t & Ht & Hw).
    apply wp_bind, (wp_get_task P rh ri t); [done|].
    destruct (state t) as [ | | | | |ep' buf max| ]; try done.
    wp_run. apply wp_put_state; [by eexists|]. wp_run. apply wp_notify. wp_run.
    apply (keeps_wake_peer rh ri k1); try done; by case_decide.
  - apply wp_bind, wp_put_state; [by apply current_registered|].
    apply wp_switch_keeps, keeps_set_state, inv_block; try done.
    intros ep' h' j t Ht Hw. cbn [waits_send] in Hw. apply Z.eqb_eq in Hw. subst ep'.
    by eapply (find_any_None _ (waits_recv ep)).
Qed.

Lemma recv_keeps h sp k :
  inv k → avail h (SCHED_LOCK k) → wp P (sys_recv E h sp) (λ _, keeps k) k.
Proof.
  intros Hi Ha. unfold sys_recv. wp_run. set (cap_idx := frame_read _ _ A0).
  set (a1 := frame_read _ _ A1). set (a2 := frame_read _ _ A2).
  apply wp_guard_keeps; [done..|]. intros k1 Hi1 _ _ _. wp_run. fold (sched_of h k1).
  apply wp_running_cap; [done|]. intros _.
  assert (Hdeny : wp P (_ ← fwrite sp A0 USIZE_MINUS_ONE; mret sp) (λ _, keeps k1) k1).
  { wp_run. by apply keeps_fwrite, keeps_refl. }
  destruct (cap_at h cap_idx k1) as [| |ep cs []]; [exact Hdeny|exact Hdeny| |exact Hdeny].
  apply wp_bind, wp_find_task.
  destruct (find_any (waits_send ep) k1) as [[th ti]|] eqn:Hf.
  - destruct (find_any_Some _ _ _ _ Hf) as (t & Ht & Hw).
    apply wp_bind, (wp_get_task P th ti t); [done|].
    destruct (state t) as [ | | | |ep' addr len| | ]; try done.
    wp_run. apply wp_put_state; [by eexists|]. wp_run. apply wp_notify. wp_run.
    apply (keeps_wake_peer th ti k1); try done; by case_decide.
  - apply wp_bind, wp_put_state; [by apply current_registered|].
    apply wp_switch_keeps, keeps_set_state, inv_block; try done.
    intros ep' h' j t Ht Hw. cbn [waits_recv] in Hw. apply Z.eqb_eq in Hw. subst ep'.
    by eapply (find_any_None _ (waits_send ep)).
Qed.

Lemma recover_mutex_keeps target i k :
  inv k → (i < 8)%nat → wp P (recover_mutex target i) (λ _, keeps k) k.
Proof.
  intros Hi Hlt. unfold recover_mutex. apply wp_bind, wp_get_mutex.
  { by rewrite (inv_mutexes _ _ Hi). }
  destruct (mutex_of i k) as [m|] eqn:Hm; [|by apply keeps_refl].
  case_bool_decide; [|by apply keeps_refl].
  apply wp_bind, (wp_highest_waiter (layout E)); [done|by eapply inv_waiters|].
  destruct (lowest_waiter (waiters_bitmap m)) as [w|] eqn:Hw.
  - wp_run. destruct (lowest_waiter_Some _ _ Hw) as (_ & Hbit & _).
    apply wp_put_state_if_some; [by eapply (inv_waiters (layout E) k)|]. by apply handover_keeps.
  - wp_run. apply keeps_mutexes. by apply inv_release.
Qed.

Lemma recover_mutexes_keeps target idxs k :
  inv k → Forall (λ i, (i < 8)%nat) idxs → wp P (recover_mutexes target idxs) (λ _, keeps k) k.
Proof.
  revert k. induction idxs as [|i idxs IH]; intros k Hi Hf; cbn [recover_mutexes].
  - wp_run. by apply keeps_refl.
  - apply Forall_cons_1 in Hf as [Hlt Hf]. wp_run.
    eapply wp_mono; [by apply recover_mutex_keeps|]. intros [] k' Hk'.
    eapply wp_mono; [apply IH; [apply Hk'|done]|]. intros [] k'' Hk''. by eapply keeps_trans.
Qed.

(** The recovery that system call 8 and fault containment share. *)
Lemma recovery_keeps h target k1 k :
  keeps k1 k → avail h (MUTEX_LOCK k1) → wp P (recovery h target) (λ _, keeps k1) k.
Proof.
  intros Hk Ha. unfold recovery. wp_run. apply wp_mutex_lock; [by rewrite (keeps_mutex_lock _ _ _ Hk)|].
  intros l' Hu. set (k2 := set_MUTEX_LOCK l' k). wp_run.
  assert (Hi2 : inv k2) by (apply (inv_fields _ k); try done; apply Hk).
  eapply wp_mono; [apply recover_mutexes_keeps; [done|]|].
  { rewrite (inv_mutexes _ _ Hi2). apply (bool_decide_unpack _). reflexivity. }
  intros [] k3 Hk3. wp_run. eapply keeps_trans; [done|].
  by apply (keeps_mutex_unlock l' k k3).
Qed.

Lemma terminate_keeps h sp k :
  inv k → avail h (SCHED_LOCK k) → avail h (MUTEX_LOCK k) →
  wp P (sys_terminate E h sp) (λ _, keeps k) k.
Proof.
  intros Hi Ha Hb. unfold sys_terminate. wp_run. set (tp := frame_read _ _ _).
  apply wp_guard_keeps; [done..|]. intros k1 Hi1 Hml _ _. apply wp_bind.
  apply (wp_mono P _ (λ _, keeps k1)).
  - case_match; [|by apply keeps_refl]. unfold terminate_slot. wp_run.
    fold (sched_of H0 k1) (sched_of H1 k1).
    fold (task_of H0 (Z.to_nat tp) k1) (task_of H1 (Z.to_nat tp) k1).
    destruct (task_of H0 (Z.to_nat tp) k1) eqn:E0;
      [|destruct (task_of H1 (Z.to_nat tp) k1) eqn:E1; [|wp_run; by apply keeps_refl]];
      wp_run; apply wp_put_state; try (by eexists); wp_run; apply keeps_set_state; by apply inv_set_state.
  - intros [fh|] k2 Hk2; [|wp_run; by apply keeps_fwrite].
    apply wp_bind. eapply wp_mono; [apply recovery_keeps; [done|by rewrite Hml]|].
    intros [] k3 Hk3. wp_run.
    case_bool_decide; wp_run.
    + case_match; [by apply wp_switch_keeps, keeps_fwrite|]. wp_run. by apply keeps_fwrite.
    + eapply keeps_trans; [by apply keeps_fwrite|]. keep_fields. by apply (keeps_inv _ _ _ (keeps_fwrite k1 k3 sp A0 0 Hk3)).
Qed.

Lemma fault_keeps h sp cause k :
  inv k → avail h (SCHED_LOCK k) → avail h (MUTEX_LOCK k) →
  wp P (contain_fault E h sp cause) (λ _, keeps k) k.
Proof.
  intros Hi Ha Hb. unfold contain_fault. wp_run. set (k0 := set_trace _ k).
  assert (Hk0 : keeps k k0) by by keep_fields.
  apply (wp_mono P _ (λ _ k', keeps k k')).
  { case_match; wp_run; [|done]. eapply keeps_trans; [done|]. keep_fields. apply Hk0. }
  intros [] k1 Hk1. eapply wp_mono.
  - apply wp_guard_keeps; [apply Hk1|by rewrite (keeps_sched_lock _ _ _ Hk1)|].
    intros k2 Hi2 Hml _ _. wp_run. fold (sched_of h k2). apply wp_lift.
    destruct (current_registered h k2 Hi2) as [t Ht]. rewrite (index_slot _ _ _ Ht). simpl.
    wp_run. apply wp_put_state; [by eexists|].
    set (k3 := upd_task _ _ _ k2).
    assert (Hk3 : keeps k2 k3) by (apply keeps_set_state; by apply inv_set_state).
    eapply wp_mono; [apply recovery_keeps; [done|by rewrite Hml, (keeps_mutex_lock _ _ _ Hk1)]|].
    intros [] k4 Hk4. by apply wp_switch_keeps.
  - intros ? k' Hk'. by eapply keeps_trans.
Qed.

Lemma emulate_keeps sp instruction mepc k :
  inv k → wp P (emulate_csr E sp instruction mepc) (λ _, keeps k) k.
Proof.
  intros Hi. unfold emulate_csr. apply wp_bind.
  apply (wp_mono P _ (λ _, keeps k)).
  - case_match; wp_run; [by apply keeps_fwrite, keeps_refl|by apply keeps_refl].
  - intros [] k' Hk'. wp_run. by apply keeps_fwrite.
Qed.

(** ** The dispatcher *)

Lemma exception_keeps h sp cause k :
  (contained_cause cause = false → P UnhandledException) →
  inv k → avail h (SCHED_LOCK k) → avail h (MUTEX_LOCK k) →
  wp P (exception E h sp cause) (λ _, keeps k) k.
Proof.
  intros HP Hi Ha Hb. unfold exception. wp_run.
  case_match; [by apply emulate_keeps|].
  destruct (contained_cause cause); [by apply fault_keeps|]. by apply HP.
Qed.

Lemma ecall_keeps h sp k :
  (frame_read (ram k) sp A7 = 4 → P AssertFailed) →
  inv k → avail h (SCHED_LOCK k) → avail h (MUTEX_LOCK k) →
  wp P (ecall E h sp) (λ _, keeps k) k.
Proof.
  intros HP Hi Ha Hb. unfold ecall. wp_run. set (k1 := set_ram _ k).
  assert (Hk1 : keeps k k1) by by apply keeps_fwrite, keeps_refl.
  apply (wp_mono P _ (λ _, keeps k1)); [|intros ? k' Hk'; by eapply keeps_trans].
  pose proof (keeps_inv _ _ _ Hk1) as Hi1.
  case_match; [by apply yield_keeps|]. case_match; [by apply sleep_keeps|].
  case_match; [by apply lock_keeps|].
  case_match; [apply unlock_keeps; [apply HP; lia|done..]|].
  case_match; [by apply checkin_keeps|]. case_match; [by apply send_keeps|].
  case_match; [by apply recv_keeps|]. case_match; [by apply terminate_keeps|].
  wp_run. by apply keeps_refl.
Qed.

Lemma trap_keeps h mcause sp start_cycle k :
  (mcause = ECALL_UMODE → frame_read (ram k) sp A7 = 4 → P AssertFailed) →
  (unknown_cause mcause → P UnhandledException) →
  inv k → avail h (SCHED_LOCK k) → avail h (MUTEX_LOCK k) →
  wp P (trap_handler E h mcause sp start_cycle) (λ _, keeps k) k.
Proof.
  intros HA HU Hi Ha Hb. unfold trap_handler. wp_run. set (k1 := set_METRIC_TRAP_LATENCY_CYCLES _ k).
  assert (Hk1 : keeps k k1) by by keep_fields.
  apply (wp_mono P _ (λ _, keeps k1)); [|intros ? k' Hk'; by eapply keeps_trans].
  pose proof (keeps_inv _ _ _ Hk1) as Hi1.
  destruct (Z.eqb_spec mcause TIMER_INTERRUPT); [by apply timer_keeps|].
  destruct (Z.eqb_spec mcause SOFTWARE_INTERRUPT); [by apply software_keeps|].
  destruct (Z.eqb_spec mcause ECALL_UMODE); [|apply exception_keeps; [|done..]].
  - apply ecall_keeps; try done. intros Ha7. by apply HA.
  - intros Hc. by apply HU.
Qed.
End arms.
