(* ===== verification/Security.v ===== *)
(** * Security: secure boot, the vHSM's signing, and frame authentication

    Models security/src/bootloader.rs, security/src/hsm.rs and
    security/src/hmac.rs.  The hash is the sha2 crate's, which is not part of
    the repository: it is a parameter, and the properties that depend on its
    values assume that it computes SHA-256 as FIPS 180-4 specifies it ([Fips180]
    below states the standard and is used only in that assumption). *)
From Stdlib Require Import Ascii String.
From S2P Require Import Prelude Can.

(** ** Specification of the hash: FIPS 180-4 *)

Module Fips180.

(** The constants are the first 32 bits of the fractional parts of the cube roots
    of the first 64 primes and of the square roots of the first 8. *)
Definition is_prime (n : nat) : bool :=
  forallb (λ d, negb (Nat.eqb (n mod d) 0)) (seq 2 (n - 2)).

Definition primes : list Z := map Z.of_nat (filter is_prime (seq 2 310)).

(** Integer cube root, bit by bit from the top: the largest [r + x], with
    [x < 2 ^ n], whose cube is at most [z]. *)
Fixpoint cbrt (n : nat) (r z : Z) : Z :=
  match n with
  | O => r
  | S n => let c := r + 2 ^ Z.of_nat n in cbrt n (if c * c * c <=? z then c else r) z
  end.

Definition K : list Z := Eval vm_compute in
  map (λ p, cbrt 36 0 (p * 2 ^ 96) mod 2 ^ 32) primes.

Definition H0 : list Z := Eval vm_compute in
  map (λ p, Z.sqrt (p * 2 ^ 64) mod 2 ^ 32) (take 8 primes).

Definition low32 (x : Z) : Z := Z.land x 0xffffffff.
Definition add (a b : Z) : Z := low32 (a + b).
Definition rotr (n x : Z) : Z := low32 (Z.lor (Z.shiftr x n) (Z.shiftl x (32 - n))).
Definition ch (x y z : Z) : Z := Z.lxor (Z.land x y) (Z.land (Z.lxor x 0xffffffff) z).
Definition maj (x y z : Z) : Z := Z.lxor (Z.land x y) (Z.lxor (Z.land x z) (Z.land y z)).
Definition bsig0 (x : Z) : Z := Z.lxor (rotr 2 x) (Z.lxor (rotr 13 x) (rotr 22 x)).
Definition bsig1 (x : Z) : Z := Z.lxor (rotr 6 x) (Z.lxor (rotr 11 x) (rotr 25 x)).
Definition ssig0 (x : Z) : Z := Z.lxor (rotr 7 x) (Z.lxor (rotr 18 x) (Z.shiftr x 3)).
Definition ssig1 (x : Z) : Z := Z.lxor (rotr 17 x) (Z.lxor (rotr 19 x) (Z.shiftr x 10)).

(** The message schedule, newest word first. *)
Fixpoint extend (n : nat) (w : list Z) : list Z :=
  match n with
  | O => w
  | S n =>
      extend n (add (add (ssig1 (nth 1 w 0)) (nth 6 w 0)) (add (ssig0 (nth 14 w 0)) (nth 15 w 0)) :: w)
  end.

Definition round (s : list Z) (kw : Z * Z) : list Z :=
  match s with
  | [a; b; c; d; e; f; g; h] =>
      let t1 := add (add h (bsig1 e)) (add (ch e f g) (add (fst kw) (snd kw))) in
      let t2 := add (bsig0 a) (maj a b c) in
      [add t1 t2; a; b; c; add d t1; e; f; g]
  | _ => s
  end.

Definition compress (h : list Z) (block : list Z) : list Z :=
  zip_with add h (foldl round h (zip K (rev (extend 48 (rev block))))).

Definition be32 (b : list Z) : Z :=
  nth 0 b 0 * 2 ^ 24 + nth 1 b 0 * 2 ^ 16 + nth 2 b 0 * 2 ^ 8 + nth 3 b 0.

Fixpoint words (n : nat) (b : list Z) : list Z :=
  match n with O => [] | S n => be32 b :: words n (drop 4 b) end.

Fixpoint blocks (n : nat) (h b : list Z) : list Z :=
  match n with O => h | S n => blocks n (compress h (words 16 b)) (drop 64 b) end.

Definition be_bytes (n : nat) (z : Z) : list Z :=
  map (λ i, u8 (Z.shiftr z (8 * Z.of_nat (n - 1 - i)))) (seq 0 n).

Definition pad (m : list Z) : list Z :=
  m ++ [0x80] ++ replicate (Z.to_nat ((55 - Z.of_nat (length m)) mod 64)) 0
    ++ be_bytes 8 (8 * Z.of_nat (length m)).

Definition sha256 (m : list Z) : list Z :=
  let p := pad m in
  concat (map (be_bytes 4) (blocks (length p / 64) H0 p)).

End Fips180.

(** ** Secure boot *)

Definition bytes_of (s : string) : list Z :=
  map (λ a, Z.of_nat (nat_of_ascii a)) (String.list_ascii_of_string s).

Definition PUB_KEY_BYTES : list Z :=
  [0xb7; 0x0f; 0x96; 0x22; 0xf9; 0x76; 0x5f; 0x49; 0xda; 0x3b; 0x73; 0xe9; 0xff; 0xc2; 0xa1; 0xfb;
   0xed; 0x84; 0x46; 0xe4; 0x4d; 0x81; 0x53; 0x15; 0xc7; 0x8f; 0xcc; 0xb5; 0xe0; 0x2f; 0xf1; 0x78;
   0x77; 0xcc; 0xbf; 0x02; 0xc4; 0xf8; 0x2a; 0x54; 0xf9; 0xbc; 0x3b; 0x36; 0x77; 0x60; 0x06; 0xe6;
   0xe1; 0xeb; 0x08; 0xb8; 0x92; 0x48; 0x1e; 0xfd; 0x7d; 0x52; 0x30; 0x53; 0x4f; 0x3b; 0xf4; 0x56].

Definition SIGNATURE_BYTES : list Z :=
  [0x53; 0xd8; 0x26; 0x28; 0xea; 0x32; 0x36; 0x48; 0xb1; 0xba; 0x1e; 0x6d; 0x16; 0x99; 0x9e; 0x5b;
   0xdd; 0xc2; 0x4c; 0x35; 0x5a; 0x9b; 0x0c; 0x28; 0xb9; 0x84; 0xcb; 0x96; 0x53; 0x7e; 0x37; 0xe6;
   0xd3; 0x5d; 0x8c; 0x60; 0xd1; 0xcb; 0xde; 0xde; 0x51; 0xd3; 0xb5; 0x62; 0x6c; 0xc5; 0xba; 0x1d;
   0x31; 0xc6; 0x35; 0xda; 0x91; 0x38; 0x5b; 0xa5; 0x58; 0xb8; 0x35; 0xa5; 0x51; 0x2e; 0xca; 0x8c].

Definition TRUSTED_PAYLOAD : list Z :=
  bytes_of "cerberus-os-kernel-image-data-payload-for-verification-v1.0".

Definition EXPECTED_HASH : list Z :=
  [0xcf; 0xca; 0x73; 0xa3; 0xd7; 0x2f; 0x46; 0x25; 0xf8; 0x54; 0xec; 0xb8; 0xe0; 0xab; 0x75; 0x96;
   0x1d; 0x38; 0xb9; 0xdd; 0xa2; 0x97; 0x42; 0x21; 0xde; 0xe5; 0xdb; 0xe9; 0x46; 0xe5; 0xee; 0x4f].

Definition key_signature_linkage_ok : bool :=
  foldl (λ checksum i, Z.lxor checksum (Z.lxor (nth i PUB_KEY_BYTES 0) (nth i SIGNATURE_BYTES 0)))
        0 (seq 0 64) =? 0x76.

(** [tampered[i] ^= mask] on a copy of the payload. *)
Definition tamper (i : nat) (mask : Z) (payload : list Z) : list Z :=
  alter (λ b, Z.lxor b mask) i payload.

Section boot.
Context (sha256 : list Z → list Z).

Definition sha256_matches (payload : list Z) : bool :=
  bool_decide (sha256 payload = EXPECTED_HASH).

Definition verify_secure_boot : bool :=
  sha256_matches TRUSTED_PAYLOAD && key_signature_linkage_ok.

Definition verify_tampered_secure_boot : bool :=
  sha256_matches (tamper (length TRUSTED_PAYLOAD - 1) 0x01 TRUSTED_PAYLOAD)
  && key_signature_linkage_ok.
End boot.

(** ** The HSM partition *)

Definition HMAC_TAG_LEN : nat := 8.
Definition HMAC_KEY : list Z := bytes_of "cerberus-os-dev-key-not-for-prod".

(** [[pad; 64]] with the key xored into its first 32 bytes. *)
Definition keyed_pad (pad : Z) : list Z :=
  foldl (λ l i, alter (λ b, Z.lxor b (nth i HMAC_KEY 0)) i l) (replicate 64 pad) (seq 0 32).

(** [size_of::<CanFrame>()]: 2 + 1 + 8 bytes, aligned to 2. *)
Definition FRAME_SIZE : nat := 12.

Section hsm.
Context (sha256 : list Z → list Z).

(** [&frame.payload[..frame.dlc as usize]] panics past the array's end. *)
Definition compute_hmac_local (frame : CanFrame) : result (list Z) :=
  let ipad_key := keyed_pad 0x36 in
  let opad_key := keyed_pad 0x5C in
  if bool_decide (Z.to_nat (dlc frame) ≤ length (payload frame))%nat then
    let inner_hash := sha256 (ipad_key ++ [u8 (id frame); u8 (Z.shiftr (id frame) 8); dlc frame]
                                ++ take (Z.to_nat (dlc frame)) (payload frame)) in
    let full_mac := sha256 (opad_key ++ inner_hash) in
    if bool_decide (HMAC_TAG_LEN ≤ length full_mac)%nat then Done (take HMAC_TAG_LEN full_mac)
    else Panicked IndexOutOfBounds
  else Panicked IndexOutOfBounds.

(** How the compiler lays a frame out in memory. *)
Context (read_frame : list Z → CanFrame).

(** One iteration of [hsm_task] after [sys_recv] returned [res] and filled
    [req_buf]: the message it sends to endpoint 3, if any. *)
Definition hsm_serve (res : Z) (req_buf : list Z) : result (option (list Z)) :=
  if res =? Z.of_nat FRAME_SIZE then
    tag ← compute_hmac_local (read_frame req_buf);
    Done (Some tag)
  else Done None.
End hsm.

(** ** Frame authentication *)

Record AuthFrame := mkAuth { frame : CanFrame; tag : list Z }.

(** [fold(0u8, |acc, (a, b)| acc | (a ^ b))]: no early exit. *)
Definition tag_diff (expected given : list Z) : Z :=
  foldl (λ acc ab, Z.lor acc (Z.lxor (fst ab) (snd ab))) 0 (zip expected given).

(** [send_res] and [recv_res] are what the two system calls returned, [expected]
    the buffer the second one filled. *)
Definition verify_frame_secure (send_res recv_res : Z) (expected : list Z) (auth : AuthFrame) : bool :=
  if send_res <? 0 then false
  else if recv_res <? 0 then false
  else tag_diff expected (tag auth) =? 0.

(** ** Specification: RFC 2104, and the message that is authenticated *)

Module Rfc2104.

Definition xor_pad (B : nat) (key : list Z) (pad : Z) : list Z :=
  map (λ b, Z.lxor pad b) (key ++ replicate (B - length key) 0).

(** Keys no longer than the block. *)
Definition hmac (H : list Z → list Z) (B : nat) (key msg : list Z) : list Z :=
  H (xor_pad B key 0x5C ++ H (xor_pad B key 0x36 ++ msg)).

End Rfc2104.

Definition mac_message (f : CanFrame) : list Z :=
  [u8 (id f); u8 (Z.shiftr (id f) 8); dlc f] ++ take (Z.to_nat (dlc f)) (payload f).

Definition byte (z : Z) : Prop := 0 ≤ z < 256.

(** The field types of [CanFrame]. *)
Record frame_typed (f : CanFrame) : Prop := {
  typed_id : 0 ≤ id f < 2 ^ 16;
  typed_dlc : byte (dlc f);
  typed_payload : length (payload f) = CAN_MAX_PAYLOAD ∧ Forall byte (payload f)
}.

(** ** Lemmas *)

Lemma foldl_lor_zero (l : list (Z * Z)) acc :
  Forall (λ ab, byte (fst ab) ∧ byte (snd ab)) l → 0 ≤ acc →
  foldl (λ acc ab, Z.lor acc (Z.lxor (fst ab) (snd ab))) acc l = 0 ↔
  acc = 0 ∧ Forall (λ ab, fst ab = snd ab) l.
Proof.
  revert acc. induction l as [|[a b] l IH]; intros acc Hl Hacc; simpl.
  - split; [intros ->; by split|]. by intros [-> _].
  - apply Forall_cons_1 in Hl as [[Ha Hb] Hl]. simpl in *. unfold byte in *.
    assert (0 ≤ Z.lxor a b) by (apply Z.lxor_nonneg; lia).
    rewrite IH by (try apply Z.lor_nonneg; done). rewrite Z.lor_eq_0_iff, Z.lxor_eq_0_iff.
    rewrite List.Forall_cons_iff. simpl. split; [intros [[-> ->] ?]|intros [-> [-> ?]]]; done.
Qed.

Lemma tag_diff_zero expected given :
  length expected = length given → Forall byte expected → Forall byte given →
  tag_diff expected given = 0 ↔ expected = given.
Proof.
  intros Hlen He Hg. unfold tag_diff.
  rewrite foldl_lor_zero; [|apply List.Forall_forall|done].
  - split; [|intros ->; split; [done|]].
    + intros [_ Hf]. revert given Hlen Hf Hg. induction expected as [|a l IH]; intros [|b l'] Hlen Hf Hg; simplify_eq/=; [done|].
      apply Forall_cons_1 in Hf as [Heq Hf], He as [_ He], Hg as [_ Hg]. simpl in Heq. subst.
      f_equal. by apply IH.
    + clear. induction given; constructor; done.
  - intros [a b] Hab. rewrite List.Forall_forall in He, Hg. split; [apply He|apply Hg].
    + by eapply in_combine_l.
    + by eapply in_combine_r.
Qed.

Lemma keyed_pad_rfc p : 
  p = 0x36 ∨ p = 0x5C → keyed_pad p = Rfc2104.xor_pad 64 HMAC_KEY p.
Proof. intros [-> | ->]; vm_compute; reflexivity. Qed.

Lemma compute_hmac_ok sha256 f :
  (∀ m, length (sha256 m) = 32%nat) → frame_typed f → dlc f ≤ 8 →
  compute_hmac_local sha256 f =
    Done (take HMAC_TAG_LEN (Rfc2104.hmac sha256 64 HMAC_KEY (mac_message f))).
Proof.
  intros Hsha [_ Hd [Hl _]] Hle. unfold byte in Hd.
  unfold compute_hmac_local, Rfc2104.hmac, mac_message. rewrite Hsha, Hl. unfold CAN_MAX_PAYLOAD.
  rewrite bool_decide_true by lia. rewrite bool_decide_true by (unfold HMAC_TAG_LEN; lia).
  by rewrite <- !keyed_pad_rfc by auto.
Qed.

Lemma compute_hmac_panics sha256 f :
  frame_typed f → 8 < dlc f → compute_hmac_local sha256 f = Panicked IndexOutOfBounds.
Proof.
  intros [_ _ [Hl _]] Hgt. unfold compute_hmac_local. rewrite Hl.
  rewrite bool_decide_false; [done|]. unfold CAN_MAX_PAYLOAD. lia.
Qed.

(** A frame used in the witnesses: the one Task A asks the HSM to sign. *)
Definition task_a_frame : CanFrame := mkFrame 0x3E 4 [0xAA; 0xBB; 0xCC; 0xDD; 0; 0; 0; 0].

(** The little-endian field order, padding last. *)
Definition sample_bytes (f : CanFrame) : list Z :=
  [u8 (id f); u8 (Z.shiftr (id f) 8); dlc f] ++ payload f ++ [0].
Definition sample_read (b : list Z) : CanFrame :=
  mkFrame (nth 0 b 0 + 256 * nth 1 b 0) (nth 2 b 0) (take 8 (drop 3 b)).

Lemma sample_round_trip f : frame_typed f → sample_read (sample_bytes f) = f.
Proof.
  intros [Hid _ [Hl _]]. destruct f as [i d p]. unfold sample_read, sample_bytes. simpl in *.
  f_equal.
  - unfold u8. rewrite Z.shiftr_div_pow2 by lia. Z.div_mod_to_equations. lia.
  - do 8 (destruct p as [|? p]; [done|]). by destruct p.
Qed.

Lemma task_a_frame_typed : frame_typed task_a_frame.
Proof.
  split; [vm_compute; split; congruence|vm_compute; split; congruence|].
  split; [done|]. repeat constructor; vm_compute; congruence.
Qed.

(** The authenticated message determines the frame: two frames with valid
    DLCs and the same message agree on identifier, DLC and every used byte. *)
Lemma mac_message_injective f g :
  frame_typed f → frame_typed g → dlc f ≤ 8 → dlc g ≤ 8 → mac_message f = mac_message g →
  id f = id g ∧ dlc f = dlc g ∧
  take (Z.to_nat (dlc f)) (payload f) = take (Z.to_nat (dlc g)) (payload g).
Proof.
  intros [Hf _ _] [Hg _ _] Hd Hd' [= H1 H2 H3 H4]. split_and!; [|done|done].
  unfold u8 in *. rewrite !Z.shiftr_div_pow2 in H2 by lia. Z.div_mod_to_equations. lia.
Qed.

(** ** Properties *)

(** Secure boot decides.  If the hash computes FIPS 180-4 SHA-256, then
    [verify_secure_boot] accepts, [verify_tampered_secure_boot] rejects, and the
    payload with the low bit of any one of its bytes flipped does not match the
    expected hash. *)
Lemma secure_boot_decides sha256 :
  (∀ m, sha256 m = Fips180.sha256 m) →
  verify_secure_boot sha256 = true ∧ verify_tampered_secure_boot sha256 = false ∧
  ∀ i, (i < length TRUSTED_PAYLOAD)%nat →
    sha256_matches sha256 (tamper i 0x01 TRUSTED_PAYLOAD) = false.
Proof.
  intros Hsha.
  assert (Hm : ∀ p, sha256_matches sha256 p = sha256_matches Fips180.sha256 p).
  { intros p. unfold sha256_matches. by rewrite Hsha. }
  unfold verify_secure_boot, verify_tampered_secure_boot. rewrite !Hm.
  split_and!; [vm_compute; reflexivity|vm_compute; reflexivity|]. intros i Hi. rewrite Hm.
  assert (Hall : forallb (λ i, negb (sha256_matches Fips180.sha256 (tamper i 1 TRUSTED_PAYLOAD)))
                   (seq 0 (length TRUSTED_PAYLOAD)) = true) by (vm_compute; reflexivity).
  rewrite forallb_forall in Hall. apply negb_true_iff, Hall, in_seq. lia.
Qed.

Lemma secure_boot_decides_witness :
  verify_secure_boot Fips180.sha256 = true ∧ verify_tampered_secure_boot Fips180.sha256 = false.
Proof.
  destruct (secure_boot_decides Fips180.sha256 (λ m, eq_refl)) as (H1 & H2 & _).
  exact (conj H1 H2).
Defined.

(** C37. Frame authentication.  For every 32-byte hash and every memory layout
    of [CanFrame] that survives the copy through IPC: the HSM answers a frame
    whose DLC is valid with the first 8 bytes of the RFC 2104 HMAC of its
    identifier, DLC and used payload bytes, and [verify_frame_secure], given that
    answer, accepts exactly the frames that carry this tag. *)
Theorem frame_authentication sha256 frame_bytes read_frame f :
  (∀ m, length (sha256 m) = 32%nat) → (∀ m, Forall byte (sha256 m)) →
  (∀ f, frame_typed f → read_frame (frame_bytes f) = f) →
  frame_typed f → dlc f ≤ 8 →
  let expected := take HMAC_TAG_LEN (Rfc2104.hmac sha256 64 HMAC_KEY (mac_message f)) in
  hsm_serve sha256 read_frame 12 (frame_bytes f) = Done (Some expected) ∧
  ∀ t send_res, length t = HMAC_TAG_LEN → Forall byte t → 0 ≤ send_res →
    verify_frame_secure send_res (Z.of_nat (length expected)) expected (mkAuth f t) = true ↔
    t = expected.
Proof.
  intros Hlen Hbyte Hrt Hf Hd expected.
  assert (Hle : length expected = HMAC_TAG_LEN).
  { unfold expected, Rfc2104.hmac. rewrite length_take, Hlen. unfold HMAC_TAG_LEN. lia. }
  assert (Hbe : Forall byte expected) by (unfold expected, Rfc2104.hmac; by apply Forall_take).
  split.
  - unfold hsm_serve. cbn [Z.eqb]. change (12 =? Z.of_nat FRAME_SIZE) with true. cbv iota.
    rewrite Hrt, compute_hmac_ok by done. done.
  - intros t send_res Ht Hbt Hs. unfold verify_frame_secure.
    rewrite (proj2 (Z.ltb_ge _ _)) by done. rewrite (proj2 (Z.ltb_ge _ _)) by lia.
    cbn [tag]. rewrite Z.eqb_eq, tag_diff_zero by (done || congruence). naive_solver.
Qed.

Lemma frame_authentication_witness :
  let expected := take HMAC_TAG_LEN
    (Rfc2104.hmac (λ _, replicate 32 7) 64 HMAC_KEY (mac_message task_a_frame)) in
  hsm_serve (λ _, replicate 32 7) sample_read 12 (sample_bytes task_a_frame) = Done (Some expected)
  ∧ verify_frame_secure 0 8 expected (mkAuth task_a_frame (replicate 8 7)) = true.
Proof.
  destruct (frame_authentication (λ _, replicate 32 7) sample_bytes sample_read task_a_frame)
    as [H1 H2].
  - done.
  - intros m. apply (bool_decide_unpack _). reflexivity.
  - exact sample_round_trip.
  - exact task_a_frame_typed.
  - vm_compute. congruence.
  - split; [exact H1|]. apply (H2 (replicate 8 7) 0); [done| |lia|reflexivity].
    apply (bool_decide_unpack _). reflexivity.
Defined.

(** The signer panics on an oversized DLC.  The HSM rebuilds the frame from
    the bytes of the request and slices the 8-byte payload with its DLC field, so
    any request of the right size whose DLC byte exceeds 8 makes it panic. *)
Lemma hsm_panics_on_long_dlc sha256 frame_bytes read_frame f :
  (∀ f, frame_typed f → read_frame (frame_bytes f) = f) →
  frame_typed f → 8 < dlc f →
  hsm_serve sha256 read_frame 12 (frame_bytes f) = Panicked IndexOutOfBounds.
Proof.
  intros Hrt Hf Hd. unfold hsm_serve. change (12 =? Z.of_nat FRAME_SIZE) with true. cbv iota.
  by rewrite Hrt, compute_hmac_panics by done.
Qed.

Lemma hsm_panics_on_long_dlc_witness :
  hsm_serve Fips180.sha256 sample_read 12 (sample_bytes (mkFrame 1 9 (replicate 8 0)))
  = Panicked IndexOutOfBounds.
Proof.
  apply (hsm_panics_on_long_dlc Fips180.sha256 sample_bytes sample_read).
  - exact sample_round_trip.
  - split; [vm_compute; split; congruence|vm_compute; split; congruence|].
    split; [done|]. apply (bool_decide_unpack _). reflexivity.
  - reflexivity.
Defined.
