(* ===== verification/Boot.v ===== *)
(** * Boot: from reset to the first task

    Models [kmain], [init_timer], [start_first_task] and
    [verify_network_and_security] of kernel/src/main.rs.  The two harts are
    ordered by [BOOT_BARRIER] and [CORE_1_READY]: hart 1 initialises after hart 0
    has registered every task, and hart 0 starts its first task after hart 1 has
    initialised.  The only part that overlaps, hart 1's [start_first_task], works
    on hart 1's scheduler and PMP alone. *)
From S2P Require Import Prelude Memory Tcb Bitmap Can Pmp Spinlock Telemetry Kernel.
From S2P Require Import Trap KernelInv Security.

(** Addresses of the task functions. *)
Record Entries := mkEntries {
  watchdog_task : Z;
  task_a : Z;
  task_b : Z;
  task_c : Z;
  hsm_task : Z;
  idle_task : Z
}.

(** ** The statics at reset *)

Definition KERNEL_MUTEXES : list (option KernelMutex) :=
  Some (mkMutex false None 0) :: replicate 7 None.

Definition statics (m : Mem) (msip0 mtimecmp0 : per_hart Z) (pmp0 : per_hart PmpRegs) : Kernel :=
  mkKernel (mkPerHart new new) KERNEL_MUTEXES 0 (replicate 32 0) 0 0 spin_new spin_new 0
           m msip0 mtimecmp0 pmp0 [].

(** ** Steps of [kmain] *)

Definition protect (E : Env) (h : hart) : K unit :=
  r ← gets (λ k, ph_get h (pmp k));
  r' ← lift (init_memory_protection (layout E) r);
  modify (λ k, set_pmp (ph_set h r' (pmp k)) k).

Definition init_stack (addr entry : Z) : K Z :=
  m ← gets ram;
  let (sp, m') := initialize_stack m addr 1024 entry in
  _ ← modify (set_ram m');
  mret sp.

Definition register (h : hart) (tcb : TaskControlBlock) : K unit :=
  s ← get_sched h;
  s' ← lift (register_task s tcb);
  put_sched h s'.

(** The CLINT write; the CSR writes are [timer_csrs]. *)
Definition init_timer (E : Env) (h : hart) : K unit :=
  modify (λ k, set_mtimecmp (ph_set h ((clint_mtime E + 40000) mod 2 ^ 64) (mtimecmp k)) k).

(** [mie], [mstatus] and [mcounteren] after [init_timer]. *)
Definition timer_csrs (mie mstatus : Z) : Z * Z * Z :=
  (Z.lor mie (Z.shiftl 1 7), Z.lor mstatus (Z.shiftl 1 3), 1).

Definition no_caps : list Capability := replicate 8 CapNone.
Definition task_a_caps : list Capability :=
  [CapMutex 0 true true; CapIpc 0 true false; CapIpc 2 true false; CapIpc 3 false true;
   CapNone; CapNone; CapNone; CapNone].
Definition hsm_caps : list Capability :=
  [CapIpc 2 false true; CapIpc 3 true false;
   CapNone; CapNone; CapNone; CapNone; CapNone; CapNone].
Definition task_b_caps : list Capability :=
  [CapIpc 0 false true;
   CapNone; CapNone; CapNone; CapNone; CapNone; CapNone; CapNone].
Definition task_c_caps : list Capability :=
  [CapMutex 0 true true;
   CapNone; CapNone; CapNone; CapNone; CapNone; CapNone; CapNone].

Definition boot_tcb (sp prio : Z) (nm : string) (caps : list Capability) : TaskControlBlock :=
  mkTcb sp prio prio Ready nm caps.

(** The tasks of hart 1. *)
Definition register_core1 (sp_b sp_c sp_idle1 : Z) : K unit :=
  _ ← register H1 (boot_tcb sp_b 2 "Task B" task_b_caps);
  _ ← register H1 (boot_tcb sp_c 3 "Task C" task_c_caps);
  register H1 (boot_tcb sp_idle1 31 "Idle 1" no_caps).

Definition register_tasks (E : Env) (fn : Entries) : K unit :=
  let L := layout E in
  sp_wd ← init_stack (TASK_WD_STACK L) (watchdog_task fn);
  sp_a ← init_stack (TASK_A_STACK L) (task_a fn);
  sp_b ← init_stack (TASK_B_STACK L) (task_b fn);
  sp_c ← init_stack (TASK_C_STACK L) (task_c fn);
  sp_hsm ← init_stack (HSM_STACK L) (hsm_task fn);
  sp_idle0 ← init_stack (IDLE_STACK_0 L) (idle_task fn);
  sp_idle1 ← init_stack (IDLE_STACK_1 L) (idle_task fn);
  _ ← register H0 (boot_tcb sp_wd 0 "Watchdog" no_caps);
  _ ← register H0 (boot_tcb sp_a 1 "Task A" task_a_caps);
  _ ← register H0 (boot_tcb sp_hsm 4 "HSM Task" hsm_caps);
  _ ← register H0 (boot_tcb sp_idle0 31 "Idle 0" no_caps);
  register_core1 sp_b sp_c sp_idle1.

(** The network self-test: the metric increments (received, dropped) and the
    frame that came back out of the ring buffer. *)
Definition verify_network_and_security : result (Z * Z * option CanFrame) :=
  match parse [0x3E; 0x00; 4; 0xAA; 0xBB; 0xCC; 0xDD; 0; 0; 0; 0; 0; 0] with
  | inl frame =>
      let '(pushed, queue) := push ring_new frame in
      ok ← pushed;
      match ok with
      | inl _ => popped ← fst (pop queue); Done (1, 0, popped)
      | inr _ => Done (1, 0, None)
      end
  | inr (BlockedId _) => Done (0, 1, None)
  | inr _ => Done (0, 0, None)
  end.

Definition start_first_task (E : Env) (h : hart) : K Z :=
  s ← get_sched h;
  match find (slot_ready (task_table s)) (seq 0 MAX_PARTITIONS) with
  | None => kpanic AssertFailed
  | Some first_idx =>
      d ← lift (index (partition_durations s) first_idx);
      t ← get_task h first_idx;
      _ ← put_sched h (mkSched (alter (fmap (set_state Running)) first_idx (task_table s))
                               first_idx (partition_durations s) d);
      _ ← reprogram E h (name t);
      mret (saved_sp t)
  end.

(** The first frames the two harts resume, or [None] when hart 0 halts because
    secure boot verification failed.  [init_timer] sets [mstatus.MIE] while the hart is
    still in M-mode, so a timer interrupt may be taken in the boot code before the
    first [mret]; such an interrupt is not modelled. *)
Definition kmain (sha256 : list Z → list Z) (E0 E1 : Env) (fn : Entries) : K (option (Z * Z)) :=
  _ ← protect E0 H0;
  if verify_secure_boot sha256 then
    _ ← lift verify_network_and_security;
    _ ← register_tasks E0 fn;
    _ ← init_timer E0 H0;
    _ ← protect E1 H1;
    _ ← init_timer E1 H1;
    sp1 ← start_first_task E1 H1;
    sp0 ← start_first_task E0 H0;
    mret (Some (sp0, sp1))
  else mret None.

(** ** The registered tables *)

(** Stack pointers of the seven tasks. *)
Record Stacks := mkStacks { sp_wd : Z; sp_a : Z; sp_b : Z; sp_c : Z; sp_hsm : Z; sp_idle0 : Z; sp_idle1 : Z }.

Definition boot_tasks0 (S : Stacks) : list (nat * TaskControlBlock) :=
  [(0%nat, boot_tcb (sp_wd S) 0 "Watchdog" no_caps);
   (1%nat, boot_tcb (sp_a S) 1 "Task A" task_a_caps);
   (4%nat, boot_tcb (sp_hsm S) 4 "HSM Task" hsm_caps);
   (31%nat, boot_tcb (sp_idle0 S) 31 "Idle 0" no_caps)].
Definition boot_tasks1 (S : Stacks) : list (nat * TaskControlBlock) :=
  [(2%nat, boot_tcb (sp_b S) 2 "Task B" task_b_caps);
   (3%nat, boot_tcb (sp_c S) 3 "Task C" task_c_caps);
   (31%nat, boot_tcb (sp_idle1 S) 31 "Idle 1" no_caps)].

Definition table_of (l : list (nat * TaskControlBlock)) : list (option TaskControlBlock) :=
  foldl (λ tbl it, <[fst it := Some (snd it)]> tbl) (replicate 32 None) l.

Definition boot_sched (l : list (nat * TaskControlBlock)) : BitMapScheduler :=
  set_table (table_of l) new.

(** A task is made Running and current. *)
Definition started (i : nat) (s : BitMapScheduler) : BitMapScheduler :=
  mkSched (alter (fmap (set_state Running)) i (task_table s)) i (partition_durations s) 100.

Lemma slot_table_of l i t : slot (table_of l) i = Some t → (i, t) ∈ l.
Proof.
  unfold table_of. intros Hs.
  assert (H : ∀ l tbl, slot (foldl (λ tbl it, <[fst it := Some (snd it)]> tbl) tbl l) i = Some t →
    (i, t) ∈ l ∨ slot tbl i = Some t).
  { clear. induction l as [|[j u] l IH]; intros tbl Hs; simpl in *; [by right|].
    destruct (IH _ Hs) as [Hin|Hin]; [left; by right|].
    destruct (decide (j < length tbl)%nat).
    - rewrite slot_insert in Hin by done. case_decide; [|by right]. simplify_eq. left. by left.
    - rewrite list_insert_ge in Hin by lia. by right. }
  destruct (H _ _ Hs) as [Hin|Hin]; [done|]. apply slot_Some in Hin.
  apply lookup_replicate_1 in Hin as [Hin _]. done.
Qed.

Lemma slot_started i s j t' :
  slot (task_table (started i s)) j = Some t' →
  ∃ t, slot (task_table s) j = Some t ∧ static_tcb t' = static_tcb t ∧ saved_sp t' = saved_sp t ∧
       (state t' = state t ∨ j = i ∧ state t' = Running).
Proof.
  unfold started. cbn [task_table]. rewrite slot_alter. case_decide as Hd.
  - destruct (slot (task_table s) j) as [t|]; [|done]. intros [= <-]. exists t. naive_solver.
  - intros Ht. exists t'. naive_solver.
Qed.

Section boot_state.
Context (S : Stacks).

Lemma boot_state0 i t :
  slot (task_table (started 0 (boot_sched (boot_tasks0 S)))) i = Some t →
  quiet (state t) ∧ caps_ok H0 i t ∧ (i = 0%nat → name t = "Watchdog"%string).
Proof.
  intros (t0 & Ht0 & Hst & _ & Hs)%slot_started. apply slot_table_of in Ht0.
  unfold caps_ok. rewrite (static_capabilities _ _ Hst), (static_name _ _ Hst).
  unfold boot_tasks0 in Ht0. rewrite !elem_of_cons, elem_of_nil in Ht0.
  destruct_or! Ht0; simplify_eq/=; (split; [by destruct Hs as [->|[_ ->]]|]);
    (split; [|done]); (split; [done|]); repeat constructor; cbn; lia.
Qed.

Lemma boot_state1 i t :
  slot (task_table (started 2 (boot_sched (boot_tasks1 S)))) i = Some t →
  quiet (state t) ∧ caps_ok H1 i t ∧ (i = 2%nat → name t = "Task B"%string).
Proof.
  intros (t0 & Ht0 & Hst & _ & Hs)%slot_started. apply slot_table_of in Ht0.
  unfold caps_ok. rewrite (static_capabilities _ _ Hst), (static_name _ _ Hst).
  unfold boot_tasks1 in Ht0. rewrite !elem_of_cons, elem_of_nil in Ht0.
  destruct_or! Ht0; simplify_eq/=; (split; [by destruct Hs as [->|[_ ->]]|]);
    (split; [|done]); (split; [done|]); repeat constructor; cbn; lia.
Qed.

Lemma boot_inv L k :
  SCHEDULERS k = mkPerHart (started 0 (boot_sched (boot_tasks0 S))) (started 2 (boot_sched (boot_tasks1 S))) →
  MUTEXES k = KERNEL_MUTEXES → length (LAST_CHECKIN_TICK k) = 32%nat →
  pmp_configured L "Watchdog" (on0 (pmp k)) → pmp_configured L "Task B" (on1 (pmp k)) →
  kernel_inv L k.
Proof.
  intros Hs Hm Hl Hp0 Hp1.
  assert (Ht : ∀ h i t, task_of h i k = Some t → quiet (state t) ∧ caps_ok h i t).
  { intros h i t. unfold task_of, sched_of. rewrite Hs. destruct h; simpl.
    - intros Ht. by apply boot_state0 in Ht as (? & ? & _).
    - intros Ht. by apply boot_state1 in Ht as (? & ? & _). }
  split.
  - intros h. unfold sched_of. rewrite Hs. destruct h; apply sched_wfb_sound; reflexivity.
  - by rewrite Hm.
  - done.
  - intros h i t Hi. by apply Ht.
  - unfold mutex_of. rewrite Hm. intros i m Him%slot_Some.
    destruct i as [|i]; simpl in Him.
    + injection Him as <-. split; simpl; [split; [done|by intros []]|done| |done|done].
      intros n. by rewrite Z.testbit_0_l.
    + apply (lookup_replicate_1 7) in Him as [? _]. done.
  - intros h i t mi Hi Hst. apply Ht in Hi as [Hq _]. by rewrite Hst in Hq.
  - intros ep h i t h' i' t' Hi _ Hw _. apply Ht in Hi as [Hq _]. by destruct (state t).
  - intros h t. unfold task_of, sched_of. rewrite Hs. destruct h; simpl.
    + intros Hi. apply boot_state0 in Hi as (_ & _ & ->); [|done]. done.
    + intros Hi. apply boot_state1 in Hi as (_ & _ & ->); [|done]. done.
Qed.
End boot_state.

(** ** [kmain] reaches the schedulers *)

Definition boot_sps (L : Layout) : Stacks :=
  mkStacks (initial_sp (TASK_WD_STACK L) 1024) (initial_sp (TASK_A_STACK L) 1024)
    (initial_sp (TASK_B_STACK L) 1024) (initial_sp (TASK_C_STACK L) 1024)
    (initial_sp (HSM_STACK L) 1024) (initial_sp (IDLE_STACK_0 L) 1024)
    (initial_sp (IDLE_STACK_1 L) 1024).

(** The RAM after the seven [initialize_stack] calls. *)
Definition init_ram (L : Layout) (fn : Entries) (m : Mem) : Mem :=
  foldl (λ m se, snd (initialize_stack m (fst se) 1024 (snd se))) m
    [(TASK_WD_STACK L, watchdog_task fn); (TASK_A_STACK L, task_a fn); (TASK_B_STACK L, task_b fn);
     (TASK_C_STACK L, task_c fn); (HSM_STACK L, hsm_task fn); (IDLE_STACK_0 L, idle_task fn);
     (IDLE_STACK_1 L, idle_task fn)].

Lemma wp_init_stack P addr entry (Q : Z → Kernel → Prop) k :
  Q (initial_sp addr 1024) (set_ram (snd (initialize_stack (ram k) addr 1024 entry)) k) →
  wp P (init_stack addr entry) Q k.
Proof. intros HQ. unfold init_stack. wp_run. exact HQ. Qed.

Lemma wp_register_tasks P E fn m i0 c0 p0 (Q : unit → Kernel → Prop) :
  Q tt (mkKernel (mkPerHart (boot_sched (boot_tasks0 (boot_sps (layout E))))
                            (boot_sched (boot_tasks1 (boot_sps (layout E)))))
          KERNEL_MUTEXES 0 (replicate 32 0) 0 0 spin_new spin_new 0
          (init_ram (layout E) fn m) i0 c0 p0 []) →
  wp P (register_tasks E fn) Q (statics m i0 c0 p0).
Proof.
  intros HQ. unfold register_tasks, register_core1. cbv zeta.
  do 7 (apply wp_bind, wp_init_stack).
  unfold register. repeat (wp_run; apply wp_lift; cbn [register_task returns]).
  wp_run. exact HQ.
Qed.

Lemma wp_protect P E h (Q : unit → Kernel → Prop) k :
  pmp_reset_ok (ph_get h (pmp k)) →
  (∀ r', pmp_configured (layout E) EmptyString r' → Q tt (set_pmp (ph_set h r' (pmp k)) k)) →
  wp P (protect E h) Q k.
Proof.
  intros Hr HQ. unfold protect. wp_run. apply wp_lift.
  eapply returns_mono; [by apply init_configured|]. intros r' Hr'. wp_run. by apply HQ.
Qed.

(** The first Ready slot starts, with its full slice and the PMP set for it. *)
Lemma wp_start_first_task P E h i t nm (Q : Z → Kernel → Prop) k :
  find (slot_ready (task_table (sched_of h k))) (seq 0 32) = Some i →
  partition_durations (sched_of h k) !! i = Some 100 → task_of h i k = Some t →
  pmp_configured (layout E) nm (ph_get h (pmp k)) →
  (∀ r', pmp_configured (layout E) (name t) r' →
     Q (saved_sp t) (set_pmp (ph_set h r' (pmp k))
        (set_SCHEDULERS (ph_set h (started i (sched_of h k)) (SCHEDULERS k)) k))) →
  wp P (start_first_task E h) Q k.
Proof.
  intros Hf Hd Ht Hp HQ. unfold start_first_task. wp_run. fold (sched_of h k).
  unfold MAX_PARTITIONS. rewrite Hf. wp_run. apply wp_lift. rewrite (index_Some _ _ _ Hd). cbn [returns].
  wp_run. apply (wp_get_task P h i t); [done|]. unfold reprogram. wp_run. apply wp_lift.
  eapply returns_mono; [by eapply reprogram_configured|]. intros r' Hr'. wp_run. by apply HQ.
Qed.

(** The state [kmain] leaves, up to the PMP registers. *)
Lemma kmain_wp sha256 E0 E1 fn m i0 c0 p0 :
  verify_secure_boot sha256 = true → layout E0 = layout E1 →
  pmp_reset_ok (on0 p0) → pmp_reset_ok (on1 p0) →
  wp no_panic (kmain sha256 E0 E1 fn) (λ r k,
    let L := layout E0 in
    r = Some (initial_sp (TASK_WD_STACK L) 1024, initial_sp (TASK_B_STACK L) 1024) ∧
    kernel_inv L k ∧ SCHED_LOCK k = spin_new ∧ MUTEX_LOCK k = spin_new ∧
    ram k = init_ram L fn m ∧
    SCHEDULERS k = mkPerHart (started 0 (boot_sched (boot_tasks0 (boot_sps L))))
                             (started 2 (boot_sched (boot_tasks1 (boot_sps L)))) ∧
    MUTEXES k = KERNEL_MUTEXES)
  (statics m i0 c0 p0).
Proof.
  intros Hsb HL Hr0 Hr1. unfold kmain. apply wp_bind, wp_protect; [done|]. intros r0 Hc0.
  rewrite Hsb. apply wp_bind, wp_lift. cbn [returns verify_network_and_security].
  apply wp_bind. apply (wp_register_tasks _ E0 fn m i0 c0 (mkPerHart r0 (on1 p0))).
  unfold init_timer. wp_run. apply wp_protect; [done|]. intros r1 Hc1.
  rewrite <- HL in *. wp_run.
  set (S := boot_sps (layout E0)).
  apply (wp_start_first_task _ E1 H1 2 (boot_tcb (sp_b S) 2 "Task B" task_b_caps) EmptyString);
    [reflexivity|reflexivity|reflexivity|by rewrite <- HL|]. intros r1' Hc1'. wp_run.
  apply (wp_start_first_task _ E0 H0 0 (boot_tcb (sp_wd S) 0 "Watchdog" no_caps) EmptyString);
    [reflexivity|reflexivity|reflexivity|done|]. intros r0' Hc0'. wp_run.
  split_and!; [reflexivity| |reflexivity|reflexivity|reflexivity|reflexivity|reflexivity].
  apply (boot_inv S); [reflexivity|reflexivity|reflexivity|done|]. simpl. by rewrite HL.
Qed.

(** ** The first frames *)

(** Every 1 KiB stack block lies in the RAM and is 1 KiB aligned, so a frame
    built in one block is not touched by building another. *)
Lemma stack_sp a :
  0x3FC80000 ≤ a → a + 1024 ≤ 0x3FC80000 + 328 * 1024 → a mod 1024 = 0 →
  initial_sp a 1024 = a + 896.
Proof. intros H1 H2 H3. rewrite initial_sp_val by lia. Z.div_mod_to_equations. lia. Qed.

Definition stack_block_ok (a : Z) : Prop :=
  a mod 1024 = 0 ∧ 0x3FC80000 ≤ a ∧ a + 1024 ≤ 0x3FC80000 + 328 * 1024.

Definition fresh_frame (m : Mem) (sp entry : Z) : Prop :=
  ∀ i, (i < 32)%nat → frame_read m sp i =
    if decide (i = MEPC) then u32 entry else if decide (i = MSTATUS) then 128 else 0.

Lemma fresh_frame_other m a e b e' :
  stack_block_ok a → stack_block_ok b → a ≠ b → fresh_frame m (initial_sp a 1024) e →
  fresh_frame (snd (initialize_stack m b 1024 e')) (initial_sp a 1024) e.
Proof.
  intros (A1 & A2 & A3) (B1 & B2 & B3) Hne Hf i Hi. rewrite <- (Hf i Hi).
  unfold frame_read. apply load32_ext. intros x Hx.
  pose proof (initialize_stack_out m b 1024 e' x) as Ho.
  destruct (initialize_stack m b 1024 e') as [sp m'] eqn:Ei. apply Ho.
  assert (sp = initial_sp b 1024) as -> by (unfold initialize_stack in Ei; congruence).
  rewrite stack_sp in Hx by lia. rewrite stack_sp by lia. Z.div_mod_to_equations. lia.
Qed.

Lemma fresh_frames l m a e :
  Forall (λ se, stack_block_ok (fst se)) l → NoDup (map fst l) → (a, e) ∈ l →
  fresh_frame (foldl (λ m se, snd (initialize_stack m (fst se) 1024 (snd se))) m l)
    (initial_sp a 1024) e.
Proof.
  intros Hok Hnd Hin.
  assert (Hkeep : ∀ l m, Forall (λ se, stack_block_ok (fst se)) l → stack_block_ok a → (a ∉ map fst l) →
    fresh_frame m (initial_sp a 1024) e →
    fresh_frame (foldl (λ m se, snd (initialize_stack m (fst se) 1024 (snd se))) m l)
      (initial_sp a 1024) e).
  { clear. induction l as [|[b e'] l IH]; intros m Hok Ha Hn Hf; simpl in *; [done|].
    apply Forall_cons_1 in Hok as [Hb Hok]. rewrite not_elem_of_cons in Hn. destruct Hn.
    apply IH; try done. by apply fresh_frame_other. }
  revert m. induction l as [|[b e'] l IH]; intros m; [by apply elem_of_nil in Hin|].
  apply Forall_cons_1 in Hok as [Hb Hok]. simpl in Hnd |- *.
  pose proof (NoDup_cons_1_1 _ _ Hnd) as Hn1. pose proof (NoDup_cons_1_2 _ _ Hnd) as Hn2.
  apply elem_of_cons in Hin as [[= -> ->]|Hin].
  - apply Hkeep; try done. intros i Hi.
    pose proof (initialize_stack_frame m b 1024 e' i Hi) as Hfr. exact Hfr.
  - by apply IH.
Qed.

(** Which entry point a task starts at. *)
Definition entry_of (fn : Entries) (nm : string) : Z :=
  if bool_decide (nm = "Watchdog"%string) then watchdog_task fn
  else if bool_decide (nm = "Task A"%string) then task_a fn
  else if bool_decide (nm = "Task B"%string) then task_b fn
  else if bool_decide (nm = "Task C"%string) then task_c fn
  else if bool_decide (nm = "HSM Task"%string) then hsm_task fn
  else idle_task fn.

Lemma layout_blocks L a : layout_ok L → a ∈ all_stacks L → stack_block_ok a.
Proof.
  intros [H1 H2 _] Ha. rewrite List.Forall_forall in H1, H2.
  apply list_elem_of_In in Ha. destruct (H2 _ Ha). split; [by apply H1|done].
Qed.

Lemma init_ram_fresh L fn m a e :
  layout_ok L →
  (a, e) ∈ [(TASK_WD_STACK L, watchdog_task fn); (TASK_A_STACK L, task_a fn);
     (TASK_B_STACK L, task_b fn); (TASK_C_STACK L, task_c fn); (HSM_STACK L, hsm_task fn);
     (IDLE_STACK_0 L, idle_task fn); (IDLE_STACK_1 L, idle_task fn)] →
  fresh_frame (init_ram L fn m) (initial_sp a 1024) e.
Proof.
  intros HL Hin. apply fresh_frames; [| |done].
  - apply List.Forall_forall. intros [b e'] Hb. apply (layout_blocks L); [done|].
    apply list_elem_of_In. unfold all_stacks. simpl in *. naive_solver.
  - pose proof (lay_distinct _ HL) as Hnd. revert Hnd. unfold all_stacks. cbn [map fst].
    rewrite !NoDup_ListNoDup. intros Hnd.
    repeat match goal with H : List.NoDup (_ :: _) |- _ => inversion H; clear H; subst end.
    simpl in *. repeat constructor; simpl; naive_solver.
Qed.

Lemma boot_task_entry L fn m h i t :
  layout_ok L →
  slot (task_table (ph_get h (mkPerHart (started 0 (boot_sched (boot_tasks0 (boot_sps L))))
                             (started 2 (boot_sched (boot_tasks1 (boot_sps L))))))) i = Some t →
  fresh_frame (init_ram L fn m) (saved_sp t) (entry_of fn (name t)).
Proof.
  intros HL Ht.
  assert (∃ t0, saved_sp t = saved_sp t0 ∧ name t = name t0 ∧
    ((i, t0) ∈ boot_tasks0 (boot_sps L) ∨ (i, t0) ∈ boot_tasks1 (boot_sps L)))
    as (t0 & -> & -> & Hin).
  { destruct h; apply slot_started in Ht as (t0 & Ht0 & Hst & Hsp & _); apply slot_table_of in Ht0;
      exists t0; rewrite (static_name _ _ Hst); auto. }
  unfold boot_tasks0, boot_tasks1 in Hin. rewrite !elem_of_cons, !elem_of_nil in Hin.
  destruct_or! Hin; simplify_eq/=; apply (init_ram_fresh L); try done;
    rewrite !elem_of_cons; auto 10.
Qed.

(** ** Properties *)

(** C11. Boot.  When secure boot verification passes and the PMP entries are
    unlocked at reset, [kmain] reaches the scheduler on both harts without
    panicking: it returns the initial stack pointers of the Watchdog (hart 0) and
    of Task B (hart 1), both spinlocks are free, and the kernel invariant holds;
    every registered task has, at its saved stack pointer, a frame that resumes
    its entry point in U-mode with interrupts enabled and all registers zero. *)
Theorem kmain_establishes_invariant sha256 E0 E1 fn m i0 c0 p0 :
  verify_secure_boot sha256 = true → layout_ok (layout E0) → layout E0 = layout E1 →
  pmp_reset_ok (on0 p0) → pmp_reset_ok (on1 p0) →
  let L := layout E0 in
  ∃ k, kmain sha256 E0 E1 fn (statics m i0 c0 p0)
       = Done (Some (initial_sp (TASK_WD_STACK L) 1024, initial_sp (TASK_B_STACK L) 1024), k) ∧
    kernel_inv L k ∧ SCHED_LOCK k = spin_new ∧ MUTEX_LOCK k = spin_new ∧
    ∀ h i t, task_of h i k = Some t →
      frame_read (ram k) (saved_sp t) MEPC = u32 (entry_of fn (name t)) ∧
      frame_read (ram k) (saved_sp t) MSTATUS = 128 ∧
      ∀ r, (r < MEPC)%nat → frame_read (ram k) (saved_sp t) r = 0.
Proof.
  intros Hsb HL He Hr0 Hr1 L.
  destruct (wp_no_panic _ _ _ (kmain_wp sha256 E0 E1 fn m i0 c0 p0 Hsb He Hr0 Hr1))
    as (r & k & Hk & -> & Hi & Hs & Hm & Hram & Hsch & _).
  exists k. split_and!; try done. intros h i t Ht. rewrite Hram.
  unfold task_of, sched_of in Ht. rewrite Hsch in Ht.
  pose proof (boot_task_entry _ fn m _ _ _ HL Ht) as Hf. split_and!.
  - apply (Hf MEPC). unfold MEPC. lia.
  - apply (Hf MSTATUS). unfold MSTATUS. lia.
  - intros r Hr. unfold MEPC in Hr. rewrite (Hf r) by lia.
    rewrite !decide_False; [done|unfold MSTATUS; lia|unfold MEPC; lia].
Qed.

(** A machine for the witnesses. *)
Definition sample_env : Env := mkEnv sample_layout 7000 7001 1000000.
Definition sample_entries : Entries :=
  mkEntries 0x42001000 0x42002000 0x42003000 0x42004000 0x42005000 0x42006000.
Definition sample_reset : Kernel :=
  statics ∅ (mkPerHart 0 0) (mkPerHart 0 0) (mkPerHart pmp_reset pmp_reset).

Lemma sample_secure : verify_secure_boot Fips180.sha256 = true.
Proof. vm_compute. reflexivity. Qed.

Lemma kmain_establishes_invariant_witness :
  ∃ k, kmain Fips180.sha256 sample_env sample_env sample_entries sample_reset
       = Done (Some (0x3FC80380, 0x3FC80B80), k) ∧ kernel_inv sample_layout k.
Proof.
  destruct (kmain_establishes_invariant Fips180.sha256 sample_env sample_env sample_entries
    ∅ (mkPerHart 0 0) (mkPerHart 0 0) (mkPerHart pmp_reset pmp_reset)) as (k & Hk & Hi & _).
  - exact sample_secure.
  - exact sample_layout_ok.
  - reflexivity.
  - exact pmp_reset_reset_ok.
  - exact pmp_reset_reset_ok.
  - exists k. split; [exact Hk|exact Hi].
Defined.

(** [init_timer] sets the timer-enable bit of [mie] and no other: on a hart that
    leaves reset with [mie] clear, software interrupts (bit 3) stay masked. *)
Lemma timer_csrs_mie mie mstatus n :
  0 ≤ n → n ≠ 7 → let '(mie', _, _) := timer_csrs mie mstatus in Z.testbit mie' n = Z.testbit mie n.
Proof.
  intros Hn H7. unfold timer_csrs. rewrite Z.lor_spec, Z.shiftl_1_l, Z.pow2_bits_false by lia.
  apply orb_false_r.
Qed.
