(* ===== verification/Host.v ===== *)
(** * Host: the broker's file and clients, and the dashboard application

    The rest of host/telemetry_broker.py around the decoder of [Broker]: the
    polling loop of [tail_file] with its file position and rewind, and [broadcast];
    and what host/dashboard.py computes from the events it receives: its bounded
    history, its counters, the average it shows and the names it maps numbers to.
    Sockets, threads, JSON text and plotting are left out. *)
From S2P Require Import Prelude Tcb Telemetry Broker Kernel Boot.
Open Scope string_scope.
Open Scope Z_scope.
Open Scope list_scope.

(** ** The polling loop of [tail_file] *)

Record Tail := mkTail { f_tell : nat; stream : BytesIO }.

(** One round of the outer loop on the file's present content. *)
Definition poll (file : list Z) (t : Tail) : list TraceEvent * Tail :=
  match take 4096 (drop (f_tell t) file) with
  | [] => ([], if bool_decide (length file < f_tell t)%nat then mkTail 0 (stream t) else t)
  | chunk =>
      let '(es, s) := tail_chunk (stream t) chunk in
      (es, mkTail (f_tell t + length chunk) s)
  end.

(** The contents of the file at successive rounds. *)
Fixpoint polls (files : list (list Z)) (t : Tail) : list TraceEvent * Tail :=
  match files with
  | [] => ([], t)
  | file :: files =>
      let '(es, t) := poll file t in
      let '(es', t) := polls files t in (es ++ es', t)
  end.

(** ** [broadcast] *)

(** [list.remove]: the first occurrence. *)
Fixpoint list_remove (c : nat) (clients : list nat) : list nat :=
  match clients with
  | [] => []
  | d :: clients => if decide (c = d) then clients else d :: list_remove c clients
  end.

(** [sendall c] tells whether the write to client [c] succeeds. *)
Definition broadcast (sendall : nat → bool) (clients : list nat) : list nat :=
  let disconnected := filter (λ c, sendall c = false) clients in
  foldl (λ clients c, list_remove c clients) clients disconnected.

(** ** The dashboard *)

(** [socket_reader]: append, and drop the oldest beyond 5000. *)
Definition receive (events : list TraceEvent) (event : TraceEvent) : list TraceEvent :=
  let events := events ++ [event] in
  if (5000 <? length events)%nat then tail events else events.

Definition swaps (events : list TraceEvent) : list Z :=
  omap (λ e, match e with TaskSwap _ _ cycles => Some cycles | _ => None end) events.
Definition transfers (events : list TraceEvent) : list Z :=
  omap (λ e, match e with IpcTransfer ep _ => Some ep | _ => None end) events.
Definition faults (events : list TraceEvent) : list Z :=
  omap (λ e, match e with FaultInterception cause _ => Some cause | _ => None end) events.

(** Total events, context switches, IPC flows, faults contained. *)
Definition cards (events : list TraceEvent) : nat * nat * nat * nat :=
  (length events, length (swaps events), length (transfers events), length (faults events)).

(** [Series.diff().dropna()]. *)
Fixpoint diffs (l : list Z) : list Z :=
  match l with
  | x :: (y :: _) as l' => (y - x) :: diffs l'
  | _ => []
  end.

(** [int(mean)]: the sum of differences of 32-bit numbers is exact in a double, and
    [int] truncates towards zero. *)
Definition avg_cycles (events : list TraceEvent) : Z :=
  let cycles := swaps events in
  if (1 <? length cycles)%nat
  then Z.quot (foldr Z.add 0 (diffs cycles)) (Z.of_nat (length (diffs cycles))) else 0.

Definition task_names (n : Z) : string :=
  if n =? 0 then "Task A (Secure Signing)"
  else if n =? 1 then "Task B (Sensor/CAN RX)"
  else if n =? 2 then "vHSM Partition"
  else if n =? 3 then "Task C (Fault Injector)"
  else if n =? 10 then "Watchdog Task"
  else if n =? 31 then "Idle Task"
  else "Unknown".

Definition endpoint_name (n : Z) : string :=
  if n =? 0 then "EP 0 (vHSM Requests)"
  else if n =? 1 then "EP 1 (vHSM Signatures)"
  else if n =? 2 then "EP 2 (CAN Data Flow)"
  else "Endpoint".

Definition exception_name (cause : Z) : string :=
  if cause =? 1 then "Instruction Access Fault (PMP)"
  else if cause =? 2 then "Illegal Instruction (Privilege)"
  else if cause =? 5 then "Load Access Fault (PMP)"
  else if cause =? 7 then "Store Access Fault (PMP)"
  else "Other Fault".

(** ** Lemmas *)

Lemma poll_chunk file t chunk rest :
  drop (f_tell t) file = chunk ++ rest → chunk ≠ [] → length chunk = 4096%nat ∨ rest = [] ∧ (length chunk ≤ 4096)%nat →
  poll file t = (fst (tail_chunk (stream t) chunk),
                 mkTail (f_tell t + length chunk) (snd (tail_chunk (stream t) chunk))).
Proof.
  intros Hd Hn Hl. unfold poll. rewrite Hd.
  assert (take 4096 (chunk ++ rest) = chunk) as ->.
  { destruct Hl as [<-|[-> Hl]]; [by rewrite take_app_length|]. rewrite app_nil_r. by apply take_ge. }
  destruct chunk; [done|]. by destruct (tail_chunk _ _).
Qed.

(** The stream is empty and the whole file is read. *)
Definition caught_up (file : list Z) (t : Tail) : Prop := f_tell t = length file ∧ stream t = mkBytesIO [] 0.

Lemma tail_chunk_wire es :
  Forall event_wf es → tail_chunk (mkBytesIO [] 0) (concat (map wire es)) = (es, mkBytesIO [] 0).
Proof.
  intros Hes. unfold tail_chunk, bytesio_write. cbn [buffer position]. rewrite take_nil, drop_nil. cbn [app Nat.add].
  destruct (drain_wire es [] (length (concat (map wire es) ++ [])) Hes ltac:(done)) as (f & _ & Hd).
  rewrite drain_nil in Hd. cbn [fst snd] in Hd. by rewrite Hd, app_nil_r.
Qed.

Lemma poll_caught_up file es t :
  caught_up file t → Forall event_wf es → (length (concat (map wire es)) ≤ 4096)%nat →
  fst (poll (file ++ concat (map wire es)) t) = es ∧
  caught_up (file ++ concat (map wire es)) (snd (poll (file ++ concat (map wire es)) t)).
Proof.
  intros [Hp Hs] Hes Hl. destruct t as [p s]. cbn in Hp, Hs. subst p s.
  destruct (concat (map wire es)) as [|b bs] eqn:Hc.
  - assert (es = []) as ->.
    { destruct Hes as [|e es He _]; [done|]. pose proof (parse_event_wire e [] He) as Hp%parse_event_shorter.
      apply (f_equal length) in Hc. cbn [map concat] in Hc. rewrite length_app in Hc, Hp. cbn in *. lia. }
    rewrite app_nil_r. unfold poll. cbn [f_tell stream]. rewrite drop_all, take_nil.
    rewrite bool_decide_eq_false_2 by lia. done.
  - rewrite <- Hc in *. rewrite (poll_chunk _ _ (concat (map wire es)) []); cbn [f_tell stream].
    + rewrite tail_chunk_wire by done. split; [done|]. split; [|done]. by rewrite length_app.
    + by rewrite drop_app_length, app_nil_r.
    + by rewrite Hc.
    + by right.
Qed.

(** ** Properties *)

(** The file after each batch of records. *)
Fixpoint growing (file : list Z) (batches : list (list TraceEvent)) : list (list Z) :=
  match batches with
  | [] => []
  | es :: batches => let file := file ++ concat (map wire es) in file :: growing file batches
  end.

(** The broker follows the file.  While the emulator appends whole records, at most
    4096 bytes of them between two rounds, the polling loop turns them into exactly
    the events logged, round by round. *)
Lemma broker_follows batches file t :
  caught_up file t → Forall (Forall event_wf) batches →
  Forall (λ es, (length (concat (map wire es)) ≤ 4096)%nat) batches →
  fst (polls (growing file batches) t) = concat batches.
Proof.
  intros Hc Hb Hl. revert file t Hc. induction Hb as [|es batches Hes Hb IH]; intros file t Hc; [done|].
  apply Forall_cons_1 in Hl as [Hle Hl]. cbn [growing polls concat].
  destruct (poll_caught_up file es t Hc Hes Hle) as [H1 H2].
  destruct (poll (file ++ concat (map wire es)) t) as [es1 t1]. cbn [fst snd] in H1, H2. subst es1.
  specialize (IH Hl _ _ H2). destruct (polls _ t1) as [es2 t2]. cbn [fst] in *. by rewrite IH.
Qed.

(** A new run of the emulator.  When the file is replaced by a shorter one the broker
    starts over and decodes the new file from its beginning; when the new file has
    already grown past the old position it goes on in the middle of it. *)
Lemma broker_rewinds file file' t :
  caught_up file t → (length file' < length file)%nat →
  poll file' t = ([], mkTail 0 (mkBytesIO [] 0)) ∧ caught_up [] (snd (poll file' t)).
Proof.
  intros [Hp Hs] Hl. unfold poll. rewrite drop_ge, take_nil by lia.
  rewrite bool_decide_eq_true_2 by lia. rewrite Hs. done.
Qed.

Lemma broker_misses_replaced_file :
  let old := wire (TaskSwap 1 2 5) in
  let fresh := wire (FaultInterception 7 16) ++ wire (IpcTransfer 2 64) in
  let t := snd (poll old (mkTail 0 (mkBytesIO [] 0))) in
  caught_up old t ∧ fst (poll fresh t) = [] ∧ fst (poll fresh (mkTail 0 (mkBytesIO [] 0))) ≠ [].
Proof. cbv zeta. split_and!; [vm_compute; split; reflexivity|vm_compute; reflexivity|vm_compute; discriminate]. Qed.

(** *** Clients *)

Lemma list_remove_notin c l : c ∉ l → list_remove c l = l.
Proof.
  induction l as [|d l IH]; cbn; [done|]. rewrite not_elem_of_cons. intros [Hn Hl].
  rewrite decide_False by done. by rewrite IH.
Qed.

Lemma list_remove_app c l l' : c ∉ l → list_remove c (l ++ c :: l') = l ++ l'.
Proof.
  induction l as [|d l IH]; cbn; [by rewrite decide_True|]. rewrite not_elem_of_cons. intros [Hn Hl].
  rewrite decide_False by done. by rewrite IH.
Qed.

(** A broadcast keeps exactly the clients it could write to, in order. *)
Lemma broadcast_keeps sendall clients :
  NoDup clients → broadcast sendall clients = filter (λ c, sendall c = true) clients.
Proof.
  intros Hnd. unfold broadcast.
  assert (H : ∀ pre, (∀ c, c ∈ pre → sendall c = true) →
    foldl (λ clients c, list_remove c clients) (pre ++ clients) (filter (λ c, sendall c = false) clients)
    = pre ++ filter (λ c, sendall c = true) clients); [|apply (H []); intros c Hc; by apply not_elem_of_nil in Hc].
  induction Hnd as [|c l Hc Hnd IH]; intros pre Hpre; [done|].
  destruct (sendall c) eqn:Hs.
  - rewrite (filter_cons_False (λ c, sendall c = false)) by (by rewrite Hs).
    rewrite (filter_cons_True (λ c, sendall c = true)) by done.
    specialize (IH (pre ++ [c])). rewrite <- !app_assoc in IH. apply IH.
    intros d [Hd|Hd%list_elem_of_singleton]%elem_of_app; [by apply Hpre|by subst].
  - rewrite (filter_cons_True (λ c, sendall c = false)) by done.
    rewrite (filter_cons_False (λ c, sendall c = true)) by (by rewrite Hs).
    cbn [foldl]. rewrite list_remove_app; [by apply IH|]. intros Hin%Hpre. congruence.
Qed.

(** *** The dashboard *)

(** The history is the last 5000 events. *)
Lemma history_recent es :
  foldl receive [] es = drop (length es - 5000) es.
Proof.
  induction es as [|e es IH] using rev_ind; [done|]. rewrite foldl_app. cbn [foldl]. rewrite IH.
  unfold receive. rewrite length_app, length_drop, length_app. cbn [length].
  destruct (Nat.ltb_spec 5000 (length es - (length es - 5000) + 1)).
  - replace (length es + 1 - 5000)%nat with (S (length es - 5000)) by lia.
    rewrite <- drop_app_le by lia. by destruct (drop (length es - 5000) (es ++ [e])) eqn:Hd;
      rewrite <- Nat.add_1_r, <- drop_drop, Hd.
  - replace (length es - 5000)%nat with 0%nat by lia. replace (length es + 1 - 5000)%nat with 0%nat by lia. done.
Qed.

Lemma cards_add_up es :
  let '(total, s, i, f) := cards es in total = (s + i + f)%nat.
Proof.
  unfold cards. induction es as [|[] es IH]; [done|..];
    unfold swaps, transfers, faults in *; cbn [omap list_omap length] in *; lia.
Qed.

Lemma diffs_telescope x l : foldr Z.add 0 (diffs (x :: l)) = List.last (x :: l) 0 - x.
Proof.
  revert x. induction l as [|y l IH]; intros x; [cbn; lia|].
  change (diffs (x :: y :: l)) with (y - x :: diffs (y :: l)). cbn [foldr]. rewrite IH.
  change (List.last (x :: y :: l) 0) with (List.last (y :: l) 0). lia.
Qed.

Lemma diffs_length x l : length (diffs (x :: l)) = length l.
Proof. revert x. induction l as [|y l IH]; intros x; [done|]. cbn [diffs length]. by rewrite <- (IH y). Qed.

(** What "Average Context Switch Cycles" shows.  The differences telescope, so it is
    the time between the first and the last switch in the history, of either hart,
    divided by the number of switches after the first: the mean time between
    switches, and not the cost of one. *)
Lemma avg_cycles_is_interval events x l :
  swaps events = x :: l → l ≠ [] →
  avg_cycles events = Z.quot (List.last l 0 - x) (Z.of_nat (length l)).
Proof.
  intros Hs Hl. unfold avg_cycles. rewrite Hs. destruct l as [|y l]; [done|].
  rewrite diffs_telescope, diffs_length. done.
Qed.

(** The name the dashboard shows for a registered task. *)
Definition shown (S : Stacks) : list (string * string) :=
  (λ it : nat * TaskControlBlock, (name it.2, task_names (Z.of_nat it.1))) <$> boot_tasks0 S ++ boot_tasks1 S.

(** The dashboard's names are not the kernel's.  Of the seven registered tasks only
    Task C and the idle tasks are shown under their own names: the watchdog appears
    as Task A, Task A as Task B, Task B as the HSM, the HSM as unknown; and the
    endpoint on which the HSM gets its requests appears as CAN data. *)
Lemma dashboard_names S :
  shown S =
    [("Watchdog", "Task A (Secure Signing)"); ("Task A", "Task B (Sensor/CAN RX)");
     ("HSM Task", "Unknown"); ("Idle 0", "Idle Task");
     ("Task B", "vHSM Partition"); ("Task C", "Task C (Fault Injector)"); ("Idle 1", "Idle Task")] ∧
  hsm_caps !! 0%nat = Some (CapIpc 2 false true) ∧ endpoint_name 2 = "EP 2 (CAN Data Flow)".
Proof. split_and!; reflexivity. Qed.
