(* ===== verification/Rtt.v ===== *)
(** * Rtt: the two log channels, from the harts to the host

    Models [SEGGER_RTT_WriteNoLock], the writer [RttWriter] of kernel/src/main.rs and
    security/src/lib.rs, the [write] and [flush] of the kernel's defmt logger, [get_hart_id] and [log_telemetry] of
    telemetry/src/lib.rs with its static buffers in memory, and the hook that
    renode-config/esp32c3.resc puts on the write function.  [Telemetry] takes a
    record as one write to the channel; here the two harts encode their records byte
    by byte into shared memory and print piece by piece, in any interleaving, and the
    broker polls the file meanwhile. *)
From S2P Require Import Prelude Memory Telemetry Broker Kernel KernelInv Host.

(** ** The write function and its hook *)

(** The files the emulator writes: channel 1, and every other channel. *)
Record Host := mkHost { telemetry_bin : list Z; console : list Z }.

(** The payload is read before the hook's lock is taken; under it the bytes go out. *)
Definition rtt_hook (m : Mem) (channel ptr len : Z) (o : Host) : Host :=
  let data := load_bytes m ptr (Z.to_nat len) in
  if channel =? 1 then mkHost (telemetry_bin o ++ data) (console o)
  else mkHost (telemetry_bin o) (console o ++ data).

(** The function itself only returns its third argument. *)
Definition SEGGER_RTT_WriteNoLock (m : Mem) (channel ptr len : Z) (o : Host) : Z * Host :=
  (len, rtt_hook m channel ptr len o).

(** A string or byte slice is its address and its length. *)
Definition str : Type := Z * Z.

Definition write_str (m : Mem) (s : str) (o : Host) : Host :=
  snd (SEGGER_RTT_WriteNoLock m 0 (fst s) (snd s) o).

(** The writer of the security crate, which calls the kernel's function by name. *)
Module SecurityLog.

Definition write_str (m : Mem) (s : str) (o : Host) : Host :=
  snd (SEGGER_RTT_WriteNoLock m 0 (fst s) (snd s) o).

End SecurityLog.

(** The global logger of defmt: its frames go to the same channel. *)
Module MyLogger.

Definition write (m : Mem) (bytes : str) (o : Host) : Host :=
  snd (SEGGER_RTT_WriteNoLock m 0 (fst bytes) (snd bytes) o).

Definition flush (o : Host) : Host := o.

End MyLogger.

(** A piece of a message and whose writer prints it. *)
Inductive piece := KernelPiece (s : str) | SecurityPiece (s : str) | LoggerPiece (s : str).

Definition piece_str (p : piece) : str :=
  match p with KernelPiece s | SecurityPiece s | LoggerPiece s => s end.

Definition write_piece (m : Mem) (p : piece) (o : Host) : Host :=
  match p with
  | KernelPiece s => write_str m s o
  | SecurityPiece s => SecurityLog.write_str m s o
  | LoggerPiece s => MyLogger.flush (MyLogger.write m s o)
  end.

(** ** [log_telemetry] on its static buffers *)

(** [csrr mhartid]. *)
Definition get_hart_id (h : hart) : Z := match h with H0 => 0 | H1 => 1 end.

(** [&mut BUFS[get_hart_id() & 1]], with [BUFS] at [bufs]. *)
Definition buf_of (bufs : Z) (h : hart) : Z := bufs + 32 * Z.land (get_hart_id h) 1.

(** Where a hart is in its logging code: in the middle of the prints of [nested], the
    innermost first, each interrupted by a trap that prints the one before it; or in
    the handler of such a trap, encoding a record.  The handlers run with interrupts
    masked, so nothing interrupts an encoder. *)
Inductive logging :=
  | Encoding (e : TraceEvent) (used todo : list Z) (nested : list (list piece))
  | Printing (nested : list (list piece)).

(** Neither printing nor encoding. *)
Definition Quiet : logging := Printing [].

Record World := mkWorld {
  mem : Mem;
  host : Host;
  doing : per_hart logging;
  issued : list (hart * TraceEvent);
  sent : list (hart * TraceEvent);
  said : list (hart * list Z)
}.

Section log_steps.
Context (bufs : Z) (to_slice : TraceEvent → nat → option (list Z)).

(** One access of one hart.  The encoder fills the buffer from the front; a print
    macro writes its pieces one call at a time; other code leaves [BUFS] alone. *)
Inductive log_step : World → World → Prop :=
  | ls_start h e used nested w :
      ph_get h (doing w) = Printing nested → event_wf e → to_slice e 32 = Some used →
      log_step w (mkWorld (mem w) (host w) (ph_set h (Encoding e [] used nested) (doing w))
                    (issued w ++ [(h, e)]) (sent w) (said w))
  | ls_drop h e nested w :
      ph_get h (doing w) = Printing nested → event_wf e → to_slice e 32 = None →
      log_step w (mkWorld (mem w) (host w) (doing w) (issued w ++ [(h, e)]) (sent w) (said w))
  | ls_byte h e used b todo nested w :
      ph_get h (doing w) = Encoding e used (b :: todo) nested →
      log_step w (mkWorld (store8 (mem w) (buf_of bufs h + Z.of_nat (length used)) b) (host w)
                    (ph_set h (Encoding e (used ++ [b]) todo nested) (doing w))
                    (issued w) (sent w) (said w))
  | ls_call h e used nested w :
      ph_get h (doing w) = Encoding e used [] nested →
      log_step w (mkWorld (mem w)
                    (snd (SEGGER_RTT_WriteNoLock (mem w) 1 (buf_of bufs h) (Z.of_nat (length used)) (host w)))
                    (ph_set h (Printing nested) (doing w)) (issued w) (sent w ++ [(h, e)]) (said w))
  | ls_print h pieces nested w :
      ph_get h (doing w) = Printing nested →
      log_step w (mkWorld (mem w) (host w) (ph_set h (Printing (pieces :: nested)) (doing w))
                    (issued w) (sent w) (said w))
  | ls_piece h s pieces nested w :
      ph_get h (doing w) = Printing ((s :: pieces) :: nested) →
      log_step w (mkWorld (mem w) (write_piece (mem w) s (host w))
                    (ph_set h (Printing (pieces :: nested)) (doing w)) (issued w) (sent w)
                    (said w ++ [(h, load_bytes (mem w) (fst (piece_str s)) (Z.to_nat (snd (piece_str s))))]))
  | ls_printed h nested w :
      ph_get h (doing w) = Printing ([] :: nested) →
      log_step w (mkWorld (mem w) (host w) (ph_set h (Printing nested) (doing w)) (issued w) (sent w) (said w))
  | ls_other m w :
      (∀ a, bufs ≤ a < bufs + 64 → load8 m a = load8 (mem w) a) →
      log_step w (mkWorld m (host w) (doing w) (issued w) (sent w) (said w)).

Definition quiet_world (m : Mem) : World :=
  mkWorld m (mkHost [] []) (mkPerHart Quiet Quiet) [] [] [].

(** The harts and the broker: [es] are the events it has decoded, in rounds of its
    polling loop on the file as it is then, with at most 4096 new bytes per round. *)
Inductive logged : World → Tail → list TraceEvent → Prop :=
  | lg_start m : logged (quiet_world m) (mkTail 0 (mkBytesIO [] 0)) []
  | lg_next w w' t es : logged w t es → log_step w w' → logged w' t es
  | lg_poll w t es :
      logged w t es → (length (telemetry_bin (host w)) ≤ f_tell t + 4096)%nat →
      logged w (snd (poll (telemetry_bin (host w)) t)) (es ++ fst (poll (telemetry_bin (host w)) t)).
End log_steps.

Definition of_hart {A} (h : hart) (l : list (hart * A)) : list A :=
  snd <$> filter (λ p, fst p = h) l.

Definition in_flight (d : logging) : list TraceEvent :=
  match d with Encoding e _ _ _ => [e] | Printing _ => [] end.

(** ** Invariant *)

Definition encoding_ok (bufs : Z) (m : Mem) (h : hart) (d : logging) : Prop :=
  match d with
  | Encoding e used todo _ =>
      event_wf e ∧ wire e = used ++ todo ∧ load_bytes m (buf_of bufs h) (length used) = used
  | _ => True
  end.

Record log_inv (bufs : Z) (w : World) : Prop := {
  li_ok : ∀ h, encoding_ok bufs (mem w) h (ph_get h (doing w));
  li_sent : telemetry_bin (host w) = concat (wire <$> (snd <$> sent w));
  li_wf : Forall event_wf (snd <$> sent w);
  li_said : console (host w) = concat (snd <$> said w);
  li_order : ∀ h, of_hart h (issued w) = of_hart h (sent w) ++ in_flight (ph_get h (doing w))
}.

(** ** Lemmas *)

Lemma of_hart_snoc {A} h g (x : A) l :
  of_hart h (l ++ [(g, x)]) = of_hart h l ++ (if decide (g = h) then [x] else []).
Proof.
  unfold of_hart. rewrite list.filter_app, fmap_app. f_equal.
  destruct (decide (g = h)) as [->|Hn]; [by rewrite filter_cons_True by done|].
  by rewrite filter_cons_False by done.
Qed.

Lemma load_bytes_snoc m a n :
  load_bytes m a (S n) = load_bytes m a n ++ [load8 m (a + Z.of_nat n)].
Proof. unfold load_bytes. by rewrite seq_S, map_app. Qed.

(** The bytes of one hart's buffer are not those of the other's. *)
Lemma buf_apart bufs h g i j :
  (i < 32)%nat → (j < 32)%nat → h ≠ g →
  buf_of bufs h + Z.of_nat i ≠ buf_of bufs g + Z.of_nat j.
Proof.
  intros Hi Hj Hn. unfold buf_of.
  assert (Hl : Z.land (get_hart_id h) 1 = get_hart_id h ∧ Z.land (get_hart_id g) 1 = get_hart_id g)
    by (by destruct h, g). destruct Hl as [-> ->]. destruct h, g; cbn [get_hart_id]; first [done|lia].
Qed.

Lemma buf_inside bufs h i : (i < 32)%nat → bufs ≤ buf_of bufs h + Z.of_nat i < bufs + 64.
Proof.
  unfold buf_of. assert (Z.land (get_hart_id h) 1 = get_hart_id h) as -> by (by destruct h).
  destruct h; cbn [get_hart_id]; lia.
Qed.

Lemma encoding_short bufs m h e used todo nested :
  encoding_ok bufs m h (Encoding e used todo nested) → (length used + length todo ≤ 11)%nat.
Proof. intros (_ & Hw & _). pose proof (wire_length e) as Hl. by rewrite Hw, length_app in Hl. Qed.

(** A record survives every change of memory outside the part of its buffer it uses. *)
Lemma encoding_frame bufs m m' h d :
  (∀ i, (i < 11)%nat → load8 m' (buf_of bufs h + Z.of_nat i) = load8 m (buf_of bufs h + Z.of_nat i)) →
  encoding_ok bufs m h d → encoding_ok bufs m' h d.
Proof.
  intros Hm. destruct d as [e used todo nested|]; [|done]. intros Hok.
  pose proof (encoding_short _ _ _ _ _ _ _ Hok) as Hs. destruct Hok as (He & Hw & Hb).
  split_and!; [done|done|]. rewrite <- Hb at 2. apply load_bytes_ext. intros x Hx.
  replace x with (buf_of bufs h + Z.of_nat (Z.to_nat (x - buf_of bufs h))) by lia. apply Hm. lia.
Qed.

Section log_inv.
Context (bufs : Z) (to_slice : TraceEvent → nat → option (list Z)) (HP : Postcard to_slice).

(** A hart that goes from [d] to [d'] without touching memory, the files or the
    ghost lists keeps the invariant when the record in flight stays the same. *)
Lemma doing_inv w h d' :
  log_inv bufs w → encoding_ok bufs (mem w) h d' → in_flight d' = in_flight (ph_get h (doing w)) →
  log_inv bufs (mkWorld (mem w) (host w) (ph_set h d' (doing w)) (issued w) (sent w) (said w)).
Proof.
  intros [Hok Hse Hwf Hsa Ho] Hd Hf. constructor; cbn [mem host doing issued sent said]; try done.
  - intros g. rewrite ph_get_set. by case_decide; subst.
  - intros g. rewrite ph_get_set. case_decide; subst; [rewrite Hf|]; apply Ho.
Qed.

Lemma byte_inv w h e used b todo nested :
  log_inv bufs w → ph_get h (doing w) = Encoding e used (b :: todo) nested →
  log_inv bufs (mkWorld (store8 (mem w) (buf_of bufs h + Z.of_nat (length used)) b) (host w)
                  (ph_set h (Encoding e (used ++ [b]) todo nested) (doing w)) (issued w) (sent w) (said w)).
Proof.
  intros [Hok Hse Hwf Hsa Ho] Hd. pose proof (Hok h) as Hh. rewrite Hd in Hh.
  pose proof (encoding_short _ _ _ _ _ _ _ Hh) as Hs. destruct Hh as (He & Hw & Hb).
  cbn [length] in Hs. constructor; cbn [mem host doing issued sent said]; try done.
  - intros g. rewrite ph_get_set. case_decide as Hg; [subst g|].
    + split_and!; [done|by rewrite Hw, <- app_assoc|].
      assert (length (used ++ [b]) = S (length used)) as -> by (rewrite length_app; simpl; lia).
      rewrite load_bytes_snoc, load8_store8_eq. f_equal.
      * rewrite <- Hb at 3. apply load_bytes_ext. intros x Hx. apply load8_store8_ne. lia.
      * pose proof (wire_bytes e He) as Hf. rewrite Hw in Hf.
        apply Forall_app in Hf as [_ Hf]. apply List.Forall_inv in Hf. by rewrite u8_small.
    + eapply encoding_frame; [|apply Hok]. intros i Hi. apply load8_store8_ne.
      apply buf_apart; [lia|lia|done].
  - intros g. rewrite ph_get_set. case_decide; [subst g|apply Ho]. rewrite Ho, Hd. done.
Qed.

Lemma call_inv w h e used nested :
  log_inv bufs w → ph_get h (doing w) = Encoding e used [] nested →
  log_inv bufs (mkWorld (mem w)
    (snd (SEGGER_RTT_WriteNoLock (mem w) 1 (buf_of bufs h) (Z.of_nat (length used)) (host w)))
    (ph_set h (Printing nested) (doing w)) (issued w) (sent w ++ [(h, e)]) (said w)).
Proof.
  intros [Hok Hse Hwf Hsa Ho] Hd. pose proof (Hok h) as Hh. rewrite Hd in Hh.
  destruct Hh as (He & Hw & Hb). rewrite app_nil_r in Hw.
  constructor; cbn [mem host doing issued sent said]; try done.
  - intros g. rewrite ph_get_set. case_decide; [done|apply Hok].
  - cbn. rewrite Nat2Z.id, Hb, Hse, !fmap_app, concat_app. cbn. by rewrite Hw, app_nil_r.
  - rewrite fmap_app. apply Forall_app. split; [done|]. by repeat constructor.
  - intros g. rewrite ph_get_set, of_hart_snoc, Ho. case_decide; [subst g|by rewrite app_nil_r].
    rewrite Hd. cbn. by rewrite app_nil_r.
Qed.

Lemma piece_inv w h s pieces nested :
  log_inv bufs w → ph_get h (doing w) = Printing ((s :: pieces) :: nested) →
  log_inv bufs (mkWorld (mem w) (write_piece (mem w) s (host w)) (ph_set h (Printing (pieces :: nested)) (doing w))
    (issued w) (sent w) (said w ++ [(h, load_bytes (mem w) (fst (piece_str s)) (Z.to_nat (snd (piece_str s))))])).
Proof.
  intros Hi Hd. pose proof (doing_inv w h (Printing (pieces :: nested)) Hi I) as [Hok Hse Hwf Hsa Ho];
    [by rewrite Hd|]. constructor; [done|by destruct s|done| |done].
  cbn [host said] in *. rewrite fmap_app, concat_app, <- Hsa. destruct s; cbn; by rewrite app_nil_r.
Qed.

Lemma log_step_inv w w' : log_inv bufs w → log_step bufs to_slice w w' → log_inv bufs w'.
Proof.
  intros Hi Hs. destruct Hs as [h e used nested w Hd He Hu|h e nested w Hd He Hu|h e used b todo nested w Hd
    |h e used nested w Hd|h pieces nested w Hd|h s pieces nested w Hd|h nested w Hd|m w Hm].
  - rewrite (to_slice_wire e 32 He) in Hu. case_decide; [|done]. simplify_eq.
    destruct Hi as [Hok Hse Hwf Hsa Ho]. constructor; cbn [mem host doing issued sent said]; try done.
    + intros g. rewrite ph_get_set. case_decide; [done|apply Hok].
    + intros g. rewrite ph_get_set, of_hart_snoc, Ho. case_decide; [subst g|by rewrite app_nil_r].
      rewrite Hd. by rewrite <- app_assoc.
  - rewrite (to_slice_wire e 32 He), decide_True in Hu by (pose proof (wire_length e); lia). done.
  - by apply byte_inv.
  - by apply call_inv.
  - apply doing_inv; [done|done|by rewrite Hd].
  - by apply piece_inv.
  - apply doing_inv; [done|done|by rewrite Hd].
  - destruct Hi as [Hok Hse Hwf Hsa Ho]. constructor; cbn [mem host doing issued sent said]; try done.
    intros g. eapply encoding_frame; [|apply Hok]. intros i Hi. apply Hm, buf_inside. lia.
Qed.

(** The broker has read whole records: those of the events it has decoded. *)
Definition follows (w : World) (t : Tail) (es : list TraceEvent) : Prop :=
  ∃ new, snd <$> sent w = es ++ new ∧ caught_up (concat (wire <$> es)) t.

Lemma step_sent w w' : log_step bufs to_slice w w' → ∃ l, sent w' = sent w ++ l.
Proof. destruct 1; cbn [sent]; first [by exists []; rewrite app_nil_r|by eexists]. Qed.

Lemma poll_follows w t es :
  log_inv bufs w → follows w t es → (length (telemetry_bin (host w)) ≤ f_tell t + 4096)%nat →
  es ++ fst (poll (telemetry_bin (host w)) t) = snd <$> sent w ∧
  follows w (snd (poll (telemetry_bin (host w)) t)) (es ++ fst (poll (telemetry_bin (host w)) t)).
Proof.
  intros [_ Hse Hwf _ _] (new & Hs & Hc) Hl. rewrite Hs in Hwf, Hse. apply Forall_app in Hwf as [_ Hnew].
  rewrite fmap_app, concat_app in Hse. rewrite Hse in *. pose proof Hc as [Ht _].
  rewrite length_app, Ht in Hl.
  destruct (poll_caught_up (concat (wire <$> es)) new t Hc Hnew) as [H1 H2]; [change (map wire new) with (wire <$> new); lia|].
  change (map wire new) with (wire <$> new) in H1, H2. rewrite H1, Hs. split; [done|].
  exists []. split; [by rewrite Hs, app_nil_r|]. by rewrite fmap_app, concat_app.
Qed.

Lemma logged_inv w t es : logged bufs to_slice w t es → log_inv bufs w ∧ follows w t es.
Proof.
  induction 1 as [m|w w' t es _ [IH IHf] Hs|w t es _ [IH IHf] Hl].
  - split; [constructor; cbn; [|done|constructor|done|]; by intros []|]. by exists [].
  - split; [by eapply log_step_inv|]. destruct IHf as (new & Hn & Hc).
    destruct (step_sent w w' Hs) as [l Hl]. exists (new ++ (snd <$> l)). split; [|done].
    by rewrite Hl, fmap_app, Hn, app_assoc.
  - split; [done|]. by apply poll_follows.
Qed.
End log_inv.

(** ** Properties *)

(** C30. Records are not torn.  With any encoder that follows postcard's format,
    however the two harts interleave the bytes they encode, their calls and their
    printing, traps that log or print in the middle of a print included: the trace file
    is the concatenation of whole records; each hart's events arrive in the order
    it logged them, none lost but the one in flight; and the console holds whole
    pieces, none of which went to the trace file.  The broker polls the file
    meanwhile, and as long as it finds at most the 4096 bytes of one read each time, it
    has decoded a prefix of the events sent, and its next round makes it all of them. *)
Theorem telemetry_untorn bufs to_slice w t es :
  Postcard to_slice → logged bufs to_slice w t es →
  telemetry_bin (host w) = concat (wire <$> (snd <$> sent w)) ∧
  (∃ new, snd <$> sent w = es ++ new) ∧
  ((length (telemetry_bin (host w)) ≤ f_tell t + 4096)%nat →
   es ++ fst (poll (telemetry_bin (host w)) t) = snd <$> sent w) ∧
  (∀ h, of_hart h (issued w) = of_hart h (sent w) ++ in_flight (ph_get h (doing w))) ∧
  console (host w) = concat (snd <$> said w).
Proof.
  intros HP Hl. destruct (logged_inv bufs to_slice HP w t es Hl) as [Hi Hf].
  split_and!; try apply Hi; [by destruct Hf as (new & Hn & _); exists new|].
  intros Hle. by apply (poll_follows bufs w t es Hi Hf).
Qed.

(** ** Runs *)

Inductive lact :=
  | LStart (h : hart) (e : TraceEvent)
  | LPrint (h : hart) (pieces : list piece)
  | LGo (h : hart)
  | LPoll.

Local Abbreviation run_state := (World * Tail * list TraceEvent)%type.

(** [LGo h]: the next access of hart [h], in a memory with [BUFS] at 0. *)
Definition lact_go (h : hart) (w : World) : option World :=
  match ph_get h (doing w) with
  | Encoding e used (b :: todo) nested =>
      Some (mkWorld (store8 (mem w) (buf_of 0 h + Z.of_nat (length used)) b) (host w)
        (ph_set h (Encoding e (used ++ [b]) todo nested) (doing w)) (issued w) (sent w) (said w))
  | Encoding e used [] nested =>
      Some (mkWorld (mem w)
        (snd (SEGGER_RTT_WriteNoLock (mem w) 1 (buf_of 0 h) (Z.of_nat (length used)) (host w)))
        (ph_set h (Printing nested) (doing w)) (issued w) (sent w ++ [(h, e)]) (said w))
  | Printing ((s :: pieces) :: nested) =>
      Some (mkWorld (mem w) (write_piece (mem w) s (host w)) (ph_set h (Printing (pieces :: nested)) (doing w))
        (issued w) (sent w) (said w ++ [(h, load_bytes (mem w) (fst (piece_str s)) (Z.to_nat (snd (piece_str s))))]))
  | Printing ([] :: nested) =>
      Some (mkWorld (mem w) (host w) (ph_set h (Printing nested) (doing w)) (issued w) (sent w) (said w))
  | Printing [] => None
  end.

Definition lact_step (a : lact) (s : run_state) : option run_state :=
  let '(w, t, es) := s in
  match a with
  | LStart h e =>
      match ph_get h (doing w), reference_to_slice e 32 with
      | Printing nested, Some used =>
          Some (mkWorld (mem w) (host w) (ph_set h (Encoding e [] used nested) (doing w))
                  (issued w ++ [(h, e)]) (sent w) (said w), t, es)
      | _, _ => None
      end
  | LPrint h pieces =>
      match ph_get h (doing w) with
      | Printing nested =>
          Some (mkWorld (mem w) (host w) (ph_set h (Printing (pieces :: nested)) (doing w))
                  (issued w) (sent w) (said w), t, es)
      | _ => None
      end
  | LGo h => (λ w', (w', t, es)) <$> lact_go h w
  | LPoll =>
      if bool_decide (length (telemetry_bin (host w)) ≤ f_tell t + 4096)%nat
      then let r := poll (telemetry_bin (host w)) t in Some (w, snd r, es ++ fst r) else None
  end.

Fixpoint lact_run (l : list lact) (s : run_state) : option run_state :=
  match l with
  | [] => Some s
  | a :: l => match lact_step a s with Some s' => lact_run l s' | None => None end
  end.

Definition lact_wf (a : lact) : Prop := match a with LStart _ e => event_wf e | _ => True end.

Definition logged_state (s : run_state) : Prop :=
  let '(w, t, es) := s in logged 0 reference_to_slice w t es.

Lemma lact_go_sound h w w' : lact_go h w = Some w' → log_step 0 reference_to_slice w w'.
Proof.
  unfold lact_go.
  destruct (ph_get h (doing w)) as [e used [|b todo] nested|[|[|s pieces] nested]] eqn:Hd; [..|done| |]; intros [= <-].
  - by apply ls_call.
  - by apply ls_byte.
  - by apply ls_printed.
  - by apply ls_piece.
Qed.

Lemma lact_step_sound a s s' :
  lact_wf a → logged_state s → lact_step a s = Some s' → logged_state s'.
Proof.
  destruct s as [[w t] es]. intros Hw Hs. destruct a as [h e|h pieces|h|]; cbn [lact_wf lact_step] in *.
  - destruct (ph_get h (doing w)) as [|nested] eqn:Hd; [done|].
    destruct (reference_to_slice e 32) eqn:Hu; [|done]. intros [= <-]. eapply lg_next; [done|]. by eapply ls_start.
  - destruct (ph_get h (doing w)) as [|nested] eqn:Hd; [done|]. intros [= <-]. eapply lg_next; [done|].
    by apply ls_print.
  - destruct (lact_go h w) as [w1|] eqn:Hg; [|done]. intros [= <-]. eapply lg_next; [done|]. by apply (lact_go_sound h).
  - case_bool_decide; [|done]. intros [= <-]. by apply lg_poll.
Qed.

Lemma lact_run_sound l s s' :
  Forall lact_wf l → logged_state s → lact_run l s = Some s' → logged_state s'.
Proof.
  intros Hl. revert s. induction Hl as [|a l Ha _ IH]; intros s Hs; cbn [lact_run]; [by intros [= <-]|].
  destruct (lact_step a s) as [s1|] eqn:He; [|done]. apply IH. by apply (lact_step_sound a s).
Qed.

Definition from_start (m : Mem) : run_state := (quiet_world m, mkTail 0 (mkBytesIO [] 0), []).

(** Hart 0 is in the middle of a print when it traps; the two harts log a switch and a
    fault at the same time, byte by byte in turn.  The broker polls before hart 0's
    record is out, and once more. *)
Definition both_log : list lact :=
  [LPrint H0 [KernelPiece (64, 1)]; LStart H0 (TaskSwap 1 2 12345);
   LStart H1 (FaultInterception 7 0x42000010)] ++
  concat (replicate 5 [LGo H0; LGo H1]) ++ replicate 3 (LGo H1) ++ [LPoll; LGo H0; LGo H0].

Definition both_logged : run_state := default (from_start ∅) (lact_run both_log (from_start ∅)).

Lemma telemetry_untorn_witness :
  snd both_logged = [FaultInterception 7 0x42000010] ∧
  snd both_logged ++ fst (poll (telemetry_bin (host (fst (fst both_logged)))) (snd (fst both_logged))) =
    [FaultInterception 7 0x42000010; TaskSwap 1 2 12345].
Proof.
  assert (Hl : logged_state both_logged).
  { apply (lact_run_sound both_log (from_start ∅)); [|apply lg_start|vm_compute; reflexivity].
    repeat constructor; vm_compute; congruence. }
  assert (Hlen : (length (telemetry_bin (host (fst (fst both_logged)))) ≤ f_tell (snd (fst both_logged)) + 4096)%nat)
    by (apply (bool_decide_unpack _); vm_compute; exact I).
  assert (Hs : snd <$> sent (fst (fst both_logged)) = [FaultInterception 7 0x42000010; TaskSwap 1 2 12345])
    by (vm_compute; reflexivity).
  split; [vm_compute; reflexivity|]. rewrite <- Hs. destruct both_logged as [[w t] es].
  exact (proj1 (proj2 (proj2 (telemetry_untorn 0 reference_to_slice w t es reference_postcard Hl))) Hlen).
Defined.

(** Messages are not whole.  The hook's lock covers one call, and a print macro makes
    one call per piece: two harts that print a message of two pieces each ("a", "b"
    and "x", "y") can put "axby" on the console. *)
Lemma messages_interleave :
  ∃ w t es, logged 0 reference_to_slice w t es ∧ doing w = mkPerHart (Printing [[]]) (Printing [[]]) ∧
    console (host w) = [97; 120; 98; 121].
Proof.
  set (m := store_bytes ∅ 64 [97; 98; 120; 121]).
  set (l := [LPrint H0 [SecurityPiece (64, 1); SecurityPiece (65, 1)];
    LPrint H1 [KernelPiece (66, 1); KernelPiece (67, 1)]; LGo H0; LGo H1; LGo H0; LGo H1]).
  destruct (lact_run l (from_start m)) as [[[w t] es]|] eqn:Hr; [|vm_compute in Hr; discriminate].
  exists w, t, es. split.
  - apply (lact_run_sound l (from_start m) (w, t, es)); [by repeat constructor|apply lg_start|done].
  - vm_compute in Hr. injection Hr as <- _ _. split; reflexivity.
Qed.
