(* ===== verification/Handshake.v ===== *)
(** * Handshake: the boot of two harts

    Models how the two branches of [kmain] of kernel/src/main.rs run together:
    hart 1 spins on [BOOT_BARRIER], hart 0 on [CORE_1_READY].  Each hart is the
    list of the actions it has still to perform; any interleaving of the two is a
    run.  A failed verification leaves hart 0 in its [wfi] loop.  The sequential
    [kmain] of Boot is the reference. *)
From S2P Require Import Prelude Memory Tcb Bitmap Can Pmp Spinlock Telemetry Kernel.
From S2P Require Import Trap KernelInv TrapInv Security Boot.

(** ** The program of each hart *)

Inductive flag := BOOT_BARRIER | CORE_1_READY.

Definition set_flag (f : flag) (fl : flag → bool) : flag → bool :=
  λ g, match f, g with
       | BOOT_BARRIER, BOOT_BARRIER | CORE_1_READY, CORE_1_READY => true
       | _, _ => fl g
       end.

Inductive act :=
  | Do (m : K unit)         (* straight-line code *)
  | Check (ok : bool)       (* halt in [wfi] unless it holds *)
  | Store (f : flag)        (* [f.store(true)] *)
  | Spin (f : flag)         (* [while !f.load() {}] *)
  | Start (E : Env).        (* [start_first_task], which does not return *)

Record Booting := mkBooting {
  bk : Kernel;
  flags : flag → bool;
  todo : per_hart (list act);
  started_sp : per_hart (option Z)
}.

(** The end of the boot of hart 0: it lets hart 1 go and waits for it. *)
Definition release_core1 (E0 : Env) : list act := [Store BOOT_BARRIER; Spin CORE_1_READY; Start E0].

Definition kmain_hart0 (sha256 : list Z → list Z) (E0 : Env) (fn : Entries) : list act :=
  [Do (protect E0 H0); Check (verify_secure_boot sha256);
   Do (_ ← lift verify_network_and_security; mret tt);
   Do (register_tasks E0 fn); Do (init_timer E0 H0)] ++ release_core1 E0.

Definition kmain_hart1 (E1 : Env) : list act :=
  [Spin BOOT_BARRIER; Do (protect E1 H1); Do (init_timer E1 H1); Store CORE_1_READY; Start E1].

Definition power_on (sha256 : list Z → list Z) (E0 E1 : Env) (fn : Entries) (k : Kernel) : Booting :=
  mkBooting k (λ _, false) (mkPerHart (kmain_hart0 sha256 E0 fn) (kmain_hart1 E1))
    (mkPerHart None None).

Definition continue (h : hart) (l : list act) (k : Kernel) (s : Booting) : Booting :=
  mkBooting k (flags s) (ph_set h l (todo s)) (started_sp s).

(** One action of hart [h]. *)
Inductive boot_step (h : hart) (s : Booting) : Booting → Prop :=
  | boot_do m l k' :
      ph_get h (todo s) = Do m :: l → m (bk s) = Done (tt, k') → boot_step h s (continue h l k' s)
  | boot_check ok l :
      ph_get h (todo s) = Check ok :: l →
      boot_step h s (continue h (if ok then l else []) (bk s) s)
  | boot_store f l :
      ph_get h (todo s) = Store f :: l →
      boot_step h s (mkBooting (bk s) (set_flag f (flags s)) (ph_set h l (todo s)) (started_sp s))
  | boot_spin f l :
      ph_get h (todo s) = Spin f :: l →
      boot_step h s (if flags s f then continue h l (bk s) s else s)
  | boot_start E l sp k' :
      ph_get h (todo s) = Start E :: l → start_first_task E h (bk s) = Done (sp, k') →
      boot_step h s (mkBooting k' (flags s) (ph_set h [] (todo s))
                       (ph_set h (Some sp) (started_sp s))).

Inductive boot_run (s0 : Booting) : Booting → Prop :=
  | boot_init : boot_run s0 s0
  | boot_next h s s' : boot_run s0 s → boot_step h s s' → boot_run s0 s'.

Definition finished (s : Booting) : Prop := todo s = mkPerHart [] [].

(** Actions left on both harts. *)
Definition remaining (s : Booting) : nat := length (on0 (todo s)) + length (on1 (todo s)).

(** ** [start_first_task] works on its own hart *)

Definition start_local (L : Layout) (s : BitMapScheduler) (r : PmpRegs)
    : result (Z * BitMapScheduler * PmpRegs) :=
  match find (slot_ready (task_table s)) (seq 0 MAX_PARTITIONS) with
  | None => Panicked AssertFailed
  | Some first_idx =>
      d ← index (partition_durations s) first_idx;
      o ← index (task_table s) first_idx;
      t ← unwrap o;
      r' ← reprogram_pmp_stack L (name t) r;
      Done (saved_sp t, mkSched (alter (fmap (set_state Running)) first_idx (task_table s))
                          first_idx (partition_durations s) d, r')
  end.

Lemma start_first_task_local E h k :
  start_first_task E h k =
    match start_local (layout E) (sched_of h k) (ph_get h (pmp k)) with
    | Done (sp, s', r') =>
        Done (sp, set_pmp (ph_set h r' (pmp k)) (set_SCHEDULERS (ph_set h s' (SCHEDULERS k)) k))
    | Panicked p => Panicked p
    | Spinning => Spinning
    end.
Proof.
  unfold start_first_task, start_local, get_task, reprogram, put_sched, get_sched, kpanic.
  unfold mbind, K_bind, result_bind, gets, modify, lift, mret, K_ret, sched_of.
  set (s := ph_get h (SCHEDULERS k)). destruct (find _ _) as [i|]; [|done].
  destruct (index (partition_durations s) i) as [d| |]; [|done..]. cbv beta iota. fold s.
  destruct (index (task_table s) i) as [[t|]| |]; [|done..]. cbn [unwrap pmp set_SCHEDULERS].
  by destruct (reprogram_pmp_stack (layout E) (name t) (ph_get h (pmp k))).
Qed.

(** So the two first launches commute. *)
Lemma start_commute E0 E1 k sp0 sp1 k1 k01 :
  start_first_task E1 H1 k = Done (sp1, k1) → start_first_task E0 H0 k1 = Done (sp0, k01) →
  ∃ k0, start_first_task E0 H0 k = Done (sp0, k0) ∧ start_first_task E1 H1 k0 = Done (sp1, k01).
Proof.
  intros Hs1 Hs0. rewrite start_first_task_local in Hs0, Hs1. rewrite start_first_task_local.
  destruct (start_local (layout E1) (sched_of H1 k) _) as [[[sp1' s1] r1]| |] eqn:L1; [|done..].
  injection Hs1 as <- <-. unfold sched_of in *.
  cbn [ph_get ph_set on0 on1 SCHEDULERS pmp set_pmp set_SCHEDULERS] in *.
  destruct (start_local (layout E0) (on0 (SCHEDULERS k)) _) as [[[sp0' s0] r0]| |]; [|done..].
  injection Hs0 as <- <-. eexists. split; [reflexivity|]. rewrite start_first_task_local.
  unfold sched_of. cbn [ph_get ph_set on0 on1 SCHEDULERS pmp set_pmp set_SCHEDULERS].
  by rewrite L1.
Qed.

(** ** Enabled actions *)

Definition enabled (h : hart) (s : Booting) (a : act) : Prop :=
  match a with
  | Do m => ∃ k', m (bk s) = Done (tt, k')
  | Check _ | Store _ => True
  | Spin f => flags s f = true
  | Start E => ∃ sp k', start_first_task E h (bk s) = Done (sp, k')
  end.

Lemma enabled_step h s a l :
  ph_get h (todo s) = a :: l → enabled h s a →
  ∃ s', boot_step h s s' ∧ (remaining s' < remaining s)%nat.
Proof.
  intros Ht He.
  assert (Hlt : ∀ s' l', todo s' = ph_set h l' (todo s) → (length l' ≤ length l)%nat →
    (remaining s' < remaining s)%nat).
  { intros s' l' Hs' Hl. unfold remaining. rewrite Hs'. destruct (todo s) as [t0 t1].
    destruct h; cbn [ph_get ph_set on0 on1] in *; subst; cbn [length]; lia. }
  destruct a as [m|ok|f|f|E]; cbn [enabled] in He.
  - destruct He as [k' Hk]. eexists. split; [by eapply boot_do|]. by eapply Hlt.
  - eexists. split; [by eapply boot_check|]. eapply Hlt; [done|]. destruct ok; cbn; lia.
  - eexists. split; [by eapply boot_store|]. by eapply Hlt.
  - eexists. split; [by eapply boot_spin|]. rewrite He. by eapply Hlt.
  - destruct He as (sp & k' & Hk). eexists. split; [by eapply boot_start|].
    eapply Hlt; [done|]. cbn. lia.
Qed.

(** ** The runs of a boot that passes verification *)

#[local] Opaque protect register_tasks init_timer start_first_task verify_network_and_security.

Section runs.
Context (sha256 : list Z → list Z) (E0 E1 : Env) (fn : Entries) (k0 : Kernel).
Hypothesis verified : verify_secure_boot sha256 = true.

(** The states of the sequential boot. *)
Context (k1 k2 k3 k4 k5 k6 k70 k71 k8 : Kernel) (n : Z * Z * option CanFrame) (sp0 sp1 : Z).
Hypothesis s1 : protect E0 H0 k0 = Done (tt, k1).
Hypothesis s2 : verify_network_and_security = Done n.
Hypothesis s3 : register_tasks E0 fn k1 = Done (tt, k3).
Hypothesis s4 : init_timer E0 H0 k3 = Done (tt, k4).
Hypothesis s5 : protect E1 H1 k4 = Done (tt, k5).
Hypothesis s6 : init_timer E1 H1 k5 = Done (tt, k6).
Hypothesis s70 : start_first_task E0 H0 k6 = Done (sp0, k70).
Hypothesis s71 : start_first_task E1 H1 k6 = Done (sp1, k71).
Hypothesis s80 : start_first_task E0 H0 k71 = Done (sp0, k8).
Hypothesis s81 : start_first_task E1 H1 k70 = Done (sp1, k8).

(** Where a run can be: how many actions each hart has done, and the state. *)
Inductive stage : nat → nat → Kernel → option Z → option Z → Prop :=
  | st0 : stage 0 0 k0 None None
  | st1 : stage 1 0 k1 None None
  | st2 : stage 2 0 k1 None None
  | st3 : stage 3 0 k1 None None
  | st4 : stage 4 0 k3 None None
  | st5 : stage 5 0 k4 None None
  | st6 : stage 6 0 k4 None None
  | st6' : stage 6 1 k4 None None
  | st7 : stage 6 2 k5 None None
  | st8 : stage 6 3 k6 None None
  | st9 : stage 6 4 k6 None None
  | st9' : stage 7 4 k6 None None
  | st10 : stage 6 5 k71 None (Some sp1)
  | st10' : stage 7 5 k71 None (Some sp1)
  | st11 : stage 8 4 k70 (Some sp0) None
  | st12 : stage 8 5 k8 (Some sp0) (Some sp1).

Definition at_stage (s : Booting) : Prop :=
  ∃ a b o0 o1, stage a b (bk s) o0 o1 ∧
    todo s = mkPerHart (drop a (kmain_hart0 sha256 E0 fn)) (drop b (kmain_hart1 E1)) ∧
    started_sp s = mkPerHart o0 o1 ∧
    flags s BOOT_BARRIER = (6 <=? a)%nat ∧ flags s CORE_1_READY = (4 <=? b)%nat.

Ltac boot_cbn := cbn [drop app release_core1 kmain_hart0 kmain_hart1 ph_get ph_set on0 on1 bk flags todo started_sp
  continue set_flag Nat.leb].
Ltac stage_at a b :=
  exists a, b; do 2 eexists;
  split_and!; boot_cbn; [econstructor|rewrite ?verified; reflexivity|reflexivity|done|done].
Ltac stage_next :=
  match goal with
  | Hf1 : _ BOOT_BARRIER = (6 <=? ?a)%nat, Hf2 : _ CORE_1_READY = (4 <=? ?b)%nat |- _ =>
      rewrite ?Hf1, ?Hf2; boot_cbn; cbn [Nat.leb] in Hf1, Hf2;
      first [stage_at (S a) b | stage_at a (S b) | stage_at a b]
  end.

Lemma stage_step h s s' : at_stage s → boot_step h s s' → at_stage s'.
Proof.
  intros (a & b & o0 & o1 & Hst & Htd & Hsp & Hf1 & Hf2) Hs.
  destruct s as [k fl td ss]. cbn [bk todo started_sp flags] in Hst, Htd, Hsp, Hf1, Hf2. subst td ss.
  destruct Hst; destruct h; inversion Hs as [m l k' Ht Hm|ok l Ht|f l Ht|f l Ht|E l sp k' Ht Hm]; subst s';
    cbn [drop app release_core1 kmain_hart0 kmain_hart1 ph_get on0 on1 todo] in Ht; try discriminate Ht;
    injection Ht as ??; subst; clear Hs; cbn [bk flags] in *.
  all: try (first [rewrite s1 in Hm|rewrite s3 in Hm|rewrite s4 in Hm|rewrite s5 in Hm|rewrite s6 in Hm
    |rewrite s70 in Hm|rewrite s71 in Hm|rewrite s80 in Hm|rewrite s81 in Hm
    |unfold mbind, K_bind, lift in Hm; rewrite s2 in Hm]; injection Hm; intros; subst; clear Hm).
  all: stage_next.
Qed.

Lemma stage_run s : boot_run (power_on sha256 E0 E1 fn k0) s → at_stage s.
Proof.
  induction 1 as [|h s s' _ IH Hs]; [|by eapply stage_step].
  exists 0%nat, 0%nat, None, None. split_and!; try done. constructor.
Qed.

(** While a run is not finished, some hart can do something other than spin. *)
Lemma stage_progress s :
  at_stage s → ¬ finished s → ∃ h s', boot_step h s s' ∧ (remaining s' < remaining s)%nat.
Proof.
  intros (a & b & o0 & o1 & Hst & Htd & Hsp & Hf1 & Hf2) Hn.
  destruct s as [k fl td ss]. cbn [bk todo started_sp flags] in Hst, Htd, Hsp, Hf1, Hf2. subst td ss.
  destruct Hst;
    [exists H0|exists H0|exists H0|exists H0|exists H0|exists H0|exists H1|exists H1|exists H1|exists H1
    |exists H1|exists H1|exists H0|exists H0|exists H1|by destruct Hn];
    (eapply enabled_step; [reflexivity|]); cbn [enabled bk flags]; eauto.
Qed.

Lemma stage_finished s :
  at_stage s → finished s → bk s = k8 ∧ started_sp s = mkPerHart (Some sp0) (Some sp1).
Proof.
  intros (a & b & o0 & o1 & Hst & Htd & Hsp & _) Hf. unfold finished in Hf. rewrite Htd in Hf.
  rewrite Hsp. destruct Hst; cbn [drop kmain_hart0 kmain_hart1] in Hf; try discriminate Hf. done.
Qed.
End runs.

#[local] Transparent protect register_tasks init_timer start_first_task verify_network_and_security.

Lemma bind_Done {A B} (m : K A) (f : A → K B) k b k'' :
  (m ≫= f) k = Done (b, k'') → ∃ a k', m k = Done (a, k') ∧ f a k' = Done (b, k'').
Proof. unfold mbind, K_bind. destruct (m k) as [[a k']| |]; [eauto|done|done]. Qed.

Lemma lift_Done {A} (r : result A) k a k' : lift r k = Done (a, k') → r = Done a ∧ k' = k.
Proof. unfold lift. destruct r; [by intros [= -> ->]|done|done]. Qed.

Lemma kmain_stages sha256 E0 E1 fn k0 sp0 sp1 k :
  verify_secure_boot sha256 = true → kmain sha256 E0 E1 fn k0 = Done (Some (sp0, sp1), k) →
  ∃ n k1 k3 k4 k5 k6 k71,
    verify_network_and_security = Done n ∧
    protect E0 H0 k0 = Done (tt, k1) ∧ register_tasks E0 fn k1 = Done (tt, k3) ∧
    init_timer E0 H0 k3 = Done (tt, k4) ∧ protect E1 H1 k4 = Done (tt, k5) ∧
    init_timer E1 H1 k5 = Done (tt, k6) ∧ start_first_task E1 H1 k6 = Done (sp1, k71) ∧
    start_first_task E0 H0 k71 = Done (sp0, k).
Proof.
  intros Hv Hk. unfold kmain in Hk. apply bind_Done in Hk as ([] & k1 & S1 & Hk). rewrite Hv in Hk.
  apply bind_Done in Hk as (n & k2 & S2 & Hk).
  apply lift_Done in S2 as [S2 ->].
  apply bind_Done in Hk as ([] & k3 & S3 & Hk). apply bind_Done in Hk as ([] & k4 & S4 & Hk).
  apply bind_Done in Hk as ([] & k5 & S5 & Hk). apply bind_Done in Hk as ([] & k6 & S6 & Hk).
  apply bind_Done in Hk as (sp1' & k71 & S71 & Hk). apply bind_Done in Hk as (sp0' & k8 & S80 & Hk).
  injection Hk as <- <- <-. exists n, k1, k3, k4, k5, k6, k71. split_and!; assumption.
Qed.

(** ** Properties *)

(** C12. The boot protocol is deterministic and does not deadlock.  When secure boot
    verification passes, every interleaving of the two harts' boot code behaves
    like the sequential [kmain]: as long as the boot is not finished some hart can
    do something other than spin, which leaves fewer actions to do, and when both
    harts have launched their first task the kernel state and the two stack
    pointers are those of the sequential boot. *)
Theorem boot_interleavings sha256 E0 E1 fn m i0 c0 p0 :
  verify_secure_boot sha256 = true → layout E0 = layout E1 →
  pmp_reset_ok (on0 p0) → pmp_reset_ok (on1 p0) →
  ∃ sp0 sp1 k, kmain sha256 E0 E1 fn (statics m i0 c0 p0) = Done (Some (sp0, sp1), k) ∧
    ∀ s, boot_run (power_on sha256 E0 E1 fn (statics m i0 c0 p0)) s →
      (finished s → bk s = k ∧ started_sp s = mkPerHart (Some sp0) (Some sp1)) ∧
      (¬ finished s → ∃ h s', boot_step h s s' ∧ (remaining s' < remaining s)%nat).
Proof.
  intros Hv HL Hr0 Hr1.
  destruct (wp_no_panic _ _ _ (kmain_wp sha256 E0 E1 fn m i0 c0 p0 Hv HL Hr0 Hr1))
    as (r & k & Hk & -> & _).
  destruct (kmain_stages _ _ _ _ _ _ _ _ Hv Hk)
    as (n & k1 & k3 & k4 & k5 & k6 & k71 & S2 & S1 & S3 & S4 & S5 & S6 & S71 & S80).
  destruct (start_commute _ _ _ _ _ _ _ S71 S80) as (k70 & S70 & S81).
  eexists _, _, k. split; [exact Hk|]. intros s Hs.
  pose proof (stage_run _ _ _ _ _ Hv _ _ _ _ _ _ _ _ _ _ _
    S1 S2 S3 S4 S5 S6 S70 S71 S80 S81 s Hs) as Hst. split.
  - intros Hf. by eapply stage_finished.
  - intros Hf. by eapply stage_progress.
Qed.

Lemma boot_interleavings_witness :
  ∃ sp0 sp1 k, kmain Fips180.sha256 sample_env sample_env sample_entries sample_reset
    = Done (Some (sp0, sp1), k) ∧
    ∃ h s', boot_step h (power_on Fips180.sha256 sample_env sample_env sample_entries sample_reset) s' ∧
      (remaining s' < 13)%nat.
Proof.
  destruct (boot_interleavings Fips180.sha256 sample_env sample_env sample_entries ∅
    (mkPerHart 0 0) (mkPerHart 0 0) (mkPerHart pmp_reset pmp_reset)) as (sp0 & sp1 & k & Hk & Hr).
  - exact sample_secure.
  - reflexivity.
  - exact pmp_reset_reset_ok.
  - exact pmp_reset_reset_ok.
  - exists sp0, sp1, k. split; [exact Hk|].
    destruct (Hr _ (boot_init _)) as [_ Hp]. apply Hp. discriminate.
Defined.

Lemma protect_others E h k k' :
  protect E h k = Done (tt, k') →
  SCHEDULERS k' = SCHEDULERS k ∧ MUTEXES k' = MUTEXES k ∧ ram k' = ram k ∧
  ph_get (other_hart h) (pmp k') = ph_get (other_hart h) (pmp k).
Proof.
  unfold protect. intros Hp. apply bind_Done in Hp as (r & k1 & [= <- <-] & Hp).
  apply bind_Done in Hp as (r' & k2 & Hl & Hp). unfold lift in Hl.
  destruct (init_memory_protection _ _); [|discriminate Hl..]. injection Hl as <- <-.
  injection Hp as <-. by destruct h.
Qed.

(** What a run with a failed verification can have done. *)
Definition held_back (sha256 : list Z → list Z) (E0 E1 : Env) (fn : Entries) (k0 : Kernel)
    (s : Booting) : Prop :=
  (on0 (todo s) = kmain_hart0 sha256 E0 fn ∨ on0 (todo s) = drop 1 (kmain_hart0 sha256 E0 fn) ∨
   on0 (todo s) = []) ∧
  on1 (todo s) = kmain_hart1 E1 ∧ flags s BOOT_BARRIER = false ∧
  started_sp s = mkPerHart None None ∧ SCHEDULERS (bk s) = SCHEDULERS k0 ∧
  MUTEXES (bk s) = MUTEXES k0 ∧ ram (bk s) = ram k0 ∧ on1 (pmp (bk s)) = on1 (pmp k0).

Lemma held_back_step sha256 E0 E1 fn k0 h s s' :
  verify_secure_boot sha256 = false → held_back sha256 E0 E1 fn k0 s → boot_step h s s' →
  held_back sha256 E0 E1 fn k0 s'.
Proof.
  intros Hv (H0' & H1' & Hf & Hsp & Hs & Hm & Hr & Hp) Hstep. destruct h.
  - destruct H0' as [H0'|[H0'|H0']]; destruct Hstep as [m l k' Ht Hk|ok l Ht|f l Ht|f l Ht|E l sp k' Ht Hk];
      cbn [ph_get] in Ht; rewrite H0' in Ht; cbn [kmain_hart0 drop] in Ht; try discriminate Ht;
      injection Ht as ??; subst.
    + apply protect_others in Hk as (E1' & E2' & E3' & E4'). cbn [other_hart ph_get] in E4'.
      unfold held_back. cbn. split_and!; [by right; left|done|done|done|congruence..].
    + rewrite Hv. unfold held_back. cbn. split_and!; [by right; right|done..].
  - destruct Hstep as [m l k' Ht Hk|ok l Ht|f l Ht|f l Ht|E l sp k' Ht Hk];
      cbn [ph_get] in Ht; rewrite H1' in Ht; cbn [kmain_hart1] in Ht; try discriminate Ht.
    injection Ht as ??; subst. rewrite Hf. unfold held_back. by split_and!.
Qed.

(** C13. Nothing runs after a failed verification.  If secure boot verification
    fails, then in every interleaving of the two harts no task is ever launched on
    either hart: hart 0 halts before it registers a task, the barrier stays closed,
    and hart 1 never gets past its first spin loop, so the task tables, the
    mutexes, the memory and hart 1's PMP are as they were at reset. *)
Theorem failed_boot_runs_nothing sha256 E0 E1 fn k0 s :
  verify_secure_boot sha256 = false → boot_run (power_on sha256 E0 E1 fn k0) s →
  started_sp s = mkPerHart None None ∧ flags s BOOT_BARRIER = false ∧
  SCHEDULERS (bk s) = SCHEDULERS k0 ∧ MUTEXES (bk s) = MUTEXES k0 ∧ ram (bk s) = ram k0 ∧
  on1 (pmp (bk s)) = on1 (pmp k0).
Proof.
  intros Hv Hr. assert (Hb : held_back sha256 E0 E1 fn k0 s).
  { induction Hr as [|h s s' _ IH Hs]; [|by eapply held_back_step].
    unfold held_back. cbn. split_and!; auto. }
  destruct Hb as (_ & _ & ? & ? & ? & ? & ? & ?). by split_and!.
Qed.

(** A hash that never matches: hart 0 sets up its protection, hart 1 spins, hart 0
    fails the verification and halts. *)
Definition no_hash : list Z → list Z := λ _, [].
Definition off : Booting := power_on no_hash sample_env sample_env sample_entries sample_reset.
Definition protected : Kernel :=
  match protect sample_env H0 sample_reset with Done (_, k) => k | _ => sample_reset end.
Definition guarded : Booting :=
  continue H0 (List.tl (kmain_hart0 no_hash sample_env sample_entries)) protected off.
Definition halted : Booting :=
  continue H0 (if verify_secure_boot no_hash then drop 2 (kmain_hart0 no_hash sample_env sample_entries) else [])
    (bk guarded) guarded.

Lemma halted_run : boot_run off halted.
Proof.
  apply (boot_next _ H0 guarded); [|by apply boot_check].
  apply (boot_next _ H1 guarded); [|exact (boot_spin H1 guarded BOOT_BARRIER (List.tl (kmain_hart1 sample_env)) eq_refl)].
  apply (boot_next _ H0 off); [apply boot_init|]. apply (boot_do H0 off (protect sample_env H0)); [done|].
  vm_compute. reflexivity.
Qed.

Lemma failed_boot_runs_nothing_witness :
  on0 (todo halted) = [] ∧ started_sp halted = mkPerHart None None ∧ flags halted BOOT_BARRIER = false.
Proof.
  split; [vm_compute; reflexivity|].
  destruct (failed_boot_runs_nothing no_hash sample_env sample_env sample_entries sample_reset halted)
    as (H1 & H2 & _).
  - vm_compute. reflexivity.
  - exact halted_run.
  - split; [exact H1|exact H2].
Defined.
