(* ===== verification/Dashboard.v ===== *)
(** * Dashboard: metrics, the boot self-test's counters and the loggers

    Models kernel/src/kernel/metrics.rs, the metric updates of
    [verify_network_and_security], the [HexSlice] formatter and the [acquire] and
    [release] of the global logger of kernel/src/main.rs.  A printed line is its
    label and its number. *)
From S2P Require Import Prelude Memory Tcb Bitmap Can Pmp Spinlock Telemetry Kernel.
From S2P Require Import Trap KernelInv TrapInv Security Boot.
Open Scope string_scope.
Open Scope Z_scope.

(** ** The metrics that are not part of the trap handler's state *)

Record Metrics := mkMetrics {
  METRIC_SWITCH_CYCLES : Z;
  METRIC_FRAMES_RX : Z;
  METRIC_FRAMES_DROPPED : Z;
  METRIC_HMAC_FAILURES : Z;
  METRIC_CAN_PARSE_CYCLES : Z;
  METRIC_CAN_QUEUE_CYCLES : Z;
  METRIC_HMAC_VERIFY_CYCLES : Z
}.

Definition metrics_reset : Metrics := mkMetrics 0 0 0 0 0 0 0.

Definition dump_metrics (m : Metrics) (k : Kernel) : list (string * Z) :=
  [("Interrupt Latency", METRIC_TRAP_LATENCY_CYCLES k);
   ("Context Switch Cycles", METRIC_SWITCH_CYCLES m);
   ("CAN Frames Received", METRIC_FRAMES_RX m);
   ("CAN Frames Dropped", METRIC_FRAMES_DROPPED m);
   ("HMAC Auth Failures", METRIC_HMAC_FAILURES m);
   ("PMP Memory Violations", METRIC_PMP_VIOLATIONS k);
   ("CAN Parse Overhead", METRIC_CAN_PARSE_CYCLES m);
   ("SPSC Queue Overhead", METRIC_CAN_QUEUE_CYCLES m);
   ("HMAC Verify Overhead", METRIC_HMAC_VERIFY_CYCLES m)].

(** [verify_network_and_security] with its metrics, on the raw frame [raw]; the
    cycle counter reads [p0], [p1] around the parser and [q0], [q1] around the
    queue.  Returns the frame that came back out of the queue. *)
Definition self_test (raw : list Z) (p0 p1 q0 q1 : Z) (m : Metrics)
    : result (Metrics * option CanFrame) :=
  let m := mkMetrics (METRIC_SWITCH_CYCLES m) (METRIC_FRAMES_RX m) (METRIC_FRAMES_DROPPED m)
             (METRIC_HMAC_FAILURES m) (wrapping_sub p1 p0) (METRIC_CAN_QUEUE_CYCLES m)
             (METRIC_HMAC_VERIFY_CYCLES m) in
  match parse raw with
  | inl frame =>
      let '(pushed, queue) := push ring_new frame in
      ok ← pushed;
      popped ← match ok with inl _ => fst (pop queue) | inr _ => Done None end;
      Done (mkMetrics (METRIC_SWITCH_CYCLES m) (wrapping_add (METRIC_FRAMES_RX m) 1)
              (METRIC_FRAMES_DROPPED m) (METRIC_HMAC_FAILURES m) (METRIC_CAN_PARSE_CYCLES m)
              (wrapping_sub q1 q0) (METRIC_HMAC_VERIFY_CYCLES m), popped)
  | inr (BlockedId _) =>
      Done (mkMetrics (METRIC_SWITCH_CYCLES m) (METRIC_FRAMES_RX m)
              (wrapping_add (METRIC_FRAMES_DROPPED m) 1) (METRIC_HMAC_FAILURES m)
              (METRIC_CAN_PARSE_CYCLES m) (METRIC_CAN_QUEUE_CYCLES m)
              (METRIC_HMAC_VERIFY_CYCLES m), None)
  | inr _ => Done (m, None)
  end.

(** The frame the self-test simulates. *)
Definition self_test_frame : list Z := [0x3E; 0x00; 4; 0xAA; 0xBB; 0xCC; 0xDD; 0; 0; 0; 0; 0; 0].

(** ** [HexSlice] *)

Definition hex_digit (n : Z) : Ascii.ascii :=
  Ascii.ascii_of_nat (Z.to_nat (if n <? 10 then 48 + n else 55 + n)).

(** [write!(f, "{:02X}", byte)] for every byte. *)
Fixpoint hex_slice (bytes : list Z) : list Ascii.ascii :=
  match bytes with
  | [] => []
  | b :: bytes => hex_digit (b / 16) :: hex_digit (b mod 16) :: hex_slice bytes
  end.

(** ** The global logger *)

(** [LOG_LOCK] and which hart is between [acquire] and [release]. *)
Record Logger := mkLogger { LOG_LOCK : bool; writing : per_hart bool }.

(** The result of the compare-exchange is dropped, so [acquire] always returns. *)
Definition acquire (h : hart) (l : Logger) : Logger := mkLogger true (ph_set h true (writing l)).
Definition release (h : hart) (l : Logger) : Logger := mkLogger false (ph_set h false (writing l)).

(** ** Properties *)

(** A hexadecimal digit, read back. *)
Definition hex_value (c : Ascii.ascii) : Z :=
  let n := Z.of_nat (Ascii.nat_of_ascii c) in if n <? 58 then n - 48 else n - 55.

Fixpoint unhex (s : list Ascii.ascii) : list Z :=
  match s with
  | hi :: lo :: s => (hex_value hi * 16 + hex_value lo) :: unhex s
  | _ => []
  end.

Lemma hex_digit_value n : 0 ≤ n < 16 → hex_value (hex_digit n) = n.
Proof.
  intros Hn. assert (H : forallb (λ i, hex_value (hex_digit (Z.of_nat i)) =? Z.of_nat i) (seq 0 16) = true)
    by (vm_compute; reflexivity).
  rewrite forallb_forall in H. specialize (H (Z.to_nat n) ltac:(apply in_seq; lia)).
  rewrite Z2Nat.id in H by lia. by apply Z.eqb_eq.
Qed.

(** The printed payload determines its bytes: two digits each, most significant
    first. *)
Lemma hex_slice_unhex bytes :
  Forall (λ b, 0 ≤ b < 256) bytes →
  unhex (hex_slice bytes) = bytes ∧ length (hex_slice bytes) = (2 * length bytes)%nat.
Proof.
  induction 1 as [|b bytes Hb _ [IH1 IH2]]; [done|]. cbn [hex_slice unhex length].
  rewrite !hex_digit_value by (Z.div_mod_to_equations; lia). rewrite IH1, IH2. split; [|lia].
  f_equal. Z.div_mod_to_equations. lia.
Qed.

(** The boot self-test and the dashboard.  Whatever the cycle counter reads, the
    self-test parses its frame and gets it back from the queue, as the boot
    sequence's own check does; afterwards the dashboard shows one frame received
    and none dropped, the two measured overheads modulo 2^32, the latency and the
    violations of the kernel state, and zero on the three lines (context switch
    cycles, HMAC failures, HMAC overhead) whose counters no code ever writes. *)
Lemma self_test_dashboard p0 p1 q0 q1 k :
  ∃ m frame, self_test self_test_frame p0 p1 q0 q1 metrics_reset = Done (m, Some frame) ∧
    verify_network_and_security = Done (1, 0, Some frame) ∧
    parse self_test_frame = inl frame ∧
    map snd (dump_metrics m k) =
      [METRIC_TRAP_LATENCY_CYCLES k; 0; 1; 0; 0; METRIC_PMP_VIOLATIONS k;
       wrapping_sub p1 p0; wrapping_sub q1 q0; 0].
Proof. do 2 eexists. split_and!; reflexivity. Qed.

(** The logger does not exclude.  [acquire] ignores the result of its
    compare-exchange, so a hart enters the log's critical section while the other
    is still in it, and the first [release] opens the lock under the second. *)
Lemma logger_does_not_exclude l :
  let l1 := acquire H1 (acquire H0 l) in
  writing l1 = mkPerHart true true ∧
  let l2 := release H0 l1 in ph_get H1 (writing l2) = true ∧ LOG_LOCK l2 = false.
Proof. by destruct l as [lk [w0 w1]]. Qed.
