(* ===== verification/Tests.v ===== *)
(** * Tests: the repository's unit tests and its Kani harness

    Transcribes the test modules of scheduler/src/bitmap.rs, scheduler/src/tcb.rs,
    network/src/can.rs, security/src/bootloader.rs and telemetry/src/lib.rs, and
    the Kani proof harness of bitmap.rs, as computations on the model: [Done tt]
    when every assertion holds, a panic where one fails.  What a test leaves open
    (the address of a local buffer, the address of a function, the harness's
    symbolic values) is an argument. *)
From S2P Require Import Prelude Memory Tcb Bitmap Can Pmp Spinlock Telemetry Broker.
From S2P Require Import Kernel Trap KernelInv Security Boot.

(** [assert!] and [assert_eq!]. *)
Definition assert (b : bool) : result unit := if b then Done tt else Panicked AssertFailed.
Definition assert_eq {A} `{EqDecision A} (x y : A) : result unit := assert (bool_decide (x = y)).

Definition is_some {A} (o : option A) : bool := match o with Some _ => true | None => false end.

(** ** scheduler/src/bitmap.rs *)
Module SchedulerTests.

Definition tcb (priority : Z) (st : TaskState) : TaskControlBlock :=
  mkTcb 0 priority priority st "test" (replicate 8 CapNone).

Definition state_at (s : BitMapScheduler) (i : nat) : result TaskState :=
  o ← index (task_table s) i; t ← unwrap o; Done (state t).

Definition schedule_stays_on_current_task_while_slice_remains : result unit :=
  sched ← register_task new (tcb 0 Running);
  r ← schedule (set_remaining 5 sched) true;
  _ ← assert (negb (is_some (fst r)));
  assert_eq (current_partition_idx (snd r)) 0%nat.

Definition schedule_switches_to_next_ready_task_when_slice_expires : result unit :=
  sched ← register_task new (tcb 0 Running);
  sched ← register_task sched (tcb 1 Ready);
  r ← schedule (set_remaining 1 sched) true;
  _ ← assert (is_some (fst r));
  _ ← assert_eq (current_partition_idx (snd r)) 1%nat;
  st1 ← state_at (snd r) 1;
  _ ← assert_eq st1 Running;
  st0 ← state_at (snd r) 0;
  assert_eq st0 Ready.

Definition schedule_forced_yield_switches_even_with_ticks_remaining : result unit :=
  sched ← register_task new (tcb 0 Running);
  sched ← register_task sched (tcb 1 Ready);
  r ← schedule (set_remaining 50 sched) false;
  _ ← assert (is_some (fst r));
  assert_eq (current_partition_idx (snd r)) 1%nat.

Definition schedule_falls_back_to_idle_partition_when_nothing_else_ready : result unit :=
  sched ← register_task new (tcb 0 (Blocked 10));
  sched ← register_task sched (tcb 31 Ready);
  r ← schedule (set_remaining 0 sched) true;
  _ ← assert (is_some (fst r));
  assert_eq (current_partition_idx (snd r)) 31%nat.

Definition schedule_returns_none_when_no_task_is_ready : result unit :=
  sched ← register_task new (tcb 0 (Blocked 10));
  r ← schedule (set_remaining 0 sched) true;
  assert (negb (is_some (fst r))).

(** The Kani harness.  [any_task_state b t m] is its [any_task_state] with the
    symbolic values [b], [t] and [m]; [choice i] says whether slot [i] is
    populated, and with which state and stack pointer. *)
Definition any_task_state (b wake_tick mutex_idx : Z) : TaskState :=
  let n := b mod 5 in
  if n =? 0 then Ready
  else if n =? 1 then Running
  else if n =? 2 then Blocked wake_tick
  else if n =? 3 then BlockedOnMutex mutex_idx
  else Terminated.

Record symbolic := mkSymbolic { sy_variant : Z; sy_wake : Z; sy_mutex : Z; sy_sp : Z }.

Definition symbolic_task (i : nat) (c : symbolic) : TaskControlBlock :=
  mkTcb (sy_sp c) (Z.of_nat i) (Z.of_nat i)
    (any_task_state (sy_variant c) (sy_wake c) (sy_mutex c)) "Symbolic Task" (replicate 8 CapNone).

Definition populate (choice : nat → option symbolic) : list (option TaskControlBlock) :=
  map (λ i, symbolic_task i <$> choice i) (seq 0 MAX_PARTITIONS).

Definition has_ready_task (tbl : list (option TaskControlBlock)) (cur : nat) : bool :=
  existsb (λ i, match slot tbl i with
                | Some t => bool_decide (state t = Ready)
                            || Nat.eqb i cur && bool_decide (state t = Running)
                | None => false
                end) (seq 0 MAX_PARTITIONS).

(** [None] when an assumption of the harness fails. *)
Definition verify_scheduler_invariants (choice : nat → option symbolic) (is_tick : bool)
    (idx : nat) (remaining : Z) : option (result unit) :=
  let tbl := populate choice in
  let cur := (idx mod MAX_PARTITIONS)%nat in
  if is_some (slot tbl cur) && (remaining <=? 100) then
    let sched := mkSched tbl cur (partition_durations new) remaining in
    Some (
      r ← schedule sched is_tick;
      match fst r with
      | Some _ => st ← state_at (snd r) (current_partition_idx (snd r)); assert_eq st Running
      | None =>
          if has_ready_task tbl cur then
            st ← state_at (snd r) cur;
            assert (bool_decide (st = Running) || bool_decide (st = Ready))
          else Done tt
      end)
  else None.
End SchedulerTests.

(** ** benchmarks/src/lib.rs *)
Module BenchmarkSetup.

Definition mock_task (i : nat) : TaskControlBlock :=
  mkTcb (0x1000 + Z.of_nat i * 0x100) (u8 (Z.of_nat i)) (u8 (Z.of_nat i)) Ready "Mock Task"
    (replicate 8 CapNone).

Definition setup_benchmark_scheduler (num_tasks : nat) : result BitMapScheduler :=
  foldl (λ sched i, s ← sched; register_task s (mock_task i)) (Done new) (seq 0 num_tasks).
End BenchmarkSetup.

(** ** scheduler/src/tcb.rs *)
Module TcbTests.

Definition initialize_stack_returns_16_byte_aligned_sp (stack dummy_entry : Z) (m : Mem) : result unit :=
  let '(sp, _) := initialize_stack m stack 256 dummy_entry in
  assert_eq (sp mod 16) 0.

Definition initialize_stack_writes_entry_fn_as_mepc (stack dummy_entry : Z) (m : Mem) : result unit :=
  let '(sp, m) := initialize_stack m stack 512 dummy_entry in
  assert_eq (frame_read m sp 28) dummy_entry.

Definition initialize_stack_writes_u_mode_mstatus (stack dummy_entry : Z) (m : Mem) : result unit :=
  let '(sp, m) := initialize_stack m stack 512 dummy_entry in
  assert_eq (frame_read m sp 29) 0x80.
End TcbTests.

(** ** network/src/can.rs *)
Module CanTests.

Definition expect (r : CanFrame + CanError) : result CanFrame :=
  match r with inl f => Done f | inr _ => Panicked UnwrapNone end.

Definition parse_extracts_id_dlc_and_payload : result unit :=
  frame ← expect (parse (raw_frame 0x123 4 [0xAA; 0xBB; 0xCC; 0xDD]));
  _ ← assert_eq (id frame) 0x123;
  _ ← assert_eq (dlc frame) 4;
  assert_eq (take 4 (payload frame)) [0xAA; 0xBB; 0xCC; 0xDD].

Definition parse_rejects_blocked_diagnostic_ids : result unit :=
  assert (match parse (raw_frame 0x7DF 0 []) with inr (BlockedId i) => i =? 0x7DF | _ => false end).

Definition parse_rejects_dlc_over_eight : result unit :=
  let raw := <[2%nat := 9]> (raw_frame 0x100 0 []) in
  assert (match parse raw with inr (InvalidDlc d) => d =? 9 | _ => false end).

Definition empty_frame (i : Z) : CanFrame := mkFrame i 0 (replicate 8 0).

(** [ring.push(..).unwrap()] for each identifier. *)
Fixpoint push_all (ring : CanRingBuffer) (ids : list Z) : result CanRingBuffer :=
  match ids with
  | [] => Done ring
  | i :: ids =>
      let '(r, ring) := push ring (empty_frame i) in
      r ← r;
      match r with inl _ => push_all ring ids | inr _ => Panicked UnwrapNone end
  end.

Fixpoint pop_all (ring : CanRingBuffer) (ids : list Z) : result CanRingBuffer :=
  match ids with
  | [] => Done ring
  | i :: ids =>
      let '(r, ring) := pop ring in
      o ← r;
      f ← unwrap o;
      _ ← assert_eq (id f) i;
      pop_all ring ids
  end.

Definition ring_buffer_push_pop_preserves_order : result unit :=
  _ ← assert (is_empty ring_new);
  ring ← push_all ring_new [0; 1; 2; 3];
  ring ← pop_all ring [0; 1; 2; 3];
  assert (is_empty ring).

Definition ring_buffer_rejects_push_when_full : result unit :=
  ring ← push_all ring_new (map Z.of_nat (seq 0 (Z.to_nat (RING_CAPACITY - 1))));
  _ ← assert (is_full ring);
  overflow ← fst (push ring (empty_frame 999));
  assert (match overflow with inr BufferFull => true | _ => false end).
End CanTests.

(** ** security/src/bootloader.rs *)
Module BootloaderTests.
Section tests.
Context (sha256 : list Z → list Z).

Definition trusted_payload_hash_matches : result unit :=
  assert (sha256_matches sha256 TRUSTED_PAYLOAD).
Definition single_byte_tamper_is_detected : result unit :=
  assert (negb (sha256_matches sha256 (tamper 0 1 TRUSTED_PAYLOAD))).
Definition verify_secure_boot_passes_on_untampered_payload : result unit :=
  assert (verify_secure_boot sha256).
Definition verify_tampered_secure_boot_rejects_the_mutated_copy : result unit :=
  assert (negb (verify_tampered_secure_boot sha256)).
End tests.
End BootloaderTests.

(** ** telemetry/src/lib.rs *)
Module TelemetryTests.
Section tests.
Context (to_slice : TraceEvent → nat → option (list Z)) (from_bytes : list Z → option TraceEvent).

Definition round_trip (event : TraceEvent) : result unit :=
  used ← unwrap (to_slice event 32);
  decoded ← unwrap (from_bytes used);
  assert_eq decoded event.

Definition task_swap_round_trips : result unit := round_trip (TaskSwap 1 2 12345).
Definition ipc_transfer_round_trips : result unit := round_trip (IpcTransfer 2 64).
Definition fault_interception_round_trips : result unit := round_trip (FaultInterception 6 0x20001234).
End tests.
End TelemetryTests.

(** ** Properties *)

Lemma state_at_slot s i t : slot (task_table s) i = Some t → SchedulerTests.state_at s i = Done (state t).
Proof. intros Ht. unfold SchedulerTests.state_at. by rewrite (index_slot _ _ _ Ht). Qed.

Lemma slot_populate choice i :
  (i < 32)%nat → slot (SchedulerTests.populate choice) i = SchedulerTests.symbolic_task i <$> choice i.
Proof.
  intros Hi. unfold SchedulerTests.populate, slot. rewrite list_lookup_fmap, lookup_seq_lt by done.
  done.
Qed.

Lemma has_ready_witness tbl cur :
  SchedulerTests.has_ready_task tbl cur = true →
  ∃ i t, slot tbl i = Some t ∧ (state t = Ready ∨ i = cur ∧ state t = Running).
Proof.
  unfold SchedulerTests.has_ready_task. intros (i & _ & Hi)%existsb_exists.
  destruct (slot tbl i) as [t|] eqn:E; [|done]. exists i, t. split; [done|].
  apply orb_true_iff in Hi as [Hi|Hi]; [left; by apply bool_decide_eq_true in Hi|].
  apply andb_true_iff in Hi as [H1 H2]. right. by apply Nat.eqb_eq in H1; apply bool_decide_eq_true in H2.
Qed.

(** C18. The Kani harness holds without bounds.  For every choice the harness leaves
    to the model checker (which of the 32 slots are populated, their states and
    stack pointers, the kind of call, the current partition and the remaining
    slice), whenever its assumptions hold, [schedule] returns and both assertions
    pass: after a swap the current partition is Running, and without a swap,
    although some task was ready, the current task is still runnable. *)
Theorem kani_harness_passes choice is_tick idx remaining :
  is_Some (choice (idx mod 32)%nat) → remaining ≤ 100 →
  SchedulerTests.verify_scheduler_invariants choice is_tick idx remaining = Some (Done tt).
Proof.
  intros [c Hc] Hr. unfold SchedulerTests.verify_scheduler_invariants, MAX_PARTITIONS.
  set (cur := (idx mod 32)%nat) in *. set (tbl := SchedulerTests.populate choice).
  assert (Hcur : (cur < 32)%nat) by (by apply Nat.mod_upper_bound).
  assert (Ht : slot tbl cur = Some (SchedulerTests.symbolic_task cur c))
    by (unfold tbl; by rewrite slot_populate, Hc).
  assert (Hle : (remaining <=? 100) = true) by (by apply Z.leb_le).
  rewrite Ht, Hle. cbn [is_some andb]. f_equal.
  set (s := mkSched tbl cur (partition_durations new) remaining).
  assert (Hsh : sched_shape s).
  { split; [by unfold s, tbl, SchedulerTests.populate; cbn; rewrite ?length_map|done|done|].
    change (is_Some (slot tbl cur)). by rewrite Ht. }
  pose proof (schedule_kani_invariants s is_tick Hsh) as Hk. unfold mbind at 1, result_bind.
  destruct (schedule s is_tick) as [[r s']| |]; [|done..]. cbn [returns fst snd] in Hk |- *.
  destruct r as [[old sp]|].
  - destruct Hk as (t & Ht' & Hst). rewrite (state_at_slot _ _ _ Ht'). cbn. by rewrite Hst.
  - destruct (SchedulerTests.has_ready_task tbl cur) eqn:Hready; [|done].
    apply has_ready_witness, Hk in Hready. apply slot_runnable_iff in Hready as (t & Ht' & Hst).
    rewrite (state_at_slot s' cur t Ht'). cbn.
    destruct Hst as [-> | ->]; done.
Qed.

Lemma kani_harness_passes_witness :
  SchedulerTests.verify_scheduler_invariants
    (λ i, if Nat.even i then Some (SchedulerTests.mkSymbolic (Z.of_nat i) 7 0 64) else None)
    true 38 0 = Some (Done tt).
Proof. apply kani_harness_passes; [eexists; reflexivity|lia]. Defined.

(** The repository's unit tests pass on the model: the scheduler's five, the
    CAN stack's five, the bootloader's four (with a hash that computes FIPS 180-4
    SHA-256), and the three of [initialize_stack] for every buffer address at which
    the buffer fits the address space and every 32-bit function address. *)
Lemma unit_tests_pass sha256 stack entry m :
  (∀ msg, sha256 msg = Fips180.sha256 msg) →
  0 ≤ stack → stack + 512 < 2 ^ 32 → 0 ≤ entry < 2 ^ 32 →
  Forall (λ t, t = Done tt)
    [SchedulerTests.schedule_stays_on_current_task_while_slice_remains;
     SchedulerTests.schedule_switches_to_next_ready_task_when_slice_expires;
     SchedulerTests.schedule_forced_yield_switches_even_with_ticks_remaining;
     SchedulerTests.schedule_falls_back_to_idle_partition_when_nothing_else_ready;
     SchedulerTests.schedule_returns_none_when_no_task_is_ready;
     CanTests.parse_extracts_id_dlc_and_payload;
     CanTests.parse_rejects_blocked_diagnostic_ids;
     CanTests.parse_rejects_dlc_over_eight;
     CanTests.ring_buffer_push_pop_preserves_order;
     CanTests.ring_buffer_rejects_push_when_full;
     BootloaderTests.trusted_payload_hash_matches sha256;
     BootloaderTests.single_byte_tamper_is_detected sha256;
     BootloaderTests.verify_secure_boot_passes_on_untampered_payload sha256;
     BootloaderTests.verify_tampered_secure_boot_rejects_the_mutated_copy sha256;
     TcbTests.initialize_stack_returns_16_byte_aligned_sp stack entry m;
     TcbTests.initialize_stack_writes_entry_fn_as_mepc stack entry m;
     TcbTests.initialize_stack_writes_u_mode_mstatus stack entry m].
Proof.
  intros Hsha Hs Hs' He.
  assert (Hm : ∀ p, sha256_matches sha256 p = sha256_matches Fips180.sha256 p).
  { intros p. unfold sha256_matches. by rewrite Hsha. }
  assert (Hb : ∀ p q, p = q → assert p = assert q) by (by intros p q ->).
  do 10 (apply List.Forall_cons; [vm_compute; reflexivity|]).
  do 4 (apply List.Forall_cons;
    [unfold BootloaderTests.trusted_payload_hash_matches,
       BootloaderTests.single_byte_tamper_is_detected,
       BootloaderTests.verify_secure_boot_passes_on_untampered_payload,
       BootloaderTests.verify_tampered_secure_boot_rejects_the_mutated_copy,
       verify_secure_boot, verify_tampered_secure_boot;
     rewrite Hm; vm_compute; reflexivity|]).
  assert (Ha : ∀ A `{EqDecision A} (x y : A), x = y → assert_eq x y = Done tt).
  { intros A Hd x y ->. unfold assert_eq. by rewrite bool_decide_true. }
  apply List.Forall_cons; [|apply List.Forall_cons; [|apply List.Forall_cons; [|apply List.Forall_nil]]].
  - apply Ha. rewrite initial_sp_val by lia. Z.div_mod_to_equations. lia.
  - pose proof (initialize_stack_frame m stack 512 entry 28 ltac:(lia)) as Hf.
    unfold TcbTests.initialize_stack_writes_entry_fn_as_mepc.
    destruct (initialize_stack m stack 512 entry) as [sp m']. apply Ha. rewrite Hf. by apply u32_small.
  - pose proof (initialize_stack_frame m stack 512 entry 29 ltac:(lia)) as Hf.
    unfold TcbTests.initialize_stack_writes_u_mode_mstatus.
    destruct (initialize_stack m stack 512 entry) as [sp m']. apply Ha. by rewrite Hf.
Qed.

Lemma unit_tests_pass_witness :
  CanTests.ring_buffer_push_pop_preserves_order = Done tt ∧
  TcbTests.initialize_stack_writes_entry_fn_as_mepc 0x3FC80005 0x42001000 ∅ = Done tt.
Proof.
  pose proof (unit_tests_pass Fips180.sha256 0x3FC80005 0x42001000 ∅ (λ _, eq_refl)
    ltac:(lia) ltac:(lia) ltac:(lia)) as H.
  rewrite List.Forall_forall in H. split; apply H; simpl; tauto.
Defined.

(** The benchmark's scheduler: [n] ready tasks, for as many as the table holds. *)
Lemma setup_benchmark_scheduler_ready n i :
  (n ≤ 32)%nat → (i < n)%nat →
  returns (BenchmarkSetup.setup_benchmark_scheduler n) (λ s, slot_ready (task_table s) i = true).
Proof.
  intros Hn Hi. assert (H : forallb (λ n, forallb (λ i,
    match BenchmarkSetup.setup_benchmark_scheduler n with
    | Done s => slot_ready (task_table s) i | _ => false end) (seq 0 n)) (seq 0 33) = true)
    by (vm_compute; reflexivity).
  rewrite forallb_forall in H. specialize (H n ltac:(apply in_seq; lia)).
  rewrite forallb_forall in H. specialize (H i ltac:(apply in_seq; lia)).
  by destruct (BenchmarkSetup.setup_benchmark_scheduler n).
Qed.

(** The round-trip tests of the telemetry crate pass with every encoder that follows
    postcard's format and every decoder that reads what the format writes; the
    broker's parser is such a decoder. *)
Lemma telemetry_tests_pass to_slice from_bytes :
  Postcard to_slice → (∀ e, event_wf e → from_bytes (wire e) = Some e) →
  TelemetryTests.task_swap_round_trips to_slice from_bytes = Done tt ∧
  TelemetryTests.ipc_transfer_round_trips to_slice from_bytes = Done tt ∧
  TelemetryTests.fault_interception_round_trips to_slice from_bytes = Done tt.
Proof.
  intros HP Hd.
  assert (H : ∀ e, event_wf e → TelemetryTests.round_trip to_slice from_bytes e = Done tt).
  { intros e He. unfold TelemetryTests.round_trip. rewrite (to_slice_wire e 32 He).
    rewrite decide_True by (pose proof (wire_length e); lia). cbn. rewrite (Hd e He). cbn.
    unfold assert_eq. by rewrite bool_decide_true. }
  split_and!; apply H; vm_compute; intuition congruence.
Qed.

Lemma telemetry_tests_pass_witness :
  let from_bytes bs := match parse_event bs with Event e _ => Some e | _ => None end in
  TelemetryTests.fault_interception_round_trips reference_to_slice from_bytes = Done tt.
Proof.
  cbv zeta. apply telemetry_tests_pass.
  - exact reference_postcard.
  - intros e He. pose proof (parse_event_wire e [] He) as H. rewrite app_nil_r in H. by rewrite H.
Defined.
