(* ===== verification/Reach.v ===== *)
(** * Reach: safety of every reachable kernel state

    The system as a step relation: boot, then any interleaving of U-mode memory
    writes and traps on either hart.  A trap that returns is one step; the
    spinlocks are free between steps, because every handler releases what it
    takes and runs its critical section under [SCHED_LOCK].  The properties here
    are consequences of the kernel invariant. *)
From S2P Require Import Prelude Memory Tcb Bitmap Can Pmp Spinlock Telemetry Kernel.
From S2P Require Import Trap KernelInv TrapInv Security Boot.

(** ** The step relation *)

(** A store of a task changes [ram], which does not hold the kernel's statics: those are
    the other fields of [Kernel].  On the hardware a task may write to them too
    ([kernel_memory_exposed] below), so what is proved of the reachable states is
    proved for tasks that do not.  The watchdog, which writes to the task tables by
    design, is not part of this relation but of those of [System], [Preempt] and
    [Compose]. *)
Inductive kernel_step (L : Layout) : Kernel → Kernel → Prop :=
  | step_user k m : kernel_step L k (set_ram m k)
  | step_trap E h mcause sp start_cycle k sp' k' :
      layout E = L → trap_handler E h mcause sp start_cycle k = Done (sp', k') →
      kernel_step L k k'.

Inductive reachable (L : Layout) : Kernel → Prop :=
  | reach_boot sha256 E0 E1 fn m i0 c0 p0 r k :
      layout E0 = L → layout E1 = L → verify_secure_boot sha256 = true →
      pmp_reset_ok (on0 p0) → pmp_reset_ok (on1 p0) →
      kmain sha256 E0 E1 fn (statics m i0 c0 p0) = Done (r, k) → reachable L k
  | reach_step k k' : reachable L k → kernel_step L k k' → reachable L k'.

Definition unlocked (k : Kernel) : Prop := SCHED_LOCK k = spin_new ∧ MUTEX_LOCK k = spin_new.

Lemma avail_unlocked h k : unlocked k → avail h (SCHED_LOCK k) ∧ avail h (MUTEX_LOCK k).
Proof. intros [-> ->]. split; by left. Qed.

Lemma wp_result {A} P (m : K A) Q k a k' : wp P m Q k → m k = Done (a, k') → Q a k'.
Proof. unfold wp. intros H Hm. by rewrite Hm in H. Qed.

Lemma step_safe L k k' :
  kernel_inv L k → unlocked k → kernel_step L k k' → kernel_inv L k' ∧ unlocked k'.
Proof.
  intros Hi Hu Hs. revert Hi Hu. destruct Hs as [k0 m|E h mcause sp sc k0 sp' k1 <- Ht]; intros Hi Hu.
  - split; [by apply (inv_fields L k0)|done].
  - destruct (avail_unlocked h k0 Hu) as [Ha Hb].
    assert (Hk : keeps (layout E) k0 k1).
    { exact (wp_result (λ _, True) _ (λ _, keeps (layout E) k0) _ _ _
        (trap_keeps (λ _, True) E h mcause sp sc k0 (λ _ _, I) (λ _, I) Hi Ha Hb) Ht). }
    destruct Hk as [H1 _ H3 H4], Hu. split; [done|]. split; congruence.
Qed.

Lemma reachable_safe L k : reachable L k → kernel_inv L k ∧ unlocked k.
Proof.
  induction 1 as [sha256 E0 E1 fn m i0 c0 p0 r k HL0 HL1 Hsb Hr0 Hr1 Hk|k k' _ [IH1 IH2] Hstep].
  - assert (He : layout E0 = layout E1) by congruence. subst L.
    pose proof (wp_result _ _ _ _ _ _ (kmain_wp sha256 E0 E1 fn m i0 c0 p0 Hsb He Hr0 Hr1) Hk)
      as (_ & Hi & Hs & Hm & _). by split.
  - by eapply step_safe.
Qed.

(** ** A concrete reachable state for the witnesses *)

Definition state_of {A} (r : result (A * Kernel)) : Kernel :=
  match r with Done (_, k) => k | _ => sample_reset end.

Definition booted : Kernel :=
  state_of (kmain Fips180.sha256 sample_env sample_env sample_entries sample_reset).

Lemma booted_reachable : reachable sample_layout booted.
Proof.
  destruct (wp_no_panic _ _ _ (kmain_wp Fips180.sha256 sample_env sample_env sample_entries ∅
    (mkPerHart 0 0) (mkPerHart 0 0) (mkPerHart pmp_reset pmp_reset) sample_secure eq_refl
    pmp_reset_reset_ok pmp_reset_reset_ok)) as (r & k & Hk & _).
  fold sample_reset in Hk. unfold booted. rewrite Hk.
  exact (reach_boot _ Fips180.sha256 sample_env sample_env sample_entries ∅ (mkPerHart 0 0)
    (mkPerHart 0 0) (mkPerHart pmp_reset pmp_reset) r k eq_refl eq_refl sample_secure
    pmp_reset_reset_ok pmp_reset_reset_ok Hk).
Qed.

Lemma booted_inv : kernel_inv sample_layout booted.
Proof. apply reachable_safe, booted_reachable. Qed.

Lemma booted_unlocked : unlocked booted.
Proof. apply (reachable_safe _ _ booted_reachable). Qed.

(** Executable runs. *)
Inductive action :=
  | User (m : Mem)
  | Trap (h : hart) (mcause sp : Z).

Fixpoint run (l : list action) (k : Kernel) : option Kernel :=
  match l with
  | [] => Some k
  | User m :: l => run l (set_ram m k)
  | Trap h mcause sp :: l =>
      match trap_handler sample_env h mcause sp 6000 k with
      | Done (_, k') => run l k'
      | _ => None
      end
  end.

Lemma run_reachable l k k' :
  reachable sample_layout k → run l k = Some k' → reachable sample_layout k'.
Proof.
  revert k. induction l as [|[m|h mcause sp] l IH]; intros k Hr; cbn [run].
  - by intros [= <-].
  - apply IH. eapply reach_step; [done|]. apply step_user.
  - destruct (trap_handler sample_env h mcause sp 6000 k) as [[sp' k1]| |] eqn:E; [|done..].
    apply IH. eapply reach_step; [done|]. by apply (step_trap _ sample_env h mcause sp 6000 k sp').
Qed.

(** A frame at [sp] with a system call number and its arguments. *)
Definition syscall_frame (sp a7 a0 a1 a2 : Z) (m : Mem) : Mem :=
  frame_write (frame_write (frame_write (frame_write m sp A7 a7) sp A0 a0) sp A1 a1) sp A2 a2.

(** Task C takes the mutex on hart 1, then Task A asks for it on hart 0. *)
Definition contention : list action :=
  let sp := 0x3FC80380 in
  [User (syscall_frame sp 1 0 0 0 ∅); Trap H1 8 sp;
   User (syscall_frame sp 3 0 0 0 ∅); Trap H1 8 sp;
   User (syscall_frame sp 1 0 0 0 ∅); Trap H0 8 sp;
   User (syscall_frame sp 3 0 0 0 ∅); Trap H0 8 sp].

Definition contended : Kernel := default sample_reset (run contention booted).

Lemma contended_reachable : reachable sample_layout contended.
Proof.
  apply (run_reachable contention booted); [exact booted_reachable|].
  assert (H : match run contention booted with Some _ => true | None => false end = true)
    by (vm_compute; reflexivity).
  unfold contended. by destruct (run contention booted).
Qed.

Lemma contended_task_a : state <$> task_of H0 1 contended = Some (BlockedOnMutex 0).
Proof. vm_compute. reflexivity. Qed.

(** The same tables and mutexes on an otherwise empty machine. *)
Definition pmp_for (nm : string) : PmpRegs :=
  match pmp_after sample_layout [] nm pmp_reset with Done r => r | _ => pmp_reset end.

Definition demo (m : Mem) : Kernel :=
  mkKernel (mkPerHart (started 0 (boot_sched (boot_tasks0 (boot_sps sample_layout))))
                      (started 2 (boot_sched (boot_tasks1 (boot_sps sample_layout)))))
    KERNEL_MUTEXES 0 (replicate 32 0) 0 0 spin_new spin_new 0 m
    (mkPerHart 0 0) (mkPerHart 0 0) (mkPerHart (pmp_for "Watchdog") (pmp_for "Task B")) [].

Lemma pmp_for_configured nm : pmp_configured sample_layout nm (pmp_for nm).
Proof.
  pose proof (pmp_after_configured sample_layout [] nm pmp_reset pmp_reset_reset_ok) as H.
  unfold pmp_for. by destruct (pmp_after sample_layout [] nm pmp_reset).
Qed.

Lemma demo_inv m : kernel_inv sample_layout (demo m).
Proof.
  apply (boot_inv (boot_sps sample_layout)); try reflexivity; apply pmp_for_configured.
Qed.

Lemma demo_unlocked m : unlocked (demo m).
Proof. done. Qed.

(** Runs that start from it. *)
Lemma run_safe l k k' :
  kernel_inv sample_layout k → unlocked k → run l k = Some k' →
  kernel_inv sample_layout k' ∧ unlocked k'.
Proof.
  revert k. induction l as [|[m|h mcause sp] l IH]; intros k Hi Hu; cbn [run].
  - intros [= <-]. by split.
  - apply IH; [by apply (inv_fields _ k)|done].
  - destruct (trap_handler sample_env h mcause sp 6000 k) as [[sp' k1]| |] eqn:E; [|done..].
    destruct (step_safe sample_layout k k1) as [Hi1 Hu1]; [done|done| |by apply IH].
    by apply (step_trap _ sample_env h mcause sp 6000 k sp').
Qed.

(** ** Properties *)

(** C1. Trap safety.  In every state that satisfies the kernel invariant, with
    the spinlocks free or held by this hart, for every cause, stack pointer and
    frame contents: the trap handler terminates without waiting for a lock; it
    returns in a state that satisfies the invariant, with both spinlocks as it
    found them and every task's priority, name and capabilities unchanged; its
    only panics are the ownership assertion of the unlock system call and the
    unhandled-exception panic of a cause the dispatcher has no arm for.  In
    particular no [unwrap] of a task slot, no array index and no PMP entry
    selection ever panics. *)
Theorem trap_handler_safe E h mcause sp start_cycle k :
  kernel_inv (layout E) k → avail h (SCHED_LOCK k) → avail h (MUTEX_LOCK k) →
  match trap_handler E h mcause sp start_cycle k with
  | Done (_, k') =>
      kernel_inv (layout E) k' ∧ static_kernel k k' ∧
      SCHED_LOCK k' = SCHED_LOCK k ∧ MUTEX_LOCK k' = MUTEX_LOCK k
  | Panicked AssertFailed => mcause = ECALL_UMODE ∧ frame_read (ram k) sp A7 = 4
  | Panicked UnhandledException => unknown_cause mcause
  | Panicked _ => False
  | Spinning => False
  end.
Proof.
  intros Hi Ha Hb.
  pose proof (trap_keeps (λ p,
    match p with
    | AssertFailed => mcause = ECALL_UMODE ∧ frame_read (ram k) sp A7 = 4
    | UnhandledException => unknown_cause mcause
    | _ => False
    end) E h mcause sp start_cycle k) as Hk.
  unfold wp in Hk. destruct (trap_handler E h mcause sp start_cycle k) as [[sp' k']| |].
  - destruct Hk as [H1 H2 H3 H4]; auto.
  - apply Hk; auto.
  - apply Hk; auto.
Qed.

Lemma trap_handler_safe_witness :
  match trap_handler sample_env H0 5 0x3FC80380 6000 booted with
  | Done (_, k') => kernel_inv sample_layout k'
  | _ => False
  end.
Proof.
  pose proof (trap_handler_safe sample_env H0 5 0x3FC80380 6000 booted booted_inv
    (proj1 (avail_unlocked H0 _ booted_unlocked)) (proj2 (avail_unlocked H0 _ booted_unlocked))) as H.
  destruct (trap_handler sample_env H0 5 0x3FC80380 6000 booted) as [[sp' k']|[]|].
  - exact (proj1 H).
  - exact H.
  - exact H.
  - discriminate (proj1 H).
  - discriminate (proj2 (proj2 (proj2 H))).
  - exact H.
  - exact H.
Defined.

(** C7. No lost waiter.  In every reachable state a task blocked on a mutex is
    recorded in that mutex's waiter bitmap, and the mutex is locked by a
    registered task, whose unlock or termination will scan that bitmap. *)
Theorem reachable_no_lost_waiter L k h i t mi :
  reachable L k → task_of h i k = Some t → state t = BlockedOnMutex mi →
  ∃ m o, mutex_of (Z.to_nat mi) k = Some m ∧ Z.testbit (waiters_bitmap m) (Z.of_nat i) = true ∧
    locked m = true ∧ owner_task_idx m = Some (Z.of_nat o) ∧ registered k o.
Proof.
  intros [Hi _]%reachable_safe Ht Hst.
  destruct (inv_blocked _ _ Hi _ _ _ _ Ht Hst) as (_ & m & Hm & Hb).
  pose proof (inv_mutex _ _ Hi _ _ Hm) as Hok.
  assert (Hl : locked m = true).
  { destruct (locked m) eqn:E; [done|]. by rewrite (mx_free _ _ Hok E), Z.testbit_0_l in Hb. }
  destruct (proj1 (mx_locked _ _ Hok) Hl) as [z Hz].
  destruct (mx_owner _ _ Hok z Hz) as (o & -> & _ & Ho). by exists m, o.
Qed.

Lemma reachable_no_lost_waiter_witness :
  ∃ m o, mutex_of 0 contended = Some m ∧ Z.testbit (waiters_bitmap m) 1 = true ∧
    locked m = true ∧ owner_task_idx m = Some (Z.of_nat o).
Proof.
  destruct (task_of H0 1 contended) as [t|] eqn:Ht.
  - destruct (reachable_no_lost_waiter sample_layout contended H0 1 t 0) as (m & o & H1 & H2 & H3 & H4 & _).
    + exact contended_reachable.
    + exact Ht.
    + pose proof contended_task_a as Hs. rewrite Ht in Hs. injection Hs as Hs. exact Hs.
    + exists m, o. split_and!; assumption.
  - pose proof contended_task_a as Hs. rewrite Ht in Hs. discriminate Hs.
Defined.

(** C8. No missed rendezvous.  In no reachable state is a task blocked sending
    on an endpoint while another is blocked receiving on the same endpoint. *)
Theorem reachable_no_missed_rendezvous L k ep h i t h' i' t' :
  reachable L k → task_of h i k = Some t → task_of h' i' k = Some t' →
  waits_send ep (state t) = true → waits_recv ep (state t') = false.
Proof.
  intros [Hi _]%reachable_safe Ht Ht' Hs. destruct (waits_recv ep (state t')) eqn:E; [|done].
  destruct (inv_rendezvous _ _ Hi _ _ _ _ _ _ _ Ht Ht' Hs E).
Qed.

(** Task A sends on endpoint 0 before Task B receives. *)
Definition sending : list action :=
  let sp := 0x3FC80380 in
  [User (syscall_frame sp 1 0 0 0 ∅); Trap H0 8 sp;
   User (syscall_frame sp 6 1 0x3FC80700 8 ∅); Trap H0 8 sp].
Definition sender_blocked : Kernel := default sample_reset (run sending booted).

Lemma sender_blocked_reachable : reachable sample_layout sender_blocked.
Proof.
  apply (run_reachable sending booted); [exact booted_reachable|].
  assert (H : match run sending booted with Some _ => true | None => false end = true)
    by (vm_compute; reflexivity).
  unfold sender_blocked. by destruct (run sending booted).
Qed.

Lemma sender_blocked_tasks :
  state <$> task_of H0 1 sender_blocked = Some (BlockedOnIpcSend 0 0x3FC80700 8) ∧
  is_Some (task_of H1 2 sender_blocked).
Proof. split; [vm_compute; reflexivity|]. vm_compute. by eexists. Qed.

Lemma reachable_no_missed_rendezvous_witness :
  ∃ t, task_of H1 2 sender_blocked = Some t ∧ waits_recv 0 (state t) = false.
Proof.
  destruct sender_blocked_tasks as [Ha [t Ht]].
  destruct (task_of H0 1 sender_blocked) as [ta|] eqn:Hta; [|discriminate Ha].
  exists t. split; [exact Ht|].
  apply (reachable_no_missed_rendezvous sample_layout sender_blocked 0 H0 1 ta H1 2 t).
  - exact sender_blocked_reachable.
  - exact Hta.
  - exact Ht.
  - injection Ha as Ha. rewrite Ha. reflexivity.
Defined.

(** C9. Isolation follows the running task.  In every reachable state, on each
    hart: the PMP is programmed for the task that is current there, so a U-mode
    access to the stack of the Watchdog or of Task A is refused unless that task
    is the current one, which can read and write its own stack but not execute it;
    and at most the current task is Running. *)
Theorem reachable_isolation L k h t nm addr e a :
  layout_ok L → reachable L k →
  task_of h (current_partition_idx (sched_of h k)) k = Some t →
  (nm, addr, e) ∈ stacks L → in_block addr 1024 a →
  let r := ph_get h (pmp k) in
  ((e < 3)%nat → nm ≠ name t → ∀ acc, user_allows r acc a = false) ∧
  (nm = name t → user_allows r Load a = true ∧ user_allows r Store a = true ∧
                 user_allows r Fetch a = false) ∧
  ∀ i u, task_of h i k = Some u → state u = Running → i = current_partition_idx (sched_of h k).
Proof.
  intros HL [Hi _]%reachable_safe Ht Hin Ha r. pose proof (inv_pmp _ _ Hi _ _ Ht) as Hc.
  split_and!.
  - intros He Hne acc. by eapply configured_isolates.
  - intros ->. by eapply configured_own_stack.
  - intros i u Hu Hr. by eapply (wf_running _ (inv_sched _ _ Hi h)).
Qed.

Lemma reachable_isolation_witness :
  user_allows (ph_get H0 (pmp booted)) Store 0x3FC80400 = false.
Proof.
  destruct (wf_registered _ (wf_shape _ (inv_sched _ _ booted_inv H0))) as [t Ht].
  fold (task_of H0 (current_partition_idx (sched_of H0 booted)) booted) in Ht.
  destruct (reachable_isolation sample_layout booted H0 t "Task A" 0x3FC80400 2 0x3FC80400)
    as (H & _ & _).
  - exact sample_layout_ok.
  - exact booted_reachable.
  - exact Ht.
  - right. left.
  - split; vm_compute; congruence.
  - apply H; [lia|]. intros Hn.
    assert (Hw : name <$> task_of H0 (current_partition_idx (sched_of H0 booted)) booted
                 = Some "Watchdog"%string) by (vm_compute; reflexivity).
    rewrite Ht in Hw. injection Hw as Hw. rewrite <- Hn in Hw. discriminate Hw.
Defined.

(** C35. The kernel's own memory is open.  In every reachable state, whichever task a hart
    runs may load and store every byte of SRAM that is not in the stack of the Watchdog
    or of Task A: the PMP has no entry for the kernel's statics, and entry 3 allows all
    of SRAM.  The kernel's two stacks in particular are open to every task. *)
Theorem kernel_memory_exposed L k h t a :
  layout_ok L → reachable L k →
  task_of h (current_partition_idx (sched_of h k)) k = Some t →
  (in_block SRAM_BASE SRAM_SIZE a →
   ¬ in_block (TASK_WD_STACK L) 1024 a → ¬ in_block (TASK_A_STACK L) 1024 a →
   user_allows (ph_get h (pmp k)) Load a = true ∧ user_allows (ph_get h (pmp k)) Store a = true) ∧
  (in_block (KERNEL_STACK_0 L) 1024 a ∨ in_block (KERNEL_STACK_1 L) 1024 a →
   user_allows (ph_get h (pmp k)) Store a = true).
Proof.
  intros HL [Hi _]%reachable_safe Ht. pose proof (inv_pmp _ _ Hi _ _ Ht) as Hc.
  assert (Hopen : in_block SRAM_BASE SRAM_SIZE a →
    ¬ in_block (TASK_WD_STACK L) 1024 a → ¬ in_block (TASK_A_STACK L) 1024 a →
    user_allows (ph_get h (pmp k)) Load a = true ∧ user_allows (ph_get h (pmp k)) Store a = true).
  { intros Hs Hw Ha. eapply configured_open; [done|done|done|]. intros nm addr e Hin He _.
    unfold stacks in Hin. rewrite !elem_of_cons, elem_of_nil in Hin.
    destruct_or! Hin; simplify_eq; first [done|lia]. }
  assert (Hker : ∀ b, b ∈ [KERNEL_STACK_0 L; KERNEL_STACK_1 L] → in_block b 1024 a →
    user_allows (ph_get h (pmp k)) Store a = true).
  { intros b Hb Ha. destruct (kernel_stacks_apart L b a HL Hb Ha) as (H1 & H2 & H3). by apply Hopen. }
  split; [done|]. intros [Hk|Hk]; (eapply Hker; [|exact Hk]); [left|right; left].
Qed.

(** Right after boot the Watchdog may write to the kernel stack of hart 1. *)
Lemma kernel_memory_exposed_witness :
  user_allows (ph_get H0 (pmp booted)) Store 0x3FC82000 = true.
Proof.
  destruct (wf_registered _ (wf_shape _ (inv_sched _ _ booted_inv H0))) as [t Ht].
  fold (task_of H0 (current_partition_idx (sched_of H0 booted)) booted) in Ht.
  destruct (kernel_memory_exposed sample_layout booted H0 t 0x3FC82000) as [_ H].
  - exact sample_layout_ok.
  - exact booted_reachable.
  - exact Ht.
  - apply H. right. split; vm_compute; congruence.
Defined.
