(* ===== verification/SyscallSpec.v ===== *)
(** * SyscallSpec: what each system call does

    Functional specifications of the system calls of kernel/src/trap.rs, as
    equations for the state they leave, from every state that satisfies the
    kernel invariant with the spinlocks free or held by this hart.  Where a call
    ends with a reschedule, its result is described up to [switched], the
    relation that specifies [switch_task]. *)
From S2P Require Import Prelude Memory Tcb Bitmap Can Pmp Spinlock Telemetry Kernel.
From S2P Require Import Trap KernelInv TrapInv Security Boot Reach.

(** ** Shared vocabulary *)

Definition current (h : hart) (k : Kernel) : nat := current_partition_idx (sched_of h k).

(** The state after the dispatcher advanced the saved program counter. *)
Definition advanced (sp : Z) (k : Kernel) : Kernel :=
  set_ram (frame_write (ram k) sp MEPC (wrapping_add (frame_read (ram k) sp MEPC) 4)) k.

Definition return_code (sp v : Z) (k : Kernel) : Kernel :=
  set_ram (frame_write (ram k) sp A0 v) k.

Definition set_mutex (i : nat) (m : KernelMutex) (k : Kernel) : Kernel :=
  set_MUTEXES (<[i := Some m]> (MUTEXES k)) k.

Definition raise_ipi (h target : hart) (k : Kernel) : Kernel :=
  if decide (target = h) then k else set_msip (ph_set target 1 (msip k)) k.

(** Does capability [c] allow system call [n]?  A mutex capability needs the
    mutex to exist. *)
Definition permits (n : Z) (c : Capability) (k : Kernel) : bool :=
  match c with
  | CapNone => false
  | CapMutex mi l u =>
      ((n =? 3) && l || (n =? 4) && u) && bool_decide (is_Some (mutex_of (Z.to_nat mi) k))
  | CapIpc _ s r => (n =? 6) && s || (n =? 7) && r
  end.

Lemma no_mutex n mi c k :
  permits n (CapMutex mi (fst c) (snd c)) k = false → (n =? 3) && fst c || (n =? 4) && snd c = true →
  mutex_of (Z.to_nat mi) k = None.
Proof.
  unfold permits. intros Hp Hc. rewrite Hc in Hp. apply bool_decide_eq_false in Hp.
  by apply eq_None_not_Some.
Qed.

Lemma advanced_reg sp k i : i ≠ MEPC → frame_read (ram (advanced sp k)) sp i = frame_read (ram k) sp i.
Proof. intros. by apply frame_read_write_ne. Qed.

(** The premises every specification shares. *)
Record ready_for (E : Env) (h : hart) (k : Kernel) : Prop := {
  rf_inv : kernel_inv (layout E) k;
  rf_sched : avail h (SCHED_LOCK k);
  rf_mutex : avail h (MUTEX_LOCK k)
}.

Lemma ready_advanced E h sp k : ready_for E h k → ready_for E h (advanced sp k).
Proof. intros []. split; [by apply (inv_fields _ k)|done|done]. Qed.

Lemma demo_ready h m : ready_for sample_env h (demo m).
Proof. split; [apply demo_inv|by left|by left]. Qed.

Lemma run_ready h l m :
  match run l (demo m) with Some _ => true | None => false end = true →
  ready_for sample_env h (default sample_reset (run l (demo m))).
Proof.
  intros Hd. destruct (run l (demo m)) as [k|] eqn:E; [|done].
  destruct (run_safe _ _ _ (demo_inv m) (demo_unlocked m) E) as [Hi Hu].
  destruct (avail_unlocked h k Hu). by split.
Qed.

(** A guarded body that ends in an explicit state. *)
Lemma wp_guard_state {A} P h (body : K A) a (f : Kernel → Kernel) k :
  avail h (SCHED_LOCK k) →
  (∀ l, SCHED_LOCK (f (set_SCHED_LOCK l k)) = l) →
  (∀ l, set_SCHED_LOCK (SCHED_LOCK k) (f (set_SCHED_LOCK l k)) = f k) →
  (∀ l, wp P body (λ a' k', a' = a ∧ k' = f (set_SCHED_LOCK l k)) (set_SCHED_LOCK l k)) →
  wp P (sched_guard h body) (λ a' k', a' = a ∧ k' = f k) k.
Proof.
  intros Ha H1 H2 Hb. apply wp_sched_guard; [done|]. intros l.
  eapply wp_mono; [apply Hb|]. intros a' k' [-> ->]. by rewrite H1, H2.
Qed.

(** The kernel with other spinlock values: what a handler sees inside. *)
Lemma kernel_eta k :
  mkKernel (SCHEDULERS k) (MUTEXES k) (TICK_COUNT k) (LAST_CHECKIN_TICK k)
    (METRIC_TRAP_LATENCY_CYCLES k) (METRIC_PMP_VIOLATIONS k) (SCHED_LOCK k) (MUTEX_LOCK k)
    (TEST_COUNTER k) (ram k) (msip k) (mtimecmp k) (pmp k) (trace k) = k.
Proof. by destruct k. Qed.

Ltac kernel_eq := repeat (unfold set_SCHED_LOCK, set_MUTEX_LOCK, set_ram, set_MUTEXES, set_SCHEDULERS, set_trace, set_msip; simpl);
  rewrite ?kernel_eta; try reflexivity.

(** ** Denied calls *)

Section denied.
Context (E : Env) (h : hart) (sp : Z) (k : Kernel) (Hr : ready_for E h k).

Let Hi : kernel_inv (layout E) k := rf_inv _ _ _ Hr.

Lemma lock_denied :
  permits 3 (cap_at h (frame_read (ram k) sp A0) k) k = false →
  wp no_panic (sys_lock E h sp) (λ r k', r = sp ∧ k' = return_code sp USIZE_MINUS_ONE k) k.
Proof.
  intros Hp. unfold sys_lock. wp_run. set (cap_idx := frame_read _ _ _) in *.
  apply (wp_guard_state _ h _ sp (return_code sp USIZE_MINUS_ONE)); [exact (rf_sched _ _ _ Hr)|done|by destruct k|].
  intros l. wp_run. apply wp_mutex_lock; [exact (rf_mutex _ _ _ Hr)|]. intros l' Hu. apply wp_bind.
  apply (wp_running_cap _ E); [by apply (inv_fields _ k)|]. intros Hcap. apply wp_bind.
  change (cap_at h cap_idx _) with (cap_at h cap_idx k) in *.
  assert (Hdeny : wp no_panic (deny_locked (Denied, sp))
    (λ vs k', vs = (Denied, sp) ∧ k' = set_SCHED_LOCK l k) (set_MUTEX_LOCK l' (set_SCHED_LOCK l k))).
  { wp_run. split; [done|]. simpl. rewrite Hu. by destruct k. }
  eapply (wp_mono _ _ (λ vs k', vs = (Denied, sp) ∧ k' = set_SCHED_LOCK l k));
    [|intros vs k' [-> ->]; by wp_run].
  destruct (cap_at h cap_idx k) as [|mi [] cu|]; [exact Hdeny| |exact Hdeny|exact Hdeny].
  apply wp_bind, wp_get_mutex.
  { destruct Hcap as [Hmi _]. change (Z.to_nat mi < length (MUTEXES k))%nat.
    rewrite (inv_mutexes _ _ Hi). lia. }
  change (mutex_of (Z.to_nat mi) _) with (mutex_of (Z.to_nat mi) k).
  rewrite (no_mutex 3 mi (true, cu) k Hp eq_refl). exact Hdeny.
Qed.

Lemma unlock_denied :
  permits 4 (cap_at h (frame_read (ram k) sp A0) k) k = false →
  wp no_panic (sys_unlock E h sp) (λ r k', r = sp ∧ k' = return_code sp USIZE_MINUS_ONE k) k.
Proof.
  intros Hp. unfold sys_unlock. wp_run. set (cap_idx := frame_read _ _ _) in *.
  apply (wp_guard_state _ h _ sp (return_code sp USIZE_MINUS_ONE)); [exact (rf_sched _ _ _ Hr)|done|by destruct k|].
  intros l. wp_run. apply wp_mutex_lock; [exact (rf_mutex _ _ _ Hr)|]. intros l' Hu. apply wp_bind.
  apply (wp_running_cap _ E); [by apply (inv_fields _ k)|]. intros Hcap. apply wp_bind.
  change (cap_at h cap_idx _) with (cap_at h cap_idx k) in *.
  assert (Hdeny : wp no_panic (deny_locked (Denied, sp))
    (λ vs k', vs = (Denied, sp) ∧ k' = set_SCHED_LOCK l k) (set_MUTEX_LOCK l' (set_SCHED_LOCK l k))).
  { wp_run. split; [done|]. simpl. rewrite Hu. by destruct k. }
  eapply (wp_mono _ _ (λ vs k', vs = (Denied, sp) ∧ k' = set_SCHED_LOCK l k));
    [|intros vs k' [-> ->]; by wp_run].
  destruct (cap_at h cap_idx k) as [|mi cl []|]; [exact Hdeny| |exact Hdeny|exact Hdeny].
  apply wp_bind, wp_get_mutex.
  { destruct Hcap as [Hmi _]. change (Z.to_nat mi < length (MUTEXES k))%nat.
    rewrite (inv_mutexes _ _ Hi). lia. }
  change (mutex_of (Z.to_nat mi) _) with (mutex_of (Z.to_nat mi) k).
  rewrite (no_mutex 4 mi (cl, true) k Hp (orb_true_r _)). exact Hdeny.
Qed.

Lemma send_denied :
  permits 6 (cap_at h (frame_read (ram k) sp A0) k) k = false →
  wp no_panic (sys_send E h sp) (λ r k', r = sp ∧ k' = return_code sp USIZE_MINUS_ONE k) k.
Proof.
  intros Hp. unfold sys_send. wp_run. set (cap_idx := frame_read _ _ A0) in *.
  apply (wp_guard_state _ h _ sp (return_code sp USIZE_MINUS_ONE)); [exact (rf_sched _ _ _ Hr)|done|by destruct k|].
  intros l. wp_run. apply (wp_running_cap _ E); [by apply (inv_fields _ k)|]. intros _.
  change (cap_at h cap_idx _) with (cap_at h cap_idx k).
  destruct (cap_at h cap_idx k) as [| |ep [] cr]; [by wp_run|by wp_run|done|by wp_run].
Qed.

Lemma recv_denied :
  permits 7 (cap_at h (frame_read (ram k) sp A0) k) k = false →
  wp no_panic (sys_recv E h sp) (λ r k', r = sp ∧ k' = return_code sp USIZE_MINUS_ONE k) k.
Proof.
  intros Hp. unfold sys_recv. wp_run. set (cap_idx := frame_read _ _ A0) in *.
  apply (wp_guard_state _ h _ sp (return_code sp USIZE_MINUS_ONE)); [exact (rf_sched _ _ _ Hr)|done|by destruct k|].
  intros l. wp_run. apply (wp_running_cap _ E); [by apply (inv_fields _ k)|]. intros _.
  change (cap_at h cap_idx _) with (cap_at h cap_idx k).
  destruct (cap_at h cap_idx k) as [| |ep cs []]; [by wp_run|by wp_run|done|by wp_run].
Qed.
End denied.

(** The dispatcher up to the arm of system call [n]. *)
Lemma wp_ecall P E h sp k n (Q : Z → Kernel → Prop) :
  frame_read (ram k) sp A7 = n →
  wp P (if n =? 1 then sys_yield E h sp
        else if n =? 2 then sys_sleep E h sp
        else if n =? 3 then sys_lock E h sp
        else if n =? 4 then sys_unlock E h sp
        else if n =? 5 then sys_checkin h sp
        else if n =? 6 then sys_send E h sp
        else if n =? 7 then sys_recv E h sp
        else if n =? 8 then sys_terminate E h sp
        else mret sp) Q (advanced sp k) →
  wp P (ecall E h sp) Q k.
Proof. intros <- HQ. unfold ecall. wp_run. exact HQ. Qed.

Lemma wp_ecall_denied E h sp k n :
  ready_for E h k → frame_read (ram k) sp A7 = n →
  (n = 3 ∨ n = 4 ∨ n = 6 ∨ n = 7) →
  permits n (cap_at h (frame_read (ram k) sp A0) k) k = false →
  wp no_panic (ecall E h sp)
    (λ r k', r = sp ∧ k' = return_code sp USIZE_MINUS_ONE (advanced sp k)) k.
Proof.
  intros Hr Hn7 Hn Hp. pose proof (ready_advanced _ _ sp _ Hr) as Hr'.
  assert (Hp' : permits n (cap_at h (frame_read (ram (advanced sp k)) sp A0) (advanced sp k))
                  (advanced sp k) = false) by (by rewrite advanced_reg).
  apply (wp_ecall _ _ _ _ _ n); [done|].
  destruct Hn as [Hn|[Hn|[Hn|Hn]]]; rewrite Hn in Hp' |- *; simpl;
    [by apply lock_denied|by apply unlock_denied|by apply send_denied|by apply recv_denied].
Qed.

(** C21. Capabilities confine.  For the mutex and IPC system calls, when the
    slot named in [a0] (any value, out-of-range ones included) does not hold a
    capability that permits the call, the call returns -1 in [a0], advances the
    program counter, and changes nothing else in the whole kernel state. *)
Theorem capability_denied E h sp k :
  ready_for E h k →
  let n := frame_read (ram k) sp A7 in
  (n = 3 ∨ n = 4 ∨ n = 6 ∨ n = 7) →
  permits n (cap_at h (frame_read (ram k) sp A0) k) k = false →
  ecall E h sp k = Done (sp, return_code sp USIZE_MINUS_ONE (advanced sp k)).
Proof.
  intros Hr n Hn Hp.
  destruct (wp_no_panic _ _ _ (wp_ecall_denied E h sp k n Hr eq_refl Hn Hp)) as (r & k' & Hk & -> & ->).
  done.
Qed.

(** The Watchdog, which has no capabilities, tries to send. *)
Definition denied_call : Kernel := demo (syscall_frame 0x3FC80380 6 0 0x3FC80400 8 ∅).

Lemma capability_denied_witness :
  ecall sample_env H0 0x3FC80380 denied_call
  = Done (0x3FC80380, return_code 0x3FC80380 USIZE_MINUS_ONE (advanced 0x3FC80380 denied_call)).
Proof.
  apply capability_denied.
  - apply demo_ready.
  - right. right. left. vm_compute. reflexivity.
  - vm_compute. reflexivity.
Defined.

(** ** Facts about reschedules *)

Lemma switched_sched_lock E h sp b k l sp' k' :
  switched E h sp b (set_SCHED_LOCK l k) sp' k' →
  SCHED_LOCK k' = l ∧ switched E h sp b k sp' (set_SCHED_LOCK (SCHED_LOCK k) k').
Proof.
  intros [r Hc|j t d p' Htr Hsel Ht Hst Hlt Hd Hp Hcfg]; split; try done.
  - exact (switched_stay E h sp b k r Hc).
  - exact (switched_to E h sp b k j t d p' Htr Hsel Ht Hst Hlt Hd Hp Hcfg).
Qed.

(** The tables after a reschedule. *)
Lemma switched_task E h sp b k sp' k' h' n :
  switched E h sp b k sp' k' →
  task_of h' n k' = task_of h' n k ∨
  h' = h ∧ ∃ j d, task_of h' n k' = slot (task_table (switch_to (sched_of h k) j d sp)) n ∧
    ∃ t, task_of h j k = Some t ∧ state t = Ready.
Proof.
  intros Hs. destruct (decide (h' = h)) as [->|Hne].
  - destruct Hs as [r _|j t d p' _ _ Ht Hst _ _ _ _].
    + left. unfold task_of, sched_of. simpl. by rewrite ph_get_set, decide_True.
    + right. split; [done|]. exists j, d. split; [|eauto].
      unfold task_of, sched_of. simpl. by rewrite ph_get_set, decide_True.
  - left. destruct Hs; unfold task_of, sched_of; simpl; by rewrite ph_get_set, decide_False.
Qed.

(** A reschedule only moves tasks between Ready and Running. *)
Lemma switched_state E h sp b k sp' k' h' n t :
  switched E h sp b k sp' k' → task_of h' n k = Some t →
  ∃ t', task_of h' n k' = Some t' ∧
    (state t' = state t ∨ runnable (state t) = true ∧ runnable (state t') = true).
Proof.
  intros Hs Ht. destruct (switched_task _ _ _ _ _ _ _ h' n Hs) as [->|(-> & j & d & -> & tj & Htj & Hst)];
    [eauto|].
  rewrite slot_switch_to. fold (task_of h n k). rewrite Ht. cbv zeta.
  destruct (decide (j = n)) as [->|].
  - assert (tj = t) as -> by congruence.
    case_decide; simpl; eexists; (split; [done|]); right; simpl; by rewrite Hst.
  - assert (Hd : state (demote t) = state t ∨ runnable (state t) = true ∧ runnable (state (demote t)) = true).
    { unfold demote. case_bool_decide as Hr; [|by left]. right. rewrite Hr. done. }
    case_decide; simpl; eexists; (split; [done|]); [exact Hd|by left].
Qed.

Lemma switched_blocked E h sp b k sp' k' h' n t :
  switched E h sp b k sp' k' → task_of h' n k = Some t → runnable (state t) = false →
  ∃ t', task_of h' n k' = Some t' ∧ state t' = state t.
Proof.
  intros Hs Ht Hr. destruct (switched_state _ _ _ _ _ _ _ _ _ _ Hs Ht) as (t' & Ht' & [He|[He _]]).
  - eauto.
  - congruence.
Qed.

(** ** Mutex system calls *)

Section mutex.
Context (E : Env) (h : hart) (sp : Z) (k : Kernel) (Hr : ready_for E h k).
Context (mi : Z) (m : KernelMutex) (Hm : mutex_of (Z.to_nat mi) k = Some m).

Let Hi : kernel_inv (layout E) k := rf_inv _ _ _ Hr.

(** The state in which the caller waits. *)
Definition waiting : Kernel :=
  upd_task h (current h k) (set_state (BlockedOnMutex mi))
    (set_mutex (Z.to_nat mi)
      (mkMutex true (owner_task_idx m) (set_bit (waiters_bitmap m) (current h k))) k).

Lemma waiting_inv l : cap_ok h (current h k) (CapMutex mi true true) → locked m = true →
  kernel_inv (layout E) (set_SCHED_LOCK l waiting).
Proof.
  intros [Hmi Hhome] Hl. apply (inv_fields _ waiting); try done.
  apply inv_block; try done.
  - unfold set_mutex. rewrite <- Hl. apply inv_wait; try done.
    + unfold registered. rewrite Hhome. by apply (current_registered E).
    + by apply (current_lt E).
  - intros mi' [= <-]. split; [done|]. unfold mutex_of, set_mutex. simpl.
    rewrite slot_insert by by eapply slot_lt. rewrite decide_True by done. eexists. split; [done|].
    cbn [waiters_bitmap]. rewrite set_bit_spec. apply orb_true_iff. right. by apply bool_decide_eq_true.
Qed.

(** The code of a granted lock is written unless the caller is recorded as
    blocked on a mutex, which a task that runs is not. *)
Definition granted_code (t : TaskControlBlock) : Kernel → Kernel :=
  match state t with BlockedOnMutex _ => λ k, k | _ => return_code sp 0 end.

Lemma lock_granted cu t :
  task_of h (current h k) k = Some t →
  cap_at h (frame_read (ram k) sp A0) k = CapMutex mi true cu →
  wp no_panic (sys_lock E h sp) (λ r k',
    if locked m then switched E h sp false waiting r k'
    else r = sp ∧ k' = granted_code t (set_mutex (Z.to_nat mi)
           (mkMutex true (Some (Z.of_nat (current h k))) (waiters_bitmap m)) k)) k.
Proof.
  intros Ht Hcap. unfold sys_lock. wp_run. set (cap_idx := frame_read _ _ _) in *.
  apply wp_sched_guard; [exact (rf_sched _ _ _ Hr)|]. intros l. wp_run. fold (sched_of h (set_SCHED_LOCK l k)).
  change (current_partition_idx (sched_of h (set_SCHED_LOCK l k))) with (current h k).
  apply wp_mutex_lock; [exact (rf_mutex _ _ _ Hr)|]. intros l' Hu. apply wp_bind.
  apply (wp_running_cap _ E); [by apply (inv_fields _ k)|].
  change (cap_at h cap_idx _) with (cap_at h cap_idx k). rewrite Hcap. intros [Hmi Hhome].
  assert (Hlt : (current h k < 32)%nat) by by apply (current_lt E).
  assert (Hu8 : u8 (Z.of_nat (current h k)) = Z.of_nat (current h k)) by (apply u8_small; lia).
  apply wp_bind, wp_bind, wp_get_mutex.
  { change (Z.to_nat mi < length (MUTEXES k))%nat. rewrite (inv_mutexes _ _ Hi). lia. }
  change (mutex_of (Z.to_nat mi) _) with (mutex_of (Z.to_nat mi) k). rewrite Hm.
  destruct (locked m) eqn:Hl; cbn [negb].
  - apply wp_bind, wp_put_state; [by eexists|]. wp_run.
    match goal with |- wp _ (switch_task _ _ _ _) _ ?k1 => assert (Hk1 : k1 = set_SCHED_LOCK l waiting) end.
    { unfold waiting, set_mutex, upd_task, sched_of, current. simpl. rewrite Hu. by destruct k. }
    rewrite Hk1. apply wp_switch_task; [apply waiting_inv; [by split|done]|]. intros sp' k' Hs. wp_run. cbn [fst snd]. wp_run.
    destruct (switched_sched_lock _ _ _ _ _ _ _ _ Hs) as [Hsl Hs'].
    destruct (switched_blocked _ _ _ _ _ _ _ h (current h k) (set_state (BlockedOnMutex mi) t) Hs)
      as (t' & Ht' & Hst'); [|done|].
    { change (task_of h (current h k) (set_SCHED_LOCK l waiting)) with (task_of h (current h k) waiting).
      unfold waiting. rewrite task_of_upd, decide_True by done.
      change (task_of h (current h k) (set_mutex _ _ k)) with (task_of h (current h k) k).
      by rewrite Ht. }
    apply (wp_get_task _ h (current h k) t'); [done|]. rewrite Hst'. cbn [state set_state]. wp_run. by split.
  - wp_run. cbn [fst snd]. wp_run. apply (wp_get_task _ h (current h k) t); [exact Ht|].
    rewrite Hu8. unfold granted_code. destruct (state t); wp_run; (split; [done|]); (split; [done|]);
      unfold return_code, set_mutex; simpl; rewrite Hu; by destruct k.
Qed.

(** The state in which the mutex has left the caller's hands. *)
Definition released : Kernel :=
  match lowest_waiter (waiters_bitmap m) with
  | Some w =>
      raise_ipi h (home w)
        (set_ram (frame_write (ram k) (from_option saved_sp 0 (task_of (home w) w k)) A0 0)
          (upd_task (home w) w (set_state Ready)
            (set_mutex (Z.to_nat mi) (mkMutex true (Some (Z.of_nat w)) (clear_bit (waiters_bitmap m) w)) k)))
  | None => set_mutex (Z.to_nat mi) (mkMutex false None (waiters_bitmap m)) k
  end.

Lemma released_inv l : kernel_inv (layout E) (set_SCHED_LOCK l released).
Proof.
  apply (inv_fields _ released); try done. unfold released.
  destruct (lowest_waiter (waiters_bitmap m)) as [w|] eqn:Hw; [|by apply inv_release].
  pose proof (inv_handover _ _ _ _ _ Hi Hm Hw) as Hh.
  rewrite u8_small in Hh by (apply lowest_waiter_Some in Hw as [? _]; lia).
  unfold raise_ipi. case_decide; by eapply inv_fields; [..|exact Hh].
Qed.

Lemma released_lock : SCHED_LOCK released = SCHED_LOCK k.
Proof.
  unfold released, raise_ipi. destruct (lowest_waiter (waiters_bitmap m)); [|done]. by case_decide.
Qed.

(** The unlock arm up to the ownership test. *)
Lemma wp_unlock_prefix P cl (Q : Z → Kernel → Prop) :
  cap_at h (frame_read (ram k) sp A0) k = CapMutex mi cl true →
  (if decide (owner_task_idx m = Some (Z.of_nat (current h k)))
   then ∀ r k2, switched E h sp false released r k2 → Q r (return_code sp 0 k2)
   else P AssertFailed) →
  wp P (sys_unlock E h sp) Q k.
Proof.
  intros Hcap HQ. unfold sys_unlock. wp_run. set (cap_idx := frame_read _ _ _) in *.
  apply wp_sched_guard; [exact (rf_sched _ _ _ Hr)|]. intros l. wp_run. fold (sched_of h (set_SCHED_LOCK l k)).
  change (current_partition_idx (sched_of h (set_SCHED_LOCK l k))) with (current h k).
  apply wp_mutex_lock; [exact (rf_mutex _ _ _ Hr)|]. intros l' Hu. apply wp_bind.
  set (k0 := set_MUTEX_LOCK l' (set_SCHED_LOCK l k)).
  assert (Hi0 : kernel_inv (layout E) k0) by by apply (inv_fields _ k).
  apply (wp_running_cap _ E); [done|].
  change (cap_at h cap_idx k0) with (cap_at h cap_idx k). rewrite Hcap. intros [Hmi Hhome].
  assert (Hlt : (current h k < 32)%nat) by by apply (current_lt E).
  rewrite u8_small by lia.
  apply wp_bind, wp_bind, wp_get_mutex.
  { rewrite (inv_mutexes _ _ Hi0). lia. }
  change (mutex_of (Z.to_nat mi) k0) with (mutex_of (Z.to_nat mi) k). rewrite Hm.
  case_decide as Hown; [|by rewrite bool_decide_false]. rewrite bool_decide_true by done. cbn [negb].
  assert (Hl : locked m = true) by (apply (mx_locked _ _ (inv_mutex _ _ Hi _ _ Hm)); eauto).
  apply wp_bind, (wp_highest_waiter (layout E)); [done|by eapply (inv_waiters _ k)|].
  apply wp_bind. apply (wp_mono P _ (λ _ k', k' = set_SCHED_LOCK l released)).
  2: { intros [] k' ->. apply wp_bind, wp_switch_task; [apply released_inv|].
       intros sp' k' Hs. wp_run. cbn [fst snd].
       destruct (switched_sched_lock _ _ _ _ _ _ _ _ Hs) as [Hsl Hs']. split; [done|].
       rewrite released_lock in Hs'. exact (HQ sp' _ Hs'). }
  unfold released. destruct (lowest_waiter (waiters_bitmap m)) as [w|] eqn:Hw.
  - destruct (lowest_waiter_Some _ _ Hw) as (Hwlt & Hbit & _).
    destruct (inv_waiters _ _ _ _ Hi Hm w Hbit) as [t Ht].
    rewrite u8_small by lia. rewrite Ht, Hl. wp_run. apply wp_put_state; [by eexists|].
    apply wp_bind, (wp_get_task _ (home w) w (set_state Ready t)).
    { rewrite task_of_upd, decide_True by done.
      change (task_of (home w) w (set_MUTEXES _ k0)) with (task_of (home w) w k). by rewrite Ht. }
    wp_run. simpl. rewrite Hu. unfold raise_ipi.
    case_decide; [rewrite bool_decide_true by done|rewrite bool_decide_false by done]; wp_run; by destruct k.
  - wp_run. simpl. rewrite Hu. by destruct k.
Qed.
End mutex.

(** C22. Lock.  With a capability to lock an existing mutex, the running task
    either takes the free mutex and continues with 0 in [a0], nothing else
    changed, or, when the mutex is held, is blocked on it with its waiter bit set
    and the hart reschedules. *)
Theorem sys_lock_spec E h sp k mi m cu t :
  ready_for E h k → frame_read (ram k) sp A7 = 3 →
  task_of h (current h k) k = Some t → runnable (state t) = true →
  cap_at h (frame_read (ram k) sp A0) k = CapMutex mi true cu →
  mutex_of (Z.to_nat mi) k = Some m →
  ∃ sp' k', ecall E h sp k = Done (sp', k') ∧
    if locked m then switched E h sp false (waiting h (advanced sp k) mi m) sp' k'
    else sp' = sp ∧ k' = return_code sp 0 (set_mutex (Z.to_nat mi)
           (mkMutex true (Some (Z.of_nat (current h k))) (waiters_bitmap m)) (advanced sp k)).
Proof.
  intros Hr Ha7 Ht Hrun Hcap Hm. apply wp_no_panic. apply (wp_ecall _ _ _ _ _ 3); [done|].
  pose proof (lock_granted E h sp (advanced sp k) (ready_advanced _ _ _ _ Hr) mi m Hm cu t) as Hl.
  unfold granted_code in Hl. destruct (state t); try done; (apply Hl; [done|]); by rewrite advanced_reg.
Qed.

(** Task A runs on hart 0 and asks for the free mutex. *)
Definition lock_call : Kernel :=
  default sample_reset (run [User (syscall_frame 0x3FC80380 1 0 0 0 ∅); Trap H0 8 0x3FC80380;
    User (syscall_frame 0x3FC80780 3 0 0 0 ∅)] (demo ∅)).

Lemma lock_call_ready : ready_for sample_env H0 lock_call.
Proof. apply (run_ready H0 _ ∅). vm_compute. reflexivity. Qed.

Lemma sys_lock_spec_witness :
  ∃ sp' k', ecall sample_env H0 0x3FC80780 lock_call = Done (sp', k') ∧ sp' = 0x3FC80780 ∧
    mutex_of 0 k' = Some (mkMutex true (Some 1) 0).
Proof.
  destruct (task_of H0 1 lock_call) as [t|] eqn:Ht; [|vm_compute in Ht; discriminate Ht].
  destruct (sys_lock_spec sample_env H0 0x3FC80780 lock_call 0 (mkMutex false None 0) true t)
    as (sp' & k' & He & Hs & Hk).
  - exact lock_call_ready.
  - vm_compute. reflexivity.
  - exact Ht.
  - vm_compute in Ht. injection Ht as <-. reflexivity.
  - vm_compute. reflexivity.
  - vm_compute. reflexivity.
  - exists sp', k'. split; [exact He|]. split; [exact Hs|]. rewrite Hk. vm_compute. reflexivity.
Defined.

(** C23. Unlock.  When the running task owns the mutex it unlocks, the mutex goes
    to the waiter with the lowest index, which is the one with the highest
    priority: that task becomes Ready, finds 0 in [a0], its waiter bit is cleared
    and its hart gets a software interrupt if it is another one; without waiters
    the mutex becomes free.  The hart then reschedules and the caller gets 0. *)
Theorem sys_unlock_spec E h sp k mi m cl :
  ready_for E h k → frame_read (ram k) sp A7 = 4 →
  cap_at h (frame_read (ram k) sp A0) k = CapMutex mi cl true →
  mutex_of (Z.to_nat mi) k = Some m → owner_task_idx m = Some (Z.of_nat (current h k)) →
  ∃ sp' k2, ecall E h sp k = Done (sp', return_code sp 0 k2) ∧
    switched E h sp false (released h (advanced sp k) mi m) sp' k2 ∧
    ∀ w, lowest_waiter (waiters_bitmap m) = Some w →
      ∀ i t tw, task_of (home i) i k = Some t → task_of (home w) w k = Some tw →
        Z.testbit (waiters_bitmap m) (Z.of_nat i) = true → priority tw ≤ priority t.
Proof.
  intros Hr Ha7 Hcap Hm Hown. pose proof (ready_advanced _ _ sp _ Hr) as Hr'.
  assert (Hwp : wp no_panic (ecall E h sp) (λ r k', ∃ k2,
    switched E h sp false (released h (advanced sp k) mi m) r k2 ∧ k' = return_code sp 0 k2) k).
  { apply (wp_ecall _ _ _ _ _ 4); [done|]. simpl.
    apply (wp_unlock_prefix E h sp (advanced sp k) Hr' mi m Hm _ cl).
    - by rewrite advanced_reg.
    - rewrite decide_True by done. eauto. }
  apply wp_no_panic in Hwp as (sp' & k' & He & k2 & Hs & ->).
  exists sp', k2. split_and!; [done..|].
  intros w Hw i t tw Ht Htw Hb. pose proof (rf_inv _ _ _ Hr) as Hi.
  destruct (wf_priority _ (inv_sched _ _ Hi (home w)) _ _ Htw) as [-> _].
  destruct (wf_priority _ (inv_sched _ _ Hi (home i)) _ _ Ht) as [-> _].
  destruct (lowest_waiter_Some _ _ Hw) as (_ & _ & Hlow).
  destruct (decide (i < w)%nat) as [Hlt|]; [|lia]. by rewrite (Hlow i Hlt) in Hb.
Qed.

(** Task A unlocks while Task C waits on hart 1. *)
Definition unlock_call : Kernel :=
  default sample_reset (run [User (syscall_frame 0x3FC80380 1 0 0 0 ∅); Trap H0 8 0x3FC80380;
    User (syscall_frame 0x3FC80780 3 0 0 0 ∅); Trap H0 8 0x3FC80780;
    User (syscall_frame 0x3FC80B80 1 0 0 0 ∅); Trap H1 8 0x3FC80B80;
    User (syscall_frame 0x3FC80F80 3 0 0 0 ∅); Trap H1 8 0x3FC80F80;
    User (syscall_frame 0x3FC80780 4 0 0 0 ∅)] (demo ∅)).

Lemma sys_unlock_spec_witness :
  ∃ sp' k2, ecall sample_env H0 0x3FC80780 unlock_call = Done (sp', return_code 0x3FC80780 0 k2) ∧
    mutex_of 0 k2 = Some (mkMutex true (Some 3) 0).
Proof.
  destruct (sys_unlock_spec sample_env H0 0x3FC80780 unlock_call 0 (mkMutex true (Some 1) 8) true)
    as (sp' & k2 & He & Hs & _).
  - apply (run_ready H0 _ ∅). vm_compute. reflexivity.
  - vm_compute. reflexivity.
  - vm_compute. reflexivity.
  - vm_compute. reflexivity.
  - vm_compute. reflexivity.
  - exists sp', k2. split; [exact He|].
    assert (Hm : ∀ k1, switched sample_env H0 0x3FC80780 false k1 sp' k2 → mutex_of 0 k2 = mutex_of 0 k1).
    { intros k1 Hk1. destruct Hk1; reflexivity. }
    rewrite (Hm _ Hs). vm_compute. reflexivity.
Defined.

(** Unlocking a mutex one does not own halts the hart.  A task with the
    unlock capability that calls unlock while it is not the owner, for instance
    twice in a row, makes the kernel panic in M-mode with both spinlocks held. *)
Lemma unlock_not_owner_panics E h sp k mi m cl :
  ready_for E h k → frame_read (ram k) sp A7 = 4 →
  cap_at h (frame_read (ram k) sp A0) k = CapMutex mi cl true →
  mutex_of (Z.to_nat mi) k = Some m → owner_task_idx m ≠ Some (Z.of_nat (current h k)) →
  ecall E h sp k = Panicked AssertFailed.
Proof.
  intros Hr Ha7 Hcap Hm Hown. pose proof (ready_advanced _ _ sp _ Hr) as Hr'.
  assert (Hwp : wp (eq AssertFailed) (ecall E h sp) (λ _ _, False) k).
  { apply (wp_ecall _ _ _ _ _ 4); [done|]. simpl.
    apply (wp_unlock_prefix E h sp (advanced sp k) Hr' mi m Hm _ cl).
    - by rewrite advanced_reg.
    - by rewrite decide_False. }
  unfold wp in Hwp. destruct (ecall E h sp k) as [[]|p|]; [done| |done]. by subst.
Qed.

(** Task A unlocks the mutex it never locked. *)
Definition stray_unlock : Kernel :=
  default sample_reset (run [User (syscall_frame 0x3FC80380 1 0 0 0 ∅); Trap H0 8 0x3FC80380;
    User (syscall_frame 0x3FC80780 4 0 0 0 ∅)] (demo ∅)).

Lemma unlock_not_owner_panics_witness :
  ecall sample_env H0 0x3FC80780 stray_unlock = Panicked AssertFailed.
Proof.
  apply (unlock_not_owner_panics sample_env H0 0x3FC80780 stray_unlock 0 (mkMutex false None 0) true).
  - apply (run_ready H0 _ ∅). vm_compute. reflexivity.
  - vm_compute. reflexivity.
  - vm_compute. reflexivity.
  - vm_compute. reflexivity.
  - discriminate.
Defined.
