(* ===== verification/Footprint.v ===== *)
(** * Footprint: where the trap handler writes

    The kernel runs in M-mode, where the PMP restrains nothing, and writes through
    raw pointers it takes from register frames and task control blocks.  This file
    bounds these writes: every byte of memory a trap changes is in the frame of the
    trapping task, in the result register of a task that waits for the very event,
    or in a buffer posted for a message. *)
From S2P Require Import Prelude Memory Tcb Bitmap Can Pmp Spinlock Telemetry Kernel.
From S2P Require Import Trap KernelInv TrapInv Security Boot Reach SyscallSpec.

(** ** The footprint *)

(** The words of a frame at [sp] that hold [a0], where a call's result goes, and the
    program counter. *)
Definition result_word (sp x : Z) : Prop := sp + 24 ≤ x < sp + 28.
Definition pc_word (sp x : Z) : Prop := sp + 112 ≤ x < sp + 116.

(** The waiter [t] of some mutex. *)
Definition mutex_waiter (k : Kernel) (t : TaskControlBlock) : Prop :=
  ∃ m mx w, mutex_of m k = Some mx ∧ Z.testbit (waiters_bitmap mx) (Z.of_nat w) = true ∧
    task_of (home w) w k = Some t.

(** The task [t] is blocked in a send, or in a receive into [buf]. *)
Definition ipc_sender (k : Kernel) (t : TaskControlBlock) : Prop :=
  ∃ h i ep addr len, task_of h i k = Some t ∧ state t = BlockedOnIpcSend ep addr len.
Definition ipc_receiver (k : Kernel) (t : TaskControlBlock) (buf max_len : Z) : Prop :=
  ∃ h i ep, task_of h i k = Some t ∧ state t = BlockedOnIpcRecv ep buf max_len.

(** The bytes of other frames, and of message buffers, that a system call with its
    frame at [sp] may change in [k]. *)
Inductive foreign (sp : Z) (k : Kernel) (x : Z) : Prop :=
  | fp_waiter t : frame_read (ram k) sp A7 = 4 →
      mutex_waiter k t → result_word (saved_sp t) x → foreign sp k x
  | fp_receiver t buf max_len : frame_read (ram k) sp A7 = 6 → ipc_receiver k t buf max_len →
      result_word (saved_sp t) x ∨ buf ≤ x < buf + Z.min (frame_read (ram k) sp A2) max_len →
      foreign sp k x
  | fp_sender t : frame_read (ram k) sp A7 = 7 → ipc_sender k t →
      result_word (saved_sp t) x ∨
      frame_read (ram k) sp A1 ≤ x < frame_read (ram k) sp A1 + frame_read (ram k) sp A2 →
      foreign sp k x.

(** The bytes a trap of cause [mcause] with its frame at [sp] may change in [k]. *)
Inductive footprint (mcause sp : Z) (k : Kernel) (x : Z) : Prop :=
  | fp_call : mcause = ECALL_UMODE → result_word sp x ∨ pc_word sp x → footprint mcause sp k x
  | fp_emulated : mcause = 2 → sp ≤ x < sp + 128 → footprint mcause sp k x
  | fp_foreign : mcause = ECALL_UMODE → foreign sp k x → footprint mcause sp k x.

(** ** Partial weakest preconditions *)

Definition pwp {A} (m : K A) (Q : A → Kernel → Prop) (k : Kernel) : Prop :=
  if_returns (m k) (λ ak, Q (fst ak) (snd ak)).

Lemma pwp_bind {A B} (m : K A) (f : A → K B) Q k :
  pwp m (λ a k', pwp (f a) Q k') k → pwp (m ≫= f) Q k.
Proof. unfold pwp, mbind, K_bind. by destruct (m k) as [[]| |]. Qed.

Lemma pwp_mono {A} (m : K A) (Q Q' : A → Kernel → Prop) k :
  pwp m Q k → (∀ a k', Q a k' → Q' a k') → pwp m Q' k.
Proof. unfold pwp. destruct (m k) as [[]| |]; cbn; auto. Qed.

Lemma pwp_modify f (Q : unit → Kernel → Prop) k : Q tt (f k) → pwp (modify f) Q k.
Proof. done. Qed.

(** A computation that leaves memory alone. *)
Definition quiet {A} (m : K A) : Prop := ∀ k, pwp m (λ _ k', ram k' = ram k) k.

(** One that also leaves the task tables and the mutexes alone. *)
Definition still {A} (m : K A) : Prop :=
  ∀ k, pwp m (λ _ k', ram k' = ram k ∧ SCHEDULERS k' = SCHEDULERS k ∧ MUTEXES k' = MUTEXES k) k.

Lemma quiet_bind {A B} (m : K A) (f : A → K B) : quiet m → (∀ a, quiet (f a)) → quiet (m ≫= f).
Proof.
  intros Hm Hf k. apply pwp_bind. eapply pwp_mono; [apply Hm|]. intros a k' <-. apply Hf.
Qed.

Lemma still_bind {A B} (m : K A) (f : A → K B) : still m → (∀ a, still (f a)) → still (m ≫= f).
Proof.
  intros Hm Hf k. apply pwp_bind. eapply pwp_mono; [apply Hm|]. intros a k' (<- & <- & <-). apply Hf.
Qed.

Lemma still_quiet {A} (m : K A) : still m → quiet m.
Proof. intros Hm k. eapply pwp_mono; [apply Hm|]. by intros a k' (-> & _). Qed.

Lemma quiet_modify f : (∀ k, ram (f k) = ram k) → quiet (modify f).
Proof. intros Hf k. apply pwp_modify, Hf. Qed.

Lemma still_gets {A} (f : Kernel → A) : still (gets f).
Proof. done. Qed.
Lemma still_ret {A} (a : A) : still (mret a).
Proof. done. Qed.
Lemma still_lift {A} (r : result A) : still (lift r).
Proof. intros k. by destruct r. Qed.
Lemma still_panic {A} p : still (kpanic p : K A).
Proof. done. Qed.
Lemma still_modify f :
  (∀ k, ram (f k) = ram k ∧ SCHEDULERS (f k) = SCHEDULERS k ∧ MUTEXES (f k) = MUTEXES k) → still (modify f).
Proof. intros Hf k. apply pwp_modify, Hf. Qed.

Create HintDb foot.
#[export] Hint Resolve still_gets still_ret still_lift still_panic : foot.

(** Walks through a computation whose every access is known. *)
Ltac foot := repeat first
  [ done | solve [eauto with foot]
  | apply still_bind; [|intros ?] | apply quiet_bind; [|intros ?]
  | apply still_modify; done | apply quiet_modify; done | case_match | apply still_quiet; solve [eauto with foot] ].

Lemma still_get_task h i : still (get_task h i).
Proof. unfold get_task, get_sched. foot. Qed.
Lemma still_fread sp i : still (fread sp i).
Proof. apply still_gets. Qed.
Lemma still_get_mutex i : still (get_mutex i).
Proof. unfold get_mutex. foot. Qed.
Lemma still_sched_lock h : still (sched_lock h).
Proof. unfold sched_lock. foot. Qed.
Lemma still_mutex_lock h : still (mutex_lock h).
Proof. unfold mutex_lock. foot. Qed.
Lemma still_mutex_unlock : still mutex_unlock.
Proof. unfold mutex_unlock. foot. Qed.
Lemma still_sched_unlock : still sched_unlock.
Proof. unfold sched_unlock. foot. Qed.
Lemma still_log e : still (log e).
Proof. unfold log. foot. Qed.
Lemma still_write_msip h v : still (write_msip h v).
Proof. unfold write_msip. foot. Qed.
#[export] Hint Resolve still_get_task still_fread still_get_mutex still_sched_lock still_mutex_lock
  still_mutex_unlock still_sched_unlock still_log still_write_msip : foot.

Lemma still_running_cap h c : still (running_cap h c).
Proof. unfold running_cap, get_sched. foot. Qed.
Lemma still_notify h g : still (notify h g).
Proof. unfold notify. foot. Qed.
Lemma still_find_task p : still (find_task p).
Proof. unfold find_task, get_sched. foot. Qed.
Lemma still_scan_waiters b cands hi : still (scan_waiters b cands hi).
Proof. revert hi. induction cands as [|i l IH]; intros hi; cbn [scan_waiters]; foot. Qed.
Lemma still_highest_waiter b : still (highest_waiter b).
Proof. apply still_scan_waiters. Qed.
#[export] Hint Resolve still_running_cap still_notify still_find_task still_highest_waiter : foot.

Lemma quiet_put_sched h s : quiet (put_sched h s).
Proof. unfold put_sched. foot. Qed.
Lemma quiet_put_mutex i m : quiet (put_mutex i m).
Proof. unfold put_mutex. foot. Qed.
#[export] Hint Resolve quiet_put_sched quiet_put_mutex : foot.
Lemma quiet_put_state h i s : quiet (put_state h i s).
Proof. unfold put_state, get_sched. foot. Qed.
Lemma quiet_put_state_if_some h i s : quiet (put_state_if_some h i s).
Proof. unfold put_state_if_some, get_sched. foot. Qed.
#[export] Hint Resolve quiet_put_state quiet_put_state_if_some : foot.
Lemma quiet_reprogram E h nm : quiet (reprogram E h nm).
Proof. unfold reprogram. foot. Qed.
#[export] Hint Resolve quiet_reprogram : foot.
Lemma quiet_switch_task E h sp b : quiet (switch_task E h sp b).
Proof. unfold switch_task, get_sched. foot. Qed.
#[export] Hint Resolve quiet_switch_task : foot.
Lemma quiet_recover_mutexes target l : quiet (recover_mutexes target l).
Proof. induction l as [|i l IH]; cbn [recover_mutexes]; unfold recover_mutex; foot. Qed.
#[export] Hint Resolve quiet_recover_mutexes : foot.
Lemma quiet_recovery h target : quiet (recovery h target).
Proof. unfold recovery. foot. Qed.
#[export] Hint Resolve quiet_recovery : foot.

(** ** Writes *)

(** The two memories agree outside [F]. *)
Definition outside (F : Z → Prop) (m m' : Mem) : Prop := ∀ x, ¬ F x → load8 m' x = load8 m x.

#[export] Instance outside_preorder F : PreOrder (outside F).
Proof. split; [by intros m x|]. intros m1 m2 m3 H1 H2 x Hx. by rewrite H2, H1. Qed.

Definition writes {A} (F : Z → Prop) (m : K A) : Prop := ∀ k, pwp m (λ _ k', outside F (ram k) (ram k')) k.

Lemma writes_bind {A B} F (m : K A) (f : A → K B) : writes F m → (∀ a, writes F (f a)) → writes F (m ≫= f).
Proof.
  intros Hm Hf k. apply pwp_bind. eapply pwp_mono; [apply Hm|]. intros a k' H1.
  eapply pwp_mono; [apply Hf|]. cbv beta in *. intros b k'' H2. by trans (ram k').
Qed.

Lemma writes_quiet {A} F (m : K A) : quiet m → writes F m.
Proof. intros Hm k. eapply pwp_mono; [apply Hm|]. cbv beta. intros a k' ->. reflexivity. Qed.

(** The frame of the trapping task. *)
Definition near (sp x : Z) : Prop := sp ≤ x < sp + 128.

Lemma outside_frame_write (F : Z → Prop) m f i v :
  (∀ x, f + 4 * Z.of_nat i ≤ x < f + 4 * Z.of_nat i + 4 → F x) → outside F m (frame_write m f i v).
Proof. intros Hf x Hx. unfold frame_write. apply load8_store32_out. intros H. by apply Hx, Hf. Qed.

Lemma writes_own sp i v (F : Z → Prop) : (i < 32)%nat → (∀ x, near sp x → F x) → writes F (fwrite sp i v).
Proof. intros Hi HF k. apply pwp_modify. apply outside_frame_write. intros x Hx. apply HF. unfold near. lia. Qed.

Lemma writes_guard {A} F h (body : K A) : writes F body → writes F (sched_guard h body).
Proof.
  intros Hb. unfold sched_guard. apply writes_bind; [apply writes_quiet, still_quiet, still_sched_lock|].
  intros _. apply writes_bind; [done|]. intros a. apply writes_quiet. foot.
Qed.

Lemma writes_result sp v (F : Z → Prop) : (∀ x, result_word sp x → F x) → writes F (fwrite sp A0 v).
Proof.
  intros HF k. apply pwp_modify. apply outside_frame_write. intros x Hx. apply HF.
  unfold result_word, A0 in *. lia.
Qed.

(** Walks through a computation that writes only to the frame of its task. *)
Ltac foot_own := repeat first
  [ done | apply writes_quiet; solve [foot] | apply writes_result; solve [auto]
  | apply writes_own; [unfold A0, MEPC; lia|solve [auto]]
  | apply writes_guard | apply writes_bind; [|intros ?] | case_match ].

Section arms.
Context (E : Env) (h : hart) (sp : Z) (F : Z → Prop) (Hown : ∀ x, result_word sp x → F x).

Lemma writes_sys_lock : writes F (sys_lock E h sp).
Proof. unfold sys_lock, get_sched, deny_locked. foot_own. Qed.

Lemma writes_sys_terminate : writes F (sys_terminate E h sp).
Proof. unfold sys_terminate, terminate_slot, get_sched. foot_own. Qed.

Lemma frame_idx_small rd i : 0 ≤ rd < 32 → frame_idx rd = Some i → (i < 32)%nat.
Proof. intros Hr. unfold frame_idx. repeat case_match; intros [= <-]; lia. Qed.

Lemma writes_emulate_csr instruction mepc :
  (∀ x, near sp x → F x) → writes F (emulate_csr E sp instruction mepc).
Proof.
  intros Hnear. unfold emulate_csr. apply writes_bind; [|intros _; foot_own].
  destruct (frame_idx _) as [i|] eqn:Hi; [|foot_own]. apply writes_own; [|done].
  apply frame_idx_small in Hi; [done|].
  change 0x1F with (Z.ones 5). rewrite Z.land_ones by lia. by apply Z.mod_pos_bound.
Qed.

Lemma quiet_guard {A} (body : K A) : quiet body → quiet (sched_guard h body).
Proof. intros Hb. unfold sched_guard. foot. Qed.

Lemma quiet_interrupts : quiet (timer_interrupt E h sp) ∧ quiet (software_interrupt E h sp).
Proof.
  split; unfold timer_interrupt, software_interrupt, get_sched.
  - do 3 (apply quiet_bind; [foot|intros ?]). apply quiet_guard. foot.
  - apply quiet_bind; [foot|intros _]. apply quiet_guard. foot.
Qed.

Lemma quiet_calls : quiet (sys_yield E h sp) ∧ quiet (sys_sleep E h sp) ∧ quiet (sys_checkin h sp).
Proof.
  unfold sys_yield, sys_sleep, sys_checkin, get_sched. split_and!.
  - apply quiet_guard. foot.
  - apply quiet_bind; [foot|intros ?]. apply quiet_guard. foot.
  - apply quiet_guard. foot.
Qed.

Lemma quiet_contain_fault cause : quiet (contain_fault E h sp cause).
Proof.
  unfold contain_fault, get_sched. apply quiet_bind; [foot|intros mepc].
  apply quiet_bind; [foot|intros _]. apply quiet_bind; [foot|intros _]. apply quiet_guard. foot.
Qed.
End arms.

(** ** The calls that reach other tasks *)

Lemma pwp_get_task h i k :
  pwp (get_task h i) (λ t k', k' = k ∧ task_of h i k = Some t) k.
Proof.
  unfold pwp, get_task, get_sched, mbind, K_bind, gets, lift, index, unwrap, task_of, slot, sched_of.
  destruct (task_table (ph_get h (SCHEDULERS k)) !! i) as [[t|]|]; cbn; auto.
Qed.

Lemma pwp_get_mutex i k : pwp (get_mutex i) (λ o k', k' = k ∧ mutex_of i k = o) k.
Proof.
  unfold pwp, get_mutex, mbind, K_bind, gets, lift, index, mutex_of, slot.
  destruct (MUTEXES k !! i) as [[m|]|]; cbn; auto.
Qed.

Lemma pwp_put_state h i st k :
  pwp (put_state h i st) (λ _ k', k' = upd_task h i (set_state st) k) k.
Proof.
  unfold put_state. apply pwp_bind. eapply pwp_mono; [apply pwp_get_task|]. by intros t k' [-> _].
Qed.

Lemma pwp_scan_waiters b l hi k :
  (∀ w, hi = Some w → Z.testbit b (Z.of_nat w) = true) →
  pwp (scan_waiters b l hi) (λ o k', k' = k ∧ ∀ w, o = Some w → Z.testbit b (Z.of_nat w) = true) k.
Proof.
  revert hi. induction l as [|i l IH]; intros hi Hhi; cbn [scan_waiters]; [done|].
  rewrite bit_test. destruct (Z.testbit b (Z.of_nat i)) eqn:Hb; [|by apply IH]. cbn [negb].
  destruct hi as [w|]; [|apply IH; by intros w [= <-]].
  apply pwp_bind. eapply pwp_mono; [apply pwp_get_task|]. intros tw k' [-> _].
  apply pwp_bind. eapply pwp_mono; [apply pwp_get_task|]. intros ti k' [-> _].
  apply IH. intros v. case_match; intros [= <-]; [done|by apply Hhi].
Qed.

(** Enters a lock guard: the body runs in a state that differs in the lock only. *)
Lemma pwp_guard {A} h (body : K A) (F : Z → Prop) k :
  (∀ k1, ram k1 = ram k → SCHEDULERS k1 = SCHEDULERS k → MUTEXES k1 = MUTEXES k →
    pwp body (λ _ k', outside F (ram k) (ram k')) k1) →
  pwp (sched_guard h body) (λ _ k', outside F (ram k) (ram k')) k.
Proof.
  intros Hb. unfold sched_guard. apply pwp_bind. eapply pwp_mono; [apply still_sched_lock|].
  intros _ k1 (H1 & H2 & H3). apply pwp_bind. eapply pwp_mono; [by apply Hb|].
  cbv beta. intros a k2 Ho. apply pwp_bind. eapply pwp_mono; [apply still_sched_unlock|].
  intros _ k3 (Hr & _). change (outside F (ram k) (ram k3)). by rewrite Hr.
Qed.

Lemma pwp_fread f i (Q : Z → Kernel → Prop) k : Q (frame_read (ram k) f i) k → pwp (fread f i) Q k.
Proof. done. Qed.

(** A step that changes neither memory, tables nor mutexes. *)
Lemma pwp_still {A B} (m : K A) (f : A → K B) Q k :
  still m →
  (∀ a k', ram k' = ram k → SCHEDULERS k' = SCHEDULERS k → MUTEXES k' = MUTEXES k → pwp (f a) Q k') →
  pwp (m ≫= f) Q k.
Proof.
  intros Hm Hf. apply pwp_bind. eapply pwp_mono; [apply Hm|]. intros a k' (H1 & H2 & H3). by apply Hf.
Qed.

(** The rest of a computation writes only within [F]. *)
Lemma pwp_writes {A} (m : K A) F k0 k :
  writes F m → outside F (ram k0) (ram k) → pwp m (λ _ k', outside F (ram k0) (ram k')) k.
Proof. intros Hm Ho. eapply pwp_mono; [apply Hm|]. cbv beta. intros a k' H. by trans (ram k). Qed.

Lemma task_of_ext h i k k' : SCHEDULERS k' = SCHEDULERS k → task_of h i k' = task_of h i k.
Proof. unfold task_of, sched_of. by intros ->. Qed.

Lemma outside_result_word (F : Z → Prop) m f v :
  (∀ x, result_word f x → F x) → outside F m (frame_write m f A0 v).
Proof. intros HF. apply outside_frame_write. intros x Hx. apply HF. unfold result_word, A0 in *. lia. Qed.

Section peers.
Context (E : Env) (h : hart) (sp : Z).

Definition unlock_print (k : Kernel) (x : Z) : Prop :=
  result_word sp x ∨ ∃ t, mutex_waiter k t ∧ result_word (saved_sp t) x.

Lemma sys_unlock_prints k : pwp (sys_unlock E h sp) (λ _ k', outside (unlock_print k) (ram k) (ram k')) k.
Proof.
  assert (Hown : ∀ x, result_word sp x → unlock_print k x) by (by left).
  unfold sys_unlock. apply pwp_bind, pwp_fread, pwp_guard. intros k1 Hr1 Hs1 Hm1.
  apply pwp_still; [apply still_gets|]. intros s k2 Hr2 Hs2 Hm2.
  apply pwp_still; [apply still_mutex_lock|]. intros _ k3 Hr3 Hs3 Hm3.
  apply pwp_still; [apply still_running_cap|]. intros cap k4 Hr4 Hs4 Hm4.
  assert (Hr : ram k4 = ram k) by congruence. assert (Hs : SCHEDULERS k4 = SCHEDULERS k) by congruence.
  assert (Hm : MUTEXES k4 = MUTEXES k) by congruence.
  clear k1 k2 k3 Hr1 Hs1 Hm1 Hr2 Hs2 Hm2 Hr3 Hs3 Hm3 Hr4 Hs4 Hm4.
  apply pwp_bind. eapply (pwp_mono _ (λ _ k', outside (unlock_print k) (ram k) (ram k'))).
  2: { intros vs k' Ho. apply pwp_writes; [foot_own|done]. }
  assert (Ho : outside (unlock_print k) (ram k) (ram k4)) by (rewrite Hr; reflexivity).
  destruct cap as [|m cl [|]|]; [| |apply pwp_writes; [unfold deny_locked; foot_own|done]..];
    [apply pwp_writes; [unfold deny_locked; foot_own|done]|].
  apply pwp_bind. eapply pwp_mono; [apply pwp_get_mutex|]. intros o k' [-> Hmx].
  destruct o as [mx|]; [|apply pwp_writes; [unfold deny_locked; foot_own|done]].
  case_match; [done|]. apply pwp_bind. eapply pwp_mono; [by apply pwp_scan_waiters|].
  intros [w|] k' [-> Hw]; [|apply pwp_writes; [foot_own|done]].
  apply pwp_bind, pwp_bind, pwp_modify, pwp_bind. eapply pwp_mono; [apply pwp_put_state|]. intros _ k' ->.
  apply pwp_bind. eapply pwp_mono; [apply pwp_get_task|]. intros t k' [-> Ht].
  rewrite task_of_upd, decide_True in Ht by done.
  change (set_state Ready <$> task_of (home w) w k4 = Some t) in Ht. apply fmap_Some in Ht as (t' & Ht' & ->).
  apply pwp_bind, pwp_modify. eapply pwp_mono; [apply (pwp_writes _ (unlock_print k) k)|]; [foot_own| |].
  - cbn [ram set_ram upd_task set_SCHEDULERS set_MUTEXES]. trans (ram k4); [done|].
    apply outside_result_word. intros x Hx. right.
    exists t'. split; [exists (Z.to_nat m), mx, w; split_and!|].
    + unfold mutex_of in *. by rewrite <- Hm.
    + by apply Hw.
    + by rewrite <- (task_of_ext _ _ _ _ Hs).
    + exact Hx.
  - intros [] k' Hk'. apply pwp_writes; [foot_own|done].
Qed.
(** What both directions of IPC share: the message goes to [dst], the peer [t] and
    the caller get their results. *)
Lemma transfer_prints (F : Z → Prop) (ep src dst n v w : Z) (h' : hart) i t k0 k :
  outside F (ram k0) (ram k) → (∀ x, result_word sp x → F x) → (∀ x, result_word (saved_sp t) x → F x) →
  (∀ x, dst ≤ x < dst + n → F x) →
  pwp (_ ← copy_mem src dst n; _ ← put_state h' i Ready; _ ← fwrite (saved_sp t) A0 v;
       _ ← fwrite sp A0 w; _ ← log (IpcTransfer ep (u8 n)); _ ← notify h h'; mret sp)
    (λ _ k', outside F (ram k0) (ram k')) k.
Proof.
  intros Ho Hown Hres Hdst. apply pwp_bind, pwp_modify.
  assert (Hc : outside F (ram k0) (copy_nonoverlapping (ram k) src dst n)).
  { trans (ram k); [done|]. intros x Hx. unfold copy_nonoverlapping. apply load8_store_bytes_out.
    rewrite load_bytes_length. intros H. apply Hx, Hdst. lia. }
  apply pwp_bind. eapply pwp_mono; [apply pwp_put_state|]. intros _ k' ->.
  apply pwp_bind, pwp_modify. apply pwp_writes; [foot_own|].
  cbn [ram set_ram upd_task set_SCHEDULERS]. by etrans; [|apply outside_result_word].
Qed.

Definition send_print (k : Kernel) (x : Z) : Prop :=
  result_word sp x ∨ ∃ t buf max_len, ipc_receiver k t buf max_len ∧
    (result_word (saved_sp t) x ∨ buf ≤ x < buf + Z.min (frame_read (ram k) sp A2) max_len).

Definition recv_print (k : Kernel) (x : Z) : Prop :=
  result_word sp x ∨ ∃ t, ipc_sender k t ∧
    (result_word (saved_sp t) x ∨
     frame_read (ram k) sp A1 ≤ x < frame_read (ram k) sp A1 + frame_read (ram k) sp A2).

Lemma sys_send_prints k : pwp (sys_send E h sp) (λ _ k', outside (send_print k) (ram k) (ram k')) k.
Proof.
  assert (Hown : ∀ x, result_word sp x → send_print k x) by (by left).
  unfold sys_send. do 3 apply pwp_bind, pwp_fread. apply pwp_guard. intros k1 Hr1 Hs1 Hm1.
  apply pwp_still; [apply still_gets|]. intros s k2 Hr2 Hs2 Hm2.
  apply pwp_still; [apply still_running_cap|]. intros cap k3 Hr3 Hs3 Hm3.
  assert (Ho : outside (send_print k) (ram k) (ram k3)) by (rewrite Hr3, Hr2, Hr1; reflexivity).
  destruct cap as [| |ep [|] cr]; [apply pwp_writes; [foot_own|done]..| |apply pwp_writes; [foot_own|done]].
  apply pwp_still; [apply still_find_task|]. intros [[h' i]|] k4 Hr4 Hs4 Hm4; rewrite <- Hr4 in Ho;
    [|apply pwp_writes; [foot_own|done]].
  apply pwp_bind. eapply pwp_mono; [apply pwp_get_task|]. intros t k' [-> Ht].
  destruct (state t) as [| | | | |ep' buf max_len|] eqn:Hst; try done.
  assert (Hrx : ipc_receiver k t buf max_len).
  { exists h', i, ep'. split; [|done]. rewrite <- Ht. symmetry. apply task_of_ext. congruence. }
  apply transfer_prints; [done..| |]; intros x Hx; right; exists t, buf, max_len; auto.
Qed.

Lemma sys_recv_prints k : pwp (sys_recv E h sp) (λ _ k', outside (recv_print k) (ram k) (ram k')) k.
Proof.
  assert (Hown : ∀ x, result_word sp x → recv_print k x) by (by left).
  unfold sys_recv. do 3 apply pwp_bind, pwp_fread. apply pwp_guard. intros k1 Hr1 Hs1 Hm1.
  apply pwp_still; [apply still_gets|]. intros s k2 Hr2 Hs2 Hm2.
  apply pwp_still; [apply still_running_cap|]. intros cap k3 Hr3 Hs3 Hm3.
  assert (Ho : outside (recv_print k) (ram k) (ram k3)) by (rewrite Hr3, Hr2, Hr1; reflexivity).
  destruct cap as [| |ep cs [|]]; [apply pwp_writes; [foot_own|done]..| |apply pwp_writes; [foot_own|done]].
  apply pwp_still; [apply still_find_task|]. intros [[h' i]|] k4 Hr4 Hs4 Hm4; rewrite <- Hr4 in Ho;
    [|apply pwp_writes; [foot_own|done]].
  apply pwp_bind. eapply pwp_mono; [apply pwp_get_task|]. intros t k' [-> Ht].
  destruct (state t) as [| | | |ep' addr len| |] eqn:Hst; try done.
  assert (Htx : ipc_sender k t).
  { exists h', i, ep', addr, len. split; [|done]. rewrite <- Ht. symmetry. apply task_of_ext. congruence. }
  apply transfer_prints; [done..| |]; intros x Hx; right; exists t; split; [done| |done|]; [by left|right; lia].
Qed.
End peers.

(** ** The whole handler *)

Section handler.
Context (E : Env) (h : hart) (sp : Z) (k : Kernel).

(** What the arm of a call writes, the program counter having been advanced. *)
Definition arm_print (x : Z) : Prop := result_word sp x ∨ foreign sp k x.
Local Abbreviation F := arm_print.

Lemma own_print x : result_word sp x → F x.
Proof. by left. Qed.

Lemma outside_mono (P Q : Z → Prop) m m' : (∀ x, P x → Q x) → outside P m m' → outside Q m m'.
Proof. intros H Ho x Hx. apply Ho. auto. Qed.

Lemma advanced_read i : i ≠ MEPC → frame_read (ram (advanced sp k)) sp i = frame_read (ram k) sp i.
Proof. intros Hi. unfold advanced. cbn [ram set_ram]. by apply frame_read_write_ne. Qed.

(** The arms run after the program counter was advanced; their other registers are
    those of the trap. *)
Lemma arm_prints : pwp (ecall E h sp) (λ _ k', outside F (ram (advanced sp k)) (ram k')) k.
Proof.
  unfold ecall. apply pwp_bind, pwp_fread, pwp_bind, pwp_fread, pwp_bind, pwp_modify. fold (advanced sp k).
  destruct (quiet_calls E h sp) as (Hy & Hsl & Hci).
  assert (Hp : ∀ A (arm : K A) (P : Z → Prop),
    pwp arm (λ _ k', outside P (ram (advanced sp k)) (ram k')) (advanced sp k) → (∀ x, P x → F x) →
    pwp arm (λ _ k', outside F (ram (advanced sp k)) (ram k')) (advanced sp k)).
  { intros A arm P Ha HP. eapply pwp_mono; [exact Ha|]. cbv beta. intros a k'. by apply outside_mono. }
  assert (Hw : ∀ A (arm : K A), writes F arm →
    pwp arm (λ _ k', outside F (ram (advanced sp k)) (ram k')) (advanced sp k)) by (intros A arm Ha; apply Ha).
  destruct (Z.eqb_spec (frame_read (ram k) sp A7) 1); [by apply Hw, writes_quiet|].
  destruct (Z.eqb_spec (frame_read (ram k) sp A7) 2); [by apply Hw, writes_quiet|].
  destruct (Z.eqb_spec (frame_read (ram k) sp A7) 3); [apply Hw, writes_sys_lock, own_print|].
  destruct (Z.eqb_spec (frame_read (ram k) sp A7) 4) as [H4|].
  { apply (Hp _ _ _ (sys_unlock_prints E h sp (advanced sp k))).
    intros x [Hx|(t & Ht & Hx)]; [by left|right; by eapply fp_waiter]. }
  destruct (Z.eqb_spec (frame_read (ram k) sp A7) 5); [by apply Hw, writes_quiet|].
  destruct (Z.eqb_spec (frame_read (ram k) sp A7) 6) as [H6|].
  { apply (Hp _ _ _ (sys_send_prints E h sp (advanced sp k))).
    intros x [Hx|(t & b & n' & Ht & Hx)]; [by left|right].
    rewrite advanced_read in Hx by done. by eapply fp_receiver. }
  destruct (Z.eqb_spec (frame_read (ram k) sp A7) 7) as [H7|].
  { apply (Hp _ _ _ (sys_recv_prints E h sp (advanced sp k))).
    intros x [Hx|(t & Ht & Hx)]; [by left|right].
    rewrite !advanced_read in Hx by done. by eapply fp_sender. }
  case_match; [apply Hw, writes_sys_terminate, own_print|]. apply Hw. pose proof own_print. foot_own.
Qed.

Lemma ecall_prints : pwp (ecall E h sp) (λ _ k', outside (footprint ECALL_UMODE sp k) (ram k) (ram k')) k.
Proof.
  eapply pwp_mono; [apply arm_prints|]. cbv beta. intros a k' Ho. trans (ram (advanced sp k)).
  - cbn [ram advanced set_ram]. apply outside_frame_write. intros x Hx. apply fp_call; [done|right].
    unfold pc_word, MEPC in *. lia.
  - eapply outside_mono; [|exact Ho]. intros x [Hx|Hx]; [apply fp_call; [done|by left]|by apply fp_foreign].
Qed.

Lemma exception_prints mcause :
  writes (footprint mcause sp k) (exception E h sp mcause).
Proof.
  unfold exception. apply writes_bind; [foot_own|intros mepc].
  apply writes_bind; [foot_own|intros i]. destruct (_ && _) eqn:Hc.
  - apply andb_true_iff in Hc as [->%Z.eqb_eq _]. apply writes_emulate_csr. intros x Hx. by apply fp_emulated.
  - case_match; [apply writes_quiet, quiet_contain_fault|foot_own].
Qed.
End handler.

(** ** Properties *)

Lemma changes_in_footprint E h mcause sp start_cycle k sp' k' x :
  trap_handler E h mcause sp start_cycle k = Done (sp', k') →
  ¬ footprint mcause sp k x → load8 (ram k') x = load8 (ram k) x.
Proof.
  intros Ht Hx.
  assert (Hp : pwp (trap_handler E h mcause sp start_cycle)
    (λ _ k', outside (footprint mcause sp k) (ram k) (ram k')) k); [|unfold pwp in Hp; rewrite Ht in Hp; by apply Hp].
  unfold trap_handler. apply pwp_bind, pwp_modify.
  set (k0 := set_METRIC_TRAP_LATENCY_CYCLES _ k). change (ram k) with (ram k0).
  destruct (quiet_interrupts E h sp) as [Hti Hso].
  destruct (Z.eqb_spec mcause TIMER_INTERRUPT); [by apply pwp_writes; [apply writes_quiet|reflexivity]|].
  destruct (Z.eqb_spec mcause SOFTWARE_INTERRUPT); [by apply pwp_writes; [apply writes_quiet|reflexivity]|].
  destruct (Z.eqb_spec mcause ECALL_UMODE) as [-> |].
  - eapply pwp_mono; [apply (ecall_prints E h sp k0)|]. intros a k1. apply outside_mono.
    intros y [? ?|? ?|? Hy]; [by apply fp_call|by apply fp_emulated|apply fp_foreign; [done|]].
    destruct Hy; [by eapply fp_waiter|by eapply fp_receiver|by eapply fp_sender].
  - apply pwp_writes; [apply exception_prints|reflexivity].
Qed.


Lemma call_word_near sp x : result_word sp x ∨ pc_word sp x → near sp x.
Proof. unfold result_word, pc_word, near. lia. Qed.

(** Interrupts leave memory alone. *)
Lemma interrupt_footprint E h mcause sp start_cycle k sp' k' :
  mcause = TIMER_INTERRUPT ∨ mcause = SOFTWARE_INTERRUPT →
  trap_handler E h mcause sp start_cycle k = Done (sp', k') → ram k' = ram k.
Proof.
  intros Hc Ht. destruct (quiet_interrupts E h sp) as [Hti Hso].
  assert (Hp : pwp (trap_handler E h mcause sp start_cycle) (λ _ k', ram k' = ram k) k);
    [|unfold pwp in Hp; by rewrite Ht in Hp].
  unfold trap_handler. apply pwp_bind, pwp_modify.
  set (k0 := set_METRIC_TRAP_LATENCY_CYCLES _ k). change (ram k) with (ram k0).
  destruct Hc as [-> | ->]; [apply Hti|apply Hso].
Qed.

