(* ===== verification/Parking.v ===== *)
(** * Parking: what a trap does to saved stack pointers

    The kernel writes results through the stack pointers it saved.  A trap on a
    hart changes no saved stack pointer but that of the task it was taken from, and
    when the hart goes on with another task that one becomes the frame of the trap. *)
From S2P Require Import Prelude Memory Tcb Bitmap Can Pmp Spinlock Telemetry Kernel.
From S2P Require Import Trap KernelInv TrapInv Security Boot Reach SyscallSpec Footprint.

Definition sp_of (h : hart) (i : nat) (k : Kernel) : option Z := saved_sp <$> task_of h i k.

Record parks (h : hart) (sp : Z) (k k' : Kernel) : Prop := {
  pk_other : ∀ h' i, ¬ (h' = h ∧ i = current h k) → sp_of h' i k' = sp_of h' i k;
  pk_hart : ∀ h', h' ≠ h → current h' k' = current h' k;
  pk_self : (sp_of h (current h k) k' = sp_of h (current h k) k ∧ current h k' = current h k) ∨
            sp_of h (current h k) k' = Some sp ∨ task_of h (current h k) k = None
}.

(** Nothing of this changes. *)
Definition same_sp (k k' : Kernel) : Prop :=
  (∀ h i, sp_of h i k' = sp_of h i k) ∧ ∀ h, current h k' = current h k.

Definition fixed {A} (m : K A) : Prop := ∀ k, pwp m (λ _ k', same_sp k k') k.
Definition parking {A} (h : hart) (sp : Z) (m : K A) : Prop := ∀ k, pwp m (λ _ k', parks h sp k k') k.

Lemma same_sp_fields k k' : SCHEDULERS k' = SCHEDULERS k → same_sp k k'.
Proof. intros H. unfold same_sp, sp_of, task_of, current, sched_of. by rewrite H. Qed.

Lemma same_sp_trans k1 k2 k3 : same_sp k1 k2 → same_sp k2 k3 → same_sp k1 k3.
Proof. intros [H1 H2] [I1 I2]. split; intros; by rewrite ?I1, ?I2, ?H1, ?H2. Qed.

Lemma same_sp_some k k' h i : same_sp k k' → task_of h i k' = None ↔ task_of h i k = None.
Proof.
  intros [H _]. specialize (H h i). unfold sp_of in H.
  destruct (task_of h i k), (task_of h i k'); cbn in H; naive_solver.
Qed.

Lemma same_parks h sp k k' : same_sp k k' → parks h sp k k'.
Proof. intros [H1 H2]. split; auto. Qed.

Lemma parks_same_l h sp k k1 k' : same_sp k k1 → parks h sp k1 k' → parks h sp k k'.
Proof.
  intros Hs [H1 H2 H3]. pose proof (same_sp_some k k1 h (current h k) Hs) as Hn. destruct Hs as [S1 S2].
  split; [intros h' i Hi|intros h' Hh|].
  - rewrite H1, S1; [done|by rewrite S2].
  - by rewrite H2, S2.
  - rewrite S2 in H3. rewrite S1 in H3. rewrite Hn in H3. done.
Qed.

Lemma parks_same_r h sp k k1 k' : parks h sp k k1 → same_sp k1 k' → parks h sp k k'.
Proof.
  intros [H1 H2 H3] [S1 S2]. split; [intros h' i Hi|intros h' Hh|].
  - by rewrite S1, H1.
  - by rewrite S2, H2.
  - by rewrite S1, S2.
Qed.

Lemma fixed_bind {A B} (m : K A) (f : A → K B) : fixed m → (∀ a, fixed (f a)) → fixed (m ≫= f).
Proof.
  intros Hm Hf k. apply pwp_bind. eapply pwp_mono; [apply Hm|]. intros a k1 H1.
  eapply pwp_mono; [apply Hf|]. intros b k2 H2. by apply (same_sp_trans k k1).
Qed.

Lemma still_fixed {A} (m : K A) : still m → fixed m.
Proof. intros Hm k. eapply pwp_mono; [apply Hm|]. intros a k' (_ & H & _). by apply same_sp_fields. Qed.

Lemma fixed_modify f : (∀ k, SCHEDULERS (f k) = SCHEDULERS k) → fixed (modify f).
Proof. intros Hf k. apply pwp_modify, same_sp_fields, Hf. Qed.

Lemma parking_fixed {A} h sp (m : K A) : fixed m → parking h sp m.
Proof. intros Hm k. eapply pwp_mono; [apply Hm|]. intros a k'. apply same_parks. Qed.

Lemma parking_bind_l {A B} h sp (m : K A) (f : A → K B) :
  fixed m → (∀ a, parking h sp (f a)) → parking h sp (m ≫= f).
Proof.
  intros Hm Hf k. apply pwp_bind. eapply pwp_mono; [apply Hm|]. intros a k1 H1.
  eapply pwp_mono; [apply Hf|]. intros b k2. by apply parks_same_l.
Qed.

Lemma parking_bind_r {A B} h sp (m : K A) (f : A → K B) :
  parking h sp m → (∀ a, fixed (f a)) → parking h sp (m ≫= f).
Proof.
  intros Hm Hf k. apply pwp_bind. eapply pwp_mono; [apply Hm|]. intros a k1 H1.
  eapply pwp_mono; [apply Hf|]. intros b k2. by apply parks_same_r.
Qed.

Lemma same_sp_upd h i st k : same_sp k (upd_task h i (set_state st) k).
Proof.
  split; [|intros h'; apply current_upd]. intros h' j. unfold sp_of. rewrite task_of_upd.
  case_decide; [|done]. by destruct (task_of h' j k).
Qed.

Lemma fixed_put_state h i st : fixed (put_state h i st).
Proof. intros k. eapply pwp_mono; [apply pwp_put_state|]. intros _ k' ->. apply same_sp_upd. Qed.

Lemma fixed_put_state_if_some h i st : fixed (put_state_if_some h i st).
Proof.
  intros k. unfold put_state_if_some, get_sched. apply pwp_bind.
  change (pwp (o ← lift (index (task_table (sched_of h k)) i);
    match o with
    | Some _ => put_sched h (set_table (alter (fmap (set_state st)) i (task_table (sched_of h k))) (sched_of h k))
    | None => mret tt
    end) (λ _, same_sp k) k).
  apply pwp_bind. unfold pwp, lift. destruct (index _ _) as [[t|]| |]; cbn; [|done..].
  apply same_sp_upd.
Qed.

Create HintDb park.
#[export] Hint Resolve fixed_put_state fixed_put_state_if_some : park.

Ltac park := repeat first
  [ done | solve [eauto with park] | apply still_fixed; solve [foot]
  | apply fixed_bind; [|intros ?] | apply fixed_modify; done | case_match ].

Lemma fixed_put_mutex i m : fixed (put_mutex i m).
Proof. unfold put_mutex. park. Qed.
Lemma fixed_fwrite f i v : fixed (fwrite f i v).
Proof. unfold fwrite. park. Qed.
Lemma fixed_copy_mem a b n : fixed (copy_mem a b n).
Proof. unfold copy_mem. park. Qed.
#[export] Hint Resolve fixed_put_mutex fixed_fwrite fixed_copy_mem : park.

Lemma fixed_reprogram E h nm : fixed (reprogram E h nm).
Proof. unfold reprogram. park. Qed.
Lemma fixed_recover_mutexes target l : fixed (recover_mutexes target l).
Proof. induction l as [|i l IH]; cbn [recover_mutexes]; unfold recover_mutex; park. Qed.
#[export] Hint Resolve fixed_reprogram fixed_recover_mutexes : park.
Lemma fixed_recovery h target : fixed (recovery h target).
Proof. unfold recovery. park. Qed.
#[export] Hint Resolve fixed_recovery : park.

(** ** The switch *)

Lemma schedule_sp s b r s' :
  schedule s b = Done (r, s') →
  (∀ i, saved_sp <$> slot (task_table s') i = saved_sp <$> slot (task_table s) i) ∧
  match r with
  | Some (old, _) => old = current_partition_idx s ∧ is_Some (slot (task_table s) old)
  | None => current_partition_idx s' = current_partition_idx s ∨
            slot (task_table s) (current_partition_idx s) = None
  end.
Proof.
  unfold schedule. cbv zeta. generalize (if b && (0 <? remaining_mif_ticks s)
    then remaining_mif_ticks s - 1 else remaining_mif_ticks s). intros rem.
  destruct (bool_decide _) eqn:Hlt; [|done]. cbn [negb]. apply bool_decide_eq_true in Hlt.
  destruct ((rem =? 0) || _ || _); [|intros [= <- <-]; auto].
  destruct (select (task_table s) (current_partition_idx s)) as [n|] eqn:Hsel.
  2: { destruct (_ && _); [destruct (index _ _) as [d| |]|]; intros [= <- <-]; auto. }
  destruct (index _ _) as [d| |]; [|discriminate 1..].
  change (Done d ≫= ?f) with (f d). cbv beta.
  set (tbl := swap_states (task_table s) (current_partition_idx s) n).
  assert (Hsp : ∀ i, saved_sp <$> slot tbl i = saved_sp <$> slot (task_table s) i).
  { intros i. unfold tbl. rewrite slot_swap. repeat case_decide; destruct (slot (task_table s) i); try done.
    cbn. unfold demote. by case_match. }
  apply select_Some in Hsel as (_ & Hn & _); [|done]. apply slot_ready_iff in Hn as (tn & Htn & _).
  destruct (slot tbl (current_partition_idx s)) as [tc|] eqn:Hc, (slot tbl n) as [t|] eqn:Ht; intros [= <- <-];
    (split; [done|]).
  - split; [done|]. specialize (Hsp (current_partition_idx s)). rewrite Hc in Hsp.
    destruct (slot (task_table s) (current_partition_idx s)); [eauto|discriminate Hsp].
  - specialize (Hsp n). rewrite Ht, Htn in Hsp. done.
  - right. specialize (Hsp (current_partition_idx s)). rewrite Hc in Hsp. by destruct (slot (task_table s) (current_partition_idx s)).
  - right. specialize (Hsp (current_partition_idx s)). rewrite Hc in Hsp. by destruct (slot (task_table s) (current_partition_idx s)).
Qed.

Lemma pwp_lift {A} (r : result A) (Q : A → Kernel → Prop) k :
  (∀ a, r = Done a → Q a k) → pwp (lift r) Q k.
Proof. intros H. unfold pwp, lift. destruct r; [by apply H|done..]. Qed.

(** A new scheduler on hart [h]. *)
Lemma put_parks h sp s' k k' :
  SCHEDULERS k' = ph_set h s' (SCHEDULERS k) →
  (∀ i, i ≠ current h k → saved_sp <$> slot (task_table s') i = sp_of h i k) →
  (saved_sp <$> slot (task_table s') (current h k) = sp_of h (current h k) k ∧
     current_partition_idx s' = current h k) ∨
  saved_sp <$> slot (task_table s') (current h k) = Some sp ∨ task_of h (current h k) k = None →
  parks h sp k k'.
Proof.
  intros Hk Hoth Hself.
  assert (Hs : ∀ h', sched_of h' k' = if decide (h = h') then s' else sched_of h' k).
  { intros h'. unfold sched_of. rewrite Hk. apply ph_get_set. }
  split; unfold sp_of, task_of, current in *.
  - intros h' i Hi. rewrite Hs. case_decide as Hd; [subst h'|done]. apply Hoth. naive_solver.
  - intros h' Hh. rewrite Hs, decide_False; [done|congruence].
  - rewrite Hs, decide_True by done. exact Hself.
Qed.

Lemma switch_parking E h sp b : parking h sp (switch_task E h sp b).
Proof.
  intros k. unfold switch_task. apply pwp_bind. change (get_sched h k) with (Done (sched_of h k, k)). cbn.
  apply pwp_bind, pwp_lift. intros [r s'] Hs. fold (sched_of h k) in Hs. cbn [fst snd].
  apply schedule_sp in Hs as [Hsp Hr]. apply pwp_bind, pwp_modify.
  destruct r as [[old new_sp]|].
  - destruct Hr as [-> [tc Htc]]. fold (current h k) in *. apply pwp_bind, pwp_modify, pwp_bind, pwp_modify.
    set (k2 := set_SCHEDULERS _ _).
    assert (Hk2 : parks h sp k k2).
    { set (s2 := set_table (alter (fmap (set_saved_sp sp)) (current h k) (task_table s')) s').
      apply (put_parks h sp s2 k k2).
      - unfold k2. cbn. apply ph_set_set.
      - intros i Hi. cbn. rewrite slot_alter, decide_False by done. apply Hsp.
      - right; left. cbn. rewrite slot_alter, decide_True by done. specialize (Hsp (current h k)).
        rewrite Htc in Hsp. by destruct (slot (task_table s') (current h k)). }
    clearbody k2. case_match.
    + apply pwp_bind. eapply pwp_mono; [apply fixed_reprogram|]. intros [] k3 H3. by eapply parks_same_r.
    + done.
  - apply (put_parks h sp s' k); [done|intros i _; apply Hsp|].
    destruct Hr as [Hr|Hr]; [left; split; [apply Hsp|done]|by right; right].
Qed.
#[export] Hint Resolve switch_parking : park.

(** ** The handler *)

Lemma parking_guard {A} h sp (body : K A) : parking h sp body → parking h sp (sched_guard h body).
Proof.
  intros Hb. unfold sched_guard. apply parking_bind_l; [park|intros _]. apply parking_bind_r; [done|]. park.
Qed.

(** Steps into a computation: [pl] past an access that parks nothing, [pr] into the
    part that may. *)
Ltac pl := apply parking_bind_l; [solve [park]|intros ?].
Ltac pr := apply parking_bind_r; [|intros ?; solve [park]].
Ltac pf := apply parking_fixed; solve [park].

Section arms.
Context (E : Env) (h : hart) (sp : Z).

Lemma sys_lock_parking : parking h sp (sys_lock E h sp).
Proof.
  unfold sys_lock, deny_locked, get_sched. pl. apply parking_guard. do 3 pl. pr.
  repeat case_match; try pf. pl. case_match; [|pf]. case_match; [pf|]. do 3 pl. pr. apply switch_parking.
Qed.

Lemma sys_unlock_parking : parking h sp (sys_unlock E h sp).
Proof.
  unfold sys_unlock, deny_locked, get_sched. pl. apply parking_guard. do 3 pl. pr.
  repeat case_match; try pf. pl. case_match; [|pf]. case_match; [pf|]. do 2 pl. pr. apply switch_parking.
Qed.

Lemma sys_send_parking : parking h sp (sys_send E h sp).
Proof.
  unfold sys_send, get_sched. do 3 pl. apply parking_guard. do 2 pl. case_match; [pf|pf|].
  case_match; [|pf]. pl. case_match; [case_match; pf|]. pl. apply switch_parking.
Qed.

Lemma sys_recv_parking : parking h sp (sys_recv E h sp).
Proof.
  unfold sys_recv, get_sched. do 3 pl. apply parking_guard. do 2 pl. case_match; [pf|pf|].
  case_match; [|pf]. pl. case_match; [case_match; pf|]. pl. apply switch_parking.
Qed.

Lemma sys_terminate_parking : parking h sp (sys_terminate E h sp).
Proof.
  unfold sys_terminate, terminate_slot, get_sched. pl. apply parking_guard. pl. case_match; [|pf].
  do 2 pl. case_match; [|pf]. pl. case_match; [apply switch_parking|pf].
Qed.

Lemma calls_parking : parking h sp (sys_yield E h sp) ∧ parking h sp (sys_sleep E h sp) ∧ fixed (sys_checkin h sp).
Proof.
  unfold sys_yield, sys_sleep, sys_checkin, sched_guard, get_sched. split_and!.
  - apply parking_guard, switch_parking.
  - pl. apply parking_guard. do 3 pl. apply switch_parking.
  - park.
Qed.

Lemma contain_fault_parking cause : parking h sp (contain_fault E h sp cause).
Proof.
  unfold contain_fault, get_sched. do 3 pl. apply parking_guard. do 3 pl. apply switch_parking.
Qed.

Lemma timer_parking : parking h sp (timer_interrupt E h sp).
Proof.
  unfold timer_interrupt, get_sched. do 3 pl. apply parking_guard. intros k. apply pwp_bind.
  change (gets (λ k, ph_get h (SCHEDULERS k)) k) with (Done (sched_of h k, k)). cbn.
  apply pwp_bind, pwp_modify. eapply pwp_mono; [apply switch_parking|]. intros ? k'.
  apply parks_same_l. unfold same_sp, sp_of, task_of, current, sched_of. cbn. split.
  - intros h' i. rewrite ph_get_set. case_decide as Hd; [subst h'|done]. cbn. unfold slot. rewrite list_lookup_fmap.
    destruct (task_table (ph_get h (SCHEDULERS k)) !! i) as [[t|]|]; cbn; try done.
    unfold wake_one. by repeat case_match.
  - intros h'. rewrite ph_get_set. by case_decide as Hd; [subst h'|].
Qed.

Lemma trap_parking mcause start_cycle : parking h sp (trap_handler E h mcause sp start_cycle).
Proof.
  destruct calls_parking as (Hy & Hs & Hc).
  unfold trap_handler. pl. case_match; [apply timer_parking|].
  case_match; [unfold software_interrupt; pl; apply parking_guard, switch_parking|]. case_match.
  - unfold ecall. do 3 pl. repeat case_match;
      eauto using sys_lock_parking, sys_unlock_parking, sys_send_parking, sys_recv_parking, sys_terminate_parking,
        parking_fixed. pf.
  - unfold exception. do 2 pl. case_match; [unfold emulate_csr; pf|]. case_match; [apply contain_fault_parking|pf].
Qed.
End arms.
