(* ===== verification/IpcSpec.v ===== *)
(** * IpcSpec: synchronous message passing, sleeping and waking

    Functional specifications of system calls 6 and 7 of kernel/src/trap.rs
    (rendezvous over both cores' tables), of system call 2 and of the timer
    interrupt that ends a sleep. *)
From S2P Require Import Prelude Memory Tcb Bitmap Can Pmp Spinlock Telemetry Kernel.
From S2P Require Import Trap KernelInv TrapInv Security Boot Reach SyscallSpec Footprint.

(** ** Rendezvous *)

(** The transfer both directions perform: [len] bytes from [src] to [dst], the
    peer made Ready with [peer_code] in its frame, [my_code] in the caller's. *)
Definition transferred (h ph : hart) (pi : nat) (peer_sp ep src dst len peer_code my_code sp : Z)
    (k : Kernel) : Kernel :=
  raise_ipi h ph
    (set_trace (trace k ++ [IpcTransfer ep (u8 len)])
      (set_ram (frame_write (frame_write (copy_nonoverlapping (ram k) src dst len) peer_sp A0 peer_code)
                            sp A0 my_code)
        (upd_task ph pi (set_state Ready) k))).

Lemma transferred_sched_lock h ph pi peer_sp ep src dst len pc mc sp k l :
  transferred h ph pi peer_sp ep src dst len pc mc sp (set_SCHED_LOCK l k)
  = set_SCHED_LOCK l (transferred h ph pi peer_sp ep src dst len pc mc sp k).
Proof. unfold transferred, raise_ipi. by case_decide. Qed.

Section ipc.
Context (E : Env) (h : hart) (sp : Z) (k : Kernel) (Hr : ready_for E h k).

Let Hi : kernel_inv (layout E) k := rf_inv _ _ _ Hr.
Let a1 : Z := frame_read (ram k) sp A1.
Let a2 : Z := frame_read (ram k) sp A2.

Lemma send_spec ep cr :
  cap_at h (frame_read (ram k) sp A0) k = CapIpc ep true cr →
  wp no_panic (sys_send E h sp) (λ r k',
    match find_any (waits_recv ep) k with
    | Some (rh, ri) =>
        ∃ t rx_ep buf max, task_of rh ri k = Some t ∧ state t = BlockedOnIpcRecv rx_ep buf max ∧
          r = sp ∧ k' = transferred h rh ri (saved_sp t) ep a1 buf (Z.min a2 max) (Z.min a2 max) 0 sp k
    | None =>
        switched E h sp false (upd_task h (current h k) (set_state (BlockedOnIpcSend ep a1 a2)) k) r k'
    end) k.
Proof.
  intros Hcap. unfold sys_send. wp_run. fold a1 a2.
  apply wp_sched_guard; [exact (rf_sched _ _ _ Hr)|]. intros l. wp_run.
  apply (wp_running_cap _ E); [by apply (inv_fields _ k)|].
  change (cap_at h _ (set_SCHED_LOCK l k)) with (cap_at h (frame_read (ram k) sp A0) k).
  rewrite Hcap. intros _. apply wp_bind, wp_find_task.
  change (find_any (waits_recv ep) (set_SCHED_LOCK l k)) with (find_any (waits_recv ep) k).
  destruct (find_any (waits_recv ep) k) as [[rh ri]|] eqn:Hf.
  - destruct (find_any_Some _ _ _ _ Hf) as (t & Ht & Hw).
    apply wp_bind, (wp_get_task _ rh ri t); [done|].
    destruct (state t) as [ | | | | |rx_ep buf max| ] eqn:Hst; try done.
    wp_run. apply wp_put_state; [by eexists|]. wp_run. apply wp_notify. wp_run.
    assert (Hrw : ∀ kk : Kernel, SCHED_LOCK (if decide (rh = h) then kk else set_msip (ph_set rh 1 (msip kk)) kk)
                  = SCHED_LOCK kk) by (intros; by case_decide).
    split; [by rewrite Hrw|]. exists t, rx_ep, buf, max. split_and!; [done..|].
    unfold transferred, raise_ipi. case_decide; by destruct k.
  - apply wp_bind, wp_put_state; [exact (current_registered E h k Hi)|].
    apply wp_switch_task.
    { apply inv_block; try done; [by apply (inv_fields _ k)|].
      intros ep' h' j t Ht Hw. cbn [waits_send] in Hw. apply Z.eqb_eq in Hw. subst ep'.
      by eapply (find_any_None _ (waits_recv ep) k). }
    intros sp' k' Hs.
    exact (switched_sched_lock E h sp false
      (upd_task h (current h k) (set_state (BlockedOnIpcSend ep a1 a2)) k) l sp' k' Hs).
Qed.

Lemma recv_spec ep cs :
  cap_at h (frame_read (ram k) sp A0) k = CapIpc ep cs true →
  wp no_panic (sys_recv E h sp) (λ r k',
    match find_any (waits_send ep) k with
    | Some (th, ti) =>
        ∃ t tx_ep msg len, task_of th ti k = Some t ∧ state t = BlockedOnIpcSend tx_ep msg len ∧
          r = sp ∧ k' = transferred h th ti (saved_sp t) ep msg a1 (Z.min len a2) 0 (Z.min len a2) sp k
    | None =>
        switched E h sp false (upd_task h (current h k) (set_state (BlockedOnIpcRecv ep a1 a2)) k) r k'
    end) k.
Proof.
  intros Hcap. unfold sys_recv. wp_run. fold a1 a2.
  apply wp_sched_guard; [exact (rf_sched _ _ _ Hr)|]. intros l. wp_run.
  apply (wp_running_cap _ E); [by apply (inv_fields _ k)|].
  change (cap_at h _ (set_SCHED_LOCK l k)) with (cap_at h (frame_read (ram k) sp A0) k).
  rewrite Hcap. intros _. apply wp_bind, wp_find_task.
  change (find_any (waits_send ep) (set_SCHED_LOCK l k)) with (find_any (waits_send ep) k).
  destruct (find_any (waits_send ep) k) as [[th ti]|] eqn:Hf.
  - destruct (find_any_Some _ _ _ _ Hf) as (t & Ht & Hw).
    apply wp_bind, (wp_get_task _ th ti t); [done|].
    destruct (state t) as [ | | | |tx_ep msg len| | ] eqn:Hst; try done.
    wp_run. apply wp_put_state; [by eexists|]. wp_run. apply wp_notify. wp_run.
    assert (Hrw : ∀ kk : Kernel, SCHED_LOCK (if decide (th = h) then kk else set_msip (ph_set th 1 (msip kk)) kk)
                  = SCHED_LOCK kk) by (intros; by case_decide).
    split; [by rewrite Hrw|]. exists t, tx_ep, msg, len. split_and!; [done..|].
    unfold transferred, raise_ipi. case_decide; by destruct k.
  - apply wp_bind, wp_put_state; [exact (current_registered E h k Hi)|].
    apply wp_switch_task.
    { apply inv_block; try done; [by apply (inv_fields _ k)|].
      intros ep' h' j t Ht Hw. cbn [waits_recv] in Hw. apply Z.eqb_eq in Hw. subst ep'.
      by eapply (find_any_None _ (waits_send ep) k). }
    intros sp' k' Hs.
    exact (switched_sched_lock E h sp false
      (upd_task h (current h k) (set_state (BlockedOnIpcRecv ep a1 a2)) k) l sp' k' Hs).
Qed.
End ipc.

(** ** What a transfer leaves in memory *)

Definition disjoint (a n b m : Z) : Prop := a + n ≤ b ∨ b + m ≤ a.

Lemma load_bytes_frame_write m f i v a n :
  disjoint a n (f + 4 * Z.of_nat i) 4 → 0 ≤ n →
  load_bytes (frame_write m f i v) a (Z.to_nat n) = load_bytes m a (Z.to_nat n).
Proof.
  intros Hd Hn. apply load_bytes_ext. intros x Hx. apply load8_frame_write_out.
  unfold disjoint in Hd. lia.
Qed.

(** Where the buffers and frames of one transfer lie. *)
Record transfer_layout (sp peer_sp src dst len : Z) : Prop := {
  tl_len : 0 ≤ len < 2 ^ 32;
  tl_frames : disjoint sp 128 peer_sp 128;
  tl_src : disjoint src len sp 128;
  tl_dst : disjoint dst len sp 128;
  tl_dst_peer : disjoint dst len peer_sp 128
}.

Lemma ram_raise_ipi h ph k : ram (raise_ipi h ph k) = ram k.
Proof. unfold raise_ipi. by case_decide. Qed.

Lemma task_raise_ipi h ph k h' j : task_of h' j (raise_ipi h ph k) = task_of h' j k.
Proof. unfold raise_ipi. by case_decide. Qed.

Lemma transferred_memory h ph pi peer_sp ep src dst len pc mc sp k :
  mem_wf (ram k) → transfer_layout sp peer_sp src dst len →
  let k' := transferred h ph pi peer_sp ep src dst len pc mc sp (advanced sp k) in
  load_bytes (ram k') dst (Z.to_nat len) = load_bytes (ram k) src (Z.to_nat len) ∧
  frame_read (ram k') peer_sp A0 = u32 pc ∧ frame_read (ram k') sp A0 = u32 mc.
Proof.
  intros Hwf [Hlen Hfr Hs Hd Hdp] k'. unfold k', transferred. rewrite ram_raise_ipi.
  cbn [ram set_trace set_ram]. unfold disjoint in *.
  assert (Hwf' : mem_wf (ram (advanced sp k))) by by apply store32_wf.
  split_and!.
  - rewrite !load_bytes_frame_write by (unfold disjoint, A0; lia).
    rewrite copy_dst by done. unfold advanced. cbn [ram set_ram].
    apply load_bytes_frame_write; [unfold disjoint, MEPC; lia|lia].
  - rewrite frame_read_write_disjoint by (unfold A0; lia). apply frame_read_write_eq.
  - apply frame_read_write_eq.
Qed.

Lemma transferred_tasks h ph pi peer_sp ep src dst len pc mc sp k t h' j :
  task_of ph pi k = Some t →
  task_of h' j (transferred h ph pi peer_sp ep src dst len pc mc sp k)
  = if decide (ph = h' ∧ pi = j) then Some (set_state Ready t) else task_of h' j k.
Proof.
  intros Ht. unfold transferred. rewrite task_raise_ipi.
  change (task_of h' j (set_trace _ (set_ram _ (upd_task ph pi (set_state Ready) k))))
    with (task_of h' j (upd_task ph pi (set_state Ready) k)).
  rewrite task_of_upd. case_decide as Hd; [|done]. destruct Hd as [-> ->]. by rewrite Ht.
Qed.

(** The transfer writes the destination, the two results and the advanced program
    counter. *)
Definition transfer_bytes (sp peer_sp dst len x : Z) : Prop :=
  dst ≤ x < dst + len ∨ result_word sp x ∨ pc_word sp x ∨ result_word peer_sp x.

Lemma transferred_outside h ph pi peer_sp ep src dst len pc mc sp k :
  0 ≤ len →
  outside (transfer_bytes sp peer_sp dst len) (ram k)
    (ram (transferred h ph pi peer_sp ep src dst len pc mc sp (advanced sp k))).
Proof.
  intros Hlen. unfold transferred. rewrite ram_raise_ipi. cbn [ram set_trace set_ram].
  set (F := transfer_bytes sp peer_sp dst len).
  trans (ram (advanced sp k)).
  { apply outside_frame_write. intros x Hx. right. right. left. unfold pc_word, MEPC in *. lia. }
  trans (copy_nonoverlapping (ram (advanced sp k)) src dst len).
  { intros x Hx. unfold copy_nonoverlapping. apply load8_store_bytes_out. rewrite load_bytes_length.
    intros H. apply Hx. left. lia. }
  etrans; apply outside_result_word; intros x Hx; right; [by right; right|by left].
Qed.

(** ** Properties *)

(** C20. Send delivers.  When a task blocked in receive waits on the endpoint, a
    send with a valid capability copies the first min(message, buffer) bytes into
    the receiver's buffer, leaves that length in the receiver's [a0] and 0 in the
    sender's, and changes no other byte of memory but the sender's saved program
    counter: nothing past that length in the buffer.  It makes the receiver Ready and
    touches no other task; the sender keeps running.  The two frames must be disjoint,
    and neither may overlap the buffer, nor the sender's the message. *)
Theorem ipc_send_delivers E h sp k ep cr rh ri t buf max :
  ready_for E h k → mem_wf (ram k) → frame_read (ram k) sp A7 = 6 →
  cap_at h (frame_read (ram k) sp A0) k = CapIpc ep true cr →
  find_any (waits_recv ep) k = Some (rh, ri) →
  task_of rh ri k = Some t → state t = BlockedOnIpcRecv ep buf max →
  let msg := frame_read (ram k) sp A1 in
  let len := Z.min (frame_read (ram k) sp A2) max in
  transfer_layout sp (saved_sp t) msg buf len →
  ∃ k', ecall E h sp k = Done (sp, k') ∧
    load_bytes (ram k') buf (Z.to_nat len) = load_bytes (ram k) msg (Z.to_nat len) ∧
    frame_read (ram k') (saved_sp t) A0 = len ∧ frame_read (ram k') sp A0 = 0 ∧
    (∀ x, ¬ transfer_bytes sp (saved_sp t) buf len x → load8 (ram k') x = load8 (ram k) x) ∧
    ∀ h' j, task_of h' j k' =
      if decide (rh = h' ∧ ri = j) then Some (set_state Ready t) else task_of h' j k.
Proof.
  intros Hr Hwf Ha7 Hcap Hf Ht Hst msg len Hlay.
  pose proof (ready_advanced _ _ sp _ Hr) as Hr'.
  assert (Hwp : wp no_panic (ecall E h sp) (λ r k', r = sp ∧
    k' = transferred h rh ri (saved_sp t) ep msg buf len len 0 sp (advanced sp k)) k).
  { apply (wp_ecall _ _ _ _ _ 6); [done|]. simpl. eapply wp_mono.
    - apply (send_spec E h sp (advanced sp k) Hr' ep cr). by rewrite advanced_reg.
    - intros r k'. change (find_any (waits_recv ep) (advanced sp k)) with (find_any (waits_recv ep) k).
      rewrite Hf. intros (t' & ep' & buf' & max' & Ht' & Hst' & -> & ->).
      change (task_of rh ri (advanced sp k)) with (task_of rh ri k) in Ht'. simplify_eq.
      rewrite Hst in Hst'. simplify_eq. by rewrite !advanced_reg by done. }
  apply wp_no_panic in Hwp as (r & k' & He & -> & ->).
  eexists. split; [exact He|].
  destruct (transferred_memory h rh ri (saved_sp t) ep msg buf len len 0 sp k Hwf Hlay) as (H1 & H2 & H3).
  rewrite u32_small in H2 by apply Hlay. split_and!; [done..|by apply transferred_outside, Hlay|].
  intros h' j. by rewrite (transferred_tasks _ _ _ _ _ _ _ _ _ _ _ _ t).
Qed.

(** Receive delivers: the mirror image, when the sender blocked first. *)
Lemma ipc_recv_delivers E h sp k ep cs th ti t msg mlen :
  ready_for E h k → mem_wf (ram k) → frame_read (ram k) sp A7 = 7 →
  cap_at h (frame_read (ram k) sp A0) k = CapIpc ep cs true →
  find_any (waits_send ep) k = Some (th, ti) →
  task_of th ti k = Some t → state t = BlockedOnIpcSend ep msg mlen →
  let buf := frame_read (ram k) sp A1 in
  let len := Z.min mlen (frame_read (ram k) sp A2) in
  transfer_layout sp (saved_sp t) msg buf len →
  ∃ k', ecall E h sp k = Done (sp, k') ∧
    load_bytes (ram k') buf (Z.to_nat len) = load_bytes (ram k) msg (Z.to_nat len) ∧
    frame_read (ram k') (saved_sp t) A0 = 0 ∧ frame_read (ram k') sp A0 = len ∧
    (∀ x, ¬ transfer_bytes sp (saved_sp t) buf len x → load8 (ram k') x = load8 (ram k) x) ∧
    ∀ h' j, task_of h' j k' =
      if decide (th = h' ∧ ti = j) then Some (set_state Ready t) else task_of h' j k.
Proof.
  intros Hr Hwf Ha7 Hcap Hf Ht Hst buf len Hlay.
  pose proof (ready_advanced _ _ sp _ Hr) as Hr'.
  assert (Hwp : wp no_panic (ecall E h sp) (λ r k', r = sp ∧
    k' = transferred h th ti (saved_sp t) ep msg buf len 0 len sp (advanced sp k)) k).
  { apply (wp_ecall _ _ _ _ _ 7); [done|]. simpl. eapply wp_mono.
    - apply (recv_spec E h sp (advanced sp k) Hr' ep cs). by rewrite advanced_reg.
    - intros r k'. change (find_any (waits_send ep) (advanced sp k)) with (find_any (waits_send ep) k).
      rewrite Hf. intros (t' & ep' & msg' & len' & Ht' & Hst' & -> & ->).
      change (task_of th ti (advanced sp k)) with (task_of th ti k) in Ht'. simplify_eq.
      rewrite Hst in Hst'. simplify_eq. by rewrite !advanced_reg by done. }
  apply wp_no_panic in Hwp as (r & k' & He & -> & ->).
  eexists. split; [exact He|].
  destruct (transferred_memory h th ti (saved_sp t) ep msg buf len 0 len sp k Hwf Hlay) as (H1 & H2 & H3).
  rewrite u32_small in H3 by apply Hlay. split_and!; [done..|by apply transferred_outside, Hlay|].
  intros h' j. by rewrite (transferred_tasks _ _ _ _ _ _ _ _ _ _ _ _ t).
Qed.

(** Task B receives on hart 1 and blocks, then Task A sends on hart 0. *)
Definition send_ram : Mem :=
  syscall_frame 0x3FC80700 6 1 0x3FC80500 8 (store_bytes ∅ 0x3FC80500 [1; 2; 3; 4; 5; 6; 7; 8]).
Definition send_call : Kernel :=
  default sample_reset (run [User (syscall_frame 0x3FC80B00 7 0 0x3FC80900 8 ∅); Trap H1 8 0x3FC80B00;
    User (syscall_frame 0x3FC80380 1 0 0 0 ∅); Trap H0 8 0x3FC80380; User send_ram] (demo ∅)).

(** Task A sends and blocks, then Task B receives. *)
Definition recv_ram : Mem :=
  syscall_frame 0x3FC80B00 7 0 0x3FC80900 4 (store_bytes ∅ 0x3FC80500 [1; 2; 3; 4; 5; 6; 7; 8]).
Definition recv_call : Kernel :=
  default sample_reset (run [User (syscall_frame 0x3FC80380 1 0 0 0 ∅); Trap H0 8 0x3FC80380;
    User (syscall_frame 0x3FC80700 6 1 0x3FC80500 8 ∅); Trap H0 8 0x3FC80700; User recv_ram] (demo ∅)).

Lemma syscall_frame_wf sp a7 a0 a1 a2 m : mem_wf m → mem_wf (syscall_frame sp a7 a0 a1 a2 m).
Proof. intros. unfold syscall_frame, frame_write. by repeat apply store32_wf. Qed.

Lemma call_rams : ram send_call = send_ram ∧ ram recv_call = recv_ram.
Proof. split; vm_compute; reflexivity. Qed.

Lemma call_wf : mem_wf (ram send_call) ∧ mem_wf (ram recv_call).
Proof.
  destruct call_rams as [-> ->].
  split; apply syscall_frame_wf, store_bytes_wf, mem_wf_empty.
Qed.

Lemma ipc_send_delivers_witness :
  ∃ k', ecall sample_env H0 0x3FC80700 send_call = Done (0x3FC80700, k') ∧
    load_bytes (ram k') 0x3FC80900 8 = [1; 2; 3; 4; 5; 6; 7; 8].
Proof.
  destruct (task_of H1 2 send_call) as [t|] eqn:Ht; [|vm_compute in Ht; discriminate Ht].
  assert (Hsp : saved_sp t = 0x3FC80B00) by (vm_compute in Ht; injection Ht as <-; reflexivity).
  destruct (ipc_send_delivers sample_env H0 0x3FC80700 send_call 0 false H1 2 t 0x3FC80900 8)
    as (k' & He & Hb & _).
  - apply (run_ready H0 _ ∅). vm_compute. reflexivity.
  - exact (proj1 call_wf).
  - vm_compute. reflexivity.
  - vm_compute. reflexivity.
  - vm_compute. reflexivity.
  - exact Ht.
  - vm_compute in Ht. injection Ht as <-. reflexivity.
  - rewrite Hsp. split; vm_compute; first [split; congruence | left; congruence | right; congruence].
  - exists k'. split; [exact He|]. vm_compute in Hb. exact Hb.
Defined.

Lemma ipc_recv_delivers_witness :
  ∃ k', ecall sample_env H1 0x3FC80B00 recv_call = Done (0x3FC80B00, k') ∧
    load_bytes (ram k') 0x3FC80900 4 = [1; 2; 3; 4].
Proof.
  destruct (task_of H0 1 recv_call) as [t|] eqn:Ht; [|vm_compute in Ht; discriminate Ht].
  assert (Hsp : saved_sp t = 0x3FC80700) by (vm_compute in Ht; injection Ht as <-; reflexivity).
  destruct (ipc_recv_delivers sample_env H1 0x3FC80B00 recv_call 0 false H0 1 t 0x3FC80500 8)
    as (k' & He & Hb & _).
  - apply (run_ready H1 _ ∅). vm_compute. reflexivity.
  - exact (proj2 call_wf).
  - vm_compute. reflexivity.
  - vm_compute. reflexivity.
  - vm_compute. reflexivity.
  - exact Ht.
  - vm_compute in Ht. injection Ht as <-. reflexivity.
  - rewrite Hsp. split; vm_compute; first [split; congruence | left; congruence | right; congruence].
  - exists k'. split; [exact He|]. vm_compute in Hb. exact Hb.
Defined.

(** Waiting for a peer.  A send or receive with a valid capability that finds
    no task waiting on the other side blocks the caller on the endpoint, with its
    buffer recorded, and reschedules: the memory is untouched apart from the
    advanced program counter, no other task is blocked or terminated, and the
    caller stays blocked across the reschedule. *)
Lemma ipc_without_peer_blocks E h sp k ep cs cr :
  ready_for E h k →
  let n := frame_read (ram k) sp A7 in
  let a1 := frame_read (ram k) sp A1 in
  let a2 := frame_read (ram k) sp A2 in
  let st := if n =? 6 then BlockedOnIpcSend ep a1 a2 else BlockedOnIpcRecv ep a1 a2 in
  cap_at h (frame_read (ram k) sp A0) k = CapIpc ep cs cr →
  (n = 6 ∧ cs = true ∧ find_any (waits_recv ep) k = None) ∨
  (n = 7 ∧ cr = true ∧ find_any (waits_send ep) k = None) →
  ∃ sp' k', ecall E h sp k = Done (sp', k') ∧
    switched E h sp false (upd_task h (current h k) (set_state st) (advanced sp k)) sp' k' ∧
    ram k' = ram (advanced sp k) ∧
    (∃ t', task_of h (current h k) k' = Some t' ∧ state t' = st) ∧
    ∀ h' j t, (h' ≠ h ∨ j ≠ current h k) → task_of h' j k = Some t →
      ∃ t', task_of h' j k' = Some t' ∧ (state t' = state t ∨ runnable (state t') = true).
Proof.
  intros Hr n a1 a2 st Hcap Hn. pose proof (ready_advanced _ _ sp _ Hr) as Hr'.
  set (k1 := upd_task h (current h k) (set_state st) (advanced sp k)).
  assert (Hwp : wp no_panic (ecall E h sp) (switched E h sp false k1) k).
  { apply (wp_ecall _ _ _ _ _ n); [done|]. unfold k1, st.
    destruct Hn as [(-> & -> & Hf)|(-> & -> & Hf)]; simpl; eapply wp_mono.
    - apply (send_spec E h sp (advanced sp k) Hr' ep cr). by rewrite advanced_reg.
    - intros r k'. change (find_any (waits_recv ep) (advanced sp k)) with (find_any (waits_recv ep) k).
      by rewrite Hf, !advanced_reg by done.
    - apply (recv_spec E h sp (advanced sp k) Hr' ep cs). by rewrite advanced_reg.
    - intros r k'. change (find_any (waits_send ep) (advanced sp k)) with (find_any (waits_send ep) k).
      by rewrite Hf, !advanced_reg by done. }
  apply wp_no_panic in Hwp as (sp' & k' & He & Hs). exists sp', k'.
  destruct (current_registered E h k (rf_inv _ _ _ Hr)) as [t Ht]. fold (current h k) in Ht.
  assert (Hk1 : ∀ h' j, task_of h' j k1 =
    if decide (h = h' ∧ current h k = j) then set_state st <$> task_of h' j k else task_of h' j k).
  { intros h' j. unfold k1. by rewrite task_of_upd. }
  split_and!; [done|done|by destruct Hs| |].
  - destruct (switched_blocked _ _ _ _ _ _ _ h (current h k) (set_state st t) Hs) as (t' & Ht' & Hst').
    + rewrite Hk1, decide_True by done. by rewrite Ht.
    + unfold st. by case_match.
    + eauto.
  - intros h' j u Hne Hu. assert (Hu1 : task_of h' j k1 = Some u).
    { rewrite Hk1, decide_False; [done|]. intros [H1 H2]. destruct Hne as [Hne|Hne]; by apply Hne. }
    destruct (switched_state _ _ _ _ _ _ _ _ _ _ Hs Hu1) as (t' & Ht' & [?|[_ ?]]); eauto.
Qed.

(** Task B receives on hart 1 while nobody sends. *)
Definition lonely_recv : Kernel := demo (syscall_frame 0x3FC80B80 7 0 0x3FC80900 8 ∅).

Lemma ipc_without_peer_blocks_witness :
  ∃ sp' k' t', ecall sample_env H1 0x3FC80B80 lonely_recv = Done (sp', k') ∧
    task_of H1 2 k' = Some t' ∧ state t' = BlockedOnIpcRecv 0 0x3FC80900 8.
Proof.
  destruct (ipc_without_peer_blocks sample_env H1 0x3FC80B80 lonely_recv 0 false true)
    as (sp' & k' & He & _ & _ & (t' & Ht' & Hst') & _).
  - apply demo_ready.
  - vm_compute. reflexivity.
  - right. split; [vm_compute; reflexivity|]. split; [reflexivity|]. vm_compute. reflexivity.
  - exists sp', k', t'. split; [exact He|]. split; [exact Ht'|]. rewrite Hst'. vm_compute. reflexivity.
Defined.

(** ** Sleeping *)

(** Sleep.  The sleeping task is blocked until [TICK_COUNT + a0] (modulo
    2^32) and the hart reschedules. *)
Lemma sys_sleep_spec E h sp k :
  ready_for E h k → frame_read (ram k) sp A7 = 2 →
  ∃ sp' k', ecall E h sp k = Done (sp', k') ∧
    switched E h sp false
      (upd_task h (current h k)
        (set_state (Blocked (wrapping_add (TICK_COUNT k) (u32 (frame_read (ram k) sp A0)))))
        (advanced sp k)) sp' k' ∧
    ∃ t', task_of h (current h k) k' = Some t' ∧
      state t' = Blocked (wrapping_add (TICK_COUNT k) (u32 (frame_read (ram k) sp A0))).
Proof.
  intros Hr Ha7. pose proof (ready_advanced _ _ sp _ Hr) as Hr'. pose proof (rf_inv _ _ _ Hr') as Hi.
  set (st := Blocked _). set (k1 := upd_task h (current h k) (set_state st) (advanced sp k)).
  assert (Hi1 : kernel_inv (layout E) k1) by by apply inv_set_state.
  assert (Hwp : wp no_panic (ecall E h sp) (switched E h sp false k1) k).
  { apply (wp_ecall _ _ _ _ _ 2); [done|]. simpl. unfold sys_sleep. wp_run. rewrite advanced_reg by done.
    apply wp_sched_guard; [exact (rf_sched _ _ _ Hr')|]. intros l. wp_run.
    apply wp_put_state; [exact (current_registered E h _ Hi)|].
    apply wp_switch_task; [by apply (inv_fields _ k1)|]. intros sp' k' Hs.
    exact (switched_sched_lock E h sp false k1 l sp' k' Hs). }
  apply wp_no_panic in Hwp as (sp' & k' & He & Hs). exists sp', k'. split_and!; [done..|].
  destruct (current_registered E h _ Hi) as [t Ht].
  destruct (switched_blocked _ _ _ _ _ _ _ h (current h k) (set_state st t) Hs) as (t' & Ht' & Hst');
    [|done|eauto].
  unfold k1. rewrite task_of_upd, decide_True by done.
  change (current_partition_idx (sched_of h (advanced sp k))) with (current h k) in Ht. by rewrite Ht.
Qed.

Definition sleep_call : Kernel := demo (syscall_frame 0x3FC80380 2 100 0 0 ∅).

Lemma sys_sleep_spec_witness :
  ∃ sp' k' t', ecall sample_env H0 0x3FC80380 sleep_call = Done (sp', k') ∧
    task_of H0 0 k' = Some t' ∧ state t' = Blocked 100.
Proof.
  destruct (sys_sleep_spec sample_env H0 0x3FC80380 sleep_call) as (sp' & k' & He & _ & t' & Ht' & Hst').
  - apply demo_ready.
  - vm_compute. reflexivity.
  - exists sp', k', t'. split; [exact He|]. split; [exact Ht'|]. rewrite Hst'. vm_compute. reflexivity.
Defined.

Lemma task_wake tick h k h' n :
  task_of h' n (set_SCHEDULERS (ph_set h (wake_sleepers tick (sched_of h k)) (SCHEDULERS k)) k)
  = if decide (h = h') then wake_one tick <$> task_of h' n k else task_of h' n k.
Proof.
  unfold task_of, sched_of. simpl. rewrite ph_get_set. case_decide; [subst h'|done].
  unfold wake_sleepers, slot. cbn [task_table set_table]. change (map ?f ?l) with (f <$> l).
  rewrite list_lookup_fmap. by destruct (task_table (ph_get h (SCHEDULERS k)) !! n) as [[]|].
Qed.

(** C28. The tick.  A timer interrupt increments the tick, re-arms the hart's
    comparator 40000 cycles ahead, and wakes exactly the sleepers of its hart
    whose wake-up tick has been reached: they are Ready or already Running
    afterwards, every other blocked task of the hart keeps its state, and the
    other hart's tasks are untouched. *)
Theorem timer_wakes_sleepers E h sp start_cycle k :
  ready_for E h k →
  let tick := wrapping_add (TICK_COUNT k) 1 in
  ∃ sp' k', trap_handler E h TIMER_INTERRUPT sp start_cycle k = Done (sp', k') ∧
    TICK_COUNT k' = tick ∧ ph_get h (mtimecmp k') = (clint_mtime E + 40000) mod 2 ^ 64 ∧
    ∀ h' n t, task_of h' n k = Some t → ∃ t', task_of h' n k' = Some t' ∧
      if decide (h' = h) then
        match state t with
        | Ready | Running => runnable (state t') = true
        | Blocked w => if w <=? tick then runnable (state t') = true else state t' = Blocked w
        | st => state t' = st
        end
      else t' = t.
Proof.
  intros Hr tick. pose proof (rf_inv _ _ _ Hr) as Hi.
  set (k1 := set_mtimecmp (ph_set h ((clint_mtime E + 40000) mod 2 ^ 64) (mtimecmp k))
    (set_TICK_COUNT tick
      (set_METRIC_TRAP_LATENCY_CYCLES (wrapping_sub (csr_mcycle E) start_cycle) k))).
  set (k2 := set_SCHEDULERS (ph_set h (wake_sleepers tick (sched_of h k1)) (SCHEDULERS k1)) k1).
  assert (Hi2 : kernel_inv (layout E) k2) by (apply keeps_wake; by apply (inv_fields _ k)).
  assert (Hwp : wp no_panic (trap_handler E h TIMER_INTERRUPT sp start_cycle) (switched E h sp true k2) k).
  { unfold trap_handler. wp_run. change (TIMER_INTERRUPT =? TIMER_INTERRUPT) with true. cbv iota.
    unfold timer_interrupt. wp_run. apply wp_sched_guard; [exact (rf_sched _ _ _ Hr)|]. intros l. wp_run.
    apply wp_switch_task; [by apply (inv_fields _ k2)|]. intros sp' k' Hs.
    exact (switched_sched_lock E h sp true k2 l sp' k' Hs). }
  apply wp_no_panic in Hwp as (sp' & k' & He & Hs). exists sp', k'. split_and!; [done|by destruct Hs| |].
  { assert (Hm : mtimecmp k' = mtimecmp k2) by by destruct Hs.
    rewrite Hm. unfold k2, k1. cbn [mtimecmp set_SCHEDULERS set_mtimecmp].
    by rewrite ph_get_set, decide_True. }
  intros h' n t Ht. pose proof (task_wake tick h k1 h' n) as Hw. fold k2 in Hw.
  change (task_of h' n k1) with (task_of h' n k) in Hw. rewrite Ht in Hw.
  destruct (decide (h' = h)) as [->|Hne].
  - rewrite decide_True in Hw by done.
    destruct (switched_state _ _ _ _ _ _ _ _ _ _ Hs Hw) as (t' & Ht' & Hst'). exists t'. split; [done|].
    unfold wake_one in Hst'.
    destruct (state t) as [ | |w| | | | ] eqn:Est; try destruct (w <=? tick);
      cbn [set_state state] in Hst'; rewrite ?Est in Hst';
      destruct Hst' as [Hst'|[Hst1 Hst2]]; try done; by rewrite Hst'.
  - rewrite decide_False in Hw by congruence.
    destruct (switched_task _ _ _ _ _ _ _ h' n Hs) as [He'|[? _]]; [|done]. exists t. split; [|done].
    by rewrite He'.
Qed.

Lemma timer_wakes_sleepers_witness :
  ∃ sp' k' t', trap_handler sample_env H0 TIMER_INTERRUPT 0x3FC80380 6000
      (upd_task H0 1 (set_state (Blocked 1)) (demo ∅)) = Done (sp', k') ∧
    task_of H0 1 k' = Some t' ∧ runnable (state t') = true.
Proof.
  destruct (timer_wakes_sleepers sample_env H0 0x3FC80380 6000
    (upd_task H0 1 (set_state (Blocked 1)) (demo ∅))) as (sp' & k' & He & _ & _ & Ht).
  - split; [|by left|by left]. apply inv_set_state; [apply demo_inv|exact I|discriminate].
  - destruct (task_of H0 1 (upd_task H0 1 (set_state (Blocked 1)) (demo ∅))) as [t|] eqn:Hq;
      [|vm_compute in Hq; discriminate Hq].
    destruct (Ht H0 1%nat t Hq) as (t' & Ht' & Hst').
    exists sp', k', t'. split; [exact He|]. split; [exact Ht'|].
    vm_compute in Hq. injection Hq as <-. vm_compute in Hst' |- *. exact Hst'.
Defined.
