(* ===== verification/Delivery.v ===== *)
(** * Delivery: what whole traps leave in message buffers

    The IPC specifications of [IpcSpec] for complete traps, stated for the two sides
    of a rendezvous: the receiver that a send wakes has the message in its buffer, and
    a receive that does not block its caller has filled the caller's buffer. *)
From S2P Require Import Prelude Memory Tcb Bitmap Can Pmp Spinlock Telemetry Kernel.
From S2P Require Import Trap KernelInv TrapInv Security Boot Reach SyscallSpec IpcSpec.
From S2P Require Import Footprint.

(** The trap counts its latency first. *)
Definition timed (E : Env) (start_cycle : Z) (k : Kernel) : Kernel :=
  set_METRIC_TRAP_LATENCY_CYCLES (wrapping_sub (csr_mcycle E) start_cycle) k.

Lemma ready_timed E h start_cycle k : ready_for E h k → ready_for E h (timed E start_cycle k).
Proof. intros [Hi Hs Hm]. split; [by apply (inv_fields _ k)|done|done]. Qed.

(** The bytes of a transfer, when neither buffer meets the words the kernel writes. *)
Lemma transferred_bytes h ph pi peer_sp ep src dst n pc mc sp k :
  mem_wf (ram k) → 0 ≤ n →
  (∀ x, src ≤ x < src + n → ¬ near sp x) →
  (∀ x, dst ≤ x < dst + n → ¬ near sp x ∧ ¬ result_word peer_sp x) →
  load_bytes (ram (transferred h ph pi peer_sp ep src dst n pc mc sp (advanced sp k))) dst (Z.to_nat n) =
  load_bytes (ram k) src (Z.to_nat n).
Proof.
  intros Hwf Hn Hsrc Hdst. unfold transferred. rewrite ram_raise_ipi. cbn [ram set_trace set_ram].
  assert (Hwf' : mem_wf (ram (advanced sp k))) by by apply store32_wf.
  trans (load_bytes (copy_nonoverlapping (ram (advanced sp k)) src dst n) dst (Z.to_nat n)).
  { apply load_bytes_ext. intros x Hx. destruct (Hdst x ltac:(lia)) as [H1 H2].
    unfold near, result_word, A0 in *. rewrite !load8_frame_write_out by (unfold A0; lia). done. }
  rewrite copy_dst by done. apply load_bytes_ext. intros x Hx. specialize (Hsrc x ltac:(lia)).
  unfold advanced. cbn [ram set_ram]. apply load8_frame_write_out. unfold near, MEPC in *. lia.
Qed.

Section delivery.
Context (E : Env) (h : hart) (sp start_cycle : Z) (k : Kernel) (sp' : Z) (k' : Kernel).
Context (Hr : ready_for E h k) (Hwf : mem_wf (ram k)).
Context (Ht : trap_handler E h ECALL_UMODE sp start_cycle k = Done (sp', k')).
Local Abbreviation a0 := (frame_read (ram k) sp A0).
Local Abbreviation a1 := (frame_read (ram k) sp A1).
Local Abbreviation a2 := (frame_read (ram k) sp A2).
Local Abbreviation kt := (timed E start_cycle k).

(** What a system call guarantees holds at the end of its trap. *)
Lemma call_result (Q : Z → Kernel → Prop) :
  wp no_panic (ecall E h sp) Q kt → Q sp' k'.
Proof. intros Hw. exact (wp_result _ _ _ _ _ _ Hw Ht). Qed.

Lemma timed_tasks h' i : task_of h' i (advanced sp kt) = task_of h' i k.
Proof. done. Qed.

(** A task that is blocked stays so when the caller blocks. *)
Lemma blocked_stays st h' i t :
  switched E h sp false (upd_task h (current h k) (set_state st) (advanced sp kt)) sp' k' →
  task_of h' i k = Some t → ¬ (h' = h ∧ i = current h k) → runnable (state t) = false →
  state <$> task_of h' i k' = Some (state t).
Proof.
  intros Hs Hti Hn Hst.
  destruct (switched_blocked _ _ _ _ _ _ _ h' i t Hs) as (t' & -> & <-); [|done|done].
  rewrite task_of_upd, decide_False, timed_tasks; [done|]. intros [<- <-]. by apply Hn.
Qed.

Lemma caller_blocks st t :
  switched E h sp false (upd_task h (current h k) (set_state st) (advanced sp kt)) sp' k' →
  task_of h (current h k) k = Some t → runnable st = false →
  state <$> task_of h (current h k) k' = Some st.
Proof.
  intros Hs Hti Hst.
  destruct (switched_blocked _ _ _ _ _ _ _ h (current h k) (set_state st t) Hs) as (t' & -> & H');
    [|done|by cbn; rewrite H'].
  rewrite task_of_upd, decide_True, timed_tasks, Hti by done. done.
Qed.

(** What a granted send and a granted receive do, from beginning to end. *)
Lemma send_result ep cr :
  frame_read (ram k) sp A7 = 6 → cap_at h a0 k = CapIpc ep true cr →
  match find_any (waits_recv ep) k with
  | Some (rh, ri) =>
      ∃ t buf max, task_of rh ri k = Some t ∧ state t = BlockedOnIpcRecv ep buf max ∧
        k' = transferred h rh ri (saved_sp t) ep a1 buf (Z.min a2 max) (Z.min a2 max) 0 sp (advanced sp kt)
  | None => switched E h sp false (upd_task h (current h k) (set_state (BlockedOnIpcSend ep a1 a2)) (advanced sp kt)) sp' k'
  end.
Proof.
  intros H7 Hcap. pose proof (ready_advanced _ _ sp _ (ready_timed E h start_cycle k Hr)) as Hra.
  pose proof (send_spec E h sp (advanced sp kt) Hra ep cr) as Hs. rewrite !advanced_reg in Hs by done. specialize (Hs Hcap).
  change (find_any (waits_recv ep) (advanced sp kt)) with (find_any (waits_recv ep) k) in Hs.
  pose proof (call_result _ (wp_ecall no_panic E h sp kt 6 _ H7 Hs)) as Hres. cbv beta in Hres.
  destruct (find_any (waits_recv ep) k) as [[rh ri]|] eqn:Hf; [|exact Hres].
  destruct Hres as (t & ep' & buf & max & Ht' & Hst & _ & Hk). exists t, buf, max. split; [exact Ht'|]. split; [|exact Hk].
  destruct (find_any_Some _ _ _ _ Hf) as (t2 & Ht2 & Hw). rewrite timed_tasks, Ht2 in Ht'. injection Ht' as ->.
  rewrite Hst in Hw. cbn in Hw. by apply Z.eqb_eq in Hw as ->.
Qed.

Lemma recv_result ep cs :
  frame_read (ram k) sp A7 = 7 → cap_at h a0 k = CapIpc ep cs true →
  match find_any (waits_send ep) k with
  | Some (th, ti) =>
      ∃ t msg len, task_of th ti k = Some t ∧ state t = BlockedOnIpcSend ep msg len ∧
        k' = transferred h th ti (saved_sp t) ep msg a1 (Z.min len a2) 0 (Z.min len a2) sp (advanced sp kt)
  | None => switched E h sp false (upd_task h (current h k) (set_state (BlockedOnIpcRecv ep a1 a2)) (advanced sp kt)) sp' k'
  end.
Proof.
  intros H7 Hcap. pose proof (ready_advanced _ _ sp _ (ready_timed E h start_cycle k Hr)) as Hra.
  pose proof (recv_spec E h sp (advanced sp kt) Hra ep cs) as Hs. rewrite !advanced_reg in Hs by done. specialize (Hs Hcap).
  change (find_any (waits_send ep) (advanced sp kt)) with (find_any (waits_send ep) k) in Hs.
  pose proof (call_result _ (wp_ecall no_panic E h sp kt 7 _ H7 Hs)) as Hres. cbv beta in Hres.
  destruct (find_any (waits_send ep) k) as [[th ti]|] eqn:Hf; [|exact Hres].
  destruct Hres as (t & ep' & msg & len & Ht' & Hst & _ & Hk). exists t, msg, len. split; [exact Ht'|]. split; [|exact Hk].
  destruct (find_any_Some _ _ _ _ Hf) as (t2 & Ht2 & Hw). rewrite timed_tasks, Ht2 in Ht'. injection Ht' as ->.
  rewrite Hst in Hw. cbn in Hw. by apply Z.eqb_eq in Hw as ->.
Qed.

(** The receiver a send wakes has the message. *)
Lemma send_content ep cr h' i t ep' buf max_len :
  frame_read (ram k) sp A7 = 6 → cap_at h a0 k = CapIpc ep true cr →
  runnable <$> (state <$> task_of h (current h k) k) = Some true →
  task_of h' i k = Some t → state t = BlockedOnIpcRecv ep' buf max_len → 
  state <$> task_of h' i k' = Some Ready → 0 ≤ max_len →
  let n := Z.min a2 max_len in
  (∀ x, a1 ≤ x < a1 + n → ¬ near sp x) →
  (∀ x, buf ≤ x < buf + n → ¬ near sp x ∧ ¬ result_word (saved_sp t) x) →
  ep' = ep ∧ load_bytes (ram k') buf (Z.to_nat n) = load_bytes (ram k) a1 (Z.to_nat n).
Proof.
  intros H7 Hcap Hrun Hti Hst Hrdy Hmax n Hsrc Hdst.
  assert (Hc : ¬ (h' = h ∧ i = current h k)).
  { intros [-> ->]. rewrite Hti in Hrun. cbn in Hrun. by rewrite Hst in Hrun. }
  assert (Hn : 0 ≤ n) by (pose proof (frame_read_range (ram k) sp A2 Hwf); unfold n; lia).
  pose proof (send_result ep cr H7 Hcap) as Hs. destruct (find_any (waits_recv ep) k) as [[rh ri]|] eqn:Hf.
  - destruct Hs as (t' & buf' & max' & Ht' & Hst' & ->).
    rewrite (transferred_tasks _ _ _ _ _ _ _ _ _ _ _ _ t') in Hrdy by done.
    case_decide as Hd; [|rewrite timed_tasks, Hti in Hrdy; cbn in Hrdy; by rewrite Hst in Hrdy].
    destruct Hd as [-> ->]. rewrite Hti in Ht'. injection Ht' as <-. rewrite Hst in Hst'.
    injection Hst' as <- <- <-. split; [done|]. by rewrite transferred_bytes.
  - rewrite (blocked_stays _ _ _ _ Hs Hti Hc) in Hrdy by by rewrite Hst. rewrite Hst in Hrdy. done.
Qed.

(** A receive that does not block its caller has filled the caller's buffer. *)
Lemma recv_content ep cs :
  frame_read (ram k) sp A7 = 7 → cap_at h a0 k = CapIpc ep cs true →
  runnable <$> (state <$> task_of h (current h k) k) = Some true →
  (∀ x, a1 ≤ x < a1 + a2 → ¬ near sp x) →
  (∀ h' i t msg len, task_of h' i k = Some t → state t = BlockedOnIpcSend ep msg len →
    0 ≤ len ∧ (∀ x, msg ≤ x < msg + Z.min len a2 → ¬ near sp x) ∧
    (∀ x, a1 ≤ x < a1 + Z.min len a2 → ¬ result_word (saved_sp t) x)) →
  state <$> task_of h (current h k) k' = Some (BlockedOnIpcRecv ep a1 a2) ∨
  ∃ h' i t msg len, task_of h' i k = Some t ∧ state t = BlockedOnIpcSend ep msg len ∧
    load_bytes (ram k') a1 (Z.to_nat (Z.min len a2)) = load_bytes (ram k) msg (Z.to_nat (Z.min len a2)).
Proof.
  intros H7 Hcap Hrun Hdst Hsrc.
  pose proof (recv_result ep cs H7 Hcap) as Hs. destruct (find_any (waits_send ep) k) as [[th ti]|] eqn:Hf.
  - right. destruct Hs as (t & msg & len & Hti & Hst & ->). exists th, ti, t, msg, len. split_and!; [done..|].
    destruct (Hsrc _ _ _ _ _ Hti Hst) as (Hl & H1 & H2).
    pose proof (frame_read_range (ram k) sp A2 Hwf).
    rewrite transferred_bytes; [done|done|lia|done|]. intros x Hx. split; [apply Hdst; lia|by apply H2].
  - left. destruct (task_of h (current h k) k) as [t|] eqn:Hc; [|done]. by eapply caller_blocks.
Qed.

(** The two results of a transfer. *)
Lemma transfer_results ph pi peer_sp ep src dst n pc mc k1 :
  let k2 := transferred h ph pi peer_sp ep src dst n pc mc sp k1 in
  frame_read (ram k2) sp A0 = u32 mc ∧
  (disjoint sp 128 peer_sp 128 → frame_read (ram k2) peer_sp A0 = u32 pc).
Proof.
  intros k2. unfold k2, transferred. rewrite ram_raise_ipi. cbn [ram set_trace set_ram]. split.
  - apply frame_read_write_eq.
  - intros Hd. unfold disjoint in Hd. rewrite frame_read_write_disjoint by (unfold A0; lia). apply frame_read_write_eq.
Qed.

(** [mine]: the caller blocks and nobody it could serve was waiting.  Otherwise it has
    served a peer: both have their results, the peer is Ready, nothing else changes. *)
Definition met (p : TaskState → bool) (mine : TaskState) (own : Z → Z) (peer : Z → Z) : Prop :=
  (state <$> task_of h (current h k) k' = Some mine ∧
   ∀ h' i t, task_of h' i k = Some t → p (state t) = false) ∨
  ∃ h' i t ep a n, task_of h' i k = Some t ∧ p (state t) = true ∧
    (state t = BlockedOnIpcRecv ep a n ∨ state t = BlockedOnIpcSend ep a n) ∧
    frame_read (ram k') sp A0 = u32 (own n) ∧
    (disjoint sp 128 (saved_sp t) 128 → frame_read (ram k') (saved_sp t) A0 = u32 (peer n)) ∧
    ∀ h'' j, task_of h'' j k' = if decide (h' = h'' ∧ i = j) then Some (set_state Ready t) else task_of h'' j k.

Context (Hrun : runnable <$> (state <$> task_of h (current h k) k) = Some true).

Lemma send_meets ep cr :
  frame_read (ram k) sp A7 = 6 → cap_at h a0 k = CapIpc ep true cr →
  met (waits_recv ep) (BlockedOnIpcSend ep a1 a2) (λ _, 0) (Z.min a2).
Proof.
  intros H7 Hcap. pose proof (send_result ep cr H7 Hcap) as Hs.
  destruct (find_any (waits_recv ep) k) as [[rh ri]|] eqn:Hf.
  - right. destruct Hs as (t & buf & max & Hti & Hst & ->). exists rh, ri, t, ep, buf, max.
    destruct (transfer_results rh ri (saved_sp t) ep a1 buf (Z.min a2 max) (Z.min a2 max) 0 (advanced sp kt)) as [H1 H2].
    split_and!; [done|by rewrite Hst; apply Z.eqb_refl|by left|exact H1|exact H2|].
    intros h'' j. by rewrite (transferred_tasks _ _ _ _ _ _ _ _ _ _ _ _ t) by done.
  - left. destruct (task_of h (current h k) k) as [t|] eqn:Hc; [|done]. split; [by eapply caller_blocks|].
    intros h' i t' Ht'. by eapply (find_any_None _ _ k h' i t' (rf_inv _ _ _ Hr)).
Qed.

Lemma recv_meets ep cs :
  frame_read (ram k) sp A7 = 7 → cap_at h a0 k = CapIpc ep cs true →
  met (waits_send ep) (BlockedOnIpcRecv ep a1 a2) (λ len, Z.min len a2) (λ _, 0).
Proof.
  intros H7 Hcap. pose proof (recv_result ep cs H7 Hcap) as Hs.
  destruct (find_any (waits_send ep) k) as [[th ti]|] eqn:Hf.
  - right. destruct Hs as (t & msg & len & Hti & Hst & ->). exists th, ti, t, ep, msg, len.
    destruct (transfer_results th ti (saved_sp t) ep msg a1 (Z.min len a2) 0 (Z.min len a2) (advanced sp kt)) as [H1 H2].
    split_and!; [done|by rewrite Hst; apply Z.eqb_refl|by right|exact H1|exact H2|].
    intros h'' j. by rewrite (transferred_tasks _ _ _ _ _ _ _ _ _ _ _ _ t) by done.
  - left. destruct (task_of h (current h k) k) as [t|] eqn:Hc; [|done]. split; [by eapply caller_blocks|].
    intros h' i t' Ht'. by eapply (find_any_None _ _ k h' i t' (rf_inv _ _ _ Hr)).
Qed.
End delivery.
