(* ===== verification/FaultSpec.v ===== *)
(** * FaultSpec: fault containment, mutex recovery and CSR emulation

    Functional specifications of the exception arm of kernel/src/trap.rs and of
    system call 8, which share the recovery of the mutexes a dead task held, and
    of the context switch itself. *)
From S2P Require Import Prelude Memory Tcb Bitmap Can Pmp Spinlock Telemetry Kernel.
From S2P Require Import Trap KernelInv TrapInv Security Boot Reach SyscallSpec.

(** ** Specification of recovery *)

(** What becomes of one mutex when task [target] dies. *)
Definition recovered (target : nat) (m : KernelMutex) : KernelMutex :=
  if bool_decide (owner_task_idx m = Some (Z.of_nat target)) then
    match lowest_waiter (waiters_bitmap m) with
    | Some w => mkMutex true (Some (Z.of_nat w)) (clear_bit (waiters_bitmap m) w)
    | None => mkMutex false None (waiters_bitmap m)
    end
  else m.

(** Task [n] is first in line for mutex [i] that [target] owns. *)
Definition heir (k : Kernel) (target i n : nat) : Prop :=
  ∃ m, mutex_of i k = Some m ∧ owner_task_idx m = Some (Z.of_nat target) ∧
       lowest_waiter (waiters_bitmap m) = Some n.

(** Only tables and mutexes differ. *)
Definition same_rest (k k' : Kernel) : Prop :=
  k' = set_SCHEDULERS (SCHEDULERS k') (set_MUTEXES (MUTEXES k') k).

(** [k'] is [k] with the mutexes [s .. s + n) recovered and their heirs woken. *)
Record recovers (target s n : nat) (k k' : Kernel) : Prop := {
  rec_mutex : ∀ i, mutex_of i k' =
    if decide (s ≤ i < s + n)%nat then recovered target <$> mutex_of i k else mutex_of i k;
  rec_task : ∀ h j t, task_of h j k = Some t → ∃ t', task_of h j k' = Some t' ∧
    (t' = t ∧ (∀ i, (s ≤ i < s + n)%nat → home j = h → ¬ heir k target i j) ∨
     t' = set_state Ready t ∧ home j = h ∧ ∃ i, (s ≤ i < s + n)%nat ∧ heir k target i j);
  rec_current : ∀ h, current h k' = current h k;
  rec_rest : same_rest k k';
  rec_static : static_kernel k k'
}.

Lemma same_rest_refl k : same_rest k k.
Proof. by destruct k. Qed.

Lemma same_rest_trans k1 k2 k3 : same_rest k1 k2 → same_rest k2 k3 → same_rest k1 k3.
Proof. unfold same_rest. intros H1 H2. rewrite H2, H1. by destruct k1. Qed.

Section recovery.
Context (E : Env).

(** One mutex. *)
(** A mutex the dead task does not own stays. *)
Lemma recovers_nothing target i k :
  (mutex_of i k = None ∨ ∃ m, mutex_of i k = Some m ∧ owner_task_idx m ≠ Some (Z.of_nat target)) →
  recovers target i 1 k k.
Proof.
  intros Hno. split; [| |done|apply same_rest_refl|done].
  - intros j. case_decide; [|done]. assert (j = i) as -> by lia.
    destruct Hno as [->|(m & -> & Hne)]; [done|]. simpl. unfold recovered. by rewrite bool_decide_false.
  - intros h j t Ht. exists t. split; [done|]. left. split; [done|]. intros i' Hi' _ (m & Hm & Hown & _).
    assert (i' = i) as -> by lia. destruct Hno as [Hno|(m' & Hm' & Hne)]; congruence.
Qed.

Lemma wp_recover_mutex target i k :
  kernel_inv (layout E) k → (i < 8)%nat → (target < 32)%nat →
  wp no_panic (recover_mutex target i)
    (λ _ k', kernel_inv (layout E) k' ∧ recovers target i 1 k k') k.
Proof.
  intros Hi Hlt Ht32. unfold recover_mutex. rewrite u8_small by lia.
  apply wp_bind, wp_get_mutex; [by rewrite (inv_mutexes _ _ Hi)|].
  destruct (mutex_of i k) as [m|] eqn:Hm; [|split; [done|]; apply recovers_nothing; by left].
  case_bool_decide as Hown; [|split; [done|]; apply recovers_nothing; right; eauto].
  assert (Hmut : ∀ m' j, mutex_of j (set_MUTEXES (<[i := Some m']> (MUTEXES k)) k)
                         = if decide (i = j) then Some m' else mutex_of j k).
  { intros m' j. apply slot_insert. by rewrite (inv_mutexes _ _ Hi). }
  assert (Hrec : ∀ m', recovered target m = m' → ∀ j,
    (if decide (i = j) then Some m' else mutex_of j k)
    = if decide (i ≤ j < i + 1)%nat then recovered target <$> mutex_of j k else mutex_of j k).
  { intros m' <- j. destruct (decide (i = j)) as [->|].
    - rewrite decide_True by lia. by rewrite Hm.
    - by rewrite decide_False by lia. }
  apply wp_bind, (wp_highest_waiter (layout E)); [done|by eapply inv_waiters|].
  destruct (lowest_waiter (waiters_bitmap m)) as [w|] eqn:Hw.
  - wp_run. destruct (lowest_waiter_Some _ _ Hw) as (Hwlt & Hbit & _).
    destruct (inv_waiters _ _ _ _ Hi Hm w Hbit) as [tw Htw].
    apply wp_put_state_if_some; [by eexists|]. split; [by apply inv_handover|]. split.
    + intros j. rewrite u8_small by lia.
      change (mutex_of j (upd_task _ _ _ ?kk)) with (mutex_of j kk). rewrite Hmut. apply Hrec.
      unfold recovered. by rewrite bool_decide_true, Hw.
    + intros h j t Ht. rewrite task_of_upd.
      change (task_of h j (set_MUTEXES _ k)) with (task_of h j k). rewrite Ht.
      case_decide as Hd.
      * destruct Hd as [<- <-]. eexists. split; [done|]. right. split_and!; [done..|].
        exists i. split; [lia|]. exists m. done.
      * exists t. split; [done|]. left. split; [done|]. intros i' Hi' Hh (m0 & Hm0 & _ & Hlw).
        assert (i' = i) as -> by lia. apply Hd. by simplify_eq.
    + intros h. apply current_upd.
    + by destruct k.
    + set (km := set_MUTEXES _ k). change (static_kernel km (upd_task (home w) w (set_state Ready) km)).
      apply static_upd. by intros [].
  - wp_run. split; [by apply inv_release|]. split.
    + intros j. rewrite Hmut. apply Hrec. unfold recovered. by rewrite bool_decide_true, Hw.
    + intros h j t Ht. exists t. split; [done|]. left. split; [done|].
      intros i' Hi' _ (m0 & Hm0 & _ & Hlw). assert (i' = i) as -> by lia. congruence.
    + done.
    + by destruct k.
    + done.
Qed.

Lemma recovers_step target s n k k1 k2 :
  recovers target s 1 k k1 → recovers target (S s) n k1 k2 → recovers target s (S n) k k2.
Proof.
  intros [M1 T1 C1 R1 S1] [M2 T2 C2 R2 S2].
  assert (Hmut : ∀ i, (S s ≤ i)%nat → mutex_of i k1 = mutex_of i k).
  { intros i Hi. rewrite M1. by rewrite decide_False by lia. }
  assert (Hheir : ∀ i j, (S s ≤ i)%nat → heir k1 target i j ↔ heir k target i j).
  { intros i j Hi. unfold heir. by rewrite Hmut. }
  split.
  - intros i. rewrite M2, M1. repeat case_decide; try lia; done.
  - intros h j t Ht. destruct (T1 _ _ _ Ht) as (t1 & Ht1 & H1). destruct (T2 _ _ _ Ht1) as (t2 & Ht2 & H2).
    exists t2. split; [done|]. destruct H2 as [[-> Hno2]|(-> & Hh & i & Hi & He)].
    + destruct H1 as [[-> Hno1]|(-> & Hh & i & Hi & He)].
      * left. split; [done|]. intros i Hi Hh. destruct (decide (i = s)) as [->|]; [apply Hno1; [lia|done]|].
        rewrite <- Hheir by lia. apply Hno2; [lia|done].
      * right. split_and!; [done..|]. exists i. split; [lia|done].
    + right. split; [by destruct H1 as [[-> _]|[-> _]]|]. split; [done|]. exists i. split; [lia|].
      by apply Hheir; [lia|].
  - intros h. by rewrite C2.
  - by eapply same_rest_trans.
  - by etrans.
Qed.

Lemma wp_recover_mutexes target n s k :
  kernel_inv (layout E) k → (s + n ≤ 8)%nat → (target < 32)%nat →
  wp no_panic (recover_mutexes target (seq s n))
    (λ _ k', kernel_inv (layout E) k' ∧ recovers target s n k k') k.
Proof.
  revert s k. induction n as [|n IH]; intros s k Hi Hle Ht; cbn [seq recover_mutexes].
  - wp_run. split; [done|]. split; [| |done|apply same_rest_refl|done].
    + intros i. by rewrite decide_False by lia.
    + intros h j t Hj. exists t. split; [done|]. left. split; [done|]. lia.
  - wp_run. eapply wp_mono; [apply wp_recover_mutex; [done|lia|done]|]. intros [] k1 [Hi1 H1].
    eapply wp_mono; [apply IH; [done|lia|done]|]. intros [] k2 [Hi2 H2].
    split; [done|]. by eapply recovers_step.
Qed.

(** The whole recovery, under its lock. *)
Lemma wp_recovery h target k :
  kernel_inv (layout E) k → avail h (MUTEX_LOCK k) → (target < 32)%nat →
  wp no_panic (recovery h target) (λ _ k', kernel_inv (layout E) k' ∧ recovers target 0 8 k k') k.
Proof.
  intros Hi Ha Ht. unfold recovery. wp_run. apply wp_mutex_lock; [done|]. intros l' Hu.
  wp_run. set (k1 := set_MUTEX_LOCK l' k).
  assert (Hi1 : kernel_inv (layout E) k1) by by apply (inv_fields _ k).
  rewrite (inv_mutexes _ _ Hi1). eapply wp_mono; [apply wp_recover_mutexes; [done|lia|done]|].
  intros [] k2 [Hi2 [M T C R St]]. wp_run. split; [by apply (inv_fields _ k2)|]. split.
  - exact M.
  - exact T.
  - exact C.
  - unfold same_rest in *. rewrite R. simpl. rewrite Hu. by destruct k.
  - exact St.
Qed.
End recovery.

(** ** Progress of a reschedule *)

Lemma switched_progress E h sp k sp' k' n t :
  kernel_inv (layout E) k → switched E h sp false k sp' k' →
  task_of h n k = Some t → state t = Ready →
  ∃ j tj t', task_of h j k = Some tj ∧ state tj = Ready ∧ sp' = saved_sp tj ∧
    current h k' = j ∧ task_of h j k' = Some t' ∧ state t' = Running ∧ name t' = name tj ∧
    pmp_configured (layout E) (name t') (ph_get h (pmp k')).
Proof.
  intros Hi Hs Ht Hst. pose proof (wf_shape _ (inv_sched _ _ Hi h)) as Hsh.
  destruct Hs as [r Hc|j tj d p' _ _ Htj Hstj Hlt _ _ Hp].
  - exfalso. assert (Htr : triggered (sched_of h k) false = true) by (unfold triggered; by rewrite orb_true_r).
    destruct Hc as [Hc|Hc]; [congruence|].
    pose proof (select_None _ _ (wf_current _ Hsh) Hc n) as Hf.
    assert (slot_ready (task_table (sched_of h k)) n = true) by (apply slot_ready_iff; eauto).
    apply slot_lt in Ht. rewrite (wf_table _ Hsh) in Ht. rewrite Hf in *; [done|done].
  - exists j, tj. unfold current, task_of, sched_of. simpl. rewrite !ph_get_set, !decide_True by done.
    fold (sched_of h k). rewrite slot_switch_to. cbv zeta.
    rewrite (decide_True (P := j = j)) by done. fold (task_of h j k). rewrite Htj.
    case_decide; eexists; split_and!; done.
Qed.

(** ** Containment *)

(** The state in which the faulting task is dead, before recovery. *)
Definition faulted (h : hart) (sp cause : Z) (k : Kernel) : Kernel :=
  upd_task h (current h k) (set_state Terminated)
    (set_METRIC_PMP_VIOLATIONS
      (if cause =? 2 then METRIC_PMP_VIOLATIONS k else wrapping_add (METRIC_PMP_VIOLATIONS k) 1)
      (set_trace (trace k ++ [FaultInterception (u32 cause) (u32 (frame_read (ram k) sp MEPC))]) k)).

Lemma wp_contain_fault E h sp cause k :
  ready_for E h k →
  wp no_panic (contain_fault E h sp cause) (λ sp' k', ∃ k1,
    recovers (current h k) 0 8 (faulted h sp cause k) k1 ∧ kernel_inv (layout E) k1 ∧
    switched E h sp false k1 sp' k') k.
Proof.
  intros Hr. pose proof (rf_inv _ _ _ Hr) as Hi. unfold contain_fault. wp_run.
  set (k0 := set_METRIC_PMP_VIOLATIONS
      (if cause =? 2 then METRIC_PMP_VIOLATIONS k else wrapping_add (METRIC_PMP_VIOLATIONS k) 1)
      (set_trace (trace k ++ [FaultInterception (u32 cause) (u32 (frame_read (ram k) sp MEPC))]) k)).
  apply (wp_mono _ _ (λ _ k', k' = k0)).
  { unfold k0. destruct (cause =? 2); cbn [negb]; wp_run; by destruct k. }
  intros [] k' ->. apply wp_sched_guard; [exact (rf_sched _ _ _ Hr)|]. intros l. wp_run.
  destruct (current_registered E h k Hi) as [t Ht]. apply wp_lift.
  change (ph_get h (SCHEDULERS (set_SCHED_LOCK l k0))) with (sched_of h k).
  rewrite (index_slot _ _ _ Ht). cbn [returns]. wp_run.
  apply wp_put_state; [by eexists|]. fold (current h k).
  set (k1 := faulted h sp cause k).
  assert (Hi1 : kernel_inv (layout E) k1) by (apply inv_set_state; [by apply (inv_fields _ k)|done|done]).
  change (upd_task _ _ _ _) with (set_SCHED_LOCK l k1).
  eapply wp_mono; [apply (wp_recovery E h (current h k) (set_SCHED_LOCK l k1))|].
  - by apply (inv_fields _ k1).
  - exact (rf_mutex _ _ _ Hr).
  - by apply (current_lt E).
  - intros [] k2 [Hi2 [M T C R St]]. apply wp_switch_task; [done|]. intros sp' k' Hs.
    set (k2' := set_SCHED_LOCK (SCHED_LOCK k1) k2).
    assert (Hk2 : k2 = set_SCHED_LOCK l k2').
    { unfold k2'. unfold same_rest in R. rewrite R. reflexivity. }
    rewrite Hk2 in Hs. destruct (switched_sched_lock _ _ _ _ _ _ _ _ Hs) as [Hl Hs'].
    split; [done|]. exists k2'. split_and!.
    + split; [exact M|exact T|exact C| |exact St]. unfold same_rest, k2' in *. rewrite R. by destruct k.
    + by apply (inv_fields _ k2).
    + exact Hs'.
Qed.

(** ** A dead task after recovery *)

Section dead.
Context (E : Env) (h : hart) (i : nat) (k k0 k1 : Kernel).
Context (Hi : kernel_inv (layout E) k) (Hreg : is_Some (task_of h i k)).
Context (Htask : ∀ h' n, task_of h' n k0 =
  if decide (h = h' ∧ i = n) then set_state Terminated <$> task_of h' n k else task_of h' n k).
Context (Hmut : ∀ j, mutex_of j k0 = mutex_of j k).
Context (Hrec : recovers i 0 8 k0 k1).
Context (Hself : ∀ j m, mutex_of j k = Some m → owner_task_idx m = Some (Z.of_nat i) →
  Z.testbit (waiters_bitmap m) (Z.of_nat i) = false).

Lemma dead_no_heir j : ¬ heir k0 i j i.
Proof.
  intros (m & Hjm & Hown & Hlow). apply lowest_waiter_Some in Hlow as (_ & Hb & _).
  rewrite Hmut in Hjm. by rewrite (Hself j m Hjm Hown) in Hb.
Qed.

Lemma dead_victim : ∃ t1, task_of h i k1 = Some t1 ∧ state t1 = Terminated.
Proof.
  destruct Hreg as [t Ht].
  destruct (rec_task _ _ _ _ _ Hrec h i (set_state Terminated t))
    as (t1 & Ht1 & [[-> _]|(_ & _ & j & _ & Hheir)]).
  - rewrite Htask, decide_True by done. by rewrite Ht.
  - eauto.
  - by apply dead_no_heir in Hheir.
Qed.

Lemma dead_mutex j :
  mutex_of j k1 = if decide (j < 8)%nat then recovered i <$> mutex_of j k else mutex_of j k.
Proof. rewrite (rec_mutex _ _ _ _ _ Hrec), Hmut. repeat case_decide; try lia; done. Qed.

Lemma dead_owns_nothing j m : mutex_of j k1 = Some m → owner_task_idx m ≠ Some (Z.of_nat i).
Proof.
  rewrite dead_mutex. destruct (mutex_of j k) as [m0|] eqn:Hm0; [|by case_decide].
  pose proof (mutex_lt _ _ _ _ Hi Hm0). rewrite decide_True by lia. intros [= <-].
  unfold recovered. case_bool_decide as Hown; [|done].
  destruct (lowest_waiter (waiters_bitmap m0)) as [w|] eqn:Hw; [|done].
  apply lowest_waiter_Some in Hw as (_ & Hb & _). simpl. intros [= Heq%Nat2Z.inj]. subst w.
  by rewrite (Hself j m0 Hm0 Hown) in Hb.
Qed.

Lemma dead_others h' n t :
  h' ≠ h ∨ n ≠ i → task_of h' n k = Some t →
  ∃ t1, task_of h' n k1 = Some t1 ∧ (t1 = t ∨ t1 = set_state Ready t).
Proof.
  intros Hne Ht. destruct (rec_task _ _ _ _ _ Hrec h' n t) as (t1 & Ht1 & Hcase).
  - rewrite Htask, decide_False; [exact Ht|]. intros [H1 H2].
    destruct Hne as [Hn|Hn]; [exact (Hn (eq_sym H1))|exact (Hn (eq_sym H2))].
  - exists t1. split; [done|]. destruct Hcase as [[-> _]|(-> & _)]; auto.
Qed.
End dead.

Lemma faulted_task h sp cause k h' n :
  task_of h' n (faulted h sp cause k) =
    if decide (h = h' ∧ current h k = n) then set_state Terminated <$> task_of h' n k
    else task_of h' n k.
Proof. unfold faulted. by rewrite task_of_upd. Qed.

(** The dispatcher sends a contained cause that is not an emulated CSR read to
    [contain_fault]. *)
Lemma wp_trap_fault E h sp cause start_cycle k :
  ready_for E h k → contained_cause cause = true →
  (cause = 2 → emulated_csr (load32 (ram k) (frame_read (ram k) sp MEPC)) = false) →
  wp no_panic (trap_handler E h cause sp start_cycle) (λ sp' k', ∃ k1,
    recovers (current h k) 0 8 (faulted h sp cause
      (set_METRIC_TRAP_LATENCY_CYCLES (wrapping_sub (csr_mcycle E) start_cycle) k)) k1 ∧
    kernel_inv (layout E) k1 ∧ switched E h sp false k1 sp' k') k.
Proof.
  intros Hr Hc Hcsr.
  set (k0 := set_METRIC_TRAP_LATENCY_CYCLES (wrapping_sub (csr_mcycle E) start_cycle) k).
  assert (Hr0 : ready_for E h k0) by (destruct Hr; split; [by apply (inv_fields _ k)|done|done]).
  unfold trap_handler. wp_run. fold k0.
  assert (Hne : (cause =? TIMER_INTERRUPT) = false ∧ (cause =? SOFTWARE_INTERRUPT) = false ∧
                (cause =? ECALL_UMODE) = false).
  { unfold contained_cause in Hc. change TIMER_INTERRUPT with 2147483655.
    change SOFTWARE_INTERRUPT with 2147483651. unfold ECALL_UMODE. lia. }
  destruct Hne as (-> & -> & ->). unfold exception. wp_run. change (ram k0) with (ram k).
  assert (He : (cause =? 2) && emulated_csr (load32 (ram k) (frame_read (ram k) sp MEPC)) = false).
  { destruct (Z.eqb_spec cause 2); [|done]. by apply Hcsr. }
  rewrite He, Hc. exact (wp_contain_fault E h sp cause k0 Hr0).
Qed.

(** C19. Fault containment.  An access fault, misaligned access or illegal
    instruction of the running task terminates that task and nothing else: every
    mutex it owned goes to its highest-priority waiter or becomes free, so that
    it owns none afterwards; every other task keeps its state or becomes
    runnable; and if any other task of the hart was Ready, the hart resumes a
    task, which is Running with the PMP programmed for it.  The task must not be
    recorded as a waiter of a mutex it owns. *)
Theorem fault_containment E h sp cause start_cycle k :
  ready_for E h k → contained_cause cause = true →
  (cause = 2 → emulated_csr (load32 (ram k) (frame_read (ram k) sp MEPC)) = false) →
  let i := current h k in
  (∀ j m, mutex_of j k = Some m → owner_task_idx m = Some (Z.of_nat i) →
     Z.testbit (waiters_bitmap m) (Z.of_nat i) = false) →
  ∃ sp' k', trap_handler E h cause sp start_cycle k = Done (sp', k') ∧
    (∃ t', task_of h i k' = Some t' ∧ state t' = Terminated) ∧
    (∀ j, mutex_of j k' = if decide (j < 8)%nat then recovered i <$> mutex_of j k else mutex_of j k) ∧
    (∀ j m, mutex_of j k' = Some m → owner_task_idx m ≠ Some (Z.of_nat i)) ∧
    (∀ h' n t, (h' ≠ h ∨ n ≠ i) → task_of h' n k = Some t → ∃ t', task_of h' n k' = Some t' ∧
       (state t' = state t ∨ runnable (state t') = true)) ∧
    (∀ n t, n ≠ i → task_of h n k = Some t → state t = Ready →
       ∃ t', task_of h (current h k') k' = Some t' ∧ state t' = Running ∧
             pmp_configured (layout E) (name t') (ph_get h (pmp k'))).
Proof.
  intros Hr Hc Hcsr i Hself. pose proof (rf_inv _ _ _ Hr) as Hi.
  pose proof (current_registered E h k Hi) as Hreg. fold (current h k) in Hreg. fold i in Hreg.
  destruct (wp_no_panic _ _ _ (wp_trap_fault E h sp cause start_cycle k Hr Hc Hcsr))
    as (sp' & k' & He & k1 & Hrec & Hi1 & Hs).
  set (k0 := set_METRIC_TRAP_LATENCY_CYCLES _ k) in Hrec.
  pose proof (faulted_task h sp cause k0 : ∀ h' n, _) as Hft.
  change (current h k0) with i in Hft. change (∀ h' n, task_of h' n (faulted h sp cause k0) =
    if decide (h = h' ∧ i = n) then set_state Terminated <$> task_of h' n k else task_of h' n k) in Hft.
  assert (Hm : ∀ j, mutex_of j k' = mutex_of j k1) by (intros; by destruct Hs).
  exists sp', k'. split_and!; [done|..].
  - destruct (dead_victim h i k (faulted h sp cause k0) k1 Hreg Hft (λ _, eq_refl) Hrec Hself)
      as (t1 & Ht1 & Hst1).
    destruct (switched_blocked _ _ _ _ _ _ _ h i t1 Hs) as (t' & Ht' & Hst'); [done|by rewrite Hst1|].
    exists t'. split; [done|congruence].
  - intros j. rewrite Hm. by apply (dead_mutex i k (faulted h sp cause k0)).
  - intros j m. rewrite Hm. by apply (dead_owns_nothing E i k (faulted h sp cause k0)).
  - intros h' n t Hne Ht.
    destruct (dead_others h i k _ k1 Hft Hrec h' n t Hne Ht) as (t1 & Ht1 & Hcase).
    destruct (switched_state _ _ _ _ _ _ _ _ _ _ Hs Ht1) as (t' & Ht' & Hst'). exists t'. split; [done|].
    destruct Hst' as [Hst'|[_ ?]]; [|by right]. rewrite Hst'. destruct Hcase as [-> | ->]; auto.
  - intros n t Hne Ht Hst.
    destruct (dead_others h i k _ k1 Hft Hrec h n t (or_intror Hne) Ht) as (t1 & Ht1 & Hcase).
    destruct (switched_progress E h sp k1 sp' k' n t1) as (j & tj & t' & _ & _ & _ & Hj & Ht' & Hrun & _ & Hp);
      [done|done|done|by destruct Hcase as [-> | ->]|]. exists t'. by rewrite Hj.
Qed.

(** Task A holds the mutex Task C waits for, and faults. *)
Lemma unlock_call_self j m :
  mutex_of j unlock_call = Some m → owner_task_idx m = Some 1 →
  Z.testbit (waiters_bitmap m) 1 = false.
Proof.
  intros Hm _. pose proof (slot_lt _ _ _ Hm) as Hlt.
  assert (Hlen : length (MUTEXES unlock_call) = 8%nat) by (vm_compute; reflexivity). rewrite Hlen in Hlt.
  do 8 (destruct j as [|j]; [vm_compute in Hm; first [discriminate Hm | injection Hm as <-; reflexivity]|]).
  lia.
Qed.

Lemma fault_containment_witness :
  ∃ sp' k', trap_handler sample_env H0 5 0x3FC80780 6000 unlock_call = Done (sp', k') ∧
    mutex_of 0 k' = Some (mkMutex true (Some 3) 0).
Proof.
  destruct (fault_containment sample_env H0 0x3FC80780 5 6000 unlock_call)
    as (sp' & k' & He & _ & Hm & _).
  - apply (run_ready H0 _ ∅). vm_compute. reflexivity.
  - reflexivity.
  - discriminate.
  - replace (current H0 unlock_call) with 1%nat by (vm_compute; reflexivity). exact unlock_call_self.
  - exists sp', k'. split; [exact He|]. rewrite Hm. vm_compute. reflexivity.
Defined.

(** ** System call 8 *)

(** Where the call finds its target: core 0 first. *)
Definition target_hart (i : nat) (k : Kernel) : hart :=
  match task_of H0 i k with Some _ => H0 | None => H1 end.

Definition terminated (i : nat) (k : Kernel) : Kernel :=
  upd_task (target_hart i k) i (set_state Terminated) k.

Lemma wp_terminate_slot i k :
  is_Some (task_of (target_hart i k) i k) →
  wp no_panic (terminate_slot i) (λ r k', r = Some (target_hart i k) ∧ k' = terminated i k) k.
Proof.
  unfold terminated, target_hart. intros Hs. unfold terminate_slot. wp_run.
  fold (sched_of H0 k) (sched_of H1 k) (task_of H0 i k) (task_of H1 i k).
  destruct (task_of H0 i k) eqn:E0.
  - apply wp_bind, wp_put_state; [by eexists|]. by wp_run.
  - destruct Hs as [t Ht]. rewrite Ht. apply wp_bind, wp_put_state; [by eexists|]. by wp_run.
Qed.

Lemma wp_terminate E h sp k i :
  ready_for E h k → frame_read (ram k) sp A0 = Z.of_nat i → (i < 32)%nat →
  is_Some (task_of (target_hart i k) i k) →
  wp no_panic (sys_terminate E h sp) (λ sp' k', ∃ k1,
    recovers i 0 8 (terminated i k) k1 ∧ kernel_inv (layout E) k1 ∧
    if decide (target_hart i k = h) then
      if decide (i = current h k) then switched E h sp false (return_code sp 0 k1) sp' k'
      else sp' = sp ∧ k' = return_code sp 0 k1
    else sp' = sp ∧ k' = set_msip (ph_set (target_hart i k) 1 (msip k)) (return_code sp 0 k1)) k.
Proof.
  intros Hr Ha0 Hlt Hreg. pose proof (rf_inv _ _ _ Hr) as Hi. unfold sys_terminate. wp_run.
  rewrite Ha0, Nat2Z.id. unfold MAX_PARTITIONS.
  rewrite (proj2 (Z.ltb_lt _ _)) by lia.
  apply wp_sched_guard; [exact (rf_sched _ _ _ Hr)|]. intros l. apply wp_bind.
  eapply wp_mono; [by apply (wp_terminate_slot i (set_SCHED_LOCK l k))|]. intros r k' [-> ->].
  change (target_hart i (set_SCHED_LOCK l k)) with (target_hart i k).
  change (terminated i (set_SCHED_LOCK l k)) with (set_SCHED_LOCK l (terminated i k)).
  assert (Hi1 : kernel_inv (layout E) (terminated i k)) by by apply inv_set_state.
  apply wp_bind. eapply wp_mono; [apply (wp_recovery E h i)|].
  - by apply (inv_fields _ (terminated i k)).
  - exact (rf_mutex _ _ _ Hr).
  - done.
  - intros [] k2 [Hi2 [M T C R St]]. set (k1 := set_SCHED_LOCK (SCHED_LOCK k) k2).
    assert (Hk2 : k2 = set_SCHED_LOCK l k1).
    { unfold k1. unfold same_rest in R. rewrite R. reflexivity. }
    assert (Hrec : recovers i 0 8 (terminated i k) k1).
    { split; [exact M|exact T|exact C| |exact St]. unfold same_rest, k1 in *. rewrite R. by destruct k. }
    assert (Hi1' : kernel_inv (layout E) k1) by by apply (inv_fields _ k2).
    assert (Hms : msip k2 = msip k) by (unfold same_rest in R; by rewrite R).
    assert (Hcur : current_partition_idx (ph_get h (SCHEDULERS k2)) = current h k).
    { transitivity (current h (terminated i k)); [exact (C h)|]. apply current_upd. }
    clear M T C R St. wp_run. change (set_ram (frame_write (ram k2) sp A0 0) k2) with (return_code sp 0 k2).
    destruct (decide (target_hart i k = h)) as [Hh|Hh].
    + rewrite bool_decide_true by done. wp_run.
      change (SCHEDULERS (return_code sp 0 k2)) with (SCHEDULERS k2). rewrite Hcur.
      destruct (decide (i = current h k)) as [Hc|Hc].
      * rewrite (proj2 (Nat.eqb_eq _ _)) by done.
        apply wp_switch_task; [by apply (inv_fields _ k2)|]. intros sp' k' Hs. rewrite Hk2 in Hs.
        destruct (switched_sched_lock E h sp false (return_code sp 0 k1) l sp' k' Hs) as [Hl Hs'].
        split; [done|]. exists k1. split_and!; done.
      * rewrite (proj2 (Nat.eqb_neq _ _)) by done. wp_run. split; [by rewrite Hk2|].
        exists k1. by split_and!.
    + rewrite bool_decide_false by done. wp_run. split; [by rewrite Hk2|].
      exists k1. split_and!; [done..|]. simpl. by rewrite Hms.
Qed.

Lemma terminated_task i k h' n :
  task_of h' n (terminated i k) =
    if decide (target_hart i k = h' ∧ i = n) then set_state Terminated <$> task_of h' n k
    else task_of h' n k.
Proof. unfold terminated. by rewrite task_of_upd. Qed.

(** Termination by system call.  Whatever capabilities the caller has, a
    request to terminate a registered task succeeds: the task found under that
    index (core 0 first) is Terminated, it owns no mutex afterwards, each mutex it
    held is recovered, and every other task keeps its state or becomes runnable.
    The target must not be recorded as a waiter of a mutex it owns. *)
Lemma terminate_needs_no_capability E h sp k i :
  ready_for E h k → frame_read (ram k) sp A7 = 8 → frame_read (ram k) sp A0 = Z.of_nat i →
  (i < 32)%nat → is_Some (task_of (target_hart i k) i k) →
  (∀ j m, mutex_of j k = Some m → owner_task_idx m = Some (Z.of_nat i) →
     Z.testbit (waiters_bitmap m) (Z.of_nat i) = false) →
  ∃ sp' k', ecall E h sp k = Done (sp', k') ∧
    (∃ t', task_of (target_hart i k) i k' = Some t' ∧ state t' = Terminated) ∧
    (∀ j m, mutex_of j k' = Some m → owner_task_idx m ≠ Some (Z.of_nat i)) ∧
    (∀ h' n t, (h' ≠ target_hart i k ∨ n ≠ i) → task_of h' n k = Some t →
       ∃ t', task_of h' n k' = Some t' ∧ (state t' = state t ∨ runnable (state t') = true)).
Proof.
  intros Hr Ha7 Ha0 Hlt Hreg Hself. pose proof (ready_advanced _ _ sp _ Hr) as Hr'.
  pose proof (rf_inv _ _ _ Hr) as Hi. set (ka := advanced sp k).
  assert (Ha0' : frame_read (ram ka) sp A0 = Z.of_nat i) by (unfold ka; by rewrite advanced_reg).
  pose proof (wp_terminate E h sp ka i Hr' Ha0' Hlt Hreg) as Hwp.
  assert (Hwe : wp no_panic (ecall E h sp) (λ sp' k', ∃ k1, recovers i 0 8 (terminated i ka) k1 ∧
    (switched E h sp false (return_code sp 0 k1) sp' k' ∨
     SCHEDULERS k' = SCHEDULERS k1 ∧ MUTEXES k' = MUTEXES k1)) k).
  { apply (wp_ecall _ _ _ _ _ 8); [done|]. simpl. eapply wp_mono; [exact Hwp|].
    intros sp' k' (k1 & Hrec & _ & Hcase). exists k1. split; [done|].
    repeat case_decide; [by left|right; by destruct Hcase as [_ ->]..]. }
  apply wp_no_panic in Hwe as (sp' & k' & He & k1 & Hrec & Hcase). clear Hwp.
  pose proof (terminated_task i ka) as Hft.
  assert (Hstate : ∀ h' n t, task_of h' n k1 = Some t → ∃ t', task_of h' n k' = Some t' ∧
    (state t' = state t ∨ runnable (state t) = true ∧ runnable (state t') = true)).
  { intros h' n t Ht. destruct Hcase as [Hs|[Hs _]].
    - by apply (switched_state _ _ _ _ _ _ _ _ _ _ Hs).
    - exists t. unfold task_of, sched_of in *. rewrite Hs. auto. }
  assert (Hmut : ∀ j, mutex_of j k' = mutex_of j k1).
  { intros j. destruct Hcase as [Hs|[_ Hs]]; [by destruct Hs|]. unfold mutex_of. by rewrite Hs. }
  exists sp', k'. split_and!; [done|..].
  - destruct (dead_victim (target_hart i k) i k (terminated i ka) k1 Hreg Hft (λ _, eq_refl) Hrec Hself)
      as (t1 & Ht1 & Hst1).
    destruct (Hstate _ _ _ Ht1) as (t' & Ht' & [Hst'|[Hst' _]]); [|by rewrite Hst1 in Hst'].
    exists t'. split; [done|congruence].
  - intros j m. rewrite Hmut. by apply (dead_owns_nothing E i k (terminated i ka)).
  - intros h' n t Hne Ht.
    destruct (dead_others (target_hart i k) i k _ k1 Hft Hrec h' n t Hne Ht) as (t1 & Ht1 & Hc).
    destruct (Hstate _ _ _ Ht1) as (t' & Ht' & Hst'). exists t'. split; [done|].
    destruct Hst' as [Hst'|[_ ?]]; [|by right]. rewrite Hst'. destruct Hc as [-> | ->]; auto.
Qed.

(** Task B, which has no capability beyond receiving, terminates the Watchdog. *)
Definition kill_call : Kernel := demo (syscall_frame 0x3FC80B80 8 0 0 0 ∅).

Lemma terminate_needs_no_capability_witness :
  ∃ sp' k', ecall sample_env H1 0x3FC80B80 kill_call = Done (sp', k') ∧
    ∃ t', task_of H0 0 k' = Some t' ∧ state t' = Terminated.
Proof.
  destruct (terminate_needs_no_capability sample_env H1 0x3FC80B80 kill_call 0)
    as (sp' & k' & He & Ht & _).
  - apply demo_ready.
  - vm_compute. reflexivity.
  - vm_compute. reflexivity.
  - lia.
  - vm_compute. eexists. reflexivity.
  - intros j m Hm Hown. destruct j as [|j].
    + vm_compute in Hm. injection Hm as <-. discriminate Hown.
    + apply slot_Some in Hm. apply (lookup_replicate_1 7) in Hm as [Hm _]. discriminate Hm.
  - exists sp', k'. split; [exact He|]. exact Ht.
Defined.

(** A terminated waiter comes back.  Terminating a task that waits for a
    mutex leaves its bit in the mutex's waiter bitmap, so the owner's later unlock
    hands the mutex to the dead task and makes it Ready again.  The run: Task A
    takes the mutex, Task C blocks on it, Task B terminates Task C, Task A
    unlocks. *)
Definition resurrection : list action :=
  [User (syscall_frame 0x3FC80380 1 0 0 0 ∅); Trap H0 8 0x3FC80380;
   User (syscall_frame 0x3FC80780 3 0 0 0 ∅); Trap H0 8 0x3FC80780;
   User (syscall_frame 0x3FC80B80 1 0 0 0 ∅); Trap H1 8 0x3FC80B80;
   User (syscall_frame 0x3FC80F80 3 0 0 0 ∅); Trap H1 8 0x3FC80F80;
   User (syscall_frame 0x3FC81B80 8 3 0 0 ∅); Trap H1 8 0x3FC81B80].

Lemma terminated_waiter_resurrected :
  ∃ k1 k2, run resurrection booted = Some k1 ∧ reachable sample_layout k1 ∧
    state <$> task_of H1 3 k1 = Some Terminated ∧
    run [User (syscall_frame 0x3FC80780 4 0 0 0 ∅); Trap H0 8 0x3FC80780] k1 = Some k2 ∧
    state <$> task_of H1 3 k2 = Some Ready ∧ mutex_of 0 k2 = Some (mkMutex true (Some 3) 0).
Proof.
  destruct (run resurrection booted) as [k1|] eqn:H1; [|vm_compute in H1; discriminate H1].
  destruct (run [User (syscall_frame 0x3FC80780 4 0 0 0 ∅); Trap H0 8 0x3FC80780] k1) as [k2|] eqn:H2.
  - exists k1, k2. split_and!; [done|by eapply run_reachable, H1; apply booted_reachable| |done| |];
      vm_compute in H1; injection H1 as <-; [reflexivity|..];
      vm_compute in H2; injection H2 as <-; reflexivity.
  - vm_compute in H1. injection H1 as <-. vm_compute in H2. discriminate H2.
Qed.

(** ** Emulated counter reads *)

Lemma frame_idx_range rd i : frame_idx rd = Some i → (i < MEPC)%nat.
Proof.
  unfold frame_idx, MEPC. destruct (Z.eqb_spec rd 1); [intros [= <-]; lia|].
  destruct ((5 <=? rd) && (rd <=? 31)) eqn:Er; [|done]. intros [= <-].
  apply andb_true_iff in Er as [?%Z.leb_le ?%Z.leb_le]. lia.
Qed.

(** Emulated counter reads.  When a U-mode read of [cycle] or [mcycle]
    traps as an illegal instruction, the handler puts the counter into exactly
    the frame slot of the destination register (nowhere for registers the frame
    does not hold), steps over the instruction, and changes nothing else: all
    other saved registers, the memory outside the frame, the schedulers, the
    mutexes and the PMP are as before. *)
Lemma csr_emulation E h sp start_cycle k :
  let mepc := frame_read (ram k) sp MEPC in
  let instruction := load32 (ram k) mepc in
  let rd := Z.land (Z.shiftr instruction 7) 0x1F in
  emulated_csr instruction = true →
  ∃ m', trap_handler E h 2 sp start_cycle k
        = Done (sp, set_ram m' (set_METRIC_TRAP_LATENCY_CYCLES (wrapping_sub (csr_mcycle E) start_cycle) k)) ∧
    frame_read m' sp MEPC = wrapping_add mepc 4 ∧
    (∀ i, i ≠ MEPC → frame_read m' sp i =
       if decide (frame_idx rd = Some i) then u32 (csr_mcycle E) else frame_read (ram k) sp i) ∧
    (∀ x, ¬ (sp ≤ x < sp + 128) → load8 m' x = load8 (ram k) x).
Proof.
  intros mepc instruction rd Hem.
  set (m1 := match frame_idx rd with
             | Some i => frame_write (ram k) sp i (csr_mcycle E) | None => ram k end).
  exists (frame_write m1 sp MEPC (wrapping_add mepc 4)). split_and!.
  - unfold trap_handler, exception, emulate_csr, mbind, K_bind, modify, fread, gets.
    change (2 =? TIMER_INTERRUPT) with false. change (2 =? SOFTWARE_INTERRUPT) with false.
    change (2 =? ECALL_UMODE) with false. change (2 =? 2) with true. cbn [andb ram set_METRIC_TRAP_LATENCY_CYCLES].
    fold mepc instruction. rewrite Hem. fold rd. unfold m1. by destruct (frame_idx rd).
  - rewrite frame_read_write_eq. unfold wrapping_add, u32. by rewrite Z.mod_mod by lia.
  - intros i Hi. rewrite frame_read_write_ne by done. unfold m1.
    destruct (frame_idx rd) as [j|]; [|done]. case_decide as Hd.
    + injection Hd as ->. by rewrite frame_read_write_eq.
    + by rewrite frame_read_write_ne by congruence.
  - intros x Hx. rewrite load8_frame_write_out by (unfold MEPC; lia). unfold m1.
    destruct (frame_idx rd) as [j|] eqn:Hj; [|done]. apply frame_idx_range in Hj. unfold MEPC in Hj.
    rewrite load8_frame_write_out by lia. done.
Qed.

(** [csrr a0, cycle] at address 0x42002000. *)
Definition csr_read : Kernel :=
  demo (store32 (frame_write ∅ 0x3FC80380 MEPC 0x42002000) 0x42002000 0xC0002573).

Lemma csr_emulation_witness :
  ∃ m' k', trap_handler sample_env H0 2 0x3FC80380 6000 csr_read = Done (0x3FC80380, k') ∧
    ram k' = m' ∧ frame_read m' 0x3FC80380 A0 = 7000 ∧ frame_read m' 0x3FC80380 MEPC = 0x42002004.
Proof.
  destruct (csr_emulation sample_env H0 0x3FC80380 6000 csr_read) as (m' & He & Hpc & Hreg & _).
  - vm_compute. reflexivity.
  - exists m'. eexists. split; [exact He|]. split; [reflexivity|]. split.
    + rewrite Hreg by discriminate. vm_compute. reflexivity.
    + rewrite Hpc. vm_compute. reflexivity.
Defined.

(** ** The context switch *)

(** Context switch.  [switch_task] never panics.  If it moves the hart from
    task [cur] to another task [j], it returns the stack pointer [j] was suspended
    with, stores the outgoing stack pointer in [cur]'s control block (so that
    switching back resumes [cur] exactly there), makes [j] Running, reprograms the
    PMP for [j], logs one swap event, and changes no other task of either hart,
    no mutex and no memory; otherwise it returns the stack pointer it was given. *)
Lemma switch_task_saves_context E h sp b k :
  kernel_inv (layout E) k →
  let cur := current h k in
  ∃ sp' k', switch_task E h sp b k = Done (sp', k') ∧
    MUTEXES k' = MUTEXES k ∧ ram k' = ram k ∧
    (current h k' = cur → sp' = sp ∨ slot_ready (task_table (sched_of h k)) cur = true) ∧
    (current h k' ≠ cur → ∃ tc tj tc' tj',
       task_of h cur k = Some tc ∧ task_of h (current h k') k = Some tj ∧ state tj = Ready ∧
       task_of h cur k' = Some tc' ∧ task_of h (current h k') k' = Some tj' ∧
       sp' = saved_sp tj ∧ saved_sp tc' = sp ∧ static_tcb tc' = static_tcb tc ∧
       tj' = set_state Running tj ∧ state tc' = (if decide (state tc = Running) then Ready else state tc) ∧
       pmp_configured (layout E) (name tj) (ph_get h (pmp k')) ∧
       length (trace k') = S (length (trace k)) ∧
       ∀ h' n, (h' ≠ h ∨ n ≠ cur ∧ n ≠ current h k') → task_of h' n k' = task_of h' n k).
Proof.
  intros Hi cur.
  destruct (wp_no_panic _ _ _ (wp_switch_task no_panic E h sp b k _ Hi (λ sp' k' H, H)))
    as (sp' & k' & He & Hs).
  exists sp', k'. split; [done|].
  destruct Hs as [r _|j tj d p' _ _ Htj Hst Hlt _ _ Hp].
  - unfold current, sched_of. simpl. rewrite ph_get_set, decide_True by done. split_and!; auto. done.
  - assert (Hcur : ∀ kk, SCHEDULERS kk = ph_set h (switch_to (sched_of h k) j d sp) (SCHEDULERS k) →
      current h kk = j).
    { intros kk Hk. unfold current, sched_of. rewrite Hk, ph_get_set. by rewrite decide_True. }
    rewrite Hcur by done. split_and!; [done|done| |].
    { intros ->. right. apply slot_ready_iff. eauto. }
    intros Hne. destruct (current_registered E h k Hi) as [tc Htc]. fold (current h k) cur in Htc.
    unfold task_of, sched_of. cbn [SCHEDULERS set_trace set_pmp set_SCHEDULERS pmp trace].
    rewrite !ph_get_set, !decide_True by done. fold (sched_of h k). rewrite !slot_switch_to. cbv zeta.
    fold (current h k) (task_of h cur k) (task_of h j k). fold cur.
    rewrite Htc, Htj, !(decide_False (P := j = cur)), !(decide_False (P := cur = j)), !(decide_True (P := cur = cur)),
      !(decide_True (P := j = j)) by congruence.
    exists tc, tj. do 2 eexists. split_and!; try done.
    + cbn [set_saved_sp]. apply static_demote.
    + simpl. unfold demote. case_bool_decide; case_decide; done.
    + rewrite length_app. simpl. lia.
    + intros h' n Hn. rewrite ph_get_set. case_decide; [subst h'|done].
      rewrite slot_switch_to. cbv zeta. fold (current h k). fold cur.
      destruct Hn as [?|[Hn1 Hn2]]; [done|]. by rewrite !decide_False by congruence.
Qed.

Lemma switch_task_saves_context_witness :
  ∃ sp' k', switch_task sample_env H0 0x3FC80300 false (demo ∅) = Done (sp', k') ∧
    sp' = 0x3FC80780 ∧ saved_sp <$> task_of H0 0 k' = Some 0x3FC80300.
Proof.
  destruct (switch_task_saves_context sample_env H0 0x3FC80300 false (demo ∅) (demo_inv ∅))
    as (sp' & k' & He & _ & _ & _ & Hsw).
  exists sp', k'. split; [exact He|].
  assert (Hc : current H0 k' = 1%nat) by (vm_compute in He; injection He as _ <-; reflexivity).
  destruct Hsw as (tc & tj & tc' & tj' & _ & Htj & _ & Htc' & _ & Hsp & Hsv & _).
  - rewrite Hc. discriminate.
  - rewrite Hc in Htj. split.
    + rewrite Hsp. vm_compute in Htj. injection Htj as <-. reflexivity.
    + change (current H0 (demo ∅)) with 0%nat in Htc'. rewrite Htc'. simpl. rewrite Hsv. reflexivity.
Defined.
