(* ===== verification/Watchdog.v ===== *)
(** * Watchdog: the task that enforces liveness

    Models one iteration of [watchdog_task] of kernel/src/main.rs, from the
    return of [sleep_ticks] to the end of the loop body.  The task runs in U-mode
    on hart 0; its [sys_terminate_task] is an environment call that re-enters the
    trap handler while the task still holds [SCHED_LOCK]. *)
From S2P Require Import Prelude Memory Tcb Bitmap Can Pmp Spinlock Telemetry Kernel.
From S2P Require Import Trap KernelInv TrapInv Security Boot Reach SyscallSpec.
From S2P Require Import FaultSpec.

(** ** The health check *)

(** [elapsed] and [timeout] for one last check-in. *)
Definition elapsed (current_tick last_checkin : Z) : Z :=
  if last_checkin =? 0 then current_tick else wrapping_sub current_tick last_checkin.
Definition timeout (last_checkin : Z) : Z := if last_checkin =? 0 then 1000 else 200.

(** The name of the task in slot [i] of hart [h] if it missed its deadline. *)
Definition check_task (current_tick : Z) (k : Kernel) (hi : hart * nat) : option string :=
  match slot (task_table (ph_get (fst hi) (SCHEDULERS k))) (snd hi) with
  | Some tcb =>
      if bool_decide (state tcb = Terminated) then None
      else
        let last_checkin := nth (snd hi) (LAST_CHECKIN_TICK k) 0 in
        if timeout last_checkin <? elapsed current_tick last_checkin then Some (name tcb) else None
  | None => None
  end.

(** Task A, Task B, Task C, HSM Task, in the order of the checks. *)
Definition monitored : list (hart * nat) := [(H0, 1%nat); (H1, 2%nat); (H1, 3%nat); (H0, 4%nat)].

(** [check_failed] and [failed_task]: a later failure overwrites an earlier one. *)
Definition failed_task (current_tick : Z) (k : Kernel) : option string :=
  foldl (λ acc hi, match check_task current_tick k hi with Some nm => Some nm | None => acc end)
        None monitored.

Definition failed_prio (nm : string) : Z :=
  if bool_decide (nm = "Task A"%string) then 1
  else if bool_decide (nm = "Task B"%string) then 2
  else if bool_decide (nm = "HSM Task"%string) then 4
  else 3.

(** ** Actions *)

(** The environment call of [sys_terminate_task]: the trap saves the registers
    in the frame at [sp]; the return value is what the handler left in [a0]. *)
Definition sys_terminate_task (E : Env) (sp start_cycle prio : Z) : K Z :=
  _ ← fwrite sp A7 8;
  _ ← fwrite sp A0 prio;
  _ ← trap_handler E H0 ECALL_UMODE sp start_cycle;
  fread sp A0.

(** [initialize_stack], the two writes to the control block and the reset of the
    check-in, when [guard] holds and the task is found terminated. *)
Definition restart (h : hart) (i : nat) (stack entry : Z) : K unit :=
  sp ← init_stack stack entry;
  s ← get_sched h;
  _ ← put_sched h (set_table (alter (fmap (λ t : TaskControlBlock, set_state Ready (set_saved_sp sp t))) i (task_table s)) s);
  modify (λ k, set_LAST_CHECKIN_TICK (<[i := 0]> (LAST_CHECKIN_TICK k)) k).

Definition is_terminated (h : hart) (i : nat) (k : Kernel) : bool :=
  match slot (task_table (ph_get h (SCHEDULERS k))) i with
  | Some tcb => bool_decide (state tcb = Terminated)
  | None => false
  end.

Definition restart_task_c (E : Env) (fn : Entries) : K unit :=
  dead ← gets (is_terminated H1 3);
  n ← gets TEST_COUNTER;
  if dead && (n <? 2) then
    _ ← modify (set_TEST_COUNTER (wrapping_add n 1));
    restart H1 3 (TASK_C_STACK (layout E)) (task_c fn)
  else mret tt.

Definition restart_hsm (E : Env) (fn : Entries) : K unit :=
  dead ← gets (is_terminated H0 4);
  if (dead : bool) then restart H0 4 (HSM_STACK (layout E)) (hsm_task fn) else mret tt.

Definition watchdog_iteration (E : Env) (fn : Entries) (sp start_cycle : Z) : K unit :=
  current_tick ← gets TICK_COUNT;
  sched_guard H0 (
    failed ← gets (failed_task current_tick);
    _ ← match failed with
        | Some nm => _ ← sys_terminate_task E sp start_cycle (failed_prio nm); mret tt
        | None => mret tt
        end;
    _ ← restart_task_c E fn;
    restart_hsm E fn).

(** ** The iteration keeps the kernel invariant *)

Lemma avail_held l h : avail h l → ∃ l', Spinlock.lock l (hart_id h) = Done l' ∧ unlock l' = l ∧
  (l = spin_new → avail h l').
Proof.
  intros Ha. destruct (lock_avail _ _ Ha) as (l' & Hl & Hu). exists l'. split_and!; [done..|].
  intros ->. right. destruct h; vm_compute in Hl; injection Hl as <-; by vm_compute.
Qed.

Lemma restart_keeps P L h i stack entry k :
  kernel_inv L k → wp P (restart h i stack entry) (λ _, keeps L k) k.
Proof.
  intros Hi. unfold restart. apply wp_bind, wp_init_stack. wp_run.
  set (f := λ t, set_state Ready (set_saved_sp _ t)).
  set (k1 := set_ram _ k).
  apply (keeps_trans _ _ (upd_task h i f k1)).
  - apply (keeps_trans _ _ k1); [by apply keeps_fields|].
    apply keeps_upd; [|by intros []]. apply inv_upd; [by apply (inv_fields L k)|by intros []|].
    intros []. right. done.
  - apply keeps_fields; try done; [apply length_insert|]. apply inv_upd; [by apply (inv_fields L k)|by intros []|].
    intros []. right. done.
Qed.

Lemma restarts_keep P E fn k :
  kernel_inv (layout E) k →
  wp P (_ ← restart_task_c E fn; restart_hsm E fn) (λ _, keeps (layout E) k) k.
Proof.
  intros Hi. apply wp_bind. apply (wp_mono P _ (λ _, keeps (layout E) k)).
  - unfold restart_task_c. wp_run. case_match; [|wp_run; by apply keeps_refl].
    wp_run. set (k1 := set_TEST_COUNTER _ k). assert (Hk1 : keeps (layout E) k k1) by by apply keeps_fields.
    eapply wp_mono; [apply restart_keeps, Hk1|]. intros [] k' Hk'. by eapply keeps_trans.
  - intros [] k1 Hk1. unfold restart_hsm. wp_run. case_match; [|by wp_run].
    eapply wp_mono; [apply restart_keeps, Hk1|]. intros [] k' Hk'. by eapply keeps_trans.
Qed.

Lemma terminate_task_keeps E sp sc prio k :
  kernel_inv (layout E) k → avail H0 (SCHED_LOCK k) → avail H0 (MUTEX_LOCK k) →
  wp no_panic (sys_terminate_task E sp sc prio) (λ _, keeps (layout E) k) k.
Proof.
  intros Hi Ha Hb. unfold sys_terminate_task. wp_run. set (k1 := set_ram _ (set_ram _ k)).
  assert (Hk1 : keeps (layout E) k k1) by by apply keeps_fields.
  eapply wp_mono; [apply (trap_keeps no_panic E); [| |apply Hk1|done|done]|].
  - intros _. unfold k1. cbn [ram set_ram]. rewrite frame_read_write_ne by done.
    rewrite frame_read_write_eq. done.
  - intros (_ & _ & Hne & _). by destruct Hne.
  - intros ? k' Hk'. wp_run. by eapply keeps_trans.
Qed.

Lemma watchdog_keeps E fn sp start_cycle k :
  kernel_inv (layout E) k → unlocked k →
  wp no_panic (watchdog_iteration E fn sp start_cycle) (λ _, keeps (layout E) k) k.
Proof.
  intros Hi [Hs Hm].
  unfold watchdog_iteration, sched_guard, sched_lock. wp_run. apply wp_lift.
  destruct (avail_held (SCHED_LOCK k) H0) as (l' & -> & Hu & Hav); [by rewrite Hs; left|].
  cbn [returns]. wp_run. set (k1 := set_SCHED_LOCK l' k).
  assert (Hi1 : kernel_inv (layout E) k1) by by apply (inv_fields _ k).
  apply (wp_mono _ _ (λ _, keeps (layout E) k1)).
  - case_match; wp_run; [|by apply keeps_refl].
    eapply wp_mono; [apply terminate_task_keeps; [done|by apply Hav|left; exact Hm]|].
    intros ? k' Hk'. by wp_run.
  - intros [] k2 Hk2.
    pose proof (restarts_keep no_panic E fn k2 (keeps_inv _ _ _ Hk2)) as Hre.
    unfold wp, mbind, K_bind in Hre |- *. destruct (restart_task_c E fn k2) as [[[] k3]| |]; [|done..].
    destruct (restart_hsm E fn k3) as [[[] k4]| |]; [|done..].
    destruct (keeps_trans _ _ _ _ Hk2 Hre) as [H1 H2 H3 H4]. simpl.
    split; [by apply (inv_fields _ k4)|done| |done]. simpl. rewrite H3. exact Hu.
Qed.

(** The watchdog is safe.  From every state that satisfies the kernel
    invariant with the spinlocks free, one watchdog iteration returns: its nested
    environment call neither panics nor deadlocks on the lock the task already
    holds, the invariant and every task's registration data are kept, and both
    spinlocks are free again. *)
Lemma watchdog_iteration_safe E fn sp start_cycle k :
  kernel_inv (layout E) k → unlocked k →
  ∃ k', watchdog_iteration E fn sp start_cycle k = Done (tt, k') ∧
    kernel_inv (layout E) k' ∧ static_kernel k k' ∧ unlocked k'.
Proof.
  intros Hi Hu. destruct (wp_no_panic _ _ _ (watchdog_keeps E fn sp start_cycle k Hi Hu))
    as ([] & k' & He & [H1 H2 H3 H4]). exists k'. destruct Hu.
  split_and!; [done..|]. split; congruence.
Qed.

Lemma watchdog_iteration_safe_witness :
  ∃ k', watchdog_iteration sample_env sample_entries 0x3FC80300 6000 booted = Done (tt, k') ∧
    kernel_inv sample_layout k'.
Proof.
  destruct (watchdog_iteration_safe sample_env sample_entries 0x3FC80300 6000 booted)
    as (k' & He & Hi & _).
  - exact booted_inv.
  - exact booted_unlocked.
  - exists k'. split; [exact He|exact Hi].
Defined.

(** ** What an iteration does *)

(** The control block and check-in of a restarted task. *)
Definition revived (stack : Z) (t : TaskControlBlock) : TaskControlBlock :=
  set_state Ready (set_saved_sp (initial_sp stack 1024) t).

Definition restarted (h : hart) (i : nat) (stack entry : Z) (k : Kernel) : Kernel :=
  set_LAST_CHECKIN_TICK (<[i := 0]> (LAST_CHECKIN_TICK k))
    (upd_task h i (revived stack) (set_ram (snd (initialize_stack (ram k) stack 1024 entry)) k)).

Lemma wp_restart P h i stack entry (Q : unit → Kernel → Prop) k :
  Q tt (restarted h i stack entry k) → wp P (restart h i stack entry) Q k.
Proof. intros HQ. unfold restart. apply wp_bind, wp_init_stack. wp_run. exact HQ. Qed.

(** The restarts as one state transformer. *)
Definition revive_c (E : Env) (fn : Entries) (k : Kernel) : Kernel :=
  if is_terminated H1 3 k && (TEST_COUNTER k <? 2)
  then restarted H1 3 (TASK_C_STACK (layout E)) (task_c fn)
         (set_TEST_COUNTER (wrapping_add (TEST_COUNTER k) 1) k)
  else k.
Definition revive_hsm (E : Env) (fn : Entries) (k : Kernel) : Kernel :=
  if is_terminated H0 4 k then restarted H0 4 (HSM_STACK (layout E)) (hsm_task fn) k else k.

Lemma wp_restarts P E fn k (Q : unit → Kernel → Prop) :
  Q tt (revive_hsm E fn (revive_c E fn k)) → wp P (_ ← restart_task_c E fn; restart_hsm E fn) Q k.
Proof.
  intros HQ. apply wp_bind. apply (wp_mono P _ (λ _ k', k' = revive_c E fn k)).
  - unfold restart_task_c, revive_c. wp_run. case_match; [|by wp_run]. wp_run. by apply wp_restart.
  - intros [] k' ->. unfold restart_hsm. wp_run. unfold revive_hsm in HQ.
    case_match; [|by wp_run]. by apply wp_restart.
Qed.

Lemma revive_c_sched_lock E fn l k :
  revive_c E fn (set_SCHED_LOCK l k) = set_SCHED_LOCK l (revive_c E fn k).
Proof.
  unfold revive_c. change (is_terminated H1 3 (set_SCHED_LOCK l k)) with (is_terminated H1 3 k).
  change (TEST_COUNTER (set_SCHED_LOCK l k)) with (TEST_COUNTER k). by case_match.
Qed.

Lemma revive_hsm_sched_lock E fn l k :
  revive_hsm E fn (set_SCHED_LOCK l k) = set_SCHED_LOCK l (revive_hsm E fn k).
Proof.
  unfold revive_hsm. change (is_terminated H0 4 (set_SCHED_LOCK l k)) with (is_terminated H0 4 k).
  by case_match.
Qed.

Lemma revive_SCHED_LOCK E fn k : SCHED_LOCK (revive_hsm E fn (revive_c E fn k)) = SCHED_LOCK k.
Proof. unfold revive_hsm, revive_c. by repeat case_match. Qed.

Lemma task_revived E fn k h i :
  task_of h i (revive_hsm E fn (revive_c E fn k)) =
    if decide (h = H1 ∧ i = 3%nat ∧ is_terminated H1 3 k = true ∧ TEST_COUNTER k < 2)
    then revived (TASK_C_STACK (layout E)) <$> task_of h i k
    else if decide (h = H0 ∧ i = 4%nat ∧ is_terminated H0 4 k = true)
    then revived (HSM_STACK (layout E)) <$> task_of h i k
    else task_of h i k.
Proof.
  assert (Hr : ∀ h' i' st en k', task_of h i (restarted h' i' st en k')
    = if decide (h' = h ∧ i' = i) then revived st <$> task_of h i k' else task_of h i k').
  { intros. unfold restarted. change (task_of h i (set_LAST_CHECKIN_TICK _ ?kk)) with (task_of h i kk).
    by rewrite task_of_upd. }
  assert (H4 : is_terminated H0 4 (revive_c E fn k) = is_terminated H0 4 k).
  { unfold revive_c. by case_match. }
  unfold revive_hsm. rewrite H4. unfold revive_c.
  destruct (is_terminated H0 4 k) eqn:E4; rewrite ?Hr;
    destruct (is_terminated H1 3 k) eqn:E3, (Z.ltb_spec (TEST_COUNTER k) 2); cbn [andb];
    rewrite ?Hr; change (task_of h i (set_TEST_COUNTER _ k)) with (task_of h i k);
    repeat case_decide; naive_solver (lia || congruence).
Qed.

Lemma mutexes_revived E fn k : MUTEXES (revive_hsm E fn (revive_c E fn k)) = MUTEXES k.
Proof. unfold revive_hsm, revive_c. by repeat case_match. Qed.

(** The iteration around its kill, which runs with the lock held. *)
Lemma wp_watchdog E fn sp sc k (kill : K unit) (Q : unit → Kernel → Prop) :
  unlocked k →
  match failed_task (TICK_COUNT k) k with
  | Some nm => _ ← sys_terminate_task E sp sc (failed_prio nm); mret tt
  | None => mret tt
  end = kill →
  (∀ l, avail H0 l → wp no_panic kill (λ _ k', SCHED_LOCK k' = l ∧
     Q tt (revive_hsm E fn (revive_c E fn (set_SCHED_LOCK (SCHED_LOCK k) k')))) (set_SCHED_LOCK l k)) →
  wp no_panic (watchdog_iteration E fn sp sc) Q k.
Proof.
  intros [Hs Hm] Hkill HQ. unfold watchdog_iteration, sched_guard, sched_lock. wp_run. apply wp_lift.
  destruct (avail_held (SCHED_LOCK k) H0) as (l' & -> & Hu & Hav); [by rewrite Hs; left|].
  cbn [returns]. wp_run.
  change (failed_task _ (set_SCHED_LOCK l' k)) with (failed_task (TICK_COUNT k) k). rewrite Hkill.
  eapply wp_mono; [apply (HQ l'); by apply Hav|]. intros [] k' [Hl HQ'].
  pose proof (wp_restarts no_panic E fn k' (λ _ k2,
    SCHED_LOCK k2 = l' ∧ Q tt (set_SCHED_LOCK (SCHED_LOCK k) k2))) as Hw.
  rewrite revive_c_sched_lock, revive_hsm_sched_lock in HQ'.
  specialize (Hw (conj (eq_trans (revive_SCHED_LOCK E fn k') Hl) HQ')).
  unfold wp, mbind, K_bind in Hw |- *. destruct (restart_task_c E fn k') as [[[] k3]| |]; [|done..].
  destruct (restart_hsm E fn k3) as [[[] k4]| |]; [|done..].
  destruct Hw as [Hl4 Hq4]. simpl. rewrite Hl4, Hu. exact Hq4.
Qed.

(** No false alarm.  When every monitored task is terminated or has checked
    in within its deadline (200 ticks, 1000 before its first check-in), and
    neither Task C (with tests left) nor the HSM is waiting for a restart, an
    iteration leaves the entire kernel state as it was. *)
Lemma watchdog_leaves_healthy_tasks E fn sp start_cycle k :
  unlocked k →
  (∀ h i t, (h, i) ∈ monitored → task_of h i k = Some t → state t ≠ Terminated →
     elapsed (TICK_COUNT k) (nth i (LAST_CHECKIN_TICK k) 0) ≤ timeout (nth i (LAST_CHECKIN_TICK k) 0)) →
  (is_terminated H1 3 k = true → 2 ≤ TEST_COUNTER k) → is_terminated H0 4 k = false →
  watchdog_iteration E fn sp start_cycle k = Done (tt, k).
Proof.
  intros Hu Hok Hc Hh.
  assert (Hnone : ∀ hi, hi ∈ monitored → check_task (TICK_COUNT k) k hi = None).
  { intros [h i] Hin. unfold check_task. cbn [fst snd]. fold (sched_of h k). fold (task_of h i k).
    destruct (task_of h i k) as [t|] eqn:Ht; [|done]. case_bool_decide as Hst; [done|].
    rewrite (proj2 (Z.ltb_ge _ _)); [done|]. by eapply Hok. }
  assert (Hf : failed_task (TICK_COUNT k) k = None).
  { unfold failed_task, monitored in *. cbn [foldl].
    rewrite !Hnone by (rewrite !elem_of_cons; auto 10). done. }
  assert (Hwp : wp no_panic (watchdog_iteration E fn sp start_cycle) (λ _ k', k' = k) k).
  { apply (wp_watchdog _ _ _ _ _ (mret tt)); [done|by rewrite Hf|]. intros l _. wp_run. split; [done|].
    replace (set_SCHED_LOCK (SCHED_LOCK k) (set_SCHED_LOCK l k)) with k by by destruct k. unfold revive_hsm, revive_c.
    destruct (is_terminated H1 3 k) eqn:E3; cbn [andb]; [|by rewrite Hh].
    rewrite (proj2 (Z.ltb_ge _ _)) by auto. by rewrite Hh. }
  apply wp_no_panic in Hwp as ([] & k' & He & ->). done.
Qed.

Lemma watchdog_leaves_healthy_tasks_witness :
  watchdog_iteration sample_env sample_entries 0x3FC80300 6000 (demo ∅) = Done (tt, demo ∅).
Proof.
  apply watchdog_leaves_healthy_tasks.
  - apply demo_unlocked.
  - intros h i t Hin _ _. unfold monitored in Hin. rewrite !elem_of_cons, elem_of_nil in Hin.
    destruct_or! Hin; simplify_eq; vm_compute; congruence.
  - intros Hd. vm_compute in Hd. discriminate Hd.
  - reflexivity.
Defined.

(** A task found dead after the kill is restarted or stays dead. *)
(** The frames the restarts build. *)
Lemma restarted_frame m a entry : stack_block_ok a →
  fresh_frame (snd (initialize_stack m a 1024 entry)) (initial_sp a 1024) entry.
Proof.
  intros Ha. apply (fresh_frames [(a, entry)] m a entry).
  - constructor; [exact Ha|constructor].
  - by apply NoDup_singleton.
  - constructor.
Qed.

Lemma revived_frames E fn k :
  layout_ok (layout E) →
  let k' := revive_hsm E fn (revive_c E fn k) in
  (is_terminated H1 3 k = true → TEST_COUNTER k < 2 →
   fresh_frame (ram k') (initial_sp (TASK_C_STACK (layout E)) 1024) (task_c fn)) ∧
  (is_terminated H0 4 k = true →
   fresh_frame (ram k') (initial_sp (HSM_STACK (layout E)) 1024) (hsm_task fn)).
Proof.
  intros HL k'.
  assert (Hc : stack_block_ok (TASK_C_STACK (layout E))) by (apply (layout_blocks _ _ HL); set_solver).
  assert (Hh : stack_block_ok (HSM_STACK (layout E))) by (apply (layout_blocks _ _ HL); set_solver).
  assert (Hne : TASK_C_STACK (layout E) ≠ HSM_STACK (layout E)).
  { destruct HL as [_ _ Hd]. unfold all_stacks in Hd. do 2 apply NoDup_cons_1_2 in Hd.
    apply NoDup_cons_1_1 in Hd. set_solver. }
  assert (H4 : is_terminated H0 4 (revive_c E fn k) = is_terminated H0 4 k).
  { unfold revive_c. by case_match. }
  unfold k', revive_hsm. rewrite H4. split.
  - intros Hd Hn. unfold revive_c. rewrite Hd, (proj2 (Z.ltb_lt _ _) Hn). cbn [andb].
    destruct (is_terminated H0 4 k); [apply fresh_frame_other; try done|]; by apply restarted_frame.
  - intros ->. by apply restarted_frame.
Qed.

Lemma revived_victim E fn k h i t :
  layout_ok (layout E) →
  (h, i) ∈ monitored → task_of h i k = Some t → state t = Terminated →
  let k' := revive_hsm E fn (revive_c E fn k) in
  ∃ t', task_of h i k' = Some t' ∧
    if decide (i = 3%nat ∧ TEST_COUNTER k < 2)
    then state t' = Ready ∧ saved_sp t' = initial_sp (TASK_C_STACK (layout E)) 1024 ∧
         fresh_frame (ram k') (saved_sp t') (task_c fn)
    else if decide (i = 4%nat)
    then state t' = Ready ∧ saved_sp t' = initial_sp (HSM_STACK (layout E)) 1024 ∧
         fresh_frame (ram k') (saved_sp t') (hsm_task fn)
    else state t' = Terminated.
Proof.
  intros HL Hmon Ht Hst k'. destruct (revived_frames E fn k HL) as [Hfc Hfh]. fold k' in Hfc, Hfh.
  unfold k' at 1. rewrite task_revived, Ht.
  assert (Hdead : is_terminated h i k = true).
  { unfold is_terminated. fold (sched_of h k). fold (task_of h i k). rewrite Ht. by rewrite bool_decide_true. }
  unfold monitored in Hmon. rewrite !elem_of_cons, elem_of_nil in Hmon.
  destruct_or! Hmon; simplify_eq.
  - exists t. by rewrite !decide_False by naive_solver.
  - exists t. by rewrite !decide_False by naive_solver.
  - rewrite Hdead. destruct (decide (TEST_COUNTER k < 2)) as [Hlt|Hge].
    + rewrite (decide_True (P := H1 = H1 ∧ _)) by done. eexists. split; [done|].
      rewrite decide_True by done. split_and!; [done|done|by apply Hfc].
    + rewrite (decide_False (P := H1 = H1 ∧ _)) by naive_solver. eexists.
      split; [by rewrite decide_False by naive_solver|]. by rewrite !decide_False by naive_solver.
  - rewrite Hdead. rewrite (decide_False (P := H0 = H1 ∧ _)) by naive_solver.
    rewrite decide_True by done. eexists. split; [done|].
    rewrite decide_False by naive_solver. rewrite decide_True by done. split_and!; [done|done|by apply Hfh].
Qed.

(** The nested environment call, made with the lock held. *)
Lemma wp_kill E sp sc k i :
  ready_for E H0 k → current H0 k ≠ i → (i < 32)%nat → is_Some (task_of (target_hart i k) i k) →
  wp no_panic (sys_terminate_task E sp sc (Z.of_nat i)) (λ _ k', ∃ k1 k2,
    recovers i 0 8 (terminated i k1) k2 ∧ SCHEDULERS k1 = SCHEDULERS k ∧ MUTEXES k1 = MUTEXES k ∧
    SCHEDULERS k' = SCHEDULERS k2 ∧ MUTEXES k' = MUTEXES k2 ∧
    TEST_COUNTER k' = TEST_COUNTER k ∧ SCHED_LOCK k' = SCHED_LOCK k) k.
Proof.
  intros Hr Hcur Hlt Hreg. unfold sys_terminate_task. wp_run.
  set (ka := set_ram _ (set_ram _ k)). unfold trap_handler. wp_run.
  change (ECALL_UMODE =? TIMER_INTERRUPT) with false. change (ECALL_UMODE =? SOFTWARE_INTERRUPT) with false.
  change (ECALL_UMODE =? ECALL_UMODE) with true. cbv iota.
  set (kb := set_METRIC_TRAP_LATENCY_CYCLES _ ka).
  assert (Hrb : ready_for E H0 kb) by (destruct Hr; split; [by apply (inv_fields _ k)|done|done]).
  apply (wp_ecall _ _ _ _ _ 8).
  { unfold kb, ka. cbn [ram set_ram set_METRIC_TRAP_LATENCY_CYCLES].
    rewrite frame_read_write_ne by done. by rewrite frame_read_write_eq. }
  simpl. eapply wp_mono.
  - apply (wp_terminate E H0 sp (advanced sp kb) i); [by apply ready_advanced| |done|exact Hreg].
    rewrite advanced_reg by done. unfold kb, ka. cbn [ram set_ram set_METRIC_TRAP_LATENCY_CYCLES].
    rewrite frame_read_write_eq. apply u32_small. lia.
  - intros sp' k' (k2 & Hrec & _ & Hcase). wp_run. exists (advanced sp kb), k2.
    assert (Hk : SCHEDULERS k' = SCHEDULERS k2 ∧ MUTEXES k' = MUTEXES k2 ∧
      TEST_COUNTER k' = TEST_COUNTER k2 ∧ SCHED_LOCK k' = SCHED_LOCK k2).
    { case_decide; [rewrite decide_False in Hcase by (apply not_eq_sym; exact Hcur)|];
        by destruct Hcase as [_ ->]. }
    destruct Hk as (H1 & H2 & H3 & H4). pose proof (rec_rest _ _ _ _ _ Hrec) as Hrest.
    unfold same_rest in Hrest. split_and!; try done.
    + rewrite H3, Hrest. reflexivity.
    + rewrite H4, Hrest. reflexivity.
Qed.


(** Task B hangs: its last check-in was at tick 100, now it is tick 400. *)
Definition hung : Kernel :=
  set_TICK_COUNT 400 (set_LAST_CHECKIN_TICK ([0; 390; 100; 380; 370] ++ replicate 27 0) (demo ∅)).

