(* ===== verification/Preempt.v ===== *)
(** * Preempt: interrupts inside a watchdog iteration

    The watchdog runs in U-mode with interrupts enabled, and holds [SCHED_LOCK]
    from its first look at the task tables to the end of its loop body.  [Watchdog],
    [System] and [Compose] take an iteration as one step; here it is the sequence of
    its accesses to the shared statics, those of the lock and unlock routines included,
    and traps may come between any two of them.  In two windows a trap of hart 0 breaks
    the lock: after the compare-exchange and before the store of the depth, and after
    the depth has dropped to 0 and before the store of the owner.  There the lock has
    an owner and depth 0 ([torn]), and the next trap that takes it releases it. *)
From S2P Require Import Prelude Memory Tcb Bitmap Can Pmp Spinlock Telemetry Kernel.
From S2P Require Import Trap KernelInv TrapInv Security Boot Reach SyscallSpec.
From S2P Require Import FaultSpec Watchdog.

(** ** The iteration, access by access *)

(** [Atom m next]: one access to the statics, then the code that depends on it. *)
Inductive micro :=
  | Atom {A : Type} (m : K A) (next : A → micro)
  | Stop.

Fixpoint run_micro (c : micro) : K unit :=
  match c with
  | Atom m next => a ← m; run_micro (next a)
  | Stop => mret tt
  end.

Definition get_slot (h : hart) (i : nat) : K (option TaskControlBlock) :=
  gets (λ k, slot (task_table (ph_get h (SCHEDULERS k))) i).

(** The accesses of [SCHED_LOCK.lock(0)] and [SCHED_LOCK.unlock()].  The
    compare-exchange is repeated until it succeeds: until then it is [Spinning]. *)
Definition set_lock (f : Spinlock → Spinlock) : K unit :=
  modify (λ k, set_SCHED_LOCK (f (SCHED_LOCK k)) k).

Definition compare_exchange (me : Z) : K unit :=
  l ← gets SCHED_LOCK;
  l' ← lift (if owner l =? 0 then Done (mkLock me (depth l)) else Spinning);
  modify (set_SCHED_LOCK l').

Definition lock_micro (next : micro) : micro :=
  let me := wrapping_add (hart_id H0) 1 in
  Atom (gets (λ k, owner (SCHED_LOCK k))) (λ o,
    if o =? me then Atom (set_lock (λ l, mkLock (owner l) (wrapping_add (depth l) 1))) (λ _, next)
    else Atom (compare_exchange me) (λ _,
         Atom (set_lock (λ l, mkLock (owner l) 1)) (λ _, next))).

Definition unlock_micro (next : micro) : micro :=
  Atom (set_lock (λ l, mkLock (owner l) (wrapping_sub (depth l) 1))) (λ _,
  Atom (gets (λ k, depth (SCHED_LOCK k))) (λ d,
    if d =? 0 then Atom (set_lock (λ l, mkLock 0 (depth l))) (λ _, next) else next)).

(** One of the four health checks; [acc] is [failed_task] so far. *)
Definition check_micro (current_tick : Z) (hi : hart * nat) (acc : option string)
    (next : option string → micro) : micro :=
  Atom (get_slot (fst hi) (snd hi)) (λ o,
    match o with
    | Some tcb =>
        if bool_decide (state tcb = Terminated) then next acc
        else Atom (gets (λ k, nth (snd hi) (LAST_CHECKIN_TICK k) 0)) (λ last_checkin,
               if timeout last_checkin <? elapsed current_tick last_checkin
               then next (Some (name tcb)) else next acc)
    | None => next acc
    end).

Fixpoint checks_micro (current_tick : Z) (l : list (hart * nat)) (acc : option string)
    (next : option string → micro) : micro :=
  match l with
  | [] => next acc
  | hi :: l => check_micro current_tick hi acc (λ acc, checks_micro current_tick l acc next)
  end.

(** A write to the control block in slot [i] of hart [h]. *)
Definition put_tcb (h : hart) (i : nat) (f : TaskControlBlock → TaskControlBlock) : K unit :=
  s ← get_sched h;
  put_sched h (set_table (alter (fmap f) i (task_table s)) s).

Definition restart_micro (h : hart) (i : nat) (stack entry : Z) (next : micro) : micro :=
  Atom (init_stack stack entry) (λ sp,
  Atom (put_tcb h i (set_saved_sp sp)) (λ _,
  Atom (put_tcb h i (set_state Ready)) (λ _,
  Atom (modify (λ k, set_LAST_CHECKIN_TICK (<[i := 0]> (LAST_CHECKIN_TICK k)) k)) (λ _, next)))).

Definition restart_c_micro (E : Env) (fn : Entries) (next : micro) : micro :=
  Atom (gets (is_terminated H1 3)) (λ dead,
    if (dead : bool) then
      Atom (gets TEST_COUNTER) (λ n,
        if n <? 2 then
          Atom (modify (set_TEST_COUNTER (wrapping_add n 1))) (λ _,
            restart_micro H1 3 (TASK_C_STACK (layout E)) (task_c fn) next)
        else next)
    else next).

Definition restart_hsm_micro (E : Env) (fn : Entries) (next : micro) : micro :=
  Atom (gets (is_terminated H0 4)) (λ dead,
    if (dead : bool) then restart_micro H0 4 (HSM_STACK (layout E)) (hsm_task fn) next else next).

Definition watchdog_micro (E : Env) (fn : Entries) (sp start_cycle : Z) : micro :=
  Atom (gets TICK_COUNT) (λ current_tick,
  lock_micro (
    checks_micro current_tick monitored None (λ failed,
      let rest := restart_c_micro E fn (restart_hsm_micro E fn (unlock_micro Stop)) in
      match failed with
      | Some nm => Atom (sys_terminate_task E sp start_cycle (failed_prio nm)) (λ _, rest)
      | None => rest
      end))).

(** ** Uninterrupted, it is the iteration *)

Lemma checks_run tick l acc next k :
  run_micro (checks_micro tick l acc next) k =
  run_micro (next (foldl (λ acc hi, match check_task tick k hi with Some nm => Some nm | None => acc end) acc l)) k.
Proof.
  revert acc. induction l as [|hi l IH]; intros acc; [done|]. cbn [checks_micro foldl].
  unfold check_micro, get_slot. cbn [run_micro]. unfold mbind, K_bind, gets. cbn [fst snd].
  unfold check_task at 2. destruct (slot _ (snd hi)) as [tcb|]; [|by rewrite IH].
  case_bool_decide; [by rewrite IH|]. cbn [run_micro]. unfold mbind, K_bind. case_match; by rewrite IH.
Qed.

Lemma upd_task_twice h i f g k :
  upd_task h i f (upd_task h i g k) = upd_task h i (λ t, f (g t)) k.
Proof.
  unfold upd_task, sched_of.
  assert (He : ∀ tbl : list (option TaskControlBlock),
    alter (fmap f) i (alter (fmap g) i tbl) = alter (fmap (λ t, f (g t))) i tbl).
  { intros tbl. rewrite list_alter_alter_eq. apply list_alter_ext; [|done]. by intros [t|] _. }
  destruct k as [[s0 s1]]; destruct h; cbn; by rewrite He.
Qed.

Lemma restart_run h i stack entry next k :
  run_micro (restart_micro h i stack entry next) k = (_ ← restart h i stack entry; run_micro next) k.
Proof.
  unfold restart_micro, restart. cbn [run_micro]. unfold mbind, K_bind.
  destruct (init_stack stack entry k) as [[sp k1]| |]; [|done..].
  change (run_micro next (set_LAST_CHECKIN_TICK (<[i:=0]> (LAST_CHECKIN_TICK k1))
    (upd_task h i (set_state Ready) (upd_task h i (set_saved_sp sp) k1))) =
    run_micro next (set_LAST_CHECKIN_TICK (<[i:=0]> (LAST_CHECKIN_TICK k1))
    (upd_task h i (λ t, set_state Ready (set_saved_sp sp t)) k1))).
  by rewrite upd_task_twice.
Qed.

Lemma restart_c_run E fn next k :
  run_micro (restart_c_micro E fn next) k = (_ ← restart_task_c E fn; run_micro next) k.
Proof.
  unfold restart_c_micro, restart_task_c. cbn [run_micro]. unfold mbind, K_bind, gets.
  destruct (is_terminated H1 3 k); cbn [andb run_micro]; [|done].
  unfold mbind, K_bind. destruct (TEST_COUNTER k <? 2); [|done]. cbn [run_micro].
  unfold mbind, K_bind, modify. by rewrite restart_run.
Qed.

Lemma restart_hsm_run E fn next k :
  run_micro (restart_hsm_micro E fn next) k = (_ ← restart_hsm E fn; run_micro next) k.
Proof.
  unfold restart_hsm_micro, restart_hsm. cbn [run_micro]. unfold mbind, K_bind, gets.
  destruct (is_terminated H0 4 k); [|done]. by rewrite restart_run.
Qed.

Lemma lock_run next k :
  run_micro (lock_micro next) k = (_ ← sched_lock H0; run_micro next) k.
Proof.
  unfold lock_micro, sched_lock, Spinlock.lock, compare_exchange, set_lock. cbn [run_micro].
  unfold mbind, K_bind, gets, lift. destruct (owner (SCHED_LOCK k) =? _) eqn:Ho.
  - cbn [run_micro]. unfold mbind, K_bind, modify. done.
  - cbn [run_micro]. unfold mbind, K_bind, gets, lift, modify. by destruct (owner (SCHED_LOCK k) =? 0).
Qed.

Lemma unlock_run next k : run_micro (unlock_micro next) k = (_ ← sched_unlock; run_micro next) k.
Proof.
  unfold unlock_micro, sched_unlock, unlock, set_lock. cbn [run_micro].
  unfold mbind, K_bind, gets, modify. cbn [SCHED_LOCK set_SCHED_LOCK depth owner].
  destruct (wrapping_sub (depth (SCHED_LOCK k)) 1 =? 0); [cbn [run_micro]|done].
  unfold mbind, K_bind. by destruct k.
Qed.

Lemma rest_run E fn k :
  run_micro (restart_c_micro E fn (restart_hsm_micro E fn (unlock_micro Stop))) k
  = (_ ← restart_task_c E fn; _ ← restart_hsm E fn; _ ← sched_unlock; mret tt) k.
Proof.
  rewrite restart_c_run. unfold mbind, K_bind. destruct (restart_task_c E fn k) as [[[] k1]| |]; [|done..].
  rewrite restart_hsm_run. unfold mbind, K_bind. destruct (restart_hsm E fn k1) as [[[] k2]| |]; [|done..].
  by rewrite unlock_run.
Qed.

(** When no trap comes between the accesses, they compute what [watchdog_iteration]
    does. *)
Lemma watchdog_micro_exact E fn sp start_cycle k :
  run_micro (watchdog_micro E fn sp start_cycle) k = watchdog_iteration E fn sp start_cycle k.
Proof.
  unfold watchdog_micro, watchdog_iteration, sched_guard. cbn [run_micro].
  change ((a ← gets TICK_COUNT; ?f a) k) with (f (TICK_COUNT k) k).
  unfold mbind at 1 2, K_bind at 1 2, gets. rewrite lock_run. unfold mbind, K_bind.
  destruct (sched_lock H0 k) as [[[] k1]| |]; [|done..].
  rewrite checks_run. fold (failed_task (TICK_COUNT k) k1).
  destruct (failed_task (TICK_COUNT k) k1) as [nm|].
  - cbn [run_micro]. unfold mbind, K_bind.
    destruct (sys_terminate_task E sp start_cycle (failed_prio nm) k1) as [[z k2]| |]; [|done..].
    rewrite rest_run. unfold mbind, K_bind. cbn.
    destruct (restart_task_c E fn k2) as [[[] k3]| |]; [|done..].
    by destruct (restart_hsm E fn k3) as [[[] k4]| |].
  - rewrite rest_run. unfold mbind, K_bind. cbn.
    destruct (restart_task_c E fn k1) as [[[] k3]| |]; [|done..].
    by destruct (restart_hsm E fn k3) as [[[] k4]| |].
Qed.

(** ** With traps between the accesses *)

#[local] Instance Spinlock_eq_dec : EqDecision Spinlock.
Proof. solve_decision. Defined.

Definition held_by_watchdog : Spinlock := mkLock 1 1.
(** Inside [lock] or [unlock]: hart 0 is the owner, the depth is 0. *)
Definition torn : Spinlock := mkLock 1 0.

Definition locks (l : Spinlock) (k : Kernel) : Prop := SCHED_LOCK k = l ∧ MUTEX_LOCK k = spin_new.

(** The states of [SCHED_LOCK] in an iteration. *)
Definition lock_phase (l : Spinlock) : Prop := l = spin_new ∨ l = torn ∨ l = held_by_watchdog.

(** The kernel with the watchdog somewhere in its iteration, or outside.  Hart 0 takes
    no trap while the lock is [torn]. *)
Inductive preempt_step (L : Layout) : Kernel * option micro → Kernel * option micro → Prop :=
  | pr_user k w m : preempt_step L (k, w) (set_ram m k, w)
  | pr_trap E h mcause sp start_cycle k w sp' k' :
      layout E = L → (h = H0 → SCHED_LOCK k ≠ torn) → trap_handler E h mcause sp start_cycle k = Done (sp', k') →
      preempt_step L (k, w) (k', w)
  | pr_enter E fn sp start_cycle k :
      layout E = L → current H0 k = 0%nat →
      preempt_step L (k, None) (k, Some (watchdog_micro E fn sp start_cycle))
  | pr_atom k A (m : K A) next a k' :
      current H0 k = 0%nat → m k = Done (a, k') →
      preempt_step L (k, Some (Atom m next)) (k', Some (next a))
  | pr_leave k : preempt_step L (k, Some Stop) (k, None).

Inductive preempted (L : Layout) : Kernel * option micro → Prop :=
  | pre_start k : reachable L k → preempted L (k, None)
  | pre_next s s' : preempted L s → preempt_step L s s' → preempted L s'.

(** *** What each access needs and keeps *)

(** From every state with the invariant and the lock in state [l], every access
    of [c] returns, keeps the invariant and leaves the lock as the rest of [c]
    expects it. *)
Fixpoint safe (L : Layout) (l : Spinlock) (c : micro) : Prop :=
  match c with
  | Atom m next => ∀ k, kernel_inv L k → locks l k →
      wp no_panic m (λ a k', kernel_inv L k' ∧ static_kernel k k' ∧
        ∃ l', lock_phase l' ∧ locks l' k' ∧ safe L l' (next a)) k
  | Stop => l = spin_new
  end.

Section safe.
Context (L : Layout).

Lemma safe_atom {A} l (m : K A) next :
  lock_phase l → (∀ k, kernel_inv L k → locks l k → wp no_panic m (λ _, keeps L k) k) →
  (∀ a, safe L l (next a)) → safe L l (Atom m next).
Proof.
  intros Hph Hm Hn k Hi Hl. eapply wp_mono; [by apply Hm|]. intros a k' [H1 H2 H3 H4].
  split_and!; [done|done|]. exists l. split_and!; [done| |apply Hn]. destruct Hl. split; congruence.
Qed.

Lemma safe_read {A} l (f : Kernel → A) next :
  lock_phase l → (∀ a, safe L l (next a)) → safe L l (Atom (gets f) next).
Proof. intros Hph Hn. apply safe_atom; [done| |done]. intros k Hi _. wp_run. by apply keeps_refl. Qed.

(** A read of the lock itself. *)
Lemma safe_read_lock {A} l (f : Spinlock → A) next :
  lock_phase l → safe L l (next (f l)) → safe L l (Atom (gets (λ k, f (SCHED_LOCK k))) next).
Proof.
  intros Hph Hn k Hi Hl. wp_run. split_and!; [done|done|]. exists l. split_and!; [done|done|].
  by destruct Hl as [-> _].
Qed.

Lemma safe_set_lock l f next :
  lock_phase (f l) → safe L (f l) next → safe L l (Atom (set_lock f) (λ _, next)).
Proof.
  intros Hph Hn k Hi [Hs Hm]. unfold set_lock. wp_run. split_and!; [by apply (inv_fields _ k)|done|].
  exists (f l). split_and!; [done| |done]. split; [cbn; by rewrite Hs|done].
Qed.

Lemma phase_free : lock_phase spin_new.
Proof. by left. Qed.
Lemma phase_torn : lock_phase torn.
Proof. by right; left. Qed.
Lemma phase_held : lock_phase held_by_watchdog.
Proof. by right; right. Qed.
Hint Resolve phase_free phase_torn phase_held : core.

Lemma safe_lock next : safe L held_by_watchdog next → safe L spin_new (lock_micro next).
Proof.
  intros Hn. apply (safe_read_lock spin_new owner); [done|].
  change (safe L spin_new (Atom (compare_exchange 1) (λ _, Atom (set_lock (λ l, mkLock (owner l) 1)) (λ _, next)))).
  intros k Hi [Hs Hm]. unfold compare_exchange. wp_run. apply wp_lift. rewrite Hs.
  cbn [owner depth spin_new Z.eqb returns]. wp_run.
  split_and!; [by apply (inv_fields _ k)|done|]. exists torn. split_and!; [done|by split|].
  apply (safe_set_lock torn); [apply phase_held|exact Hn].
Qed.

Lemma safe_unlock next : safe L spin_new next → safe L held_by_watchdog (unlock_micro next).
Proof.
  intros Hn. apply (safe_set_lock held_by_watchdog); [done|]. apply (safe_read_lock torn depth); [done|].
  apply (safe_set_lock torn); [apply phase_free|exact Hn].
Qed.

Lemma safe_check tick hi acc next l :
  lock_phase l → (∀ f, safe L l (next f)) → safe L l (check_micro tick hi acc next).
Proof.
  intros Hph Hn. unfold check_micro, get_slot. apply safe_read; [done|]. intros [tcb|]; [|apply Hn].
  case_bool_decide; [apply Hn|]. apply safe_read; [done|]. intros z. case_match; apply Hn.
Qed.

Lemma safe_checks tick l acc next ls :
  lock_phase ls → (∀ f, safe L ls (next f)) → safe L ls (checks_micro tick l acc next).
Proof.
  intros Hph Hn. revert acc. induction l as [|hi l IH]; intros acc; [apply Hn|]. by apply safe_check.
Qed.

Lemma put_tcb_keeps h i f k :
  kernel_inv L k → (∀ t, static_tcb (f t) = static_tcb t) →
  (∀ t, state (f t) = state t ∨ quiet (state (f t)) ∧ state (f t) ≠ Running) →
  wp no_panic (put_tcb h i f) (λ _, keeps L k) k.
Proof. intros Hi Hf Hst. unfold put_tcb. wp_run. apply (keeps_upd L h i f k); [by apply inv_upd|done]. Qed.

Lemma safe_restart h i stack entry next l :
  lock_phase l → safe L l next → safe L l (restart_micro h i stack entry next).
Proof.
  intros Hph Hn. apply safe_atom; [done| |intros sp; apply safe_atom; [done| |intros _; apply safe_atom;
    [done| |intros _; apply safe_atom; [done| |done]]]].
  - intros k Hi _. apply wp_init_stack. by apply keeps_fields.
  - intros k Hi _. apply put_tcb_keeps; [done|by intros []|]. intros []. by left.
  - intros k Hi _. apply put_tcb_keeps; [done|by intros []|]. intros []. right. done.
  - intros k Hi _. wp_run. apply keeps_fields; try done. apply length_insert.
Qed.

Lemma safe_restart_c E fn next l :
  lock_phase l → safe L l next → safe L l (restart_c_micro E fn next).
Proof.
  intros Hph Hn. apply safe_read; [done|]. intros []; [|done]. apply safe_read; [done|]. intros n.
  case_match; [|done]. apply safe_atom; [done| |intros _; by apply safe_restart].
  intros k Hi _. wp_run. by apply keeps_fields.
Qed.

Lemma safe_restart_hsm E fn next l :
  lock_phase l → safe L l next → safe L l (restart_hsm_micro E fn next).
Proof. intros Hph Hn. apply safe_read; [done|]. intros []; [|done]. by apply safe_restart. Qed.

Lemma avail_locks l k : lock_phase l → l ≠ torn → locks l k → avail H0 (SCHED_LOCK k) ∧ avail H0 (MUTEX_LOCK k).
Proof. intros [-> |[-> | ->]] Ht [-> ->]; [by split; left|done|]. split; [right; by vm_compute|by left]. Qed.

Lemma safe_watchdog E fn sp start_cycle :
  layout E = L → safe L spin_new (watchdog_micro E fn sp start_cycle).
Proof.
  intros HL. apply safe_read; [done|]. intros tick. apply safe_lock, safe_checks; [done|]. intros failed.
  assert (Hrest : safe L held_by_watchdog
    (restart_c_micro E fn (restart_hsm_micro E fn (unlock_micro Stop)))).
  { apply safe_restart_c; [done|]. apply safe_restart_hsm; [done|]. by apply safe_unlock. }
  destruct failed as [nm|]; [|done]. apply safe_atom; [done| |done]. intros k1 Hi1 Hl1.
  destruct (avail_locks _ _ phase_held ltac:(done) Hl1). subst L. by apply terminate_task_keeps.
Qed.
End safe.

(** ** Hart 1 while the watchdog holds the lock *)

(** The traps that take [SCHED_LOCK]: all but counter reads, unknown calls and
    unhandled exceptions. *)
Definition takes_lock (mcause sp : Z) (k : Kernel) : bool :=
  if (mcause =? TIMER_INTERRUPT) || (mcause =? SOFTWARE_INTERRUPT) then true
  else if mcause =? ECALL_UMODE then
    let a7 := frame_read (ram k) sp A7 in (1 <=? a7) && (a7 <=? 8)
  else contained_cause mcause &&
       negb ((mcause =? 2) && emulated_csr (load32 (ram k) (frame_read (ram k) sp MEPC))).

Lemma sched_guard_spins {A} h (body : K A) k :
  Spinlock.lock (SCHED_LOCK k) (hart_id h) = Spinning → sched_guard h body k = Spinning.
Proof. intros Hl. unfold sched_guard, sched_lock, mbind, K_bind, gets, lift. by rewrite Hl. Qed.

Lemma spin_bind {A B} (m : K A) (f : A → K B) k a k' :
  m k = Done (a, k') → f a k' = Spinning → (m ≫= f) k = Spinning.
Proof. unfold mbind, K_bind. by intros ->. Qed.

(** Peels the reads and writes before the guard. *)
Ltac spins := repeat (eapply spin_bind; [reflexivity|]; cbv beta); apply sched_guard_spins.

Lemma stalled E mcause sp start_cycle k :
  owner (SCHED_LOCK k) = 1 → takes_lock mcause sp k = true →
  trap_handler E H1 mcause sp start_cycle k = Spinning.
Proof.
  intros Hs Ht.
  assert (Hl : ∀ k', SCHED_LOCK k' = SCHED_LOCK k → Spinlock.lock (SCHED_LOCK k') (hart_id H1) = Spinning)
    by (intros k' ->; unfold Spinlock.lock; by rewrite Hs).
  unfold trap_handler. eapply spin_bind; [reflexivity|]. unfold takes_lock in Ht.
  destruct (mcause =? TIMER_INTERRUPT); [unfold timer_interrupt; spins; by apply Hl|].
  destruct (mcause =? SOFTWARE_INTERRUPT); [unfold software_interrupt; spins; by apply Hl|].
  cbn [orb] in Ht. destruct (mcause =? ECALL_UMODE).
  - apply andb_true_iff in Ht as [H1%Z.leb_le H8%Z.leb_le].
    unfold ecall. do 3 (eapply spin_bind; [reflexivity|]; cbv beta).
    change (ram (set_METRIC_TRAP_LATENCY_CYCLES _ k)) with (ram k).
    set (a7 := frame_read (ram k) sp A7) in *.
    destruct (Z.eqb_spec a7 1); [unfold sys_yield; spins; by apply Hl|].
    destruct (Z.eqb_spec a7 2); [unfold sys_sleep; spins; by apply Hl|].
    destruct (Z.eqb_spec a7 3); [unfold sys_lock; spins; by apply Hl|].
    destruct (Z.eqb_spec a7 4); [unfold sys_unlock; spins; by apply Hl|].
    destruct (Z.eqb_spec a7 5); [unfold sys_checkin; spins; by apply Hl|].
    destruct (Z.eqb_spec a7 6); [unfold sys_send; spins; by apply Hl|].
    destruct (Z.eqb_spec a7 7); [unfold sys_recv; spins; by apply Hl|].
    destruct (Z.eqb_spec a7 8); [unfold sys_terminate; spins; by apply Hl|]. lia.
  - apply andb_true_iff in Ht as [Hc Hn%negb_true_iff].
    unfold exception. do 2 (eapply spin_bind; [reflexivity|]; cbv beta).
    change (ram (set_METRIC_TRAP_LATENCY_CYCLES _ k)) with (ram k). rewrite Hn, Hc.
    unfold contain_fault. destruct (negb (mcause =? 2)); spins; by apply Hl.
Qed.

Lemma unlocked_trap_keeps L E mcause sp start_cycle k sp' k' :
  kernel_inv L k → takes_lock mcause sp k = false →
  trap_handler E H1 mcause sp start_cycle k = Done (sp', k') → keeps L k k'.
Proof.
  intros Hi Ht He.
  refine (wp_result (λ _, True) (trap_handler E H1 mcause sp start_cycle) (λ _, keeps L k) k sp' k' _ He).
  unfold trap_handler, takes_lock in *. wp_run.
  destruct (mcause =? TIMER_INTERRUPT); [done|]. destruct (mcause =? SOFTWARE_INTERRUPT); [done|].
  cbn [orb] in Ht. destruct (mcause =? ECALL_UMODE).
  - unfold ecall. wp_run. change (ram (set_METRIC_TRAP_LATENCY_CYCLES _ k)) with (ram k).
    set (a7 := frame_read (ram k) sp A7) in *.
    assert (Ha : a7 < 1 ∨ 8 < a7) by (destruct (Z.leb_spec 1 a7), (Z.leb_spec a7 8); naive_solver lia).
    repeat (rewrite (proj2 (Z.eqb_neq a7 _)) by lia). wp_run. by apply keeps_fields.
  - unfold exception. wp_run. change (ram (set_METRIC_TRAP_LATENCY_CYCLES _ k)) with (ram k).
    destruct ((mcause =? 2) && _).
    + unfold emulate_csr. case_match; wp_run; by apply keeps_fields.
    + rewrite andb_true_r in Ht. rewrite Ht. exact I.
Qed.

(** *** Hart 0 in the two windows *)

(** A trap that takes the torn lock runs as if the lock were free. *)
Lemma torn_guard {A} (body : K A) k :
  SCHED_LOCK k = torn → sched_guard H0 body k = sched_guard H0 body (set_SCHED_LOCK spin_new k).
Proof.
  intros Hs. unfold sched_guard, sched_lock, mbind, K_bind, gets, lift. rewrite Hs. reflexivity.
Qed.

Lemma same_bind {A B} (m : K A) (f : A → K B) k1 k2 a k1' k2' :
  m k1 = Done (a, k1') → m k2 = Done (a, k2') → f a k1' = f a k2' → (m ≫= f) k1 = (m ≫= f) k2.
Proof. unfold mbind, K_bind. by intros -> ->. Qed.

(** Peels the reads and writes before the guard, in both runs. *)
Ltac same_run := eapply same_bind; [reflexivity|reflexivity|]; cbv beta.
Ltac torn_run := repeat same_run; by apply torn_guard.

Lemma torn_trap E mcause sp start_cycle k :
  SCHED_LOCK k = torn → takes_lock mcause sp k = true →
  trap_handler E H0 mcause sp start_cycle k = trap_handler E H0 mcause sp start_cycle (set_SCHED_LOCK spin_new k).
Proof.
  intros Hs Ht. unfold trap_handler. same_run. unfold takes_lock in Ht.
  destruct (mcause =? TIMER_INTERRUPT); [unfold timer_interrupt; torn_run|].
  destruct (mcause =? SOFTWARE_INTERRUPT); [unfold software_interrupt; torn_run|].
  cbn [orb] in Ht. destruct (mcause =? ECALL_UMODE).
  - apply andb_true_iff in Ht as [H1%Z.leb_le H8%Z.leb_le].
    unfold ecall. do 3 same_run.
    change (ram (set_METRIC_TRAP_LATENCY_CYCLES _ k)) with (ram k).
    set (a7 := frame_read (ram k) sp A7) in *.
    destruct (Z.eqb_spec a7 1); [unfold sys_yield; torn_run|].
    destruct (Z.eqb_spec a7 2); [unfold sys_sleep; torn_run|].
    destruct (Z.eqb_spec a7 3); [unfold sys_lock; torn_run|].
    destruct (Z.eqb_spec a7 4); [unfold sys_unlock; torn_run|].
    destruct (Z.eqb_spec a7 5); [unfold sys_checkin; torn_run|].
    destruct (Z.eqb_spec a7 6); [unfold sys_send; torn_run|].
    destruct (Z.eqb_spec a7 7); [unfold sys_recv; torn_run|].
    destruct (Z.eqb_spec a7 8); [unfold sys_terminate; torn_run|]. lia.
  - apply andb_true_iff in Ht as [Hc Hn%negb_true_iff].
    unfold exception. do 2 same_run.
    change (ram (set_METRIC_TRAP_LATENCY_CYCLES _ k)) with (ram k). rewrite Hn, Hc.
    unfold contain_fault. destruct (negb (mcause =? 2)); torn_run.
Qed.

(** *** The invariant *)

Definition preempt_inv (L : Layout) (s : Kernel * option micro) : Prop :=
  kernel_inv L (fst s) ∧
  match snd s with
  | None => locks spin_new (fst s)
  | Some c => ∃ l, lock_phase l ∧ locks l (fst s) ∧ safe L l c
  end.

Lemma trap_locks L E h mcause sp start_cycle k sp' k' l :
  layout E = L → kernel_inv L k → lock_phase l → locks l k → (h = H0 → SCHED_LOCK k ≠ torn) →
  trap_handler E h mcause sp start_cycle k = Done (sp', k') → keeps L k k'.
Proof.
  intros HL Hi Hph Hl Ht He.
  assert (Hav : avail h (SCHED_LOCK k) → keeps L k k').
  { intros Ha. subst L. destruct Hl as [_ Hm].
    exact (wp_result _ _ _ _ _ _ (trap_keeps (λ _, True) E h mcause sp start_cycle k (λ _ _, I) (λ _, I)
      Hi Ha (or_introl Hm)) He). }
  destruct h.
  { apply Hav, (avail_locks l k Hph); [|done]. destruct Hl as [<- _]. by apply Ht. }
  destruct (decide (l = spin_new)) as [-> |Hne]; [apply Hav; left; apply Hl|].
  destruct (takes_lock mcause sp k) eqn:Htk; [|by eapply unlocked_trap_keeps].
  rewrite (stalled E mcause sp start_cycle k) in He; [discriminate He| |done].
  destruct Hl as [-> _]. by destruct Hph as [-> |[-> | ->]].
Qed.

Lemma locks_keeps L l k k' : keeps L k k' → locks l k → locks l k'.
Proof. intros [_ _ H1 H2] [H3 H4]. split; congruence. Qed.

Lemma preempt_step_inv L s s' : preempt_inv L s → preempt_step L s s' → preempt_inv L s'.
Proof.
  intros [Hi Hw] Hstep.
  destruct Hstep as [k w m|E h mcause sp sc k w sp' k' HL Ht He|E fn sp sc k HL Hc|k A m next a k' Hc He|k];
    cbn [fst snd] in *.
  - split; [by apply (inv_fields _ k)|]. by destruct w.
  - destruct w as [c|]; cbn [fst snd] in *.
    + destruct Hw as (l & Hph & Hl & Hs).
      pose proof (trap_locks _ _ _ _ _ _ _ _ _ _ HL Hi Hph Hl Ht He) as Hk.
      split; [apply Hk|]. exists l. split_and!; [done|by eapply locks_keeps|done].
    + pose proof (trap_locks _ _ _ _ _ _ _ _ _ _ HL Hi phase_free Hw Ht He) as Hk.
      split; [apply Hk|]. by eapply locks_keeps.
  - split; [done|]. exists spin_new. split_and!; [apply phase_free|done|]. by apply safe_watchdog.
  - destruct Hw as (l & Hph & Hl & Hs).
    pose proof (wp_result _ _ _ _ _ _ (Hs k Hi Hl) He) as (Hi' & _ & l' & Hph' & Hl' & Hn).
    split; [done|]. by exists l'.
  - destruct Hw as (l & Hph & Hl & ->). by split.
Qed.

Lemma preempted_inv L s : preempted L s → preempt_inv L s.
Proof.
  induction 1 as [k Hr|s s' _ IH Hstep]; [|by eapply preempt_step_inv].
  destruct (reachable_safe L k Hr) as [Hi [Hs Hm]]. split; [done|]. by split.
Qed.

(** The two panics of the uninterrupted kernel. *)
Definition known_panic (mcause sp : Z) (k : Kernel) (p : panic) : Prop :=
  p = AssertFailed ∧ mcause = ECALL_UMODE ∧ frame_read (ram k) sp A7 = 4
  ∨ p = UnhandledException ∧ unknown_cause mcause.

Lemma trap_known L E h mcause sp start_cycle k :
  layout E = L → kernel_inv L k → avail h (SCHED_LOCK k) → avail h (MUTEX_LOCK k) →
  match trap_handler E h mcause sp start_cycle k with
  | Done (_, k') => keeps L k k'
  | Panicked p => known_panic mcause sp k p
  | Spinning => False
  end.
Proof.
  intros <- Hi Ha Hb. pose proof (trap_keeps (known_panic mcause sp k) E h mcause sp start_cycle k
    ltac:(by left) ltac:(by right) Hi Ha Hb) as Hk.
  unfold wp in Hk. by destruct (trap_handler E h mcause sp start_cycle k) as [[sp' k']|p|].
Qed.

(** C27. Preemption.  The watchdog's iteration runs access by access, its lock and
    unlock routines included, with stores of tasks and traps on both harts between any
    two accesses, except that hart 0 takes no trap in the two windows of these routines
    in which the lock is owned with depth 0.  In every state: the kernel invariant
    holds; the next access of the iteration returns, its nested call included;
    [MUTEX_LOCK] is free, and [SCHED_LOCK] is free outside the iteration and, inside it,
    free, held once by hart 0, or in one of the windows.  Outside the windows no trap of
    hart 0 spins, and its only panics are those of the uninterrupted kernel.  In a window,
    a trap of hart 0 that needs the lock releases it under the watchdog.  While the
    watchdog is preempted with the lock, every trap of hart 1 that needs it spins. *)
Theorem preempted_watchdog L k w :
  preempted L (k, w) →
  kernel_inv L k ∧ (w = None → unlocked k) ∧ MUTEX_LOCK k = spin_new ∧ lock_phase (SCHED_LOCK k) ∧
  (∀ A (m : K A) next, w = Some (Atom m next) → ∃ a k', m k = Done (a, k')) ∧
  ∀ E mcause sp start_cycle, layout E = L →
    (SCHED_LOCK k ≠ torn →
     match trap_handler E H0 mcause sp start_cycle k with
     | Done (_, k') => preempted L (k', w)
     | Panicked p => known_panic mcause sp k p
     | Spinning => False
     end) ∧
    (SCHED_LOCK k = torn → takes_lock mcause sp k = true →
     match trap_handler E H0 mcause sp start_cycle k with
     | Done (_, k') => SCHED_LOCK k' = spin_new
     | Panicked p => known_panic mcause sp k p
     | Spinning => False
     end) ∧
    (owner (SCHED_LOCK k) = 1 → takes_lock mcause sp k = true →
     trap_handler E H1 mcause sp start_cycle k = Spinning).
Proof.
  intros Hp. destruct (preempted_inv L (k, w) Hp) as [Hi Hw]. cbn [fst snd] in *.
  assert (Hl : ∃ l, lock_phase l ∧ locks l k).
  { destruct w; [naive_solver|]. exists spin_new. split; [apply phase_free|done]. }
  destruct Hl as (l & Hph & Hlk). pose proof Hlk as [Hsl Hml].
  split_and!; [done|by intros ->|done|by rewrite Hsl| |].
  - intros A m next ->. destruct Hw as (l' & _ & Hlk' & Hs).
    destruct (wp_no_panic _ _ _ (Hs k Hi Hlk')) as (a & k' & He & _). eauto.
  - intros E mcause sp sc HL. split_and!; [| |intros Ho Ht; by apply stalled].
    + intros Ht. destruct (avail_locks l k Hph ltac:(congruence) Hlk) as [Ha Hb].
      pose proof (trap_known L E H0 mcause sp sc k HL Hi Ha Hb) as Hk.
      destruct (trap_handler E H0 mcause sp sc k) as [[sp' k']|p|] eqn:He; [|done..].
      eapply pre_next; [done|]. by eapply pr_trap.
    + intros Ht Htk. rewrite (torn_trap E mcause sp sc k Ht Htk).
      pose proof (trap_known L E H0 mcause sp sc (set_SCHED_LOCK spin_new k) HL
        ltac:(by apply (inv_fields _ k)) ltac:(by left) ltac:(by left)) as Hk.
      destruct (trap_handler _ _ _ _ _ _) as [[sp' k']|p|]; [|done..]. by destruct Hk as [_ _ ? _].
Qed.

(** ** Runs *)

Inductive pact := PUser (m : Mem) | PTrap (h : hart) (mcause sp : Z) | PEnter | PAtom.

Definition pact_step (a : pact) (s : Kernel * option micro) : option (Kernel * option micro) :=
  match a, s with
  | PUser m, (k, w) => Some (set_ram m k, w)
  | PTrap h mcause sp, (k, w) =>
      if bool_decide (h = H0 ∧ SCHED_LOCK k = torn) then None else
      match trap_handler sample_env h mcause sp 6000 k with Done (_, k') => Some (k', w) | _ => None end
  | PEnter, (k, None) =>
      if Nat.eqb (current H0 k) 0
      then Some (k, Some (watchdog_micro sample_env sample_entries 0x3FC80380 6000)) else None
  | PAtom, (k, Some (Atom m next)) =>
      if Nat.eqb (current H0 k) 0
      then match m k with Done (a, k') => Some (k', Some (next a)) | _ => None end else None
  | _, _ => None
  end.

Fixpoint pact_run (l : list pact) (s : Kernel * option micro) : option (Kernel * option micro) :=
  match l with
  | [] => Some s
  | a :: l => match pact_step a s with Some s' => pact_run l s' | None => None end
  end.

Lemma pact_step_sound a s s' :
  pact_step a s = Some s' → preempt_step sample_layout s s'.
Proof.
  destruct a as [m|h mcause sp| |], s as [k w]; cbn [pact_step].
  - intros [= <-]. constructor.
  - case_bool_decide as Ht; [discriminate|].
    destruct (trap_handler sample_env h mcause sp 6000 k) as [[sp' k']| |] eqn:He; [|discriminate..].
    intros [= <-]. apply (pr_trap sample_layout sample_env h mcause sp 6000 k w sp' k' eq_refl); [|exact He].
    intros Hh Hs. by apply Ht.
  - destruct w; [discriminate|]. destruct (Nat.eqb_spec (current H0 k) 0) as [Hc|]; [|discriminate].
    intros [= <-]. by apply pr_enter.
  - destruct w as [[A m next|]|]; [|discriminate..].
    destruct (Nat.eqb_spec (current H0 k) 0) as [Hc|]; [|discriminate].
    destruct (m k) as [[a k']| |] eqn:He; [|discriminate..]. intros [= <-]. by apply pr_atom.
Qed.

Lemma pact_run_sound l s s' :
  preempted sample_layout s → pact_run l s = Some s' → preempted sample_layout s'.
Proof.
  revert s. induction l as [|a l IH]; intros s Hs; cbn [pact_run]; [by intros [= <-]|].
  destruct (pact_step a s) as [s1|] eqn:Ha; [|discriminate]. apply IH.
  eapply pre_next; [done|]. by apply (pact_step_sound a).
Qed.

Definition wd_sleeps : list pact :=
  [PUser (syscall_frame 0x3FC80380 2 100 0 0 ∅); PTrap H0 ECALL_UMODE 0x3FC80380].
Definition hsm_checks_in : list pact :=
  [PUser (syscall_frame 0x3FC81380 5 0 0 0 ∅); PTrap H0 ECALL_UMODE 0x3FC81380].
Definition wd_ticks (n : nat) : list pact := replicate n (PTrap H0 TIMER_INTERRUPT 0x3FC80380).

(** The watchdog's slice ends inside its iteration; Task A runs with the lock held. *)
Definition stall_run : list pact :=
  wd_sleeps ++ wd_ticks 200 ++ [PEnter; PAtom; PAtom; PAtom; PAtom; PAtom] ++ wd_ticks 100.

(** The watchdog finds the HSM overdue and is preempted before it acts on it; the
    HSM checks in. *)
Definition stale_run : list pact :=
  wd_sleeps ++ wd_ticks 1100 ++ [PEnter] ++ replicate 12 PAtom ++ wd_ticks 200 ++ hsm_checks_in ++ wd_ticks 100.

Definition after (l : list pact) : Kernel * option micro := default (booted, None) (pact_run l (booted, None)).

Lemma after_preempted l : is_Some (pact_run l (booted, None)) → preempted sample_layout (after l).
Proof.
  intros [s Hs]. unfold after. rewrite Hs. apply (pact_run_sound l (booted, None)); [|done].
  apply pre_start, booted_reachable.
Qed.

Definition finished {A} (o : option A) : bool := match o with Some _ => true | None => false end.

Lemma finished_some {A} (o : option A) : finished o = true → is_Some o.
Proof. by destruct o. Qed.

(** The watchdog is interrupted between the compare-exchange and the store of the depth. *)
Definition torn_run : list pact := wd_sleeps ++ wd_ticks 200 ++ [PEnter; PAtom; PAtom; PAtom].

Lemma runs_preempted l :
  finished (pact_run l (booted, None)) = true →
  preempted sample_layout (fst (after l), snd (after l)).
Proof. intros Hl%finished_some%after_preempted. by destruct (after l). Qed.

Lemma preempted_watchdog_witness :
  current H0 (fst (after stall_run)) = 1%nat ∧
  trap_handler sample_env H1 TIMER_INTERRUPT 0x3FC80B80 6000 (fst (after stall_run)) = Spinning ∧
  match trap_handler sample_env H0 TIMER_INTERRUPT 0x3FC80380 6000 (fst (after torn_run)) with
  | Done (_, k') => SCHED_LOCK k' = spin_new
  | Panicked p => known_panic TIMER_INTERRUPT 0x3FC80380 (fst (after torn_run)) p
  | Spinning => False
  end.
Proof.
  assert (H1 : owner (SCHED_LOCK (fst (after stall_run))) = 1) by (vm_compute; reflexivity).
  assert (H2 : SCHED_LOCK (fst (after torn_run)) = torn) by (vm_compute; reflexivity).
  split; [vm_compute; reflexivity|]. split.
  - destruct (preempted_watchdog sample_layout (fst (after stall_run)) (snd (after stall_run)))
      as (_ & _ & _ & _ & _ & H); [apply runs_preempted; vm_compute; reflexivity|].
    destruct (H sample_env TIMER_INTERRUPT 0x3FC80B80 6000 eq_refl) as (_ & _ & Hs). exact (Hs H1 eq_refl).
  - destruct (preempted_watchdog sample_layout (fst (after torn_run)) (snd (after torn_run)))
      as (_ & _ & _ & _ & _ & H); [apply runs_preempted; vm_compute; reflexivity|].
    destruct (H sample_env TIMER_INTERRUPT 0x3FC80380 6000 eq_refl) as (_ & Ht & _). exact (Ht H2 eq_refl).
Defined.

(** The verdict of a check is stale when the watchdog acts on it: a reachable
    state in which the HSM has checked in within its deadline and the next access of
    the iteration terminates it. *)
Lemma stale_verdict_kills :
  preempted sample_layout (after stale_run) ∧
  check_task (TICK_COUNT (fst (after stale_run))) (fst (after stale_run)) (H0, 4%nat) = None ∧
  preempted sample_layout (after (stale_run ++ [PAtom])) ∧
  (state <$> task_of H0 4 (fst (after stale_run))) = Some Ready ∧
  (state <$> task_of H0 4 (fst (after (stale_run ++ [PAtom])))) = Some Terminated.
Proof.
  split_and!; [apply after_preempted, finished_some| |apply after_preempted, finished_some| |];
    vm_compute; reflexivity.
Qed.
