(* ===== verification/AbsSpec.v ===== *)
(** * AbsSpec: an abstract specification of the kernel

    What the kernel promises, without frames, stack pointers, locks, PMP
    registers or bitmaps: the state of every task, the task each hart runs, the
    holder of every mutex and who waits for it.  A [move] is one atomic change
    of that state; [script] says which sequences of moves a trap may perform.
    The refinement theorem of [Refine] shows that [trap_handler] performs one of
    them. *)
From S2P Require Import Prelude Memory Tcb Bitmap Pmp Spinlock Telemetry Kernel.
From S2P Require Import Trap KernelInv.

(** ** State *)

Record Abs := mkAbs {
  st : hart → nat → option TaskState;
  cur : hart → nat;
  own : nat → option (option nat);  (* [None]: no such mutex; [Some None]: free *)
  wait : nat → nat → bool
}.

(** Two abstract states are the same when they answer every question alike. *)
#[export] Instance Abs_equiv : Equiv Abs := λ a b,
  (∀ h i, st a h i = st b h i) ∧ (∀ h, cur a h = cur b h) ∧
  (∀ m, own a m = own b m) ∧ (∀ m i, wait a m i = wait b m i).

#[export] Instance Abs_equivalence : Equivalence (≡@{Abs}).
Proof.
  split.
  - intros a. by split_and!.
  - intros a b (H1 & H2 & H3 & H4). by split_and!.
  - intros a b c (H1 & H2 & H3 & H4) (I1 & I2 & I3 & I4). split_and!; intros; congruence.
Qed.

(** ** Moves *)

Inductive move :=
  | Tick (tick : Z)                (* the hart's sleepers that are due wake up *)
  | Switch (j : nat)               (* the hart takes up Ready task [j] *)
  | Stay (forced : bool)           (* it keeps its task; [forced]: nobody is Ready *)
  | Block (s : TaskState)          (* the current task blocks *)
  | Acquire (m : nat)              (* the current task takes free mutex [m] *)
  | Wait (m : nat)                 (* the current task queues for held mutex [m] *)
  | Pass (m : nat)                 (* [m] goes to its first waiter or becomes free *)
  | Deliver (h' : hart) (i : nat)  (* a task blocked on IPC becomes Ready *)
  | Kill (h' : hart) (i : nat)
  | Recover (i : nat).             (* every mutex [i] holds is passed on *)

(** The waiter with the smallest index, which is the highest priority. *)
Definition first (w : nat → bool) : option nat := find w (seq 0 32).

(** A registered task gets a new state. *)
Definition become (s : TaskState) (o : option TaskState) : option TaskState := (λ _, s) <$> o.

Definition set_st (h : hart) (i : nat) (s : TaskState) (a : Abs) : Abs :=
  mkAbs (λ h' j, if decide (h = h' ∧ i = j) then become s (st a h' j) else st a h' j)
        (cur a) (own a) (wait a).

Definition wake_due (tick : Z) (s : TaskState) : TaskState :=
  match s with Blocked w => if w <=? tick then Ready else s | _ => s end.

Definition demote_st (s : TaskState) : TaskState := if decide (s = Running) then Ready else s.

(** Does task [i] inherit a mutex when [o] loses the ones it holds? *)
Definition inherits (a : Abs) (o i : nat) : bool :=
  existsb (λ m, bool_decide (own a m = Some (Some o)) && bool_decide (first (wait a m) = Some i))
          (seq 0 8).

Definition act (h : hart) (x : move) (a : Abs) : Abs :=
  let c := cur a h in
  match x with
  | Tick tick =>
      mkAbs (λ h' i, if decide (h = h') then wake_due tick <$> st a h' i else st a h' i)
            (cur a) (own a) (wait a)
  | Switch j =>
      mkAbs (λ h' i, if decide (h = h') then
                       if decide (j = i) then become Running (st a h' i)
                       else if decide (c = i) then demote_st <$> st a h' i else st a h' i
                     else st a h' i)
            (λ h', if decide (h = h') then j else cur a h') (own a) (wait a)
  | Stay _ => a
  | Block s => set_st h c s a
  | Acquire m =>
      mkAbs (st a) (cur a) (λ n, if decide (m = n) then Some (Some c) else own a n) (wait a)
  | Wait m =>
      let a' := set_st h c (BlockedOnMutex (Z.of_nat m)) a in
      mkAbs (st a') (cur a) (own a)
            (λ n i, if decide (m = n) then wait a n i || bool_decide (i = c) else wait a n i)
  | Pass m =>
      let w := first (wait a m) in
      let a' := match w with Some i => set_st (home i) i Ready a | None => a end in
      mkAbs (st a') (cur a) (λ n, if decide (m = n) then Some w else own a n)
            (λ n i, if decide (m = n) then wait a n i && negb (bool_decide (w = Some i)) else wait a n i)
  | Deliver h' i => set_st h' i Ready a
  | Kill h' i => set_st h' i Terminated a
  | Recover o =>
      mkAbs (λ h' i, if decide (home i = h' ∧ inherits a o i = true) then become Ready (st a h' i)
                     else st a h' i)
            (cur a)
            (λ n, if decide (own a n = Some (Some o)) then Some (first (wait a n)) else own a n)
            (λ n i, if decide (own a n = Some (Some o))
                    then wait a n i && negb (bool_decide (first (wait a n) = Some i)) else wait a n i)
  end.

Definition blocking (s : TaskState) : bool :=
  match s with Blocked _ | BlockedOnIpcSend _ _ _ | BlockedOnIpcRecv _ _ _ => true | _ => false end.

Definition on_ipc (s : TaskState) : bool :=
  match s with BlockedOnIpcSend _ _ _ | BlockedOnIpcRecv _ _ _ => true | _ => false end.

Definition is_held (a : Abs) (m : nat) : bool :=
  match own a m with Some (Some _) => true | _ => false end.

(** When a move may happen on hart [h]. *)
Definition can (h : hart) (x : move) (a : Abs) : bool :=
  match x with
  | Tick _ | Stay false => true
  | Stay true => forallb (λ j, negb (bool_decide (st a h j = Some Ready))) (seq 0 32)
  | Switch j => bool_decide (st a h j = Some Ready)
  | Block s => blocking s
  | Acquire m => bool_decide (own a m = Some None)
  | Wait m | Pass m => is_held a m
  | Deliver h' i => match st a h' i with Some s => on_ipc s | None => false end
  | Kill h' i => bool_decide (is_Some (st a h' i))
  | Recover _ => true
  end.

(** A sequence of moves, each allowed where it happens. *)
Inductive path (h : hart) : list move → Abs → Abs → Prop :=
  | path_nil a a' : a ≡ a' → path h [] a a'
  | path_cons x l a a' : can h x a = true → path h l (act h x a) a' → path h (x :: l) a a'.

(** ** Traps *)

Inductive event :=
  | ETimer (tick : Z)
  | EReschedule                                   (* software interrupt, yield *)
  | ESleep (wake_tick : Z)
  | ELock (c : Capability)
  | EUnlock (c : Capability)
  | ESend (c : Capability) (addr len : Z)
  | ERecv (c : Capability) (addr len : Z)
  | ETerminate (target : Z)
  | EFault
  | ENone.                                        (* check-in, CSR read, unknown call *)

(** The mutex a capability lets its owner lock, unlock; the endpoint it lets its
    owner send to, receive from. *)
Definition locks (c : Capability) : option nat :=
  match c with CapMutex m true _ => Some (Z.to_nat m) | _ => None end.
Definition unlocks (c : Capability) : option nat :=
  match c with CapMutex m _ true => Some (Z.to_nat m) | _ => None end.
Definition sends (c : Capability) : option Z :=
  match c with CapIpc ep true _ => Some ep | _ => None end.
Definition receives (c : Capability) : option Z :=
  match c with CapIpc ep _ true => Some ep | _ => None end.

(** The end of a trap that reschedules. *)
Inductive resched (b : bool) : list move → Prop :=
  | resched_stay : resched b [Stay b]
  | resched_switch j : resched b [Switch j].

Definition waits_on (p : TaskState → bool) (a : Abs) (h : hart) (i : nat) : bool :=
  match st a h i with Some s => p s | None => false end.

(** A rendezvous: some peer is served, or nobody waits and the caller blocks. *)
Inductive rendezvous (p : TaskState → bool) (mine : TaskState) (a : Abs) : list move → Prop :=
  | rv_serve h' i : waits_on p a h' i = true → rendezvous p mine a [Deliver h' i]
  | rv_block l : (∀ h' i, waits_on p a h' i = false) → resched true l →
      rendezvous p mine a (Block mine :: l).

Inductive script (h : hart) (a : Abs) : event → list move → Prop :=
  | sc_timer tick l : resched false l → script h a (ETimer tick) (Tick tick :: l)
  | sc_reschedule l : resched true l → script h a EReschedule l
  | sc_sleep w l : resched true l → script h a (ESleep w) (Block (Blocked w) :: l)
  | sc_lock_denied c : locks c ≫= own a = None → script h a (ELock c) []
  | sc_lock_free c m : locks c = Some m → own a m = Some None → script h a (ELock c) [Acquire m]
  | sc_lock_held c m o l : locks c = Some m → own a m = Some (Some o) → resched true l →
      script h a (ELock c) (Wait m :: l)
  | sc_unlock_denied c : unlocks c ≫= own a = None → script h a (EUnlock c) []
  | sc_unlock c m l : unlocks c = Some m → own a m = Some (Some (cur a h)) → resched true l →
      script h a (EUnlock c) (Pass m :: l)
  | sc_send_denied c x n : sends c = None → script h a (ESend c x n) []
  | sc_send c x n ep l : sends c = Some ep →
      rendezvous (waits_recv ep) (BlockedOnIpcSend ep x n) a l → script h a (ESend c x n) l
  | sc_recv_denied c x n : receives c = None → script h a (ERecv c x n) []
  | sc_recv c x n ep l : receives c = Some ep →
      rendezvous (waits_send ep) (BlockedOnIpcRecv ep x n) a l → script h a (ERecv c x n) l
  | sc_terminate_none z : (∀ i h', z = Z.of_nat i → (i < 32)%nat → st a h' i = None) →
      script h a (ETerminate z) []
  | sc_terminate i h' l : is_Some (st a h' i) → (h' = H1 → st a H0 i = None) →
      (if decide (h' = h ∧ i = cur a h) then resched true l else l = []) →
      script h a (ETerminate (Z.of_nat i)) (Kill h' i :: Recover i :: l)
  | sc_fault l : resched true l → script h a EFault (Kill h (cur a h) :: Recover (cur a h) :: l)
  | sc_none : script h a ENone [].
