(* ===== verification/Refine.v ===== *)
(** * Refine: the trap handler implements the abstract specification

    [abs] forgets everything of a kernel state that [AbsSpec] does not speak of.
    Every trap that returns performs a sequence of moves that [script] allows for
    its event; the proofs start from the functional specifications of the arms. *)
From S2P Require Import Prelude Memory Tcb Bitmap Pmp Spinlock Telemetry Kernel.
From S2P Require Import Trap KernelInv TrapInv Security Boot Reach SyscallSpec IpcSpec.
From S2P Require Import FaultSpec AbsSpec.

(** ** The abstraction *)

Definition abs (k : Kernel) : Abs :=
  mkAbs (λ h i, state <$> task_of h i k)
        (λ h, current h k)
        (λ m, (λ mx, Z.to_nat <$> owner_task_idx mx) <$> mutex_of m k)
        (λ m i, match mutex_of m k with
                | Some mx => Z.testbit (waiters_bitmap mx) (Z.of_nat i)
                | None => false
                end).

(** The event a trap stands for. *)
Definition call_event (h : hart) (sp : Z) (k : Kernel) : event :=
  let a7 := frame_read (ram k) sp A7 in
  let a0 := frame_read (ram k) sp A0 in
  let a1 := frame_read (ram k) sp A1 in
  let a2 := frame_read (ram k) sp A2 in
  if a7 =? 1 then EReschedule
  else if a7 =? 2 then ESleep (wrapping_add (TICK_COUNT k) (u32 a0))
  else if a7 =? 3 then ELock (cap_at h a0 k)
  else if a7 =? 4 then EUnlock (cap_at h a0 k)
  else if a7 =? 6 then ESend (cap_at h a0 k) a1 a2
  else if a7 =? 7 then ERecv (cap_at h a0 k) a1 a2
  else if a7 =? 8 then ETerminate a0
  else ENone.

Definition trap_event (h : hart) (mcause sp : Z) (k : Kernel) : event :=
  if mcause =? TIMER_INTERRUPT then ETimer (wrapping_add (TICK_COUNT k) 1)
  else if mcause =? SOFTWARE_INTERRUPT then EReschedule
  else if mcause =? ECALL_UMODE then call_event h sp k
  else if (mcause =? 2) && emulated_csr (load32 (ram k) (frame_read (ram k) sp MEPC)) then ENone
  else EFault.

(** ** Moves respect equivalence *)

Lemma find_ext {A} (f g : A → bool) l : (∀ x, f x = g x) → find f l = find g l.
Proof. intros H. induction l as [|x l IH]; simpl; [done|]. by rewrite H, IH. Qed.

Lemma first_ext f g : (∀ i, f i = g i) → first f = first g.
Proof. apply find_ext. Qed.

#[export] Instance set_st_proper h i s : Proper ((≡) ==> (≡@{Abs})) (set_st h i s).
Proof.
  intros a b (H1 & H2 & H3 & H4). split_and!; simpl; try done. intros. by rewrite H1.
Qed.

#[export] Instance act_proper h x : Proper ((≡) ==> (≡@{Abs})) (act h x).
Proof.
  intros a b Hab. pose proof Hab as (H1 & H2 & H3 & H4).
  assert (Hf : ∀ m, first (wait a m) = first (wait b m)) by (intros; by apply first_ext).
  destruct x; cbn [act]; [..|exact (set_st_proper _ _ _ _ _ Hab)|exact (set_st_proper _ _ _ _ _ Hab)|].
  - split_and!; simpl; try done. intros. by rewrite H1.
  - split_and!; simpl; try done; intros; by rewrite ?H1, ?H2.
  - done.
  - rewrite H2. by apply set_st_proper.
  - split_and!; simpl; try done. intros. by rewrite H3, H2.
  - split_and!; simpl; try done; intros; by rewrite ?H1, ?H2, ?H4.
  - rewrite Hf. split_and!; simpl; try done.
    + intros h' i. destruct (first (wait b m)); simpl; by rewrite H1.
    + intros. by rewrite H3.
    + intros. by rewrite H4.
  - assert (Hi : ∀ o j, inherits a o j = inherits b o j).
    { intros o j. unfold inherits. induction (seq 0 8) as [|m l IH]; simpl; [done|].
      rewrite IH. f_equal. f_equal; apply bool_decide_ext; by rewrite ?H3, ?Hf. }
    split_and!; simpl; try done; intros; by rewrite ?Hi, ?H1, ?H3, ?Hf, ?H4.
Qed.

#[export] Instance can_proper h x : Proper ((≡@{Abs}) ==> eq) (can h x).
Proof.
  intros a b (H1 & H2 & H3 & H4). destruct x as [| |[]| | | | | | |]; simpl; unfold is_held; rewrite ?H1, ?H3; try done.
Qed.

Lemma path_equiv_l h l a b c : a ≡ b → path h l b c → path h l a c.
Proof.
  intros Hab Hp. revert a Hab. induction Hp as [b c Hbc|x l b c Hc Hp IH]; intros a Hab.
  - constructor. by rewrite Hab.
  - constructor; [by rewrite Hab|]. apply IH. by rewrite Hab.
Qed.

Lemma path_equiv_r h l a b c : path h l a b → b ≡ c → path h l a c.
Proof.
  induction 1 as [a b Hab|x l a b Hc Hp IH]; intros Hbc.
  - constructor. by rewrite Hab.
  - constructor; [done|]. by apply IH.
Qed.

Lemma path_app h l1 l2 a b c : path h l1 a b → path h l2 b c → path h (l1 ++ l2) a c.
Proof.
  induction 1 as [a b Hab|x l a b Hc Hp IH]; simpl; intros H2.
  - by eapply path_equiv_l.
  - constructor; [done|]. by apply IH.
Qed.

Lemma path_one h x a a' : can h x a = true → act h x a ≡ a' → path h [x] a a'.
Proof. intros. constructor; [done|]. by constructor. Qed.

(** ** How the abstraction sees the kernel's updates *)

Lemma abs_fields k k' : SCHEDULERS k' = SCHEDULERS k → MUTEXES k' = MUTEXES k → abs k ≡ abs k'.
Proof.
  intros Hs Hm. unfold abs, task_of, current, sched_of, mutex_of. rewrite Hs, Hm. done.
Qed.

Lemma abs_set_state h i s k : abs (upd_task h i (set_state s) k) ≡ set_st h i s (abs k).
Proof.
  split_and!; simpl; try done.
  - intros h' j. rewrite task_of_upd. case_decide; [|done]. by destruct (task_of h' j k).
  - intros h'. apply current_upd.
Qed.

Lemma set_st_same h i s a : st a h i = Some s → set_st h i s a ≡ a.
Proof.
  intros Hs. split_and!; simpl; try done. intros h' j. case_decide as Hd; [|done].
  destruct Hd as [-> ->]. by rewrite Hs.
Qed.

Section abs_mutex.
Context (L : Layout) (k : Kernel) (Hi : kernel_inv L k) (i : nat).

Lemma mutex_of_set m m' j :
  mutex_of i k = Some m → mutex_of j (set_mutex i m' k) = if decide (i = j) then Some m' else mutex_of j k.
Proof. intros Hm. by apply slot_insert, (slot_lt _ _ _ Hm). Qed.

Lemma own_abs m o : mutex_of i k = Some m → owner_task_idx m = Some (Z.of_nat o) →
  own (abs k) i = Some (Some o).
Proof. simpl. intros -> Ho. cbn. rewrite Ho. simpl. by rewrite Nat2Z.id. Qed.

Lemma own_abs_inv o : own (abs k) i = Some (Some o) →
  ∃ m, mutex_of i k = Some m ∧ owner_task_idx m = Some (Z.of_nat o) ∧ locked m = true.
Proof.
  simpl. destruct (mutex_of i k) as [m|] eqn:Hm; [|done]. cbn. intros [= Ho].
  pose proof (inv_mutex _ _ Hi _ _ Hm) as Hok. destruct (owner_task_idx m) as [z|] eqn:Hz; [|done].
  destruct (mx_owner _ _ Hok _ Hz) as (n & -> & _ & _). simpl in Ho. rewrite Nat2Z.id in Ho.
  injection Ho as ->. exists m. split_and!; [done|done|]. apply (mx_locked _ _ Hok). by rewrite Hz.
Qed.

Lemma own_free m : mutex_of i k = Some m → locked m = false → own (abs k) i = Some None.
Proof.
  intros Hm Hl. simpl. rewrite Hm. cbn. destruct (owner_task_idx m) eqn:Ho; [|done].
  assert (locked m = true) by (apply (mx_locked _ _ (inv_mutex _ _ Hi _ _ Hm)); by rewrite Ho).
  congruence.
Qed.

Lemma own_locked m : mutex_of i k = Some m → locked m = true → ∃ o, own (abs k) i = Some (Some o).
Proof.
  intros Hm Hl. destruct (proj1 (mx_locked _ _ (inv_mutex _ _ Hi _ _ Hm)) Hl) as [z Hz].
  simpl. rewrite Hm. cbn. rewrite Hz. by eexists.
Qed.

Lemma first_abs m : mutex_of i k = Some m → first (wait (abs k) i) = lowest_waiter (waiters_bitmap m).
Proof. intros Hm. apply find_ext. intros j. simpl. by rewrite Hm. Qed.

(** Clearing one waiter's bit. *)
Lemma bits_cleared m w j : mutex_of i k = Some m →
  Z.testbit (clear_bit (waiters_bitmap m) w) (Z.of_nat j)
  = Z.testbit (waiters_bitmap m) (Z.of_nat j) && negb (bool_decide (Some w = Some j)).
Proof.
  intros Hm. pose proof (mx_range _ _ (inv_mutex _ _ Hi _ _ Hm)) as Hr.
  rewrite (bool_decide_ext (Some w = Some j) (j = w)) by naive_solver.
  destruct (decide (j < 32)%nat); [by apply clear_bit_spec|].
  assert (Hf : Z.testbit (waiters_bitmap m) (Z.of_nat j) = false).
  { rewrite <- (Z.mod_small (waiters_bitmap m) (2 ^ 32)) by lia. apply Z.mod_pow2_bits_high. lia. }
  rewrite Hf. simpl. destruct (Z.testbit (clear_bit _ _) _) eqn:Ht; [|done].
  by rewrite (clear_bit_sub _ _ _ Ht) in Hf.
Qed.
End abs_mutex.

(** ** Rescheduling *)

Lemma switched_path E h sp b k sp' k' :
  kernel_inv (layout E) k → switched E h sp b k sp' k' →
  ∃ l, resched (negb b) l ∧ path h l (abs k) (abs k').
Proof.
  intros Hi Hs. pose proof (wf_shape _ (inv_sched _ _ Hi h)) as Hsh.
  destruct Hs as [r Hc|j t d p' Htr Hsel Ht Hst Hlt Hd Hp Hcfg].
  - exists [Stay (negb b)]. split; [constructor|]. apply path_one.
    + destruct b; [done|]. cbn [negb can]. apply forallb_forall. intros j [_ Hj]%in_seq.
      destruct Hc as [Hc|Hc]; [unfold triggered in Hc; by rewrite orb_true_r in Hc|].
      pose proof (select_None _ _ (wf_current _ Hsh) Hc j ltac:(lia)) as Hn.
      apply negb_true_iff, bool_decide_eq_false. simpl. intros Hr.
      destruct (task_of h j k) as [t|] eqn:Ht; simplify_eq/=.
      assert (slot_ready (task_table (sched_of h k)) j = true) by (apply slot_ready_iff; eauto). congruence.
    + split_and!; simpl; try done.
      * intros h' i. unfold task_of, sched_of. simpl. rewrite ph_get_set. by case_decide; subst.
      * intros h'. unfold current, sched_of. simpl. rewrite ph_get_set. by case_decide; subst.
  - exists [Switch j]. split; [constructor|]. apply path_one.
    + simpl. rewrite Ht. apply bool_decide_eq_true. simpl. congruence.
    + split_and!; simpl; try done.
      * intros h' i. unfold task_of, current, sched_of. simpl. rewrite ph_get_set.
        case_decide; [subst h'|done]. fold (sched_of h k). rewrite slot_switch_to. cbv zeta.
        destruct (slot (task_table (sched_of h k)) i) as [u|]; repeat case_decide; try done;
          simpl; f_equal; unfold demote, demote_st; case_bool_decide; case_decide; done.
      * intros h'. unfold current, sched_of. simpl. rewrite ph_get_set. by case_decide; subst.
Qed.

(** A path that ends with a reschedule. *)
Lemma path_then_switch E h sp b l k k1 sp' k2 k3 :
  kernel_inv (layout E) k1 → path h l (abs k) (abs k1) → switched E h sp b k1 sp' k2 →
  SCHEDULERS k3 = SCHEDULERS k2 → MUTEXES k3 = MUTEXES k2 →
  ∃ r, resched (negb b) r ∧ path h (l ++ r) (abs k) (abs k3).
Proof.
  intros Hi Hp Hs H1 H2. destruct (switched_path _ _ _ _ _ _ _ Hi Hs) as (r & Hr & Hq).
  exists r. split; [done|]. eapply path_app; [done|]. eapply path_equiv_r; [done|]. by apply abs_fields.
Qed.

(** ** The arms *)

Lemma permits_locks c k : permits 3 c k = bool_decide (is_Some (locks c ≫= own (abs k))).
Proof.
  destruct c as [|mi [] u|ep s r]; cbn; try done.
  apply bool_decide_ext. by rewrite fmap_is_Some.
Qed.

Lemma permits_unlocks c k : permits 4 c k = bool_decide (is_Some (unlocks c ≫= own (abs k))).
Proof.
  destruct c as [|mi l []|ep s r]; cbn; try done.
  apply bool_decide_ext. by rewrite fmap_is_Some.
Qed.

Lemma permits_sends c k : permits 6 c k = bool_decide (is_Some (sends c)).
Proof. by destruct c as [| |ep [] r]. Qed.

Lemma permits_receives c k : permits 7 c k = bool_decide (is_Some (receives c)).
Proof. by destruct c as [| |ep s []]. Qed.

Lemma not_permitted {A} (o : option A) b : b = bool_decide (is_Some o) → b = false → o = None.
Proof. intros -> H%bool_decide_eq_false. by apply eq_None_not_Some. Qed.

Definition refines (h : hart) (ev : event) (k k' : Kernel) : Prop :=
  ∃ l, script h (abs k) ev l ∧ path h l (abs k) (abs k').

Lemma refines_none h ev k k' :
  script h (abs k) ev [] → SCHEDULERS k' = SCHEDULERS k → MUTEXES k' = MUTEXES k → refines h ev k k'.
Proof. intros Hs H1 H2. exists []. split; [done|]. constructor. by apply abs_fields. Qed.

Section arms.
Context (E : Env) (h : hart) (sp : Z) (k : Kernel) (Hr : ready_for E h k).

Let Hi : kernel_inv (layout E) k := rf_inv _ _ _ Hr.
Local Abbreviation a0 := (frame_read (ram k) sp A0).

(** Blocking the current task is the move [Block]. *)
Lemma block_refines s sp' k' :
  blocking s = true → kernel_inv (layout E) (upd_task h (current h k) (set_state s) k) →
  switched E h sp false (upd_task h (current h k) (set_state s) k) sp' k' →
  ∃ l, resched true l ∧ path h (Block s :: l) (abs k) (abs k').
Proof.
  intros Hb Hi1 Hs. apply (path_then_switch E h sp false [Block s] k (upd_task h (current h k) (set_state s) k) sp' k' k'); try done.
  apply path_one; [done|]. symmetry. apply abs_set_state.
Qed.

Lemma yield_refines : wp no_panic (sys_yield E h sp) (λ _, refines h EReschedule k) k.
Proof.
  apply wp_sched_guard; [apply Hr|]. intros l. apply wp_switch_task; [by apply (inv_fields _ k)|].
  intros sp' k' Hs. destruct (switched_sched_lock _ _ _ _ _ _ _ _ Hs) as [Hl Hs']. split; [done|].
  destruct (switched_path _ _ _ _ _ _ _ Hi Hs') as (r & Hr' & Hp). exists r. split; [by constructor|done].
Qed.

Lemma software_refines : wp no_panic (software_interrupt E h sp) (λ _, refines h EReschedule k) k.
Proof.
  unfold software_interrupt. wp_run. set (k1 := set_msip _ k).
  assert (Hr1 : ready_for E h k1) by (destruct Hr; split; [by apply (inv_fields _ k)|done|done]).
  apply wp_sched_guard; [apply Hr1|]. intros l. apply wp_switch_task; [by apply (inv_fields _ k)|].
  intros sp' k' Hs. destruct (switched_sched_lock E h sp false k1 l sp' k' Hs) as [Hl Hs']. split; [done|].
  destruct (switched_path _ _ _ _ _ _ _ (rf_inv _ _ _ Hr1) Hs') as (r & Hr' & Hp).
  exists r. split; [by constructor|]. eapply path_equiv_l; [|done]. by apply abs_fields.
Qed.

Lemma sleep_refines :
  wp no_panic (sys_sleep E h sp) (λ _, refines h (ESleep (wrapping_add (TICK_COUNT k) (u32 a0))) k) k.
Proof.
  unfold sys_sleep. wp_run. apply wp_sched_guard; [apply Hr|]. intros l. wp_run.
  apply wp_put_state; [exact (current_registered E h k Hi)|].
  set (s := Blocked _). set (k1 := upd_task h (current h k) (set_state s) k).
  assert (Hi1 : kernel_inv (layout E) k1) by by apply inv_set_state.
  apply wp_switch_task; [by apply (inv_fields _ k1)|]. intros sp' k' Hs.
  destruct (switched_sched_lock E h sp false k1 l sp' k' Hs) as [Hl Hs']. split; [done|].
  destruct (block_refines s sp' _ eq_refl Hi1 Hs') as (r & Hr' & Hp).
  eexists. split; [|done]. by constructor.
Qed.

Lemma checkin_refines : wp no_panic (sys_checkin h sp) (λ _, refines h ENone k) k.
Proof.
  apply wp_sched_guard; [apply Hr|]. intros l. wp_run. apply wp_lift.
  destruct (lookup_lt_is_Some_2 (LAST_CHECKIN_TICK k) (current h k)) as [v Hv].
  { rewrite (inv_checkin _ _ Hi). exact (current_lt E h k Hi). }
  change (current_partition_idx _) with (current h k).
  change (LAST_CHECKIN_TICK (set_SCHED_LOCK l k)) with (LAST_CHECKIN_TICK k).
  rewrite (index_Some _ _ _ Hv). cbn [returns]. wp_run. split; [done|].
  apply refines_none; [constructor|done|done].
Qed.

Lemma lock_refines : wp no_panic (sys_lock E h sp) (λ _, refines h (ELock (cap_at h a0 k)) k) k.
Proof.
  destruct (permits 3 (cap_at h a0 k) k) eqn:Hp.
  2:{ eapply wp_mono; [by apply lock_denied|]. intros r k' [_ ->]. apply refines_none; [|done..].
      constructor. eapply not_permitted; [apply permits_locks|done]. }
  destruct (cap_at h a0 k) as [|mi [] cu|] eqn:Hcap; try done.
  cbn [permits] in Hp. apply andb_true_iff in Hp as [_ [m Hm]%bool_decide_eq_true].
  destruct (current_registered E h k Hi) as [t Ht].
  pose proof (lock_granted E h sp k Hr mi m Hm cu t Ht Hcap) as Hl.
  eapply wp_mono; [exact Hl|]. intros r k' Hk'. cbv beta in Hk'.
  destruct (locked m) eqn:Hlk.
  - destruct (own_locked (layout E) k Hi _ _ Hm Hlk) as [o Ho].
    assert (Hcok : cap_ok h (current h k) (CapMutex mi true true)).
    { pose proof (inv_caps _ _ Hi _ _ _ Ht) as [_ Hall]. unfold cap_at in Hcap.
      case_match; [|done]. unfold current in *. rewrite Ht in Hcap.
      destruct (capabilities t !! Z.to_nat a0) eqn:Hc; simplify_eq/=.
      exact (Forall_lookup_1 _ _ _ _ Hall Hc). }
    pose proof (waiting_inv E h k Hr mi m Hm (SCHED_LOCK k) Hcok Hlk) as Hwi.
    destruct (path_then_switch E h sp false [Wait (Z.to_nat mi)] k
      (waiting h k mi m) r k' k') as (l & Hres & Hpath); try done.
    + apply path_one; [simpl; unfold is_held; by rewrite Ho|]. symmetry. unfold waiting.
      rewrite abs_set_state. destruct Hcok as [Hmi _].
      split_and!; simpl; try done.
      * intros h' i. change (task_of h' i (set_mutex _ _ k)) with (task_of h' i k).
        rewrite Z2Nat.id by lia. done.
      * intros n. rewrite (mutex_of_set k _ m) by done. case_decide; [subst n|done]. by rewrite Hm.
      * intros n i. rewrite (mutex_of_set k _ m) by done. case_decide; [subst n|done]. rewrite Hm.
        cbn [waiters_bitmap]. by rewrite set_bit_spec.
    + eexists. split; [|exact Hpath]. by apply (sc_lock_held _ _ _ (Z.to_nat mi) o).
  - destruct Hk' as [_ ->]. pose proof (own_free (layout E) k Hi _ _ Hm Hlk) as Ho.
    exists [Acquire (Z.to_nat mi)]. split; [by apply sc_lock_free|].
    apply path_one; [simpl; apply bool_decide_eq_true; exact Ho|].
    set (k1 := set_mutex _ _ k).
    trans (abs k1); [|apply abs_fields; unfold granted_code; by destruct (state t)].
    split_and!; simpl; try done.
    + intros n. unfold k1. rewrite (mutex_of_set k _ m) by done. case_decide; [|done]. cbn. by rewrite Nat2Z.id.
    + intros n i. unfold k1. rewrite (mutex_of_set k _ m) by done. case_decide; [subst n|done]. by rewrite Hm.
Qed.

(** The unlock assertion fails exactly when the script has nothing to offer. *)
Definition not_owner (a : Abs) (c : Capability) (p : panic) : Prop :=
  p = AssertFailed ∧ ∃ m, unlocks c = Some m ∧ is_Some (own a m) ∧ own a m ≠ Some (Some (cur a h)).

Lemma released_abs mi m :
  mutex_of (Z.to_nat mi) k = Some m → abs (released h k mi m) ≡ act h (Pass (Z.to_nat mi)) (abs k).
Proof.
  intros Hm. unfold released. cbn [act]. rewrite (first_abs k _ m Hm).
  destruct (lowest_waiter (waiters_bitmap m)) as [w|] eqn:Hw.
  - set (k1 := set_mutex _ _ k).
    trans (set_st (home w) w Ready (abs k1)).
    { rewrite <- abs_set_state. symmetry. apply abs_fields; unfold raise_ipi; by case_decide. }
    split_and!; try done; intros n; intros; cbn [abs own wait set_st act];
      unfold k1; rewrite (mutex_of_set k _ m) by done; case_decide; try subst n; cbn; try done.
    + by rewrite Nat2Z.id.
    + rewrite Hm. by apply (bits_cleared (layout E) k Hi (Z.to_nat mi)).
  - split_and!; try done; intros n; intros; cbn [abs own wait act];
      rewrite (mutex_of_set k _ m) by done; case_decide; try subst n; cbn; try done.
    rewrite Hm. rewrite bool_decide_false by done. by rewrite andb_true_r.
Qed.

Lemma unlock_refines :
  wp (not_owner (abs k) (cap_at h a0 k)) (sys_unlock E h sp)
    (λ _, refines h (EUnlock (cap_at h a0 k)) k) k.
Proof.
  destruct (permits 4 (cap_at h a0 k) k) eqn:Hp.
  2:{ apply (wp_weaken no_panic); [by unfold no_panic|]. eapply wp_mono; [by apply unlock_denied|].
      intros r k' [_ ->]. apply refines_none; [|done..].
      constructor. eapply not_permitted; [apply permits_unlocks|done]. }
  destruct (cap_at h a0 k) as [|mi cl []|] eqn:Hcap; try (cbn in Hp; by rewrite ?andb_false_r in Hp).
  cbn [permits] in Hp. apply andb_true_iff in Hp as [_ [m Hm]%bool_decide_eq_true].
  apply (wp_unlock_prefix E h sp k Hr mi m Hm _ cl); [done|]. case_decide as Hown.
  - intros r k2 Hs. pose proof (own_abs k _ _ _ Hm Hown) as Ho.
    destruct (path_then_switch E h sp false [Pass (Z.to_nat mi)] k (released h k mi m) r k2
      (return_code sp 0 k2)) as (l & Hres & Hpath); try done.
    + pose proof (released_inv E h k Hr mi m Hm (SCHED_LOCK k)) as Hri.
      by apply (inv_fields _ (set_SCHED_LOCK (SCHED_LOCK k) (released h k mi m))).
    + apply path_one; [simpl; unfold is_held; by rewrite Ho|]. symmetry. by apply released_abs.
    + eexists. split; [|exact Hpath]. by apply sc_unlock.
  - split; [done|]. exists (Z.to_nat mi). split; [done|]. simpl. rewrite Hm. split; [by eexists|].
    cbn. intros [= Ho]. apply Hown. destruct (owner_task_idx m) as [z|] eqn:Hz; [|done].
    destruct (mx_owner _ _ (inv_mutex _ _ Hi _ _ Hm) _ Hz) as (n & -> & _ & _).
    simpl in Ho. rewrite Nat2Z.id in Ho. congruence.
Qed.

(** A rendezvous search on the kernel is one on the abstract state. *)
Lemma find_any_rendezvous p mine l :
  match find_any p k with
  | Some (h', i) => l = [Deliver h' i]
  | None => ∃ r, resched true r ∧ l = Block mine :: r
  end → rendezvous p mine (abs k) l.
Proof.
  destruct (find_any p k) as [[h' i]|] eqn:Hf.
  - intros ->. destruct (find_any_Some _ _ _ _ Hf) as (t & Ht & Hp).
    constructor. unfold waits_on. simpl. by rewrite Ht.
  - intros (r & Hres & ->). constructor; [|done]. intros h' i. unfold waits_on. simpl.
    destruct (task_of h' i k) as [t|] eqn:Ht; [|done]. by eapply find_any_None.
Qed.

Lemma deliver_path h' i t k' :
  task_of h' i k = Some t → on_ipc (state t) = true →
  SCHEDULERS k' = SCHEDULERS (upd_task h' i (set_state Ready) k) → MUTEXES k' = MUTEXES k →
  path h [Deliver h' i] (abs k) (abs k').
Proof.
  intros Ht Hon H1 H2. apply path_one; [simpl; by rewrite Ht|].
  cbn [act]. rewrite <- abs_set_state. by apply abs_fields.
Qed.

Lemma send_refines :
  wp no_panic (sys_send E h sp)
    (λ _, refines h (ESend (cap_at h a0 k) (frame_read (ram k) sp A1) (frame_read (ram k) sp A2)) k) k.
Proof.
  destruct (permits 6 (cap_at h a0 k) k) eqn:Hp.
  2:{ eapply wp_mono; [by apply send_denied|]. intros r k' [_ ->]. apply refines_none; [|done..].
      constructor. eapply not_permitted; [apply permits_sends|done]. }
  destruct (cap_at h a0 k) as [| |ep [] cr] eqn:Hcap; try done.
  eapply wp_mono; [exact (send_spec E h sp k Hr ep cr Hcap)|]. intros r k' Hk'. cbv beta in Hk'.
  set (mine := BlockedOnIpcSend ep (frame_read (ram k) sp A1) (frame_read (ram k) sp A2)) in Hk'.
  pose proof (find_any_rendezvous (waits_recv ep) mine) as Hrv.
  destruct (find_any (waits_recv ep) k) as [[rh ri]|] eqn:Hf.
  - destruct Hk' as (t & rx & buf & max & Ht & Hst & _ & ->). exists [Deliver rh ri].
    split; [apply (sc_send _ _ _ _ _ ep); [done|]; by apply Hrv|].
    apply (deliver_path rh ri t); [done|by rewrite Hst| |]; unfold transferred, raise_ipi; by case_decide.
  - destruct (block_refines mine r k') with (3 := Hk') as (l & Hres & Hpath); [done|..].
    + apply inv_block; try done. intros ep' h' j t Ht Hw. cbn in Hw. apply Z.eqb_eq in Hw. subst ep'.
      by eapply find_any_None.
    + eexists. split; [apply (sc_send _ _ _ _ _ ep); [done|]; apply Hrv; eauto|exact Hpath].
Qed.

Lemma recv_refines :
  wp no_panic (sys_recv E h sp)
    (λ _, refines h (ERecv (cap_at h a0 k) (frame_read (ram k) sp A1) (frame_read (ram k) sp A2)) k) k.
Proof.
  destruct (permits 7 (cap_at h a0 k) k) eqn:Hp.
  2:{ eapply wp_mono; [by apply recv_denied|]. intros r k' [_ ->]. apply refines_none; [|done..].
      constructor. eapply not_permitted; [apply permits_receives|done]. }
  destruct (cap_at h a0 k) as [| |ep cs []] eqn:Hcap; try (cbn in Hp; by rewrite ?andb_false_r in Hp).
  eapply wp_mono; [exact (recv_spec E h sp k Hr ep cs Hcap)|]. intros r k' Hk'. cbv beta in Hk'.
  set (mine := BlockedOnIpcRecv ep (frame_read (ram k) sp A1) (frame_read (ram k) sp A2)) in Hk'.
  pose proof (find_any_rendezvous (waits_send ep) mine) as Hrv.
  destruct (find_any (waits_send ep) k) as [[th ti]|] eqn:Hf.
  - destruct Hk' as (t & tx & msg & len & Ht & Hst & _ & ->). exists [Deliver th ti].
    split; [apply (sc_recv _ _ _ _ _ ep); [done|]; by apply Hrv|].
    apply (deliver_path th ti t); [done|by rewrite Hst| |]; unfold transferred, raise_ipi; by case_decide.
  - destruct (block_refines mine r k') with (3 := Hk') as (l & Hres & Hpath); [done|..].
    + apply inv_block; try done. intros ep' h' j t Ht Hw. cbn in Hw. apply Z.eqb_eq in Hw. subst ep'.
      by eapply find_any_None.
    + eexists. split; [apply (sc_recv _ _ _ _ _ ep); [done|]; apply Hrv; eauto|exact Hpath].
Qed.
End arms.

(** ** Recovery, termination and faults *)

Lemma own_of_recovered E k o m :
  kernel_inv (layout E) k → ∀ j, mutex_of j k = Some m →
  (own (abs k) j = Some (Some o) ↔ owner_task_idx m = Some (Z.of_nat o)).
Proof.
  intros Hi j Hm. split.
  - intros Ho. destruct (own_abs_inv _ _ Hi _ _ Ho) as (m' & Hm' & Hown & _). by simplify_eq.
  - by apply own_abs.
Qed.

Lemma inherits_heir E k o i :
  kernel_inv (layout E) k → inherits (abs k) o i = true ↔ ∃ j, (j < 8)%nat ∧ heir k o j i.
Proof.
  intros Hi. unfold inherits. rewrite existsb_exists. split.
  - intros (j & [_ Hj]%in_seq & [Ho Hf]%andb_true_iff). exists j. split; [lia|].
    apply bool_decide_eq_true in Ho, Hf.
    destruct (own_abs_inv _ _ Hi _ _ Ho) as (m & Hm & Hown & _). exists m.
    by rewrite (first_abs _ _ _ Hm) in Hf.
  - intros (j & Hj & m & Hm & Hown & Hlow). exists j. split; [apply in_seq; lia|].
    apply andb_true_iff. split; apply bool_decide_eq_true.
    + by eapply own_abs.
    + by rewrite (first_abs _ _ _ Hm).
Qed.

Lemma recover_abs E h o k k' :
  kernel_inv (layout E) k → recovers o 0 8 k k' → abs k' ≡ act h (Recover o) (abs k).
Proof.
  intros Hi [M T C R St].
  assert (Hm : ∀ j, mutex_of j k' = recovered o <$> mutex_of j k).
  { intros j. rewrite M. case_decide; [done|]. destruct (mutex_of j k) as [m|] eqn:Hm; [|done].
    pose proof (mutex_lt _ _ _ _ Hi Hm). lia. }
  split_and!.
  - intros h' i. cbn [abs st act].
    destruct (task_of h' i k) as [t|] eqn:Ht.
    + destruct (T _ _ _ Ht) as (t' & Ht' & Hc). rewrite Ht'.
      destruct Hc as [[-> Hno]|(-> & Hh & j & Hj & He)].
      * rewrite decide_False; [done|]. intros [Hh Hin]. apply (inherits_heir E) in Hin as (j & Hj & He); [|done].
        apply (Hno j); [lia|done|done].
      * rewrite decide_True; [done|]. split; [done|]. apply (inherits_heir E); [done|]. exists j. split; [lia|done].
    + assert (Hn : task_of h' i k' = None).
      { apply eq_None_not_Some. intros Hs. apply (static_is_Some _ _ _ (St h')) in Hs.
        fold (task_of h' i k) in Hs. rewrite Ht in Hs. by destruct Hs. }
      rewrite Hn. by case_decide.
  - intros h'. apply C.
  - intros j. cbn [own act].
    change (own (abs k') j) with ((λ mx, Z.to_nat <$> owner_task_idx mx) <$> mutex_of j k').
    rewrite Hm. destruct (mutex_of j k) as [m|] eqn:Hj.
    + pose proof (own_of_recovered E k o m Hi j Hj) as Hown. cbn [fmap option_fmap option_map].
      unfold recovered. case_bool_decide as Hb.
      * rewrite decide_True by by apply Hown. rewrite (first_abs _ _ _ Hj).
        destruct (lowest_waiter (waiters_bitmap m)); cbn; [by rewrite Nat2Z.id|done].
      * rewrite decide_False by by rewrite Hown. cbn. by rewrite Hj.
    + simpl. rewrite Hj. by rewrite decide_False.
  - intros j i. cbn [wait act].
    change (wait (abs k') j i) with (match mutex_of j k' with
      Some mx => Z.testbit (waiters_bitmap mx) (Z.of_nat i) | None => false end).
    rewrite Hm. destruct (mutex_of j k) as [m|] eqn:Hj.
    + pose proof (own_of_recovered E k o m Hi j Hj) as Hown. cbn [fmap option_fmap option_map].
      unfold recovered. case_bool_decide as Hb.
      * rewrite decide_True by by apply Hown. rewrite (first_abs _ _ _ Hj).
        cbn [abs wait]. rewrite Hj.
        destruct (lowest_waiter (waiters_bitmap m)) as [w|]; cbn [waiters_bitmap].
        -- by apply (bits_cleared (layout E) k Hi j).
        -- rewrite bool_decide_false by done. by rewrite andb_true_r.
      * rewrite decide_False by by rewrite Hown. simpl. by rewrite Hj.
    + cbn [abs wait own]. rewrite Hj. by case_decide.
Qed.

(** Killing a task and recovering its mutexes. *)
Lemma kill_path E h h' o k k0 k1 :
  is_Some (task_of h' o k) → kernel_inv (layout E) k0 →
  abs k0 ≡ set_st h' o Terminated (abs k) → recovers o 0 8 k0 k1 →
  path h [Kill h' o; Recover o] (abs k) (abs k1).
Proof.
  intros Hs Hi Hk0 Hrec. constructor; [simpl; apply bool_decide_eq_true; by rewrite fmap_is_Some|].
  apply path_one; [done|]. change (act h (Recover o) (set_st h' o Terminated (abs k)) ≡ abs k1). rewrite <- Hk0. symmetry. by eapply (recover_abs _ h).
Qed.

Lemma fault_refines E h sp cause k :
  ready_for E h k → wp no_panic (contain_fault E h sp cause) (λ _, refines h EFault k) k.
Proof.
  intros Hr. pose proof (rf_inv _ _ _ Hr) as Hi.
  eapply wp_mono; [by apply wp_contain_fault|]. intros sp' k' (k1 & Hrec & Hi1 & Hs).
  destruct (path_then_switch E h sp false [Kill h (current h k); Recover (current h k)] k k1 sp' k' k')
    as (l & Hres & Hp); try done.
  - eapply (kill_path E); [exact (current_registered E h k Hi)| | |done].
    + apply inv_set_state; [by apply (inv_fields _ k)|done..].
    + unfold faulted. rewrite abs_set_state. apply set_st_proper. symmetry. by apply abs_fields.
  - eexists. split; [|exact Hp]. by constructor.
Qed.

Lemma target_registered h' i k :
  is_Some (task_of h' i k) → is_Some (task_of (target_hart i k) i k).
Proof.
  unfold target_hart. intros Hs. destruct (task_of H0 i k) eqn:E0; [by rewrite E0|].
  destruct h'; [by rewrite E0 in Hs; destruct Hs|done].
Qed.

Lemma terminate_refines E h sp k :
  ready_for E h k → 0 ≤ frame_read (ram k) sp A0 →
  wp no_panic (sys_terminate E h sp) (λ _, refines h (ETerminate (frame_read (ram k) sp A0)) k) k.
Proof.
  intros Hr Hpos. pose proof (rf_inv _ _ _ Hr) as Hi. set (z := frame_read (ram k) sp A0) in *.
  set (i := Z.to_nat z). assert (Hz : z = Z.of_nat i) by (unfold i; lia).
  destruct (decide ((i < 32)%nat ∧ is_Some (task_of (target_hart i k) i k))) as [[Hlt Hreg]|Hno].
  - eapply wp_mono; [exact (wp_terminate E h sp k i Hr Hz Hlt Hreg)|].
    intros sp' k' (k1 & Hrec & Hi1 & Hc). rewrite Hz.
    assert (Hp : path h [Kill (target_hart i k) i; Recover i] (abs k) (abs k1)).
    { eapply (kill_path E); [done| | |done]; [by apply inv_set_state|apply abs_set_state]. }
    assert (Hs : ∀ l, (if decide (target_hart i k = h ∧ i = cur (abs k) h) then resched true l else l = []) →
      script h (abs k) (ETerminate (Z.of_nat i)) (Kill (target_hart i k) i :: Recover i :: l)).
    { intros l Hl. apply sc_terminate; [simpl; by rewrite fmap_is_Some| |exact Hl].
      unfold target_hart. simpl. by destruct (task_of H0 i k). }
    destruct (decide (target_hart i k = h)) as [Hh|Hh].
    + destruct (decide (i = current h k)) as [Hcur|Hcur].
      * destruct (path_then_switch E h sp false [Kill (target_hart i k) i; Recover i] k
          (return_code sp 0 k1) sp' k' k') as (l & Hres & Hq); try done.
        { by apply (inv_fields _ k1). }
        eexists. split; [|exact Hq]. apply Hs. by rewrite decide_True.
      * destruct Hc as [_ ->]. eexists. split; [apply (Hs []); by rewrite decide_False by naive_solver|].
        eapply path_equiv_r; [done|]. by apply abs_fields.
    + destruct Hc as [_ ->]. eexists. split; [apply (Hs []); by rewrite decide_False by naive_solver|].
      eapply path_equiv_r; [done|]. by apply abs_fields.
  - assert (Hscript : script h (abs k) (ETerminate z) []).
    { apply sc_terminate_none. intros j h' Hj Hlt. simpl. apply fmap_None, eq_None_not_Some. intros Hs.
      assert (j = i) as -> by lia. apply Hno. split; [done|]. by apply (target_registered h'). }
    unfold sys_terminate. wp_run. fold z i. apply wp_sched_guard; [apply Hr|]. intros l. apply wp_bind.
    apply (wp_mono _ _ (λ r k', r = None ∧ k' = set_SCHED_LOCK l k)).
    + destruct (Z.ltb_spec z (Z.of_nat MAX_PARTITIONS)) as [Hz32|]; [|by wp_run].
      unfold MAX_PARTITIONS in Hz32. unfold terminate_slot. wp_run.
      assert (Hnone : ∀ h', task_of h' i k = None).
      { intros h'. apply eq_None_not_Some. intros Hs. apply Hno. split; [lia|]. by apply (target_registered h'). }
      fold (sched_of H0 (set_SCHED_LOCK l k)) (sched_of H1 (set_SCHED_LOCK l k)).
      change (slot _ i) with (task_of H0 i k) at 1. rewrite Hnone.
      change (slot _ i) with (task_of H1 i k) at 1. rewrite Hnone. by wp_run.
    + intros r k' [-> ->]. wp_run. split; [done|]. by apply refines_none.
Qed.

Lemma timer_refines E h sp k :
  ready_for E h k →
  wp no_panic (timer_interrupt E h sp) (λ _, refines h (ETimer (wrapping_add (TICK_COUNT k) 1)) k) k.
Proof.
  intros Hr. unfold timer_interrupt. wp_run. set (tick := wrapping_add _ 1). set (k1 := set_mtimecmp _ _).
  assert (Hi1 : kernel_inv (layout E) k1) by (apply (inv_fields _ k); try done; apply Hr).
  apply wp_sched_guard; [apply Hr|]. intros l. wp_run.
  set (k2 := set_SCHEDULERS (ph_set h (wake_sleepers tick (sched_of h k1)) (SCHEDULERS k1)) k1).
  assert (Hi2 : kernel_inv (layout E) k2) by by apply (keeps_wake E).
  apply wp_switch_task; [by apply (inv_fields _ k2)|]. intros sp' k' Hs.
  destruct (switched_sched_lock E h sp true k2 l sp' k' Hs) as [Hl Hs']. split; [done|].
  eapply path_then_switch with (l := [Tick tick]) (k := k) in Hs'
    as (r & Hres & Hp); [|done| |reflexivity|reflexivity].
  - eexists. split; [|exact Hp]. by constructor.
  - apply path_one; [done|]. split_and!; simpl; try done.
    + intros h' i. unfold k2. rewrite task_wake. change (task_of h' i k1) with (task_of h' i k).
      case_decide; [|done]. destruct (task_of h' i k) as [t|]; simpl; [|done]. f_equal.
      unfold wake_one, wake_due. destruct (state t) eqn:Est; rewrite ?Est; try done. by case_match.
    + intros h'. unfold current, sched_of, k2. simpl. rewrite ph_get_set. by case_decide; subst.
Qed.

(** ** The dispatcher *)

(** The panics a trap may end in: unlocking a mutex one does not hold. *)
Definition refused (h : hart) (a : Abs) (ev : event) (p : panic) : Prop :=
  p = AssertFailed ∧ ∃ c m, ev = EUnlock c ∧ unlocks c = Some m ∧
    is_Some (own a m) ∧ own a m ≠ Some (Some (cur a h)).

Lemma call_refines E h sp k :
  ready_for E h k → mem_wf (ram k) →
  wp (refused h (abs k) (call_event h sp k)) (ecall E h sp) (λ _, refines h (call_event h sp k) k) k.
Proof.
  intros Hr Hwf. set (ev := call_event h sp k). set (ka := advanced sp k).
  pose proof (ready_advanced _ _ sp _ Hr) as Ha. fold ka in Ha.
  assert (Hreg : ∀ i, i ≠ MEPC → frame_read (ram ka) sp i = frame_read (ram k) sp i)
    by (intros; by apply advanced_reg).
  apply (wp_ecall _ _ _ _ _ _ _ eq_refl). fold ka.
  change (refines h ev k) with (refines h ev ka). change (abs k) with (abs ka).
  assert (Hcap : ∀ z, cap_at h z ka = cap_at h z k) by done.
  assert (Hp : ∀ e (m : K Z), wp no_panic m (λ _, refines h e ka) ka →
    wp (refused h (abs ka) e) m (λ _, refines h e ka) ka).
  { intros e m Hm. apply (wp_weaken no_panic); [by unfold no_panic|done]. }
  unfold ev, call_event.
  destruct (_ =? 1); [by apply Hp, yield_refines|].
  destruct (_ =? 2); [apply Hp; rewrite <- (Hreg A0) by done; exact (sleep_refines E h sp ka Ha)|].
  destruct (_ =? 3).
  { apply Hp. rewrite <- (Hreg A0), <- Hcap by done. by apply lock_refines. }
  destruct (_ =? 4).
  { rewrite <- (Hreg A0), <- Hcap by done. eapply wp_weaken; [|by apply unlock_refines].
    intros p (Hpan & m & Hm). split; [done|]. eexists _, m. split; [done|]. exact Hm. }
  destruct (Z.eqb_spec (frame_read (ram k) sp A7) 5) as [-> |].
  { apply Hp. by apply (checkin_refines E). }
  destruct (_ =? 6).
  { apply Hp. rewrite <- (Hreg A0), <- (Hreg A1), <- (Hreg A2), <- Hcap by done. by apply send_refines. }
  destruct (_ =? 7).
  { apply Hp. rewrite <- (Hreg A0), <- (Hreg A1), <- (Hreg A2), <- Hcap by done. by apply recv_refines. }
  destruct (_ =? 8); apply Hp.
  - rewrite <- (Hreg A0) by done. apply terminate_refines; [done|].
    apply frame_read_range. by apply store32_wf.
  - wp_run. apply refines_none; [constructor|done|done].
Qed.

Lemma wp_trap_refines E h mcause sp start_cycle k :
  ready_for E h k → mem_wf (ram k) → ¬ unknown_cause mcause →
  let ev := trap_event h mcause sp k in
  wp (refused h (abs k) ev) (trap_handler E h mcause sp start_cycle) (λ _, refines h ev k) k.
Proof.
  intros Hr Hwf Hunk ev.
  unfold trap_handler. wp_run. set (k1 := set_METRIC_TRAP_LATENCY_CYCLES _ k).
  assert (Hr1 : ready_for E h k1) by (destruct Hr; split; [by apply (inv_fields _ k)|done|done]).
  change (refines h ev k) with (refines h ev k1). change (abs k) with (abs k1).
  assert (Hp : ∀ (m : K Z), wp no_panic m (λ _, refines h ev k1) k1 →
    wp (refused h (abs k1) ev) m (λ _, refines h ev k1) k1).
  { intros m Hm. apply (wp_weaken no_panic); [by unfold no_panic|done]. }
  unfold ev, trap_event in *.
  destruct (Z.eqb_spec mcause TIMER_INTERRUPT); [apply Hp; exact (timer_refines E h sp k1 Hr1)|].
  destruct (Z.eqb_spec mcause SOFTWARE_INTERRUPT); [apply Hp; by apply software_refines|].
  destruct (Z.eqb_spec mcause ECALL_UMODE); [by apply (call_refines E h sp k1)|].
  apply Hp. unfold exception. wp_run. change (ram k1) with (ram k).
  destruct ((mcause =? 2) && _) eqn:Hcsr.
  - unfold emulate_csr. case_match; wp_run; apply refines_none; done || constructor.
  - destruct (contained_cause mcause) eqn:Hc; [by apply fault_refines|].
    destruct Hunk. by split_and!.
Qed.

(** C2. Refinement.  Every trap that the dispatcher has an arm for, from every
    state that satisfies the kernel invariant, implements the abstract kernel: it
    returns after performing, on the abstract state, a sequence of moves that the
    specification allows for the event the trap stands for, or it panics, and
    then the event is the unlock of an existing mutex by a task that does not
    hold it. *)
Theorem trap_refines_spec E h mcause sp start_cycle k :
  ready_for E h k → mem_wf (ram k) → ¬ unknown_cause mcause →
  let ev := trap_event h mcause sp k in
  match trap_handler E h mcause sp start_cycle k with
  | Done (_, k') => ∃ l, script h (abs k) ev l ∧ path h l (abs k) (abs k')
  | Panicked p => refused h (abs k) ev p
  | Spinning => False
  end.
Proof.
  intros Hr Hwf Hunk ev. pose proof (wp_trap_refines E h mcause sp start_cycle k Hr Hwf Hunk) as Hwp.
  unfold wp, refines in Hwp. by destruct (trap_handler E h mcause sp start_cycle k) as [[]| |].
Qed.

Lemma trap_refines_spec_witness :
  ∃ l, script H0 (abs lock_call) (ELock (CapMutex 0 true true)) l ∧
    match trap_handler sample_env H0 ECALL_UMODE 0x3FC80780 6000 lock_call with
    | Done (_, k') => path H0 l (abs lock_call) (abs k')
    | _ => False
    end.
Proof.
  assert (Hram : ram lock_call = syscall_frame 0x3FC80780 3 0 0 0 ∅) by (vm_compute; reflexivity).
  assert (Hwf : mem_wf (ram lock_call)) by (rewrite Hram; apply syscall_frame_wf, mem_wf_empty).
  pose proof (trap_refines_spec sample_env H0 ECALL_UMODE 0x3FC80780 6000 lock_call lock_call_ready Hwf) as H.
  assert (Hu : ¬ unknown_cause ECALL_UMODE) by (intros (_ & _ & Hne & _); by apply Hne).
  specialize (H Hu). cbv zeta in H.
  replace (trap_event H0 ECALL_UMODE 0x3FC80780 lock_call) with (ELock (CapMutex 0 true true)) in H
    by (vm_compute; reflexivity).
  destruct (trap_handler sample_env H0 ECALL_UMODE 0x3FC80780 6000 lock_call) as [[sp' k']|p|].
  - exact H.
  - destruct H as [_ (c & m & Hc & _)]. discriminate Hc.
  - destruct H.
Defined.
