(* ===== verification/Tasks.v ===== *)
(** * Tasks: the programs the partitions run

    Models the task functions of kernel/src/main.rs ([watchdog_task], [task_a],
    [task_b], [task_c], [idle_task]) and [hsm_task] of security/src/hsm.rs, with
    the system calls they make, in order, on every branch.  A program is a tree:
    one node per system call or access to memory, whose continuation takes the
    value the call returned or the bytes read.  [Again] goes back to the head of
    the task's outermost loop with its loop variable.  Busy loops of [nop], log
    messages and the zeroing of [rx_buf] and [req_buf] before the loops have no
    node. *)
From S2P Require Import Prelude Memory Tcb Bitmap Can Pmp Spinlock Telemetry Kernel.
From S2P Require Import Trap KernelInv TrapInv Security Boot.

(** ** Programs *)

Inductive prog :=
  | Sys (n a0 a1 a2 : Z) (k : Z → prog)        (* [ecall]; [k] takes the value of [a0] *)
  | Peek (a : Z) (len : nat) (k : list Z → prog)
  | Poke (a : Z) (bs : list Z) (k : prog)
  | Cycles (k : Z → prog)                       (* [read_cycles] *)
  | ReadTestCounter (k : Z → prog)
  | Fault (cause : Z) (k : prog)                (* an instruction that traps *)
  | Iteration (k : prog)                        (* the checks and restarts of the watchdog *)
  | Dies                                        (* a panic in U-mode *)
  | Again (v : Z).

(** [isize] results are compared with 0 as signed numbers. *)
Definition as_isize (z : Z) : Z := if z <? 2 ^ 31 then z else z - 2 ^ 32.

(** Where the compiler puts the local buffers of the tasks. *)
Record Buffers := mkBuffers {
  frame_buf : Z; tag_buf : Z; auth_buf : Z; expected_buf : Z; msg_buf : Z;   (* Task A *)
  rx_buf : Z;                                                                (* Task B *)
  req_buf : Z; reply_buf : Z                                                 (* HSM *)
}.

Section tasks.
Context (sha256 : list Z → list Z) (frame_bytes : CanFrame → list Z) (read_frame : list Z → CanFrame).
Context (B : Buffers).

(** The end of an iteration; every fifth one logs that all is well. *)
Definition watchdog_next (loop_count : Z) : prog := Again (wrapping_add loop_count 1).

Definition watchdog_program (loop_count : Z) : prog :=
  Sys 2 100 0 0 (λ _, Iteration (watchdog_next loop_count)).

(** [security::verify_frame_secure], whose frame and tag are at [auth_buf]. *)
Definition verify_frame_program (auth : AuthFrame) (send_cap recv_cap : Z) (k : bool → prog) : prog :=
  Sys 6 send_cap (auth_buf B) (Z.of_nat FRAME_SIZE) (λ send_res,
    if as_isize send_res <? 0 then k false
    else
      Poke (expected_buf B) (replicate HMAC_TAG_LEN 0)
        (Sys 7 recv_cap (expected_buf B) (Z.of_nat HMAC_TAG_LEN) (λ recv_res,
          if as_isize recv_res <? 0 then k false
          else Peek (expected_buf B) HMAC_TAG_LEN (λ expected,
                 k (verify_frame_secure (as_isize send_res) (as_isize recv_res) expected auth))))).

Definition test_frame : CanFrame := mkFrame 0x3E 4 [0xAA; 0xBB; 0xCC; 0xDD; 0; 0; 0; 0].

Definition task_a_program (loop_count : Z) : prog :=
  let telemetry :=
    Poke (msg_buf B) [0xDE; 0xAD; 0xBE; 0xEF; 0x12; 0x34; 0x56; 0x78]
      (Sys 6 1 (msg_buf B) 8 (λ _,
        Sys 1 0 0 0 (λ _, Again (wrapping_add loop_count 1)))) in
  Sys 5 0 0 0 (λ _,
  Sys 3 0 0 0 (λ _,
  Sys 4 0 0 0 (λ _,
  Poke (frame_buf B) (frame_bytes test_frame)
    (Poke (tag_buf B) (replicate 8 0)
      (Cycles (λ start_cycles,
      Sys 6 2 (frame_buf B) (Z.of_nat FRAME_SIZE) (λ send_res,
      Sys 7 3 (tag_buf B) 8 (λ recv_res,
      Cycles (λ end_cycles,
        if (0 <=? as_isize send_res) && (0 <=? as_isize recv_res) then
          Peek (tag_buf B) 8 (λ computed_tag,
            Poke (auth_buf B) (frame_bytes test_frame ++ computed_tag)
              (verify_frame_program (mkAuth test_frame computed_tag) 2 3 (λ _, telemetry)))
        else telemetry))))))))).

(** The watchdog check-in stops after five rounds: a simulated hang. *)
Definition task_b_program (loops : Z) : prog :=
  let rest := Sys 1 0 0 0 (λ _, Again (wrapping_add loops 1)) in
  Sys 7 0 (rx_buf B) 8 (λ _,
    if loops <? 5 then Sys 5 0 0 0 (λ _, rest) else rest).

(** Loop variable 0: the start of the task; 1: the final [loop { yield_now() }]. *)
Definition yield_forever : prog := Sys 1 0 0 0 (λ _, Again 1).

Definition task_c_program (v : Z) : prog :=
  if v =? 0 then
    ReadTestCounter (λ tc,
      if tc =? 0 then
        Sys 3 0 0 0 (λ _, Sys 1 0 0 0 (λ _, Sys 4 0 0 0 (λ _, Sys 1 0 0 0 (λ _,
          Fault 5 yield_forever))))
      else if tc =? 1 then Fault 2 yield_forever
      else Sys 5 0 0 0 (λ _, yield_forever))
  else yield_forever.

Definition hsm_program (_ : Z) : prog :=
  Sys 5 0 0 0 (λ _,
  Sys 7 0 (req_buf B) (Z.of_nat FRAME_SIZE) (λ res,
  Peek (req_buf B) FRAME_SIZE (λ req,
    match hsm_serve sha256 read_frame (as_isize res) req with
    | Done (Some tag) =>
        Poke (reply_buf B) tag (Sys 6 1 (reply_buf B) (Z.of_nat HMAC_TAG_LEN) (λ _, Again 0))
    | Done None => Again 0
    | _ => Dies
    end))).

Definition idle_program (_ : Z) : prog := Again 0.

(** The program of the task in slot [i] of hart [h]. *)
Definition program (h : hart) (i : nat) : Z → prog :=
  match h, i with
  | H0, 0%nat => watchdog_program
  | H0, 1%nat => task_a_program
  | H0, 4%nat => hsm_program
  | H1, 2%nat => task_b_program
  | H1, 3%nat => task_c_program
  | _, _ => idle_program
  end.
End tasks.

(** ** Discipline

    [disciplined h i held p]: along every path of [p], whatever the calls return
    and the memory holds, the task in slot [i] of hart [h] takes mutex 0 only if it
    is a [locker] and does not hold it, releases it only if it holds it, only yields
    in between, holds nothing when its loop starts again, and makes no other call
    than sleep, yield, check-in, send and receive.  Only the watchdog runs
    iterations, and the idle task (slot 31) does nothing at all. *)

(** Tasks A and C have a capability for mutex 0. *)
Definition locker (h : hart) (i : nat) : bool :=
  match h, i with H0, 1%nat | H1, 3%nat => true | _, _ => false end.

Fixpoint disciplined (h : hart) (i : nat) (held : bool) (p : prog) : Prop :=
  match p with
  | Sys n a0 _ _ k =>
      i ≠ 31%nat ∧
      if n =? 3 then a0 = 0 ∧ locker h i = true ∧ held = false ∧ ∀ r, disciplined h i true (k r)
      else if n =? 4 then a0 = 0 ∧ held = true ∧ ∀ r, disciplined h i false (k r)
      else if n =? 1 then ∀ r, disciplined h i held (k r)
      else n ∈ [2; 5; 6; 7] ∧ held = false ∧ ∀ r, disciplined h i held (k r)
  | Peek _ _ k => ∀ bs, disciplined h i held (k bs)
  | Poke _ _ k => held = false ∧ disciplined h i held k
  | Iteration k => h = H0 ∧ i = 0%nat ∧ held = false ∧ disciplined h i held k
  | Cycles k | ReadTestCounter k => ∀ z, disciplined h i held (k z)
  | Fault cause k => i ≠ 31%nat ∧ contained_cause cause = true ∧ held = false ∧ disciplined h i held k
  | Dies => True
  | Again _ => held = false
  end.

(** Decides the calls of a straight piece of program. *)
Ltac disc := repeat (cbn [disciplined Z.eqb Pos.eqb]; split_and?; intros;
  try done; try (rewrite !elem_of_cons; lia)).

Lemma verify_frame_disciplined B h i auth s r k :
  i ≠ 31%nat → (∀ b, disciplined h i false (k b)) →
  disciplined h i false (verify_frame_program B auth s r k).
Proof.
  intros Hi Hk. unfold verify_frame_program. disc. case_match; [apply Hk|].
  disc. case_match; [apply Hk|]. cbn [disciplined]. intros expected. apply Hk.
Qed.

Lemma programs_disciplined sha256 frame_bytes read_frame B h i v :
  disciplined h i false (program sha256 frame_bytes read_frame B h i v).
Proof.
  assert (Hidle : disciplined h i false (idle_program v)) by done.
  assert (Hyield : disciplined H1 3 false yield_forever) by (unfold yield_forever; disc).
  assert (Hwd : disciplined H0 0 false (watchdog_program v)) by (unfold watchdog_program; disc).
  assert (Ha : disciplined H0 1 false (task_a_program frame_bytes B v)).
  { unfold task_a_program. disc. case_match; [|disc]. cbn [disciplined]. intros tag.
    split; [done|]. apply verify_frame_disciplined; disc. }
  assert (Hb : disciplined H1 2 false (task_b_program B v)).
  { unfold task_b_program. disc. case_match; disc. }
  assert (Hc : disciplined H1 3 false (task_c_program v)).
  { unfold task_c_program. case_match; [|done]. cbn [disciplined]. intros tc.
    repeat case_match; disc; apply Hyield. }
  assert (Hh : disciplined H0 4 false (hsm_program sha256 read_frame B v)).
  { unfold hsm_program. disc. repeat case_match; disc. }
  unfold program. destruct h; repeat (destruct i as [|i]; auto).
Qed.
