(* ===== verification/Messages.v ===== *)
(** * Messages: what the tasks send each other and rely on

    The telemetry endpoint (0) carries eight fixed bytes, the HSM's request endpoint
    (2) the bytes of Task A's frame, its reply endpoint (3) the tag of that frame.
    [verified] is a logic for the task programs of [Tasks]: it follows what a task
    knows of its own buffers and shows that it only sends the message of an endpoint,
    receives only into its own buffers, and reads from memory what it expects. *)
From S2P Require Import Prelude Memory Tcb Bitmap Can Pmp Spinlock Telemetry Kernel.
From S2P Require Import Trap KernelInv TrapInv Security Boot Reach SyscallSpec IpcSpec.
From S2P Require Import AbsSpec Tasks.

Section messages.
Context (sha256 : list Z → list Z) (frame_bytes : CanFrame → list Z) (read_frame : list Z → CanFrame).
Context (B : Buffers).

(** ** Messages, capabilities and buffers *)

(** The tag RFC 2104 gives Task A's frame. *)
Definition frame_tag : list Z :=
  take HMAC_TAG_LEN (Rfc2104.hmac sha256 64 HMAC_KEY (mac_message test_frame)).

Definition message (ep : Z) : list Z :=
  if ep =? 0 then [0xDE; 0xAD; 0xBE; 0xEF; 0x12; 0x34; 0x56; 0x78]
  else if ep =? 2 then frame_bytes test_frame
  else if ep =? 3 then frame_tag
  else [].

(** The capabilities the tasks are registered with. *)
Definition caps_of (h : hart) (i : nat) : list Capability :=
  match h, i with
  | H0, 1%nat => task_a_caps
  | H0, 4%nat => hsm_caps
  | H1, 2%nat => task_b_caps
  | H1, 3%nat => task_c_caps
  | _, _ => no_caps
  end.

Definition cap_of (h : hart) (i : nat) (cap_idx : Z) : Capability :=
  default CapNone (caps_of h i !! Z.to_nat cap_idx).

(** The local buffers of a task: address and size. *)
Definition buffers (h : hart) (i : nat) : list (Z * Z) :=
  match h, i with
  | H0, 1%nat => [(frame_buf B, 12); (tag_buf B, 8); (auth_buf B, 20); (expected_buf B, 8); (msg_buf B, 8)]
  | H0, 4%nat => [(req_buf B, 12); (reply_buf B, 8)]
  | H1, 2%nat => [(rx_buf B, 8)]
  | _, _ => []
  end.

Definition inside (h : hart) (i : nat) (a n : Z) : Prop :=
  ∃ b, b ∈ buffers h i ∧ fst b ≤ a ∧ a + n ≤ fst b + snd b.

Definition area (h : hart) (i : nat) (x : Z) : Prop := inside h i x 1.

(** ** The logic *)

(** A fact: these bytes are at this address. *)
Definition fact : Type := Z * list Z.

Definition holds (h : hart) (i : nat) (β : list fact) (m : Mem) : Prop :=
  ∀ f, f ∈ β → inside h i (fst f) (Z.of_nat (length (snd f))) ∧
               load_bytes m (fst f) (length (snd f)) = snd f.

(** What may be known after [bs] was written to [a]. *)
Definition gains (a : Z) (bs : list Z) (β β' : list fact) : Prop :=
  ∀ f, f ∈ β' → f = (a, bs) ∨
    f ∈ β ∧ disjoint a (Z.of_nat (length bs)) (fst f) (Z.of_nat (length (snd f))).

(** Task A reads tags, the HSM frames. *)
Definition reads (h : hart) (i : nat) : list Z :=
  match h, i with H0, 1%nat => frame_tag | _, _ => frame_bytes test_frame end.

(** When Task A compares, the frame it sent and the tag it got for it are in place. *)
Definition authenticated (β : list fact) : Prop := (auth_buf B, frame_bytes test_frame ++ frame_tag) ∈ β.

Fixpoint verified (h : hart) (i : nat) (β : list fact) (p : prog) : Prop :=
  match p with
  | Sys n a0 a1 a2 k =>
      if n =? 6 then ∃ ep rest, 0 ≤ a0 < 8 ∧ is_u32 a1 ∧ sends (cap_of h i a0) = Some ep ∧
        a2 = Z.of_nat (length (message ep)) ∧ (a1, message ep ++ rest) ∈ β ∧ ∀ r, verified h i β (k r)
      else if n =? 7 then ∃ ep β', 0 ≤ a0 < 8 ∧ is_u32 a1 ∧ receives (cap_of h i a0) = Some ep ∧
        a2 = Z.of_nat (length (message ep)) ∧ inside h i a1 a2 ∧ gains a1 (message ep) β β' ∧
        ∀ r, verified h i β' (k r)
      else ∀ r, verified h i β (k r)
  | Peek a n k => (a, reads h i) ∈ β ∧ length (reads h i) = n ∧
      (h = H0 → i = 1%nat → a = expected_buf B → authenticated β) ∧ verified h i β (k (reads h i))
  | Poke a bs k => inside h i a (Z.of_nat (length bs)) ∧ Forall byte bs ∧
      ∃ β', gains a bs β β' ∧ verified h i β' k
  | Cycles k | ReadTestCounter k => ∀ z, verified h i β (k z)
  | Fault _ k | Iteration k => verified h i β k
  | Dies => False
  | Again _ => True
  end.

(** ** Hypotheses *)

(** The hash returns 32 bytes; a frame occupies [FRAME_SIZE] bytes, which determine it. *)
Record codec : Prop := {
  co_hash : ∀ m, length (sha256 m) = 32%nat ∧ Forall byte (sha256 m);
  co_frame : length (frame_bytes test_frame) = FRAME_SIZE ∧ Forall byte (frame_bytes test_frame);
  co_back : read_frame (frame_bytes test_frame) = test_frame
}.

(** Where the compiler puts the buffers: in the address space, apart from those of
    other tasks, and the buffers one task uses at the same time apart. *)
Record buffers_ok : Prop := {
  bo_range : ∀ h i b, b ∈ buffers h i → is_u32 (fst b);
  bo_frame_tag : disjoint (tag_buf B) 8 (frame_buf B) 12;
  bo_auth_expected : disjoint (expected_buf B) 8 (auth_buf B) 20;
  bo_tag_expected : tag_buf B ≠ expected_buf B;
  bo_tasks : ∀ h i h' i' x, area h i x → area h' i' x → h = h' ∧ i = i'
}.

(** ** The programs *)

Context (Hco : codec) (Hbo : buffers_ok).

Lemma frame_tag_bytes : length frame_tag = 8%nat ∧ Forall byte frame_tag.
Proof.
  unfold frame_tag, Rfc2104.hmac. destruct (co_hash Hco (Rfc2104.xor_pad 64 HMAC_KEY 0x5C ++
    sha256 (Rfc2104.xor_pad 64 HMAC_KEY 0x36 ++ mac_message test_frame))) as [Hl Hb].
  split; [rewrite length_take, Hl; done|by apply Forall_take].
Qed.

Lemma message_lengths : length (message 2) = 12%nat ∧ length (message 3) = 8%nat.
Proof. split; [apply (co_frame Hco)|apply frame_tag_bytes]. Qed.

Lemma hsm_answers res :
  hsm_serve sha256 read_frame res (frame_bytes test_frame) =
    if res =? Z.of_nat FRAME_SIZE then Done (Some frame_tag) else Done None.
Proof.
  unfold hsm_serve. case_match; [|done]. rewrite (co_back Hco), compute_hmac_ok; [done|..].
  - intros m. apply (co_hash Hco).
  - split; [vm_compute; split; congruence..|]. split; [done|]. apply (bool_decide_unpack _). reflexivity.
  - done.
Qed.

Lemma inside_buffer h i b n m : (b, n) ∈ buffers h i → m ≤ n → inside h i b m.
Proof. intros Hb Hm. exists (b, n). cbn. split_and!; [done|lia|lia]. Qed.

Lemma gains_fresh a bs β : gains a bs β [(a, bs)].
Proof. intros f ->%list_elem_of_singleton. by left. Qed.

Lemma gains_nothing a bs β : gains a bs β [].
Proof. by intros f ?%not_elem_of_nil. Qed.

(** A fact that is kept. *)
Lemma gains_keep a bs (f : fact) β :
  f ∈ β → disjoint a (Z.of_nat (length bs)) (fst f) (Z.of_nat (length (snd f))) → gains a bs β [f].
Proof. intros Hf Hd g ->%list_elem_of_singleton. by right. Qed.

Lemma gains_both a bs (f : fact) β :
  f ∈ β → disjoint a (Z.of_nat (length bs)) (fst f) (Z.of_nat (length (snd f))) → gains a bs β [(a, bs); f].
Proof. intros Hf Hd g [-> |Hg]%elem_of_cons; [by left|]. by apply (gains_keep a bs f β). Qed.

Lemma buffer_u32 h i b n : (b, n) ∈ buffers h i → is_u32 b.
Proof. apply (bo_range Hbo h i (b, n)). Qed.

Lemma telemetry_verified β (v : Z) :
  verified H0 1 β (Poke (msg_buf B) (message 0) (Sys 6 1 (msg_buf B) 8 (λ _,
    Sys 1 0 0 0 (λ _, Again v)))).
Proof.
  cbn [verified]. split; [by eapply (inside_buffer _ _ _ 8); [set_solver|]|].
  split; [apply (bool_decide_unpack _); reflexivity|].
  exists [(msg_buf B, message 0)]. split; [apply gains_fresh|]. cbn [Z.eqb Pos.eqb].
  exists 0, []. split_and!; [lia|lia|by eapply (buffer_u32 H0 1 _ 8); set_solver|done|done| |done].
  rewrite app_nil_r. set_solver.
Qed.

Lemma zeros_bytes n : Forall byte (replicate n 0).
Proof. induction n; constructor; [done|]. done. Qed.

(** A send of the message at the head of what is known; a receive. *)
Lemma send_verified h i β a0 a1 ep rest a2 k :
  0 ≤ a0 < 8 → is_u32 a1 → sends (cap_of h i a0) = Some ep → a2 = Z.of_nat (length (message ep)) →
  (a1, message ep ++ rest) ∈ β → (∀ r, verified h i β (k r)) → verified h i β (Sys 6 a0 a1 a2 k).
Proof. intros. cbn [verified Z.eqb Pos.eqb]. by exists ep, rest. Qed.

Lemma recv_verified h i β β' a0 a1 ep a2 k :
  0 ≤ a0 < 8 → is_u32 a1 → receives (cap_of h i a0) = Some ep → a2 = Z.of_nat (length (message ep)) →
  inside h i a1 a2 → gains a1 (message ep) β β' → (∀ r, verified h i β' (k r)) →
  verified h i β (Sys 7 a0 a1 a2 k).
Proof. intros. cbn [verified Z.eqb Pos.eqb]. by exists ep, β'. Qed.

Lemma poke_verified h i β β' a bs n k :
  (a, n) ∈ buffers h i → Z.of_nat (length bs) ≤ n → Forall byte bs → gains a bs β β' →
  verified h i β' k → verified h i β (Poke a bs k).
Proof. intros Ha Hn Hb Hg Hk. split_and!; [by eapply inside_buffer|done|]. by exists β'. Qed.

Lemma call_verified h i β n a0 a1 a2 k :
  n ≠ 6 → n ≠ 7 → (∀ r, verified h i β (k r)) → verified h i β (Sys n a0 a1 a2 k).
Proof. intros H6 H7 Hk. cbn [verified]. by rewrite !(proj2 (Z.eqb_neq _ _)) by done. Qed.

Lemma peek_verified h i β a n k :
  (a, reads h i) ∈ β → length (reads h i) = n →
  (h = H0 → i = 1%nat → a = expected_buf B → authenticated β) →
  verified h i β (k (reads h i)) → verified h i β (Peek a n k).
Proof. done. Qed.

Lemma verify_frame_verified β k :
  (auth_buf B, frame_bytes test_frame ++ frame_tag) ∈ β → (∀ b β, verified H0 1 β (k b)) →
  verified H0 1 β (verify_frame_program B (mkAuth test_frame frame_tag) 2 3 k).
Proof.
  intros Hf Hk. destruct (co_frame Hco) as [Hfl _]. destruct frame_tag_bytes as [Htl _].
  unfold verify_frame_program. apply (send_verified _ _ _ _ _ 2 frame_tag); [done|..].
  - eapply (buffer_u32 H0 1 _ 20). set_solver.
  - done.
  - by rewrite (proj1 message_lengths).
  - exact Hf.
  - intros send_res. case_match; [apply Hk|].
    apply (poke_verified _ _ _ [(auth_buf B, frame_bytes test_frame ++ frame_tag)] _ _ 8); [set_solver|done|apply zeros_bytes|..].
    { apply gains_keep; [done|]. cbn [fst snd]. rewrite length_app, Hfl, Htl. apply (bo_auth_expected Hbo). }
    apply (recv_verified _ _ _ [(expected_buf B, frame_tag); (auth_buf B, frame_bytes test_frame ++ frame_tag)] _ _ 3); [done|..].
    + eapply (buffer_u32 H0 1 _ 8). set_solver.
    + done.
    + by rewrite (proj2 message_lengths).
    + by eapply (inside_buffer _ _ _ 8); [set_solver|].
    + apply gains_both; [set_solver|]. cbn [fst snd]. rewrite length_app, Hfl, Htl. apply (bo_auth_expected Hbo).
    + intros recv_res. case_match; [apply Hk|]. cbn [verified reads]. split_and!; [set_solver|done| |apply Hk].
      intros _ _ _. unfold authenticated. set_solver.
Qed.

Lemma task_a_verified v : verified H0 1 [] (task_a_program frame_bytes B v).
Proof.
  destruct (co_frame Hco) as [Hfl Hfb]. destruct frame_tag_bytes as [Htl Htb].
  unfold task_a_program. cbv zeta. do 3 (apply call_verified; [done..|intros _]).
  apply (poke_verified _ _ _ [(frame_buf B, frame_bytes test_frame)] _ _ 12);
    [set_solver|by rewrite Hfl|done|apply gains_fresh|].
  apply (poke_verified _ _ _ [(frame_buf B, frame_bytes test_frame)] _ _ 8);
    [set_solver|done|apply zeros_bytes|apply gains_keep; [set_solver|]|].
  { cbn [fst snd]. rewrite Hfl. apply (bo_frame_tag Hbo). }
  intros start_cycles.
  apply (send_verified _ _ _ _ _ 2 []); [done|by eapply (buffer_u32 H0 1 _ 12); set_solver|done|by rewrite (proj1 message_lengths)|
    rewrite app_nil_r; set_solver|]. intros send_res.
  apply (recv_verified _ _ _ [(tag_buf B, frame_tag)] _ _ 3);
    [done|by eapply (buffer_u32 H0 1 _ 8); set_solver|done|by rewrite (proj2 message_lengths)|
     by eapply (inside_buffer _ _ _ 8); [set_solver|]|apply gains_fresh|].
  intros recv_res end_cycles. case_match; [|apply telemetry_verified].
  apply peek_verified; [set_solver|done|intros _ _ Heq; by destruct (bo_tag_expected Hbo)|].
  apply (poke_verified _ _ _ [(auth_buf B, frame_bytes test_frame ++ frame_tag)] _ _ 20);
    [set_solver|cbn [reads]; by rewrite length_app, Hfl, Htl|by apply Forall_app|apply gains_fresh|].
  apply verify_frame_verified; [set_solver|]. intros _ β. apply telemetry_verified.
Qed.

Lemma hsm_verified v : verified H0 4 [] (hsm_program sha256 read_frame B v).
Proof.
  destruct (co_frame Hco) as [Hfl Hfb]. destruct frame_tag_bytes as [Htl Htb].
  unfold hsm_program. apply call_verified; [done..|intros _].
  apply (recv_verified _ _ _ [(req_buf B, frame_bytes test_frame)] _ _ 2);
    [done|by eapply (buffer_u32 H0 4 _ 12); set_solver|done|by rewrite (proj1 message_lengths)|
     by eapply (inside_buffer _ _ _ 12); [set_solver|]|apply gains_fresh|].
  intros res. apply peek_verified; [set_solver|done|done|].
  cbn [reads]. rewrite hsm_answers. destruct (as_isize res =? Z.of_nat FRAME_SIZE); [|done].
  apply (poke_verified _ _ _ [(reply_buf B, frame_tag)] _ _ 8);
    [set_solver|by rewrite Htl|done|apply gains_fresh|].
  apply (send_verified _ _ _ _ _ 3 []); [done|by eapply (buffer_u32 H0 4 _ 8); set_solver|done|by rewrite (proj2 message_lengths)|
    rewrite app_nil_r; set_solver|done].
Qed.

Lemma programs_verified h i v : verified h i [] (program sha256 frame_bytes read_frame B h i v).
Proof.
  assert (Hb : verified H1 2 [] (task_b_program B v)).
  { unfold task_b_program. cbv zeta.
    apply (recv_verified _ _ _ [] _ _ 0); [done|by eapply (buffer_u32 H1 2 _ 8); set_solver|done|done|
      by eapply (inside_buffer _ _ _ 8); [set_solver|]|apply gains_nothing|].
    intros _. by case_match. }
  assert (Hc : verified H1 3 [] (task_c_program v)).
  { unfold task_c_program. case_match; [|done]. intros tc. by repeat case_match. }
  pose proof (task_a_verified v) as Ha. pose proof (hsm_verified v) as Hh.
  unfold program. destruct h; do 5 (destruct i as [|i]; [done|]); done.
Qed.
End messages.
