(* ===== verification/Discipline.v ===== *)
(** * Discipline: what lock discipline gives on the abstract kernel

    Each task is in a [phase] of its use of mutex 0: outside, inside the lock
    call, or inside its critical section.  [world_ok] ties the phases to the
    abstract kernel state; this file shows that every move keeps the tie, with the
    phase of the task that makes a lock or unlock call updated. *)
From S2P Require Import Prelude Memory Tcb Bitmap Can Pmp Spinlock Telemetry Kernel.
From S2P Require Import Trap KernelInv TrapInv Security Boot Tasks AbsSpec.

Inductive phase := Free | Locking | Held.

#[export] Instance phase_eq_dec : EqDecision phase.
Proof. solve_decision. Defined.

(** A live task inside its critical section owns the mutex; one inside the lock
    call owns it or waits for it.  A terminated task may have lost it, but then it
    is no longer among the waiters unless it was still waiting. *)
Definition tied (a : Abs) (h : hart) (i : nat) (p : phase) : Prop :=
  match p with
  | Free => True
  | Locking =>
      (wait a 0 i = true ∧ (st a h i = Some (BlockedOnMutex 0) ∨ st a h i = Some Terminated)) ∨
      (wait a 0 i = false ∧ (own a 0 = Some (Some i) ∨ st a h i = Some Terminated))
  | Held => wait a 0 i = false ∧ (own a 0 = Some (Some i) ∨ st a h i = Some Terminated)
  end.

Record world_ok (a : Abs) (ph : hart → nat → phase) : Prop := {
  wo_tied : ∀ h i, tied a h i (ph h i);
  wo_locker : ∀ h i, ph h i ≠ Free → locker h i = true;
  wo_idle : ∀ h, st a h 31 = Some Ready ∨ st a h 31 = Some Running;
  wo_run : ∀ h i, st a h i = Some Running → i = cur a h;
  wo_mutex : is_Some (own a 0);
  wo_only : ∀ m i, m ≠ 0%nat → wait a m i = false;
  wo_free : own a 0 = Some None → ∀ h i, locker h i = true → wait a 0 i = false;
  wo_home : ∀ h i, locker h i = true → st a (other_hart h) i = None;
  wo_wait : ∀ i, wait a 0 i = true → locker (home i) i = true ∧ (home i = H0 → ph H0 i = Locking)
}.

(** The task a hart runs is neither blocked nor terminated. *)
Definition at_rest (a : Abs) (h : hart) : Prop :=
  st a h (cur a h) = Some Ready ∨ st a h (cur a h) = Some Running.

Definition set_phase (h : hart) (i : nat) (p : phase) (ph : hart → nat → phase) : hart → nat → phase :=
  λ h' j, if decide (h = h' ∧ i = j) then p else ph h' j.

(** ** Basic facts *)

Lemma locker_home h i : locker h i = true → home i = h ∧ (i = 1 ∨ i = 3)%nat.
Proof. destruct h; repeat (destruct i as [|i]; try done); intros _; split; auto. Qed.

Lemma locker_unique h h' i : locker h i = true → locker h' i = true → h = h'.
Proof. intros [<- _]%locker_home [<- _]%locker_home. done. Qed.

Lemma first_waiter w i : first w = Some i → w i = true ∧ (i < 32)%nat.
Proof.
  unfold first. intros H. apply find_some in H as [Hin Hw]. split; [done|]. apply in_seq in Hin. lia.
Qed.

Lemma first_none w i : first w = None → (i < 32)%nat → w i = false.
Proof. unfold first. intros H Hi. apply (find_none _ _ H), in_seq. lia. Qed.

Lemma world_ok_equiv a b ph : a ≡ b → world_ok a ph → world_ok b ph.
Proof.
  intros (H1 & H2 & H3 & H4) [Ht Hl Hi Hr Hm Ho Hf Hh Hw]. split.
  - intros h i. specialize (Ht h i). unfold tied in *. by rewrite <- H1, <- H3, <- H4.
  - done.
  - intros h. rewrite <- H1. apply Hi.
  - intros h i. rewrite <- H1, <- H2. apply Hr.
  - by rewrite <- H3.
  - intros m i. rewrite <- H4. apply Ho.
  - rewrite <- H3. intros Hf' h i Hli. rewrite <- H4. by eapply Hf.
  - intros h i Hli. rewrite <- H1. by apply Hh.
  - intros i. rewrite <- H4. apply Hw.
Qed.

#[export] Instance world_ok_proper : Proper ((≡) ==> eq ==> iff) world_ok.
Proof. intros a b Hab ph ? <-. split; by apply world_ok_equiv. Qed.

#[export] Instance at_rest_proper : Proper ((≡) ==> eq ==> iff) at_rest.
Proof. intros a b (H1 & H2 & _) h ? <-. unfold at_rest. by rewrite <- H1, <- H2. Qed.

(** A task that leaves its phase has no obligations. *)
Lemma world_ok_free a ph h i :
  world_ok a ph → (h = H0 → ph h i ≠ Locking) → world_ok a (set_phase h i Free ph).
Proof.
  intros [Ht Hl Hi Hr Hm Ho Hf Hh Hw] Hn. split; try done; unfold set_phase.
  - intros h' j. case_decide; auto. done.
  - intros h' j. case_decide; auto.
  - intros j Hj. destruct (Hw j Hj) as [H1 H2]. split; [done|]. intros H0j. specialize (H2 H0j).
    case_decide as Hd; [|done]. destruct Hd as [-> <-]. by destruct (Hn eq_refl).
Qed.

(** ** Moves that leave mutex 0 alone *)

(** A change of task states that keeps blocked and terminated tasks, as far as the
    phases speak of them, and introduces no Running task but the current one. *)
Lemma world_ok_states a b ph :
  world_ok a ph → own b = own a → wait b = wait a →
  (∀ h i, st a h i = None → st b h i = None) →
  (∀ h i, ph h i ≠ Free → st a h i = Some (BlockedOnMutex 0) → st b h i = st a h i) →
  (∀ h i, ph h i ≠ Free → st a h i = Some Terminated → st b h i = st a h i) →
  (∀ h, st b h 31 = Some Ready ∨ st b h 31 = Some Running) →
  (∀ h i, st b h i = Some Running → i = cur b h) →
  world_ok b ph.
Proof.
  intros [Ht Hl Hi Hr Hm Hon Hf Hh Hwt] Ho Hw Hn Hb Hd Hidle Hrun. split; try done.
  - intros h i. specialize (Ht h i). specialize (Hb h i). specialize (Hd h i).
    unfold tied in *. rewrite Ho, Hw. destruct (ph h i) eqn:Hph; [done|..].
    + destruct Ht as [[H1 [H2|H2]]|[H1 [H2|H2]]].
      * left. rewrite Hb by done. auto.
      * left. rewrite Hd by done. auto.
      * right. auto.
      * right. rewrite Hd by done. auto.
    + destruct Ht as [H1 [H2|H2]]; [auto|]. rewrite Hd by done. auto.
  - by rewrite Ho.
  - by rewrite Hw.
  - rewrite Ho, Hw. done.
  - intros h i Hli. by apply Hn, Hh.
  - rewrite Hw. done.
Qed.

Section moves.
Context (a : Abs) (ph : hart → nat → phase) (Hok : world_ok a ph) (h : hart).

Lemma tick_ok tick : world_ok (act h (Tick tick) a) ph.
Proof.
  assert (Hs : ∀ h' i s, st a h' i = Some s → wake_due tick s = s → st (act h (Tick tick) a) h' i = Some s).
  { intros h' i s Hst Hw. cbn. rewrite Hst. cbn. rewrite Hw. by case_decide. }
  apply (world_ok_states a); try done.
  - intros h' i Hn. cbn. rewrite Hn. by case_decide.
  - intros h' i _ Hst. rewrite Hst. by apply Hs.
  - intros h' i _ Hst. rewrite Hst. by apply Hs.
  - intros h'. destruct (wo_idle _ _ Hok h') as [Hi|Hi]; [left|right]; by apply Hs.
  - intros h' i Hr. apply (wo_run _ _ Hok). cbn in Hr. case_decide; [|done].
    destruct (st a h' i) as [s|]; [|done]. cbn in Hr. unfold wake_due in Hr. destruct s; try done.
    by case_match.
Qed.

Lemma switch_ok j : can h (Switch j) a = true → world_ok (act h (Switch j) a) ph.
Proof.
  cbn [can]. intros Hj%bool_decide_eq_true.
  assert (Hs : ∀ h' i s, st a h' i = Some s → s ≠ Ready → s ≠ Running →
    st (act h (Switch j) a) h' i = Some s).
  { intros h' i s Hst H1 H2. cbn. rewrite Hst. case_decide; [|done]. subst h'.
    case_decide; [congruence|]. case_decide; [|done]. cbn. unfold demote_st. by case_decide. }
  apply (world_ok_states a); try done.
  - intros h' i Hn. cbn. rewrite Hn. by repeat case_decide.
  - intros h' i _ Hst. rewrite Hst. by apply Hs.
  - intros h' i _ Hst. rewrite Hst. by apply Hs.
  - intros h'. cbn. destruct (wo_idle _ _ Hok h') as [Hi|Hi]; rewrite Hi; cbn; unfold demote_st;
      repeat case_decide; auto.
  - intros h' i. cbn. case_decide as Hh; [subst h'|apply (wo_run _ _ Hok)].
    case_decide as Hi; [done|]. case_decide as Hc.
    + destruct (st a h i) as [s|]; [|done]. cbn. unfold demote_st. by case_decide; intros [= ?].
    + intros Hr. apply (wo_run _ _ Hok) in Hr. congruence.
Qed.

(** A task state change in which the task is not inside the lock call or its
    critical section. *)
Lemma set_st_ok h' i s :
  ph h' i = Free → s ≠ Running → (i = 31%nat → s = Ready) → world_ok (set_st h' i s a) ph.
Proof.
  intros Hp Hs H31. apply (world_ok_states a); try done.
  - intros h'' j Hn. cbn. rewrite Hn. by case_decide.
  - intros h'' j Hph _. cbn. rewrite decide_False; [done|]. by intros [-> ->].
  - intros h'' j Hph _. cbn. rewrite decide_False; [done|]. by intros [-> ->].
  - intros h''. cbn. case_decide as Hd; [|apply (wo_idle _ _ Hok)]. destruct Hd as [-> ->].
    rewrite (H31 eq_refl). left. destruct (wo_idle _ _ Hok h'') as [-> | ->]; done.
  - intros h'' j. cbn. case_decide as Hd; [|apply (wo_run _ _ Hok)].
    destruct (st a h'' j); [|done]. by intros [= ?].
Qed.

(** A task blocked on IPC is not inside the lock call. *)
Lemma deliver_ok h' i : can h (Deliver h' i) a = true → world_ok (act h (Deliver h' i) a) ph.
Proof.
  cbn [can]. destruct (st a h' i) as [s|] eqn:Hst; [|done]. intros Hs.
  apply (world_ok_states a); try done.
  - intros h'' j Hn. cbn. rewrite Hn. by case_decide.
  - intros h'' j _ Hb. cbn. rewrite decide_False; [done|]. intros [-> ->]. rewrite Hst in Hb. by simplify_eq.
  - intros h'' j _ Hb. cbn. rewrite decide_False; [done|]. intros [-> ->]. rewrite Hst in Hb. by simplify_eq.
  - intros h''. cbn. case_decide as Hd; [|apply (wo_idle _ _ Hok)]. destruct Hd as [-> ->].
    left. by destruct (wo_idle _ _ Hok h'') as [-> | ->].
  - intros h'' j. cbn. case_decide as Hd; [|apply (wo_run _ _ Hok)]. by destruct (st a h'' j).
Qed.

(** Termination releases a task from its phase's obligations. *)
Lemma kill_ok h' i : i ≠ 31%nat → world_ok (act h (Kill h' i) a) ph.
Proof.
  intros H31. pose proof Hok as [Ht Hl Hi Hr Hm Ho Hf Hh Hw]. split; try done.
  - intros h'' j. specialize (Ht h'' j). cbn [act]. unfold tied in *. cbn [st own wait set_st].
    destruct (decide (h' = h'' ∧ i = j)) as [[-> ->]|Hne]; [|done].
    assert (Hb : ∀ s, st a h'' j = Some s → become Terminated (st a h'' j) = Some Terminated)
      by (by intros s ->).
    destruct (ph h'' j) eqn:Hp; [done|..].
    + destruct Ht as [[H1 [H2|H2]]|[H1 [H2|H2]]]; [left|left|right|right]; split; try done; eauto.
    + destruct Ht as [H1 [H2|H2]]; split; try done; eauto.
  - intros h''. cbn. rewrite decide_False; [apply Hi|]. by intros [_ ->].
  - intros h'' j. cbn. case_decide; [|apply Hr]. by destruct (st a h'' j).
  - intros h'' j Hli. cbn. specialize (Hh _ _ Hli). rewrite Hh. by case_decide.
Qed.
End moves.

(** ** Moves on mutex 0 *)

#[local] Arguments first : simpl never.
#[local] Arguments inherits : simpl never.

(** The caller takes the free mutex: it is inside the lock call, as its owner. *)
Lemma acquire_ok a ph h :
  world_ok a ph → locker h (cur a h) = true → own a 0 = Some None →
  world_ok (act h (Acquire 0) a) (set_phase h (cur a h) Locking ph).
Proof.
  intros [Ht Hl Hi Hr Hm Ho Hf Hh Hw] Hc Hfree. split; try done; cbn.
  - intros h' i. specialize (Ht h' i). unfold set_phase. case_decide as Hd.
    + destruct Hd as [<- <-]. right. split; [by eapply Hf|]. left. cbn. done.
    + unfold tied in *. cbn. destruct (ph h' i); [done|..]; rewrite Hfree in Ht; naive_solver.
  - intros h' i. unfold set_phase. case_decide as Hd; [by destruct Hd as [<- <-]|apply Hl].
  - intros j Hj. destruct (Hw j Hj) as [H1 H2]. split; [done|]. intros. unfold set_phase. case_decide; auto.
Qed.

(** The caller queues for the mutex. *)
Lemma queue_ok a ph h :
  world_ok a ph → locker h (cur a h) = true → is_Some (st a h (cur a h)) → is_held a 0 = true →
  world_ok (act h (Wait 0) a) (set_phase h (cur a h) Locking ph).
Proof.
  intros [Ht Hl Hi Hr Hm Ho Hf Hh Hw] Hc [s Hs] Hheld.
  assert (Hc31 : cur a h ≠ 31%nat) by (destruct (locker_home _ _ Hc) as [_ [-> | ->]]; done).
  split; cbn; try done.
  - intros h' i. specialize (Ht h' i). unfold set_phase. case_decide as Hd.
    + destruct Hd as [<- <-]. left. cbn. rewrite bool_decide_true, orb_true_r by done.
      rewrite !decide_True, Hs by done. auto.
    + unfold tied in *. cbn. rewrite (decide_False (P := h = h' ∧ cur a h = i)) by done.
      destruct (ph h' i) eqn:Hp; [done|..]; assert (Hli : locker h' i = true) by (apply Hl; congruence).
      all: rewrite (bool_decide_false (i = cur a h)), orb_false_r; [done|].
      all: intros ->; apply Hd; split; [by eapply locker_unique|done].
  - intros h' i. unfold set_phase. case_decide as Hd; [by destruct Hd as [<- <-]|apply Hl].
  - intros h'. rewrite decide_False; [apply Hi|]. by intros [_ ?].
  - intros h' i. case_decide; [|apply Hr]. by destruct (st a h' i).
  - intros m i Hne. rewrite decide_False by done. by apply Ho.
  - unfold is_held in Hheld. destruct (own a 0) as [[]|]; naive_solver.
  - intros h' i Hli. rewrite (Hh _ _ Hli). by case_decide.
  - intros j [Hj|Hj%bool_decide_eq_true]%orb_true_iff.
    + destruct (Hw j Hj) as [H1 H2]. split; [done|]. intros. unfold set_phase. case_decide; auto.
    + subst j. destruct (locker_home _ _ Hc) as [Hho _]. rewrite Hho. split; [done|]. intros ->.
      unfold set_phase. by rewrite decide_True.
Qed.

(** The mutex goes from [c], which no longer claims it, to its first waiter. *)
Lemma handover_ok a b ph ph' c :
  world_ok a ph → own a 0 = Some (Some c) →
  (∀ h i, ph' h i = Free ∧ ph h i ≠ Locking ∨ ph' h i = ph h i ∧ (ph h i ≠ Free → i = c → st a h i = Some Terminated)) →
  (∀ h, cur b h = cur a h) → own b 0 = Some (first (wait a 0)) →
  (∀ i, wait b 0 i = wait a 0 i && negb (bool_decide (first (wait a 0) = Some i))) →
  (∀ m i, m ≠ 0%nat → wait b m i = false) →
  (∀ h i, st b h i = if decide (home i = h ∧ first (wait a 0) = Some i)
                     then become Ready (st a h i) else st a h i) →
  world_ok b ph'.
Proof.
  intros [Ht Hl Hi Hr Hm Ho Hf Hh Hw] Hc Hph Hcur Hown Hwait Hoth Hst. split.
  - intros h i. destruct (Hph h i) as [[-> _]|[-> Hci]]; [done|]. specialize (Ht h i).
    unfold tied in *. rewrite Hst, Hown, Hwait. rewrite Hc in Ht.
    destruct (ph h i) eqn:Hp; [done|..].
    + destruct (locker_home h i) as [Hhome _]; [apply Hl; congruence|].
      destruct Ht as [[-> H2]|[-> H2]].
      * destruct (decide (first (wait a 0) = Some i)) as [Hfi|Hfi].
        -- right. rewrite bool_decide_true by done. split; [done|]. left. by rewrite Hfi.
        -- left. rewrite bool_decide_false, decide_False by naive_solver. done.
      * right. split; [done|]. destruct (decide (first (wait a 0) = Some i)) as [Hfi|Hfi]; [left; by rewrite Hfi|].
        rewrite decide_False by naive_solver. right. destruct H2 as [[= <-]|H2]; [by apply Hci|done].
    + destruct Ht as [Hwi H2]. rewrite Hwi. split; [done|].
      assert (Hfi : first (wait a 0) ≠ Some i).
      { intros Hfi. apply first_waiter in Hfi as [Hfi _]. congruence. }
      rewrite decide_False by naive_solver. right. destruct H2 as [[= <-]|H2]; [by apply Hci|done].
  - intros h i Hne. apply Hl. destruct (Hph h i) as [[? _]|[<- _]]; congruence.
  - intros h. rewrite Hst. case_decide; [|apply Hi]. left. destruct (Hi h) as [-> | ->]; done.
  - intros h i. rewrite Hst, Hcur. case_decide; [|apply Hr]. by destruct (st a h i).
  - by rewrite Hown.
  - done.
  - rewrite Hown. intros [= Hn] h i Hli. rewrite Hwait.
    destruct (locker_home _ _ Hli) as [_ H13]. rewrite (first_none _ i Hn) by lia. done.
  - intros h i Hli. rewrite Hst, (Hh _ _ Hli). by case_decide.
  - intros i Hi'. rewrite Hwait in Hi'. apply andb_true_iff in Hi' as [Hi' _].
    destruct (Hw i Hi') as [H1 H2]. split; [done|]. intros H0i. specialize (H2 H0i).
    destruct (Hph H0 i) as [[_ ?]|[-> _]]; [congruence|done].
Qed.

Lemma pass_ok a ph h :
  world_ok a ph → own a 0 = Some (Some (cur a h)) → ph h (cur a h) = Held →
  world_ok (act h (Pass 0) a) (set_phase h (cur a h) Free ph).
Proof.
  intros Hok Hown Hp. pose proof (wo_locker _ _ Hok) as Hl.
  apply (handover_ok a _ ph _ (cur a h)); try done.
  - intros h' i. unfold set_phase. case_decide as Hd; [left; destruct Hd as [<- <-]; split; [done|congruence]|].
    right. split; [done|]. intros Hf ->. destruct Hd. split; [|done]. apply (locker_unique h h' (cur a h)); apply Hl; congruence.
  - intros m i Hne. cbn. rewrite decide_False by done. by apply (wo_only _ _ Hok).
  - intros h' i. cbn. destruct (first (wait a 0)) as [w|]; cbn.
    + destruct (decide (home w = h' ∧ w = i)) as [[? ->]|Hd]; [by rewrite decide_True|].
      rewrite decide_False; [done|]. intros [? [= ->]]. by apply Hd.
    + rewrite decide_False; [done|]. by intros [_ ?].
Qed.

(** Recovery after the death of [o]. *)
Lemma recover_ok a ph h o :
  world_ok a ph → (∀ h', ph h' o = Free ∨ st a h' o = Some Terminated) →
  world_ok (act h (Recover o) a) ph.
Proof.
  intros Hok Ho. pose proof (wo_only _ _ Hok) as Honly.
  assert (Hnone : ∀ m, m ≠ 0%nat → first (wait a m) = None).
  { intros m Hm. destruct (first (wait a m)) as [i|] eqn:Hf; [|done].
    apply first_waiter in Hf as [Hf _]. by rewrite Honly in Hf. }
  assert (Hinh : ∀ i, inherits a o i = true ↔ own a 0 = Some (Some o) ∧ first (wait a 0) = Some i).
  { intros i. unfold inherits. rewrite existsb_exists. split.
    - intros (m & _ & [H1 H2]%andb_true_iff). apply bool_decide_eq_true in H1, H2.
      destruct (decide (m = 0%nat)) as [-> |Hm]; [done|]. by rewrite Hnone in H2.
    - intros [H1 H2]. exists 0%nat. split; [apply in_seq; lia|]. by rewrite !bool_decide_true. }
  destruct (decide (own a 0 = Some (Some o))) as [Hown|Hown].
  - apply (handover_ok a _ ph _ o); try done; cbn.
    + intros h' i. right. split; [done|]. intros Hf ->. by destruct (Ho h').
    + by rewrite decide_True.
    + intros i. by rewrite decide_True.
    + intros m i Hm. rewrite Honly by done. by case_decide.
    + intros h' i. apply decide_ext. rewrite Hinh. tauto.
  - assert (Hfalse : ∀ i, inherits a o i = false).
    { intros i. apply not_true_iff_false. rewrite Hinh. by intros [? _]. }
    assert (Heq : ∀ h' i, st (act h (Recover o) a) h' i = st a h' i).
    { intros h' i. cbn. rewrite Hfalse, decide_False by naive_solver. done. }
    destruct Hok as [Ht Hl Hi Hr Hm Hon Hf Hh Hw]. split.
    + intros h' i. specialize (Ht h' i). unfold tied in *. rewrite Heq. cbn.
      by rewrite !(decide_False (P := own a 0 = Some (Some o))) by done.
    + done.
    + intros h'. rewrite Heq. apply Hi.
    + intros h' i. rewrite Heq. apply Hr.
    + cbn. by rewrite decide_False.
    + intros m i Hne. cbn. rewrite Hon by done. by case_decide.
    + cbn. rewrite decide_False by done. intros Hn h' i Hli. rewrite decide_False by done. by eapply Hf.
    + intros h' i. rewrite Heq. apply Hh.
    + intros i. cbn. rewrite decide_False by done. apply Hw.
Qed.

(** ** What each hart runs *)

(** Only the hart that moves blocks its own task, and only a kill ends one. *)
Definition disturbs (h : hart) (x : move) (a : Abs) (h' : hart) : Prop :=
  match x with
  | Switch _ => False
  | Block _ | Wait _ => h' = h
  | Kill k i => h' = k ∧ i = cur a k
  | _ => False
  end.

Lemma act_rest a h x h' :
  at_rest a h' → can h x a = true → ¬ disturbs h x a h' → at_rest (act h x a) h'.
Proof.
  unfold at_rest. intros Hr Hc Hd.
  destruct x as [tick|j|b|s|m|m|m|k i|k i|o]; cbn in *; try done.
  - destruct Hr as [-> | ->]; cbn; case_decide; auto.
  - apply bool_decide_eq_true in Hc. destruct (decide (h = h')) as [<-|].
    + rewrite decide_True, Hc by done. auto.
    + done.
  - rewrite decide_False; [done|]. naive_solver.
  - rewrite decide_False; [done|]. naive_solver.
  - destruct (first (wait a m)) as [w|]; [|done]. cbn. case_decide; [|done].
    destruct Hr as [-> | ->]; auto.
  - case_decide; [|done]. destruct Hr as [-> | ->]; auto.
  - rewrite decide_False; [done|]. intros [-> ->]. by apply Hd.
  - case_decide; [|done]. destruct Hr as [-> | ->]; auto.
Qed.

Lemma switch_rest a h j : can h (Switch j) a = true → at_rest (act h (Switch j) a) h.
Proof.
  cbn [can]. intros Hj%bool_decide_eq_true. right. cbn.
  destruct (decide (h = h)); [|done]. rewrite decide_True, Hj by done. done.
Qed.

Definition rests (a : Abs) : Prop := ∀ h, at_rest a h.

#[export] Instance rests_proper : Proper ((≡) ==> iff) rests.
Proof. intros a b Hab. unfold rests. split; intros Hr h; [rewrite <- Hab|rewrite Hab]; apply Hr. Qed.

(** ** Traps *)

(** A forced reschedule always finds a task: the idle task of the hart, if no
    other. *)
Lemma resched_ok a a' ph h b l :
  world_ok a ph → resched b l → path h l a a' → (∀ h', h' ≠ h → at_rest a h') →
  at_rest a h ∨ b = true ∧ cur a h ≠ 31%nat → world_ok a' ph ∧ rests a'.
Proof.
  intros Hok Hres Hp Hoth Hh.
  destruct Hres as [|j]; inversion_clear Hp as [|? ? ? ? Hc Hp']; inversion_clear Hp' as [? ? He|]; rewrite <- He.
  - split; [done|]. intros h'. destruct (decide (h' = h)) as [-> |]; [|by apply Hoth].
    destruct Hh as [Hh|[-> Hne]]; [done|]. exfalso. cbn [can] in Hc. rewrite forallb_forall in Hc.
    specialize (Hc 31%nat ltac:(apply in_seq; lia)). apply negb_true_iff, bool_decide_eq_false in Hc.
    destruct (wo_idle _ _ Hok h) as [Hi|Hi]; [done|]. by apply (wo_run _ _ Hok) in Hi.
  - split; [by apply switch_ok|]. intros h'. destruct (decide (h' = h)) as [-> |]; [by apply switch_rest|].
    apply act_rest; [by apply Hoth|done|]. by intros [].
Qed.

(** A task that dies, with the recovery of its mutexes. *)
Lemma death_ok a ph h h' i :
  world_ok a ph → i ≠ 31%nat → is_Some (st a h' i) →
  world_ok (act h (Recover i) (act h (Kill h' i) a)) ph.
Proof.
  intros Hok Hi [s Hs]. apply recover_ok; [by apply kill_ok|]. intros h''.
  destruct (decide (ph h'' i = Free)) as [Hf|Hf]; [by left|right].
  pose proof (wo_home _ _ Hok _ _ (wo_locker _ _ Hok _ _ Hf)) as Hn.
  assert (h' = h'') as -> by (destruct h', h''; cbn in Hn; congruence).
  cbn. rewrite decide_True by done. by rewrite Hs.
Qed.

(** The events a task may cause in its phase, and the phases afterwards. *)
Inductive lawful (h : hart) (a : Abs) (ph : hart → nat → phase) : event → (hart → nat → phase) → Prop :=
  | law_timer tick : lawful h a ph (ETimer tick) ph
  | law_reschedule : lawful h a ph EReschedule ph
  | law_none : lawful h a ph ENone ph
  | law_sleep w : ph h (cur a h) = Free → cur a h ≠ 31%nat → lawful h a ph (ESleep w) ph
  | law_send c x n : ph h (cur a h) = Free → cur a h ≠ 31%nat → lawful h a ph (ESend c x n) ph
  | law_recv c x n : ph h (cur a h) = Free → cur a h ≠ 31%nat → lawful h a ph (ERecv c x n) ph
  | law_fault : cur a h ≠ 31%nat → lawful h a ph EFault ph
  | law_lock : ph h (cur a h) = Free → locker h (cur a h) = true →
      lawful h a ph (ELock (CapMutex 0 true true)) (set_phase h (cur a h) Locking ph)
  | law_unlock : ph h (cur a h) = Held →
      lawful h a ph (EUnlock (CapMutex 0 true true)) (set_phase h (cur a h) Free ph).

Lemma act_others a h x h' : rests a → can h x a = true → h' ≠ h →
  (∀ k i, x = Kill k i → k = h) → at_rest (act h x a) h'.
Proof.
  intros Hr Hc Hne Hk. apply act_rest; [apply Hr|done|]. intros Hd. destruct x; cbn in Hd; try done.
  destruct Hd as [-> _]. by apply Hne, (Hk _ i).
Qed.

(** Blocking the caller. *)
Lemma block_ok a a' ph h s l :
  world_ok a ph → rests a → ph h (cur a h) = Free → cur a h ≠ 31%nat → blocking s = true →
  resched true l → path h (Block s :: l) a a' → world_ok a' ph ∧ rests a'.
Proof.
  intros Hok Hr Hf H31 Hb Hres Hp. inversion_clear Hp as [|? ? ? ? Hc Hp'].
  eapply resched_ok; [|done|done| |by right].
  - apply set_st_ok; [done|done|by destruct s|done].
  - intros h' Hne. by apply act_others.
Qed.

Lemma rendezvous_ok a a' ph h p s l :
  world_ok a ph → rests a → ph h (cur a h) = Free → cur a h ≠ 31%nat → blocking s = true →
  rendezvous p s a l → path h l a a' → world_ok a' ph ∧ rests a'.
Proof.
  intros Hok Hr Hf H31 Hb Hrv Hp. destruct Hrv as [h' i Hw|l Hw Hres]; [|by eapply block_ok].
  inversion_clear Hp as [|? ? ? ? Hc Hp']; inversion_clear Hp' as [? ? He|]; rewrite <- He.
  split; [by apply deliver_ok|]. intros h''. apply act_rest; [apply Hr|done|]. by intros [].
Qed.

(** A live task inside its critical section owns the mutex. *)
Lemma held_owns a ph h :
  world_ok a ph → rests a → ph h (cur a h) = Held → own a 0 = Some (Some (cur a h)).
Proof.
  intros Hok Hr Hp. pose proof (wo_tied _ _ Hok h (cur a h)) as Ht. rewrite Hp in Ht.
  destruct Ht as [_ [?|Ht]]; [done|]. destruct (Hr h) as [Hr'|Hr']; congruence.
Qed.

(** Back from the lock call, a task is inside its critical section. *)
Lemma lock_returns a ph h :
  world_ok a ph → rests a → ph h (cur a h) = Locking → world_ok a (set_phase h (cur a h) Held ph).
Proof.
  intros Hok Hr Hp. pose proof (wo_locker _ _ Hok h (cur a h)) as Hlk.
  destruct Hok as [Ht Hl Hi Hrn Hm Ho Hf Hh Hw]. split; try done.
  - intros h' i. unfold set_phase. case_decide as Hd; [|apply Ht]. destruct Hd as [<- <-].
    specialize (Ht h (cur a h)). rewrite Hp in Ht.
    destruct Ht as [[_ [Ht|Ht]]|Ht]; [destruct (Hr h); congruence..|done].
  - intros h' i. unfold set_phase. case_decide as Hd; [|apply Hl]. destruct Hd as [<- <-].
    intros _. apply Hlk. congruence.
  - intros i Hwi. destruct (Hw i Hwi) as [H1 H2]. split; [done|]. intros H0i. specialize (H2 H0i).
    unfold set_phase. case_decide as Hd; [|done]. destruct Hd as [-> <-].
    specialize (Ht H0 (cur a H0)). rewrite Hp in Ht. unfold tied in Ht. rewrite Hwi in Ht.
    destruct Ht as [[_ [Ht|Ht]]|[? _]]; [destruct (Hr H0); congruence..|done].
Qed.

Lemma lock_ok a a' ph h l :
  world_ok a ph → rests a → locker h (cur a h) = true →
  script h a (ELock (CapMutex 0 true true)) l → path h l a a' →
  world_ok a' (set_phase h (cur a h) Locking ph) ∧ rests a'.
Proof.
  intros Hok Hr Hl Hs Hp. inversion Hs as [| | |c Hno|c m Hm Hfree|c m o l' Hm Hheld Hres| | | | | | | | | |]; subst.
  - destruct (wo_mutex _ _ Hok) as [o Ho]. change (own a 0 = None) in Hno. congruence.
  - cbn in Hm. simplify_eq. inversion_clear Hp as [|? ? ? ? Hc Hp']; inversion_clear Hp' as [? ? He|]. rewrite <- He.
    split; [by apply acquire_ok|]. intros h'. apply act_rest; [apply Hr|done|]. by intros [].
  - cbn in Hm. simplify_eq. inversion_clear Hp as [|? ? ? ? Hc Hp'].
    eapply resched_ok; [|done|done| |].
    + apply queue_ok; [done|done| |done]. destruct (Hr h) as [-> | ->]; eauto.
    + intros h' Hne. by apply act_others.
    + right. split; [done|]. cbn. by destruct (locker_home _ _ Hl) as [_ [-> | ->]].
Qed.

Lemma unlock_ok a a' ph h l :
  world_ok a ph → rests a → ph h (cur a h) = Held →
  script h a (EUnlock (CapMutex 0 true true)) l → path h l a a' →
  world_ok a' (set_phase h (cur a h) Free ph) ∧ rests a'.
Proof.
  intros Hok Hr Hph Hs Hp. inversion Hs as [| | | | | |c Hno|c m l' Hm Hown Hres| | | | | | | |]; subst.
  - destruct (wo_mutex _ _ Hok) as [o Ho]. change (own a 0 = None) in Hno. congruence.
  - cbn in Hm. simplify_eq. inversion_clear Hp as [|? ? ? ? Hc Hp'].
    assert (Hrest : rests (act h (Pass 0) a)).
    { intros h'. apply act_rest; [apply Hr|done|]. by intros []. }
    eapply resched_ok; [|done|done| |left; apply Hrest].
    + by apply pass_ok.
    + intros h' _. apply Hrest.
Qed.

Lemma script_ok h a a' ph ph' ev l :
  world_ok a ph → rests a → lawful h a ph ev ph' → script h a ev l → path h l a a' →
  world_ok a' ph' ∧ rests a'.
Proof.
  intros Hok Hr Hlaw Hs Hp. destruct Hlaw as [tick| | |w Hf Hn|c x n Hf Hn|c x n Hf Hn|Hn|Hf Hl|Hh].
  - inversion Hs as [? l' Hres| | | | | | | | | | | | | | |]; subst. inversion_clear Hp as [|? ? ? ? Hc Hp'].
    assert (Hrest : rests (act h (Tick tick) a)).
    { intros h'. apply act_rest; [apply Hr|done|]. by intros []. }
    eapply resched_ok; [|done|done| |left; apply Hrest]; [by apply tick_ok|intros; apply Hrest].
  - inversion Hs; subst. eapply resched_ok; [done..| |]; auto.
  - inversion Hs; subst. inversion_clear Hp as [? ? He|]. by rewrite <- He.
  - inversion Hs; subst. by apply (block_ok a a' ph h (Blocked w) l0).
  - inversion Hs as [| | | | | | | |? ? ? Hd|? ? ? ep ? Hd Hrv| | | | | |]; subst.
    + inversion_clear Hp as [? ? He|]. by rewrite <- He.
    + refine (rendezvous_ok a _ _ _ _ _ _ Hok Hr Hf Hn _ Hrv Hp). done.
  - inversion Hs as [| | | | | | | | | |? ? ? Hd|? ? ? ep ? Hd Hrv| | | |]; subst.
    + inversion_clear Hp as [? ? He|]. by rewrite <- He.
    + refine (rendezvous_ok a _ _ _ _ _ _ Hok Hr Hf Hn _ Hrv Hp). done.
  - inversion Hs as [| | | | | | | | | | | | | |? Hres|]; subst.
    inversion_clear Hp as [|? ? ? ? Hc Hp']. inversion_clear Hp' as [|? ? ? ? Hc' Hp''].
    eapply resched_ok; [|done|done| |right; done].
    + apply death_ok; [done|done|]. destruct (Hr h) as [-> | ->]; eauto.
    + intros h' Hne. apply act_rest; [by apply act_others; [..|intros ? ? [= <- _]]|done|]. by intros [].
  - by eapply lock_ok.
  - by eapply unlock_ok.
Qed.
