(* ===== verification/IpcMoves.v ===== *)
(** * IpcMoves: which moves of the abstract kernel touch tasks blocked on IPC

    What a lawful trap does to a task that is blocked on IPC or terminated, and which
    tasks are blocked on IPC or wait for a mutex afterwards. *)
From S2P Require Import Prelude Memory Tcb Bitmap Can Pmp Spinlock Telemetry Kernel.
From S2P Require Import Trap KernelInv TrapInv Security Boot Tasks AbsSpec Discipline.

#[local] Arguments first : simpl never.
#[local] Arguments inherits : simpl never.

(** Blocked on IPC or terminated. *)
Definition settled (s : TaskState) : bool := on_ipc s || bool_decide (s = Terminated).

(** Waiting for mutex 0, where waiters are looked up. *)
Definition queued (a : Abs) (h : hart) (i : nat) : Prop := home i = h ∧ wait a 0 i = true.

(** Moves that neither block, kill nor serve a task. *)
Definition mild (x : move) : bool :=
  match x with Tick _ | Switch _ | Stay _ | Acquire _ | Pass _ | Recover _ => true | _ => false end.

Lemma on_ipc_settled s : on_ipc s = true → settled s = true.
Proof. unfold settled. by intros ->. Qed.

Lemma settled_facts s : settled s = true → s ≠ Ready ∧ s ≠ Running ∧ ∀ tick, wake_due tick s = s.
Proof. unfold settled. by destruct s. Qed.

(** Only mutex 0 has waiters. *)
Definition one_queue (a : Abs) : Prop := ∀ m i, m ≠ 0%nat → wait a m i = false.

Lemma first_queue a m : one_queue a → m ≠ 0%nat → first (wait a m) = None.
Proof.
  intros Ho Hm. destruct (first (wait a m)) as [i|] eqn:Hf; [|done].
  apply first_waiter in Hf as [Hf _]. by rewrite Ho in Hf.
Qed.

Lemma first_queued a m i : one_queue a → first (wait a m) = Some i → queued a (home i) i.
Proof.
  intros Ho Hf. destruct (decide (m = 0%nat)) as [-> |Hm]; [|by rewrite first_queue in Hf].
  split; [done|]. by apply first_waiter in Hf as [? _].
Qed.

Lemma inherits_queued a o i : one_queue a → inherits a o i = true → queued a (home i) i.
Proof.
  intros Ho (m & _ & [_ Hf]%andb_true_iff)%existsb_exists. apply bool_decide_eq_true in Hf.
  by eapply first_queued.
Qed.

Section mild.
Context (a : Abs) (h : hart) (x : move) (Hc : can h x a = true) (Hx : mild x = true).

Lemma mild_wait m i : wait (act h x a) m i = true → wait a m i = true.
Proof.
  destruct x; try done; cbn.
  - case_decide; [|done]. by intros [? _]%andb_true_iff.
  - case_decide; [|done]. by intros [? _]%andb_true_iff.
Qed.

Lemma mild_queue : one_queue a → one_queue (act h x a).
Proof. intros Ho m i Hm. apply not_true_iff_false. intros Hw%mild_wait. by rewrite Ho in Hw. Qed.

Lemma mild_settled h' i s :
  one_queue a → st a h' i = Some s → settled s = true → ¬ queued a h' i → st (act h x a) h' i = Some s.
Proof.
  intros Ho Hs (Hr & Hn & Hw)%settled_facts Hq. destruct x; try done; cbn in *.
  - case_decide; [|done]. rewrite Hs. cbn. by rewrite Hw.
  - apply bool_decide_eq_true in Hc. case_decide; [subst h'|done].
    case_decide; [congruence|]. case_decide; [|done]. rewrite Hs. cbn. unfold demote_st. by rewrite decide_False.
  - destruct (first (wait a m)) as [w|] eqn:Hf; [|done]. cbn.
    rewrite decide_False; [done|]. intros [<- <-]. by apply Hq, (first_queued a m).
  - rewrite decide_False; [done|]. intros [<- Hin]. by apply Hq, (inherits_queued a i0).
Qed.

Lemma mild_back h' i s :
  st (act h x a) h' i = Some s → runnable s = false → st a h' i = Some s.
Proof.
  intros Hs Hi. destruct x; try done; cbn in *.
  - case_decide; [|done]. destruct (st a h' i) as [s0|]; [|done]. cbn in Hs.
    destruct s0; cbn in Hs; try (by simplify_eq). by case_match; simplify_eq.
  - case_decide; [|done]. case_decide; [destruct (st a h' i); cbn in Hs; by simplify_eq|].
    case_decide; [|done]. destruct (st a h' i) as [s0|]; [|done]. cbn in Hs. unfold demote_st in Hs.
    by case_decide; simplify_eq.
  - destruct (first (wait a m)) as [w|]; [|done]. cbn in Hs. case_decide; [|done].
    destruct (st a h' i); cbn in Hs; by simplify_eq.
  - case_decide; [|done]. destruct (st a h' i); cbn in Hs; by simplify_eq.
Qed.
End mild.

(** Sequences of mild moves. *)
Section mild_path.
Context (h : hart).

Lemma mild_path_queue l a a' : path h l a a' → forallb mild l = true → one_queue a → one_queue a'.
Proof.
  induction 1 as [a a' (_ & _ & _ & He)|x l a a' Hc _ IH]; cbn [forallb].
  - intros _ Ho m i Hm. rewrite <- He. by apply Ho.
  - intros [Hx Hl]%andb_true_iff Ho. apply IH; [done|]. by apply mild_queue.
Qed.

Lemma mild_path_wait l a a' m i : path h l a a' → forallb mild l = true → wait a' m i = true → wait a m i = true.
Proof.
  induction 1 as [a a' (_ & _ & _ & He)|x l a a' Hc _ IH]; cbn [forallb].
  - intros _. by rewrite He.
  - intros [Hx Hl]%andb_true_iff Hw. apply (mild_wait a h x Hc Hx). by apply IH.
Qed.

Lemma mild_path_settled l a a' h' i s :
  path h l a a' → forallb mild l = true → one_queue a → st a h' i = Some s → settled s = true →
  ¬ queued a h' i → st a' h' i = Some s.
Proof.
  induction 1 as [a a' (He & _)|x l a a' Hc _ IH]; cbn [forallb].
  - intros _ _. by rewrite He.
  - intros [Hx Hl]%andb_true_iff Ho Hs Hset Hq. apply IH; [done|by apply mild_queue|by apply mild_settled|done|].
    intros [H1 H2]. apply Hq. split; [done|]. by apply (mild_wait a h x Hc Hx).
Qed.

Lemma mild_path_back l a a' h' i s :
  path h l a a' → forallb mild l = true → st a' h' i = Some s → runnable s = false → st a h' i = Some s.
Proof.
  induction 1 as [a a' (He & _)|x l a a' Hc _ IH]; cbn [forallb].
  - intros _. by rewrite He.
  - intros [Hx Hl]%andb_true_iff Hs Hi. apply (mild_back a h x Hc Hx); [by apply IH|done].
Qed.

Lemma resched_mild b l : resched b l → forallb mild l = true.
Proof. by destruct 1. Qed.
End mild_path.

(** ** What a lawful trap does *)

(** The task of an event's peer that it may serve, and the state it may leave its own
    task in. *)
Definition serves (ev : event) (s : TaskState) : Prop :=
  match ev with
  | ESend c _ _ => ∃ ep, sends c = Some ep ∧ waits_recv ep s = true
  | ERecv c _ _ => ∃ ep, receives c = Some ep ∧ waits_send ep s = true
  | _ => False
  end.

Definition mine (ev : event) (s : TaskState) : Prop :=
  match ev with
  | ESend c addr len => ∃ ep, sends c = Some ep ∧ s = BlockedOnIpcSend ep addr len
  | ERecv c addr len => ∃ ep, receives c = Some ep ∧ s = BlockedOnIpcRecv ep addr len
  | _ => False
  end.

(** Every state but Ready and Running that an event may leave its own task in. *)
Definition stops (ev : event) (s : TaskState) : Prop :=
  match ev with
  | ESleep w => s = Blocked w
  | ELock _ => ∃ m, s = BlockedOnMutex m
  | EFault => s = Terminated
  | _ => mine ev s
  end.

Record ipc_effect (h : hart) (ev : event) (a a' : Abs) : Prop := {
  ie_settled : ∀ h' i s, st a h' i = Some s → settled s = true → ¬ queued a h' i →
    st a' h' i = Some s ∨ st a' h' i = Some Ready ∧ serves ev s;
  ie_stops : ∀ h' i s, st a' h' i = Some s → runnable s = false →
    st a h' i = Some s ∨ h' = h ∧ i = cur a h ∧ stops ev s;
  ie_wait : ∀ i, wait a' 0 i = true → wait a 0 i = true ∨ i = cur a h ∧ home i = h
}.

Lemma ie_back h ev a a' :
  ipc_effect h ev a a' → ∀ h' i s, st a' h' i = Some s → on_ipc s = true →
  st a h' i = Some s ∨ h' = h ∧ i = cur a h ∧ mine ev s.
Proof.
  intros He h' i s Hs Hi. destruct (ie_stops _ _ _ _ He h' i s Hs) as [?|(? & ? & Hst)];
    [by destruct s|by left|right]. split_and!; [done|done|]. destruct ev; cbn in Hst; try done; naive_solver.
Qed.

Section effect.
Context (h : hart) (a : Abs) (Hq : one_queue a) (Hr : rests a).

Lemma effect_mild ev l a' : path h l a a' → forallb mild l = true → ipc_effect h ev a a'.
Proof.
  intros Hp Hl. split.
  - intros h' i s Hs Hset Hn. left. by eapply mild_path_settled.
  - intros h' i s Hs Hi. left. by eapply mild_path_back.
  - intros i Hw. left. by eapply mild_path_wait.
Qed.

Lemma settled_not_current h' i s : st a h' i = Some s → settled s = true → ¬ (h' = h ∧ i = cur a h).
Proof.
  intros Hs (H1 & H2 & _)%settled_facts [-> ->]. destruct (Hr h) as [H|H]; congruence.
Qed.

(** A move on the current task, then mild ones. *)
Lemma effect_head ev a1 l a' :
  (∀ h' i, ¬ (h' = h ∧ i = cur a h) → st a1 h' i = st a h' i) →
  (∀ s, st a1 h (cur a h) = Some s → stops ev s) →
  (∀ i, wait a1 0 i = true → wait a 0 i = true ∨ i = cur a h ∧ home i = h) → one_queue a1 →
  path h l a1 a' → forallb mild l = true → ipc_effect h ev a a'.
Proof.
  intros Hst Hown Hw Hq1 Hp Hl. split.
  - intros h' i s Hs Hset Hn. left. pose proof (settled_not_current _ _ _ Hs Hset) as Hnc.
    apply (mild_path_settled h l a1); try done; [by rewrite Hst|].
    intros [Hh [Hwi|[-> Hho]]%Hw]; [by apply Hn|]. apply Hnc. by rewrite <- Hh, Hho.
  - intros h' i s Hs Hi. apply (mild_path_back h l a1) in Hs; try done.
    destruct (decide (h' = h ∧ i = cur a h)) as [[-> ->]|Hn]; [right; auto|]. left. by rewrite <- Hst.
  - intros i Hi. apply Hw. by eapply mild_path_wait.
Qed.

Lemma set_st_other s h' i : ¬ (h' = h ∧ i = cur a h) → st (set_st h (cur a h) s a) h' i = st a h' i.
Proof. intros Hn. cbn. rewrite decide_False; [done|]. intros [<- <-]. by apply Hn. Qed.

Lemma set_st_own s s' : st (set_st h (cur a h) s a) h (cur a h) = Some s' → s' = s.
Proof. cbn. rewrite decide_True by done. destruct (st a h (cur a h)); [by intros [= ->]|done]. Qed.

Lemma effect_block ev s l a' :
  path h (Block s :: l) a a' → forallb mild l = true → stops ev s → ipc_effect h ev a a'.
Proof.
  intros Hp Hl Hm. inversion_clear Hp as [|? ? ? ? _ Hp'].
  apply (effect_head ev (set_st h (cur a h) s a) l); try done; [apply set_st_other| |by left].
  by intros s' ->%set_st_own.
Qed.

Lemma effect_rendezvous ev p s l a' :
  rendezvous p s a l → path h l a a' → stops ev s → (∀ s, p s = true → serves ev s) →
  ipc_effect h ev a a'.
Proof.
  intros Hrv Hp Hm Hserve. destruct Hrv as [h2 j Hw|l _ Hres].
  - inversion_clear Hp as [|? ? ? ? _ Hp']. inversion_clear Hp' as [? ? (He & _ & _ & Hwt)|].
    unfold waits_on in Hw. split.
    + intros h' i s0 Hst Hset _. rewrite <- He. cbn. case_decide as Hd; [|by left].
      destruct Hd as [-> ->]. right. rewrite Hst in *. split; [done|]. by apply Hserve.
    + intros h' i s0. rewrite <- He. cbn. case_decide; [|by left].
      destruct (st a h' i); cbn; [|done]. by intros [= <-].
    + intros i. rewrite <- Hwt. by left.
  - apply (effect_block ev s l); try done. by eapply resched_mild.
Qed.
End effect.

Lemma lawful_effect h a a' ph ph' ev l :
  world_ok a ph → rests a → lawful h a ph ev ph' → script h a ev l → path h l a a' →
  ipc_effect h ev a a'.
Proof.
  intros Hok Hr Hlaw Hs Hp. pose proof (wo_only _ _ Hok : one_queue a) as Hq.
  assert (Hmild : ∀ ev l, path h l a a' → forallb mild l = true → ipc_effect h ev a a')
    by (intros; by eapply effect_mild).
  destruct Hlaw as [tick| | |w Hf Hn|c x n Hf Hn|c x n Hf Hn|Hn|Hf Hl|Hh].
  - inversion Hs; subst. eapply Hmild; [done|]. cbn. by eapply resched_mild.
  - inversion Hs; subst. eapply Hmild; [done|]. by eapply resched_mild.
  - inversion Hs; subst. by eapply Hmild.
  - inversion Hs; subst. eapply effect_block; [done|done|done|by eapply resched_mild|done].
  - inversion Hs as [| | | | | | | | |? ? ? ep ? Hd Hrv| | | | | |]; subst; [by eapply Hmild|].
    eapply effect_rendezvous; [done|done|done|done|by exists ep|]. intros s Hw. by exists ep.
  - inversion Hs as [| | | | | | | | | | |? ? ? ep ? Hd Hrv| | | |]; subst; [by eapply Hmild|].
    eapply effect_rendezvous; [done|done|done|done|by exists ep|]. intros s Hw. by exists ep.
  - inversion Hs as [| | | | | | | | | | | | | |? Hres|]; subst. inversion_clear Hp as [|? ? ? ? _ Hp'].
    eapply (effect_head h a Hr EFault (set_st h (cur a h) Terminated a)); try done; [apply set_st_other|..].
    + by intros s ->%set_st_own.
    + by left.
    + cbn. by eapply resched_mild.
  - inversion Hs as [| | | |c m Hm Hfree|c m o l' Hm Hheld Hres| | | | | | | | | |]; subst.
    + by eapply Hmild.
    + by eapply Hmild.
    + cbn in Hm. simplify_eq. inversion_clear Hp as [|? ? ? ? _ Hp'].
      eapply (effect_head h a Hr _ (act h (Wait 0) a)); [..|exact Hp'|by eapply resched_mild].
      * apply set_st_other.
      * intros s ->%set_st_own. cbn. eauto.
      * intros i. cbn. intros [Hw|Hw%bool_decide_eq_true]%orb_true_iff; [by left|right].
        subst i. split; [done|]. by apply (locker_home h).
      * intros m i Hm. cbn. rewrite decide_False by done. by apply Hq.
  - inversion Hs as [| | | | | | |c m l' Hm Hown Hres| | | | | | | |]; subst.
    + by eapply Hmild.
    + eapply Hmild; [done|]. cbn. by eapply resched_mild.
Qed.

(** The watchdog's terminate call, on a task it does not run itself. *)
Lemma terminate_effect h a a' z l :
  one_queue a → (∀ i, z = Z.of_nat i → cur a h ≠ i) → script h a (ETerminate z) l → path h l a a' →
  (∀ h' i s, st a h' i = Some s → settled s = true → ¬ queued a h' i →
    st a' h' i = Some s ∨ z = Z.of_nat i ∧ st a' h' i = Some Terminated) ∧
  (∀ h' i s, st a' h' i = Some s → runnable s = false →
    st a h' i = Some s ∨ s = Terminated ∧ z = Z.of_nat i) ∧
  (∀ i, wait a' 0 i = true → wait a 0 i = true).
Proof.
  intros Hq Hz Hs Hp. inversion Hs as [| | | | | | | | | | | |? Hno|j h2 l' Hreg Hfirst Hl| |]; subst.
  - inversion_clear Hp as [? ? (He & _ & _ & Hw)|]. split_and!.
    + intros h' i s Hst _ _. left. by rewrite <- He.
    + intros h' i s. rewrite <- He. by left.
    + intros i. by rewrite Hw.
  - rewrite decide_False in Hl by (intros [_ ->]; by apply (Hz (cur a h))). subst l'.
    inversion_clear Hp as [|? ? ? ? _ Hp']. split_and!.
    + intros h' i s Hst Hset Hn.
      assert (Hk : st (act h (Kill h2 j) a) h' i = Some s ∨ j = i ∧ st (act h (Kill h2 j) a) h' i = Some Terminated).
      { cbn. case_decide as Hd; [|by left]. rewrite Hst. right. by destruct Hd. }
      destruct Hk as [Hk|[-> Hk]]; [left|right; split; [done|]]; by eapply (mild_path_settled h _ _ a' h' i).
    + intros h' i s Hst Hi. eapply (mild_path_back h [Recover j]) in Hst; [|done|done|done].
      cbn in Hst. case_decide as Hd; [|by left]. destruct (st a h' i); [|done]. cbn in Hst. right.
      destruct Hd as [_ ->]. by simplify_eq.
    + intros i Hw. exact (mild_path_wait h [Recover j] _ a' 0 i Hp' eq_refl Hw).
Qed.

(** A receive that finds no sender blocks its caller. *)
Lemma recv_blocks h a a' c x n ep l :
  one_queue a → is_Some (st a h (cur a h)) → ¬ queued a h (cur a h) → receives c = Some ep →
  (∀ h' i, waits_on (waits_send ep) a h' i = false) → script h a (ERecv c x n) l → path h l a a' →
  st a' h (cur a h) = Some (BlockedOnIpcRecv ep x n).
Proof.
  intros Hq [s Hs] Hn Hc Hno Hscript Hp.
  inversion Hscript as [| | | | | | | | | | |? ? ? ep' ? Hc' Hrv| | | |]; subst; [congruence|].
  rewrite Hc in Hc'. injection Hc' as <-. destruct Hrv as [h' i Hw|l _ Hres]; [by rewrite Hno in Hw|].
  inversion_clear Hp as [|? ? ? ? _ Hp']. eapply (mild_path_settled h l _ a' h (cur a h)); [exact Hp'|by eapply resched_mild|done| |done|done].
  cbn. by rewrite decide_True, Hs.
Qed.
