(* ===== verification/Compose.v ===== *)
(** * Compose: the tasks and the kernel together

    The composed system is the kernel state with the code each task is about to
    execute.  Its steps are the traps the tasks raise, the interrupts, the local
    steps of the task each hart runs and the iterations of the watchdog, in any
    order and on both harts.  U-mode memory is arbitrary at every step, so calls
    return and loads read anything.  A hart executes the code of its current task:
    [Context] shows that a trap resumes the frame of that task. *)
From S2P Require Import Prelude Memory Tcb Bitmap Can Pmp Spinlock Telemetry Kernel.
From S2P Require Import Trap KernelInv TrapInv Security Boot Reach SyscallSpec IpcSpec.
From S2P Require Import FaultSpec Watchdog AbsSpec Refine Tasks Discipline.

(** ** States *)

(** A task is about to run [p], or inside system call [n]. *)
Inductive cont := Run (p : prog) | Ret (n : Z) (k : Z → prog).

(** [overrun]: the watchdog has terminated a task that hart 1 was running. *)
Record Total := mkTotal { kern : Kernel; code : hart → nat → cont; overrun : bool }.

Definition running (s : Total) (h : hart) : cont := code s h (current h (kern s)).

Definition set_code (h : hart) (i : nat) (c : cont) (f : hart → nat → cont) : hart → nat → cont :=
  λ h' j, if decide (h = h' ∧ i = j) then c else f h' j.

(** The hart's task goes on with [c], the kernel state becomes [k]. *)
Definition goes (s : Total) (h : hart) (c : cont) (k : Kernel) : Total :=
  mkTotal k (set_code h (current h (kern s)) c (code s)) (overrun s).

(** The next mutex call of [p] is an unlock. *)
Fixpoint unlocks_next (p : prog) : bool :=
  match p with
  | Sys n _ _ _ k => if n =? 4 then true else if n =? 3 then false else unlocks_next (k 0)
  | Peek _ _ k => unlocks_next (k [])
  | Poke _ _ k | Iteration k | Fault _ k => unlocks_next k
  | Cycles k | ReadTestCounter k => unlocks_next (k 0)
  | Dies | Again _ => false
  end.

(** The task has returned from its lock call and not yet called unlock. *)
Definition in_section (c : cont) : bool :=
  match c with Run p => unlocks_next p | Ret n k => negb (n =? 3) && unlocks_next (k 0) end.

(** ** Traps *)

(** [raises c mcause save c']: a hart executing [c] may trap with [mcause], with
    the registers saved by [save sp]; the task then goes on with [c'].  A faulting
    instruction is executed again, unless the handler skips it. *)
Inductive raises : cont → Z → (Z → Mem → Mem) → cont → Prop :=
  | raise_call n a0 a1 a2 k :
      raises (Run (Sys n a0 a1 a2 k)) ECALL_UMODE (λ sp, syscall_frame sp n a0 a1 a2) (Ret n k)
  | raise_fault cause k : raises (Run (Fault cause k)) cause (λ _ m, m) (Run (Fault cause k))
  | raise_skipped cause k : raises (Run (Fault cause k)) cause (λ _ m, m) (Run k)
  | raise_timer c : raises c TIMER_INTERRUPT (λ _ m, m) c
  | raise_software c : raises c SOFTWARE_INTERRUPT (λ _ m, m) c.

(** ** The watchdog *)

(** The iteration up to the restarts. *)
Definition watchdog_kill (E : Env) (sp start_cycle : Z) : K unit :=
  current_tick ← gets TICK_COUNT;
  sched_guard H0 (
    failed ← gets (failed_task current_tick);
    match failed with
    | Some nm => _ ← sys_terminate_task E sp start_cycle (failed_prio nm); mret tt
    | None => mret tt
    end).

(** Does the iteration terminate the task that hart 1 runs? *)
Definition kills_running (k : Kernel) : bool :=
  match failed_task (TICK_COUNT k) k with
  | Some nm =>
      let i := Z.to_nat (failed_prio nm) in bool_decide (target_hart i k = H1 ∧ current H1 k = i)
  | None => false
  end.

Section compose.
Context (sha256 : list Z → list Z) (frame_bytes : CanFrame → list Z) (read_frame : list Z → CanFrame).
Context (B : Buffers) (L : Layout) (fn : Entries).
Local Abbreviation task_program := (program sha256 frame_bytes read_frame B).

(** Restarted tasks start over.  A restart does not reach a task that hart 1 is
    running: its next trap saves the old context over the new one. *)
Definition restarts (k1 : Kernel) (f : hart → nat → cont) : hart → nat → cont :=
  let f1 := if is_terminated H1 3 k1 && (TEST_COUNTER k1 <? 2) && negb (bool_decide (current H1 k1 = 3%nat))
            then set_code H1 3 (Run (task_program H1 3 0)) f else f in
  if is_terminated H0 4 k1 then set_code H0 4 (Run (task_program H0 4 0)) f1 else f1.

(** ** Steps *)

(** The steps of a task that involve nobody else. *)
Inductive local (h : hart) (i : nat) (k : Kernel) : prog → prog → Prop :=
  | loc_peek a n c bs : length bs = n → local h i k (Peek a n c) (c bs)
  | loc_poke a bs c : local h i k (Poke a bs c) c
  | loc_cycles c z : local h i k (Cycles c) (c z)
  | loc_test_counter c : local h i k (ReadTestCounter c) (c (TEST_COUNTER k))
  | loc_again v : local h i k (Again v) (task_program h i v).

Inductive total_step (s : Total) : Total → Prop :=
  | ts_trap E h mcause save c sp start_cycle m sp' k' :
      layout E = L → mem_wf m → raises (running s h) mcause save c →
      trap_handler E h mcause sp start_cycle (set_ram (save sp m) (kern s)) = Done (sp', k') →
      total_step s (goes s h c k')
  | ts_return h n k r : running s h = Ret n k → total_step s (goes s h (Run (k r)) (kern s))
  | ts_local h p p' m :
      running s h = Run p → local h (current h (kern s)) (kern s) p p' →
      total_step s (goes s h (Run p') (set_ram m (kern s)))
  | ts_watchdog E p sp start_cycle m k1 k' :
      layout E = L → mem_wf m → running s H0 = Run (Iteration p) →
      let k := set_ram m (kern s) in
      watchdog_kill E sp start_cycle k = Done (tt, k1) →
      watchdog_iteration E fn sp start_cycle k = Done (tt, k') →
      total_step s (mkTotal k' (set_code H0 (current H0 k) (Run p) (restarts k1 (code s)))
                            (overrun s || kills_running k)).

Inductive total : Total → Prop :=
  | total_boot E0 E1 m i0 c0 p0 sps k :
      layout E0 = L → layout E1 = L → verify_secure_boot sha256 = true →
      pmp_reset_ok (on0 p0) → pmp_reset_ok (on1 p0) →
      kmain sha256 E0 E1 fn (statics m i0 c0 p0) = Done (sps, k) →
      total (mkTotal k (λ h i, Run (task_program h i 0)) false)
  | total_next s s' : total s → total_step s s' → total s'.

(** ** The invariant *)

(** What the code of a task looks like in each phase. *)
Definition follows (h : hart) (i : nat) (p : phase) (c : cont) : Prop :=
  match p, c with
  | Free, Run q => disciplined h i false q
  | Free, Ret n k => n ≠ 3 ∧ ∀ r, disciplined h i false (k r)
  | Locking, Run _ => False
  | Locking, Ret n k => n = 3 ∧ ∀ r, disciplined h i true (k r)
  | Held, Run q => disciplined h i true q
  | Held, Ret n k => n ≠ 3 ∧ ∀ r, disciplined h i true (k r)
  end.

Definition synced (k : Kernel) (f : hart → nat → cont) : Prop :=
  ∃ ph, world_ok (abs k) ph ∧ rests (abs k) ∧ ∀ h i, follows h i (ph h i) (f h i).

(** Tasks A and C have the mutex capability in slot 0. *)
Definition can_lock (k : Kernel) : Prop :=
  ∀ h i, locker h i = true → ∃ t, task_of h i k = Some t ∧
    capabilities t !! 0%nat = Some (CapMutex 0 true true).

Record total_inv (s : Total) : Prop := {
  ti_kernel : kernel_inv L (kern s);
  ti_unlocked : unlocked (kern s);
  ti_caps : can_lock (kern s);
  ti_sync : overrun s = false → synced (kern s) (code s)
}.

(** ** Traps keep the phases *)

(** One task changes its phase and its code. *)
Lemma follows_set ph f h i p c :
  (∀ h' j, follows h' j (ph h' j) (f h' j)) → follows h i p c →
  ∀ h' j, follows h' j (set_phase h i p ph h' j) (set_code h i c f h' j).
Proof.
  intros Hf Hc h' j. unfold set_phase, set_code. case_decide as Hd; [|apply Hf]. by destruct Hd as [<- <-].
Qed.

Lemma follows_code ph f h i c :
  (∀ h' j, follows h' j (ph h' j) (f h' j)) → follows h i (ph h i) c →
  ∀ h' j, follows h' j (ph h' j) (set_code h i c f h' j).
Proof.
  intros Hf Hc h' j. unfold set_code. case_decide as Hd; [|apply Hf]. by destruct Hd as [<- <-].
Qed.

Lemma lawful_granted h a ph ev ph' p :
  world_ok a ph → rests a → lawful h a ph ev ph' → ¬ refused h a ev p.
Proof.
  intros Hok Hr Hl (_ & c & m & -> & Hm & _ & Hne). inversion Hl as [| | | | | | | |Hp]; subst.
  cbn in Hm. simplify_eq. by apply Hne, (held_owns a ph).
Qed.

Lemma trap_ok E h mcause sp start_cycle k ph ph' :
  layout E = L → kernel_inv L k → unlocked k → mem_wf (ram k) → ¬ unknown_cause mcause →
  world_ok (abs k) ph → rests (abs k) → lawful h (abs k) ph (trap_event h mcause sp k) ph' →
  ∃ sp' k', trap_handler E h mcause sp start_cycle k = Done (sp', k') ∧
    keeps L k k' ∧ world_ok (abs k') ph' ∧ rests (abs k').
Proof.
  intros <- Hi Hu Hwf Hcause Hok Hr Hlaw. destruct (avail_unlocked h k Hu) as [Ha Hb].
  pose proof (wp_trap_refines E h mcause sp start_cycle k ltac:(by split) Hwf Hcause) as Href.
  pose proof (trap_keeps (λ _, True) E h mcause sp start_cycle k ltac:(done) ltac:(done) Hi Ha Hb) as Hk.
  unfold wp in Href, Hk. destruct (trap_handler E h mcause sp start_cycle k) as [[sp' k']|p|]; [|exfalso|done].
  - exists sp', k'. destruct Href as (l & Hs & Hp). split_and!; [done|exact Hk|..];
      by eapply (script_ok h (abs k)).
  - by eapply lawful_granted.
Qed.

(** The registers of a call. *)
Lemma syscall_frame_regs sp n a0 a1 a2 m :
  frame_read (syscall_frame sp n a0 a1 a2 m) sp A7 = u32 n ∧
  frame_read (syscall_frame sp n a0 a1 a2 m) sp A0 = u32 a0.
Proof.
  unfold syscall_frame. split.
  - rewrite !(frame_read_write_ne _ _ _ A7) by done. apply frame_read_write_eq.
  - rewrite !(frame_read_write_ne _ _ _ A0) by done. apply frame_read_write_eq.
Qed.

Lemma lock_capability h k t :
  task_of h (current h k) k = Some t → capabilities t !! 0%nat = Some (CapMutex 0 true true) →
  cap_at h 0 k = CapMutex 0 true true.
Proof.
  unfold cap_at, current. intros Ht Hc. change (0 <? 8) with true. change (Z.to_nat 0) with 0%nat.
  by rewrite Ht, Hc.
Qed.

(** The phases after the call [n] of the task in slot [i]. *)
Definition call_phase (h : hart) (i : nat) (n : Z) (ph : hart → nat → phase) : hart → nat → phase :=
  if n =? 3 then set_phase h i Locking ph else if n =? 4 then set_phase h i Free ph else ph.

Section calls.
Context (h : hart) (k : Kernel) (ph : hart → nat → phase) (Hcaps : can_lock k).
Context (Hok : world_ok (abs k) ph).

(** The event of a disciplined call is lawful. *)
Lemma call_lawful held n a0 a1 a2 c sp m :
  ph h (current h k) = (if held : bool then Held else Free) →
  disciplined h (current h k) held (Sys n a0 a1 a2 c) →
  lawful h (abs k) ph (call_event h sp (set_ram (syscall_frame sp n a0 a1 a2 m) k))
    (call_phase h (current h k) n ph).
Proof.
  intros Hph [H31 Hd]. set (k0 := set_ram _ k).
  destruct (syscall_frame_regs sp n a0 a1 a2 m) as [R7 R0].
  unfold call_event. change (ram k0) with (syscall_frame sp n a0 a1 a2 m). rewrite R7, R0.
  assert (Hcap : locker h (current h k) = true → cap_at h 0 k0 = CapMutex 0 true true).
  { intros Hl. destruct (Hcaps _ _ Hl) as (t & Ht & Hc). by apply (lock_capability h k t). }
  destruct (Z.eqb_spec n 3) as [-> |H3].
  { destruct Hd as (-> & Hl & -> & _). change (u32 0) with 0. cbn [call_phase]. rewrite (Hcap Hl).
    by apply law_lock. }
  destruct (Z.eqb_spec n 4) as [-> |H4].
  { destruct Hd as (-> & -> & _). change (u32 0) with 0. cbn [call_phase].
    rewrite Hcap by (apply (wo_locker _ _ Hok); congruence). by apply law_unlock. }
  unfold call_phase. rewrite (proj2 (Z.eqb_neq n 3)), (proj2 (Z.eqb_neq n 4)) by done.
  destruct (Z.eqb_spec n 1) as [-> |H1]; [apply law_reschedule|].
  destruct Hd as (Hn & -> & _). rewrite !elem_of_cons in Hn.
  destruct Hn as [-> |[-> |[-> |[-> |Hn%elem_of_nil]]]]; [..|done].
  - by apply law_sleep.
  - apply law_none.
  - by apply law_send.
  - by apply law_recv.
Qed.

(** The code after a disciplined call. *)
Lemma call_follows f held n a0 a1 a2 c :
  ph h (current h k) = (if held : bool then Held else Free) →
  disciplined h (current h k) held (Sys n a0 a1 a2 c) →
  (∀ h' i, follows h' i (ph h' i) (f h' i)) →
  ∀ h' i, follows h' i (call_phase h (current h k) n ph h' i) (set_code h (current h k) (Ret n c) f h' i).
Proof.
  intros Hph [_ Hd] Hf. unfold call_phase.
  destruct (Z.eqb_spec n 3) as [-> |H3]; [apply follows_set; [done|]; split; [done|]; apply Hd|].
  destruct (Z.eqb_spec n 4) as [-> |H4]; [apply follows_set; [done|]; split; [done|]; apply Hd|].
  apply follows_code; [done|]. rewrite Hph. destruct (Z.eqb_spec n 1) as [-> |H1].
  - by destruct held.
  - destruct Hd as (_ & -> & Hd). by split.
Qed.

Lemma fault_lawful cause sp k0 :
  contained_cause cause = true → current h k ≠ 31%nat → abs k0 = abs k →
  ¬ unknown_cause cause ∧ lawful h (abs k0) ph (trap_event h cause sp k0) ph.
Proof.
  intros Hc H31 ->. split; [intros (_ & _ & _ & ?); congruence|]. unfold trap_event.
  assert (Hne : cause ≠ TIMER_INTERRUPT ∧ cause ≠ SOFTWARE_INTERRUPT ∧ cause ≠ ECALL_UMODE).
  { split_and!; intros ->; done. }
  destruct Hne as (H1 & H2 & H3). rewrite !(proj2 (Z.eqb_neq _ _)) by done.
  case_match; [apply law_none|by apply law_fault].
Qed.

(** Every trap a task raises is lawful, whatever memory holds. *)
Lemma raise_lawful f mcause save c sp m :
  (∀ h' i, follows h' i (ph h' i) (f h' i)) → mem_wf m →
  raises (f h (current h k)) mcause save c →
  let k0 := set_ram (save sp m) k in
  mem_wf (ram k0) ∧ ¬ unknown_cause mcause ∧
  ∃ ph', lawful h (abs k0) ph (trap_event h mcause sp k0) ph' ∧
    ∀ h' i, follows h' i (ph' h' i) (set_code h (current h k) c f h' i).
Proof.
  intros Hf Hm Hr k0.
  assert (Hsame : ∀ q, f h (current h k) = q → ∀ h' i, follows h' i (ph h' i) (set_code h (current h k) q f h' i)).
  { intros q <-. by apply follows_code. }
  pose proof (Hf h (current h k)) as Hcur. unfold trap_event.
  inversion Hr as [n a0 a1 a2 q Hc|cause q Hc|cause q Hc|? Hc|? Hc]; subst; try rewrite <- Hc in *.
  - split; [by apply syscall_frame_wf|]. split; [by intros (_ & _ & ? & _)|].
    assert (∃ held : bool, ph h (current h k) = (if held then Held else Free) ∧
      disciplined h (current h k) held (Sys n a0 a1 a2 q)) as (held & Hph & Hd).
    { destruct (ph h (current h k)); [by exists false|done|by exists true]. }
    exists (call_phase h (current h k) n ph). split; [by eapply call_lawful|by eapply call_follows].
  - destruct (ph h (current h k)) eqn:Hph; [|done|by destruct Hcur as (_ & _ & ? & _)].
    destruct Hcur as (H31 & Hcc & _). destruct (fault_lawful mcause sp k0 Hcc H31 eq_refl) as [Hu Hlaw].
    split_and!; [done|done|]. exists ph. split; [exact Hlaw|by apply Hsame].
  - destruct (ph h (current h k)) eqn:Hph; [|done|by destruct Hcur as (_ & _ & ? & _)].
    destruct Hcur as (H31 & Hcc & _ & Hq). destruct (fault_lawful mcause sp k0 Hcc H31 eq_refl) as [Hu Hlaw].
    split_and!; [done|done|]. exists ph. split; [exact Hlaw|].
    apply follows_code; [done|]. by rewrite Hph.
  - split_and!; [done|by intros (? & _)|]. exists ph. split; [apply law_timer|by apply Hsame].
  - split_and!; [done|by intros (_ & ? & _)|]. exists ph. split; [apply law_reschedule|by apply Hsame].
Qed.
End calls.

(** ** The watchdog keeps the phases *)

Lemma terminate_frame_regs m sp prio :
  let m' := frame_write (frame_write m sp A7 8) sp A0 prio in
  frame_read m' sp A7 = 8 ∧ frame_read m' sp A0 = u32 prio.
Proof. cbv zeta. rewrite frame_read_write_ne by done. by rewrite !frame_read_write_eq. Qed.

(** The nested call implements the abstract termination. *)
Lemma kill_refines E sp sc prio k :
  ready_for E H0 k → mem_wf (ram k) → 0 ≤ prio < 2 ^ 32 →
  wp no_panic (sys_terminate_task E sp sc prio)
    (λ _ k', keeps (layout E) k k' ∧ refines H0 (ETerminate prio) k k') k.
Proof.
  intros Hr Hwf Hp.
  pose proof (terminate_task_keeps E sp sc prio k (rf_inv _ _ _ Hr) (rf_sched _ _ _ Hr) (rf_mutex _ _ _ Hr)) as Hk.
  assert (Hw : wp no_panic (sys_terminate_task E sp sc prio) (λ _, refines H0 (ETerminate prio) k) k).
  { unfold sys_terminate_task. wp_run. set (k1 := set_ram _ (set_ram _ k)).
    assert (Hr1 : ready_for E H0 k1) by (destruct Hr; split; [by apply (inv_fields _ k)|done|done]).
    assert (Hev : trap_event H0 ECALL_UMODE sp k1 = ETerminate prio).
    { change (trap_event H0 ECALL_UMODE sp k1) with (call_event H0 sp k1). unfold call_event, k1.
      cbn [ram set_ram]. destruct (terminate_frame_regs (ram k) sp prio) as [-> ->].
      cbn [Z.eqb Pos.eqb]. by rewrite u32_small. }
    pose proof (wp_trap_refines E H0 ECALL_UMODE sp sc k1 Hr1 ltac:(by repeat apply store32_wf)) as Href.
    cbv zeta in Href. rewrite Hev in Href.
    eapply wp_mono; [eapply wp_weaken; [|apply Href]|].
    - intros p (_ & c & m & Hc & _). discriminate Hc.
    - intros (_ & _ & Hne & _). by apply Hne.
    - intros ? k' Hk'. wp_run. exact Hk'. }
  unfold wp in *. destruct (sys_terminate_task E sp sc prio k) as [[]| |]; [|done..]. by split.
Qed.

(** An iteration is its kill followed by its restarts. *)
Lemma watchdog_split E sp sc k :
  layout E = L → kernel_inv L k → unlocked k → mem_wf (ram k) →
  ∃ k1, watchdog_kill E sp sc k = Done (tt, k1) ∧
    watchdog_iteration E fn sp sc k = Done (tt, revive_hsm E fn (revive_c E fn k1)) ∧
    match failed_task (TICK_COUNT k) k with
    | Some nm => refines H0 (ETerminate (failed_prio nm)) k k1
    | None => abs k1 ≡ abs k
    end.
Proof.
  intros <- Hi [Hs Hm] Hwf.
  destruct (avail_held (SCHED_LOCK k) H0) as (l & Hl & Hu & Hav); [by rewrite Hs; left|].
  set (kl := set_SCHED_LOCK l k).
  set (kill := match failed_task (TICK_COUNT k) k with
    | Some nm => _ ← sys_terminate_task E sp sc (failed_prio nm); mret tt
    | None => mret tt end : K unit).
  assert (Hkill : wp no_panic kill (λ _ k2, SCHED_LOCK k2 = l ∧
    match failed_task (TICK_COUNT k) k with
    | Some nm => refines H0 (ETerminate (failed_prio nm)) k k2 | None => abs k2 ≡ abs k end) kl).
  { unfold kill. destruct (failed_task (TICK_COUNT k) k) as [nm|]; [|by wp_run].
    apply wp_bind. eapply wp_mono; [apply kill_refines; [split; [by apply (inv_fields _ k)|by apply Hav|by left]|done|]|].
    - unfold failed_prio. repeat case_match; lia.
    - intros z k2 [Hk Hr]. wp_run. split; [apply (keeps_sched_lock _ _ _ Hk)|exact Hr]. }
  apply wp_no_panic in Hkill as ([] & k2 & Hk2 & Hl2 & Hcase).
  exists (set_SCHED_LOCK (SCHED_LOCK k) k2). split_and!; [..|by destruct (failed_task _ _)].
  - assert (Hw : wp no_panic (watchdog_kill E sp sc) (λ _ k', k' = set_SCHED_LOCK (SCHED_LOCK k) k2) k).
    { unfold watchdog_kill, sched_guard, sched_lock. wp_run. apply wp_lift. rewrite Hl. cbn [returns]. wp_run.
      apply (wp_Done _ kill _ kl _ _ Hk2). unfold sched_unlock. wp_run. by rewrite Hl2, Hu. }
    by apply wp_no_panic in Hw as ([] & ? & ? & ->).
  - assert (Hw : wp no_panic (watchdog_iteration E fn sp sc) (λ _ k', k' =
      revive_hsm E fn (revive_c E fn (set_SCHED_LOCK (SCHED_LOCK k) k2))) k).
    { unfold watchdog_iteration, sched_guard, sched_lock. wp_run. apply wp_lift. rewrite Hl. cbn [returns]. wp_run.
      apply (wp_Done _ kill _ kl _ _ Hk2).
      pose proof (wp_restarts no_panic E fn k2 (λ _ k', k' = _) eq_refl) as Hre.
      unfold wp, mbind, K_bind in Hre |- *. destruct (restart_task_c E fn k2) as [[[] k3]| |]; [|done..].
      destruct (restart_hsm E fn k3) as [[[] k4]| |]; [|done..]. rewrite Hre.
      cbn. rewrite revive_SCHED_LOCK, Hl2, Hu. by rewrite revive_c_sched_lock, revive_hsm_sched_lock. }
    by apply wp_no_panic in Hw as ([] & ? & ? & ->).
Qed.

(** A restarted task has nothing left of its former life. *)
Lemma restart_synced h i stack entry k f v :
  (h = H0 → locker h i = false) → synced k f →
  synced (restarted h i stack entry k) (set_code h i (Run (task_program h i v)) f).
Proof.
  intros Hnl (ph & Hok & Hr & Hf).
  assert (Habs : abs (restarted h i stack entry k) ≡ set_st h i Ready (abs k)).
  { split_and!; try done; cbn.
    - intros h' j. unfold restarted.
      change (task_of h' j (set_LAST_CHECKIN_TICK _ ?kk)) with (task_of h' j kk).
      rewrite task_of_upd. case_decide; [|done].
      change (task_of h' j (set_ram _ k)) with (task_of h' j k). by destruct (task_of h' j k) as [[]|].
    - intros h'. exact (current_upd h i (revived stack) (set_ram _ k) h'). }
  exists (set_phase h i Free ph). rewrite Habs. split_and!.
  - apply set_st_ok; [apply world_ok_free; [done|]| |done|done].
    + intros Hh Hp. specialize (Hnl Hh). rewrite (wo_locker _ _ Hok h i) in Hnl by congruence. done.
    + unfold set_phase. by rewrite decide_True.
  - intros h'. pose proof (Hr h') as Hh. unfold at_rest in *. cbn in *. case_decide; [|done].
    destruct Hh as [-> | ->]; by left.
  - apply follows_set; [done|]. apply programs_disciplined.
Qed.

Lemma current_alive k h i : rests (abs k) → is_terminated h i k = true → current h k ≠ i.
Proof.
  intros Hr Ht <-. unfold is_terminated in Ht. fold (sched_of h k) in Ht.
  pose proof (Hr h) as Hh. unfold at_rest in Hh. cbn in Hh. unfold task_of in Hh.
  destruct (slot (task_table (sched_of h k)) (current h k)) as [t|]; [|done].
  apply bool_decide_eq_true in Ht. cbn in Hh. destruct Hh; congruence.
Qed.

Lemma restarts_synced E k1 f :
  synced k1 f → synced (revive_hsm E fn (revive_c E fn k1)) (restarts k1 f).
Proof.
  intros Hs. pose proof Hs as (_ & _ & Hr & _).
  assert (Hc : synced (revive_c E fn k1)
    (if is_terminated H1 3 k1 && (TEST_COUNTER k1 <? 2) && negb (bool_decide (current H1 k1 = 3%nat))
     then set_code H1 3 (Run (task_program H1 3 0)) f else f)).
  { unfold revive_c. destruct (is_terminated H1 3 k1) eqn:Ht; [|done]. cbn [andb].
    destruct (TEST_COUNTER k1 <? 2); [|done]. cbn [andb].
    rewrite bool_decide_false by by apply current_alive. cbn [negb]. by apply restart_synced. }
  assert (H4 : is_terminated H0 4 (revive_c E fn k1) = is_terminated H0 4 k1).
  { unfold revive_c. by destruct (is_terminated H1 3 k1 && _). }
  unfold revive_hsm, restarts. rewrite H4. destruct (is_terminated H0 4 k1); [|done]. by apply restart_synced.
Qed.

(** The kill, when it spares the task hart 1 runs. *)
Lemma kill_synced k k1 f :
  synced k f → current H0 k = 0%nat → kills_running k = false →
  match failed_task (TICK_COUNT k) k with
  | Some nm => refines H0 (ETerminate (failed_prio nm)) k k1
  | None => abs k1 ≡ abs k
  end → synced k1 f.
Proof.
  intros (ph & Hok & Hr & Hf) Hcur Hspare Hcase. exists ph. unfold kills_running in Hspare.
  destruct (failed_task (TICK_COUNT k) k) as [nm|]; [|by rewrite Hcase].
  set (prio := failed_prio nm) in *.
  assert (Hp : 1 ≤ prio ≤ 4) by (unfold prio, failed_prio; repeat case_match; lia). clearbody prio.
  apply bool_decide_eq_false in Hspare. destruct Hcase as (l & Hs & Hpath).
  inversion Hs as [| | | | | | | | | | | |z Hno|i h' l' Hreg Hfirst Hl| |]; subst.
  - inversion_clear Hpath as [? ? He|]. by rewrite <- He.
  - rewrite Nat2Z.id in Hspare. assert (H0i : cur (abs k) H0 ≠ i) by (cbn; lia).
    rewrite decide_False in Hl by naive_solver. subst l'.
    inversion_clear Hpath as [|? ? ? ? Hc Hp1]. inversion_clear Hp1 as [|? ? ? ? Hc' Hp2].
    inversion_clear Hp2 as [? ? He|]. rewrite <- He. split_and!; [|intros h''|done].
    + apply death_ok; [done|lia|done].
    + apply act_rest; [|done|by intros []]. apply act_rest; [apply Hr|done|]. cbn [disturbs].
      intros [-> ->]. destruct h'; [done|]. apply Hspare. split; [|done].
      unfold target_hart. specialize (Hfirst eq_refl). cbn in Hfirst. by destruct (task_of H0 _ k).
Qed.

(** ** Steps keep the invariant *)

Lemma can_lock_static k k' : static_kernel k k' → can_lock k → can_lock k'.
Proof.
  intros Hst Hc h i Hl. destruct (Hc h i Hl) as (t & Ht & Hcap).
  assert (Hs : is_Some (task_of h i k')) by (apply (static_is_Some _ _ _ (Hst h)); exact (mk_is_Some _ _ Ht)).
  destruct Hs as [t' Ht']. exists t'. split; [done|].
  destruct (static_task _ _ _ _ _ Hst Ht') as (u & Hu & Heq). rewrite Ht in Hu. injection Hu as <-.
  by rewrite (static_capabilities _ _ Heq).
Qed.

Lemma return_synced k f h n c r :
  synced k f → f h (current h k) = Ret n c →
  synced k (set_code h (current h k) (Run (c r)) f).
Proof.
  intros (ph & Hok & Hr & Hf) Hc. pose proof (Hf h (current h k)) as Hcur. rewrite Hc in Hcur.
  destruct (ph h (current h k)) eqn:Hp.
  - exists ph. split_and!; [done|done|]. apply follows_code; [done|]. rewrite Hp. apply Hcur.
  - exists (set_phase h (current h k) Held ph). split_and!; [by apply lock_returns|done|].
    apply follows_set; [done|]. apply Hcur.
  - exists ph. split_and!; [done|done|]. apply follows_code; [done|]. rewrite Hp. apply Hcur.
Qed.

Lemma local_disciplined h i k held p p' :
  local h i k p p' → disciplined h i held p → disciplined h i held p'.
Proof.
  destruct 1; cbn [disciplined]; [done|by intros [_ ?]|done|done|]. intros ->. apply programs_disciplined.
Qed.

Lemma local_synced k f h p p' :
  synced k f → f h (current h k) = Run p → local h (current h k) k p p' →
  synced k (set_code h (current h k) (Run p') f).
Proof.
  intros (ph & Hok & Hr & Hf) Hc Hl. exists ph. split_and!; [done|done|]. apply follows_code; [done|].
  pose proof (Hf h (current h k)) as Hcur. rewrite Hc in Hcur.
  destruct (ph h (current h k)); [|done|]; by eapply local_disciplined.
Qed.

Lemma iteration_synced k f p :
  synced k f → f H0 0%nat = Run (Iteration p) → synced k (set_code H0 0 (Run p) f).
Proof.
  intros (ph & Hok & Hr & Hf) Hc. exists ph. split_and!; [done|done|]. apply follows_code; [done|].
  pose proof (Hf H0 0%nat) as Hcur. rewrite Hc in Hcur.
  destruct (ph H0 0%nat); [|done|]; by destruct Hcur as (_ & _ & _ & ?).
Qed.

Lemma restarts_watchdog k1 f : restarts k1 f H0 0%nat = f H0 0%nat.
Proof. unfold restarts, set_code. by repeat case_match. Qed.

Lemma trap_synced E h mcause save c sp start_cycle m k f :
  layout E = L → kernel_inv L k → unlocked k → can_lock k → synced k f → mem_wf m →
  raises (f h (current h k)) mcause save c →
  ∃ sp' k', trap_handler E h mcause sp start_cycle (set_ram (save sp m) k) = Done (sp', k') ∧
    synced k' (set_code h (current h k) c f).
Proof.
  intros HL Hi Hu Hcaps (ph & Hok & Hr & Hf) Hm Hrs.
  destruct (raise_lawful h k ph Hcaps Hok f mcause save c sp m Hf Hm Hrs) as (Hwf & Hcause & ph' & Hlaw & Hf').
  destruct (trap_ok E h mcause sp start_cycle (set_ram (save sp m) k) ph ph') as (sp' & k' & Ht & _ & Hok' & Hr');
    try done; [by apply (inv_fields _ k)|].
  exists sp', k'. split; [done|]. by exists ph'.
Qed.

(** The part of the invariant that holds even after an overrun. *)
Lemma keeps_base k k' :
  keeps L k k' → unlocked k → can_lock k → kernel_inv L k' ∧ unlocked k' ∧ can_lock k'.
Proof.
  intros [Hi Hst Hs Hm] [Hs0 Hm0] Hc. split_and!; [done| |by eapply can_lock_static].
  split; congruence.
Qed.

Lemma total_step_inv s s' : total_inv s → total_step s s' → total_inv s'.
Proof.
  intros [Hi Hu Hc Hsync] Hstep.
  assert (Hbase : ∀ m, kernel_inv L (set_ram m (kern s))) by (intros m; by apply (inv_fields _ (kern s))).
  destruct Hstep as [E h mcause save c sp sc m sp' k' HL Hm Hr Ht|h n c r Hr|h p p' m Hr Hl
                    |E p sp sc m k1 k' HL Hm Hr k Hk1 Hk'].
  - destruct (avail_unlocked h _ Hu) as [Ha Hb].
    assert (Hk : keeps L (set_ram (save sp m) (kern s)) k').
    { subst L. exact (wp_result _ _ _ _ _ _ (trap_keeps (λ _, True) E h mcause sp sc _
        (λ _ _, I) (λ _, I) (Hbase (save sp m)) Ha Hb) Ht). }
    destruct (keeps_base _ _ Hk Hu Hc) as (H1 & H2 & H3). split; [done..|]. intros Ho.
    destruct (trap_synced E h mcause save c sp sc m (kern s) (code s) HL Hi Hu Hc (Hsync Ho) Hm Hr)
      as (sp1 & k2 & Ht2 & Hs2). rewrite Ht in Ht2. injection Ht2 as _ <-. exact Hs2.
  - split; [done..|]. intros Ho. by eapply return_synced; [apply Hsync|].
  - split; [apply Hbase|done|done|]. intros Ho.
    exact (local_synced (kern s) (code s) h p p' (Hsync Ho) Hr Hl).
  - destruct (watchdog_split E sp sc k HL (Hbase m) Hu Hm) as (k2 & Hk2 & Hit & Hcase).
    assert (k2 = k1) as -> by congruence. rewrite Hk' in Hit. injection Hit as Hit.
    assert (Hk : keeps L k k').
    { subst L. exact (wp_result _ _ _ _ _ _ (watchdog_keeps E fn sp sc k (Hbase m) Hu) Hk'). }
    destruct (keeps_base _ _ Hk Hu Hc) as (H1 & H2 & H3). split; [done..|]. cbn [overrun kern code].
    intros [Ho Hkill]%orb_false_iff. specialize (Hsync Ho).
    assert (Hcur : current H0 k = 0%nat).
    { destruct Hsync as (ph & _ & _ & Hf). specialize (Hf H0 (current H0 (kern s))).
      unfold running in Hr. rewrite Hr in Hf. change (current H0 k) with (current H0 (kern s)).
      destruct (ph H0 _); [|done|]; by destruct Hf as (_ & ? & _). }
    rewrite Hit, Hcur. apply iteration_synced.
    + apply restarts_synced. by apply (kill_synced k).
    + rewrite restarts_watchdog. unfold running in Hr. change (current H0 (kern s)) with (current H0 k) in Hr.
      by rewrite Hcur in Hr.
Qed.

(** ** Boot *)

Lemma boot_state_cases S h i t :
  slot (task_table (ph_get h (mkPerHart (started 0 (boot_sched (boot_tasks0 S)))
                                        (started 2 (boot_sched (boot_tasks1 S)))))) i = Some t →
  state t = Ready ∨ state t = Running ∧ i = match h with H0 => 0%nat | H1 => 2%nat end.
Proof.
  destruct h; cbn [ph_get on0 on1]; intros (t0 & Ht0 & _ & _ & Hs)%slot_started; apply slot_table_of in Ht0;
    unfold boot_tasks0, boot_tasks1 in Ht0; rewrite !elem_of_cons, elem_of_nil in Ht0;
    destruct_or! Ht0; simplify_eq/=; destruct Hs as [Hs|[? Hs]]; auto.
Qed.

Section boot.
Context (S : Stacks) (k : Kernel).
Context (Hsch : SCHEDULERS k = mkPerHart (started 0 (boot_sched (boot_tasks0 S)))
                                         (started 2 (boot_sched (boot_tasks1 S)))).
Context (Hmut : MUTEXES k = KERNEL_MUTEXES).

Lemma boot_world : world_ok (abs k) (λ _ _, Free) ∧ rests (abs k).
Proof.
  assert (Hwait : ∀ m i, wait (abs k) m i = false).
  { intros m i. cbn. destruct (mutex_of m k) as [mx|] eqn:Hm; [|done].
    unfold mutex_of in Hm. rewrite Hmut in Hm. apply slot_Some in Hm. destruct m as [|m]; simpl in Hm.
    - injection Hm as <-. apply Z.testbit_0_l.
    - by apply (lookup_replicate_1 7) in Hm as [? _]. }
  split; [split|]; try done.
  - intros h. cbn. unfold task_of, sched_of. rewrite Hsch. destruct h; by left.
  - intros h i. cbn. unfold current, task_of, sched_of. rewrite Hsch. intros Hr.
    destruct (slot _ i) as [t|] eqn:Ht; [|done]. apply boot_state_cases in Ht. cbn in Hr. simplify_eq.
    destruct Ht as [Ht|[_ ->]]; [congruence|]. by destruct h.
  - cbn. unfold mutex_of. by rewrite Hmut.
  - intros h i [<- [-> | ->]]%locker_home; cbn; unfold task_of, sched_of; by rewrite Hsch.
  - intros i Hi. by rewrite Hwait in Hi.
  - intros h. unfold at_rest. cbn. unfold current, task_of, sched_of. rewrite Hsch. destruct h; by right.
Qed.

Lemma boot_can_lock : can_lock k.
Proof.
  intros h i [<- [-> | ->]]%locker_home; unfold task_of, sched_of; rewrite Hsch; by eexists.
Qed.
End boot.

Lemma total_safe s : total s → total_inv s.
Proof.
  induction 1 as [E0 E1 m i0 c0 p0 sps k HL0 HL1 Hsb Hr0 Hr1 Hk|s s' _ IH Hstep];
    [|by eapply total_step_inv].
  assert (He : layout E0 = layout E1) by congruence.
  pose proof (wp_result _ _ _ _ _ _ (kmain_wp sha256 E0 E1 fn m i0 c0 p0 Hsb He Hr0 Hr1) Hk)
    as (_ & Hi & Hs & Hm & _ & Hsch & Hmut). rewrite HL0 in *.
  split; cbn [kern code overrun].
  - exact Hi.
  - by split.
  - by eapply boot_can_lock.
  - intros _. exists (λ _ _, Free). destruct (boot_world _ k Hsch Hmut) as [Hok Hr].
    split_and!; [done|done|]. intros h i. apply programs_disciplined.
Qed.

(** ** Critical sections *)

Lemma outside_section h i p : disciplined h i false p → unlocks_next p = false.
Proof.
  induction p as [n a0 a1 a2 k IH|a n k IH|a bs k IH|k IH|k IH|cause k IH|k IH| |v];
    cbn [disciplined unlocks_next]; intros Hd; try done.
  - destruct Hd as [_ Hd]. destruct (Z.eqb_spec n 3) as [-> |]; [done|].
    destruct (n =? 4); [by destruct Hd as (_ & ? & _)|].
    apply IH. destruct (n =? 1); [apply Hd|]. destruct Hd as (_ & _ & Hd). apply Hd.
  - apply IH, Hd.
  - apply IH, Hd.
  - apply IH, Hd.
  - apply IH, Hd.
  - apply IH, Hd.
  - apply IH, Hd.
Qed.

Lemma section_held h i p c : follows h i p c → in_section c = true → p = Held.
Proof.
  intros Hf Hin. destruct p, c as [q|n k]; cbn in *; try done.
  - by rewrite (outside_section _ _ _ Hf) in Hin.
  - destruct Hf as [_ Hf]. rewrite (outside_section _ _ _ (Hf 0)), andb_false_r in Hin. done.
  - destruct Hf as [-> _]. done.
Qed.

(** C3. No crash.  In every state the demo system reaches, from boot through any
    interleaving of its tasks, of interrupts on both harts and of watchdog
    iterations, as long as the watchdog has not terminated a task that hart 1 was
    running: each hart runs a task that is Ready or Running, and every trap it can
    take there (the system call its task makes next, its fault, a timer or a
    software interrupt) returns, whatever the memory, to a state of the system.  In
    particular no unlock call panics the kernel. *)
Theorem tasks_never_crash s h mcause save c E sp start_cycle m :
  total s → overrun s = false → layout E = L → mem_wf m → raises (running s h) mcause save c →
  (∃ t, task_of h (current h (kern s)) (kern s) = Some t ∧ (state t = Ready ∨ state t = Running)) ∧
  ∃ sp' k', trap_handler E h mcause sp start_cycle (set_ram (save sp m) (kern s)) = Done (sp', k') ∧
    total (goes s h c k').
Proof.
  intros Ht Ho HL Hm Hr. destruct (total_safe s Ht) as [Hi Hu Hc Hs]. specialize (Hs Ho). split.
  - destruct Hs as (_ & _ & Hrest & _). specialize (Hrest h). unfold at_rest in Hrest. cbn in Hrest.
    destruct (task_of h (current h (kern s)) (kern s)) as [t|]; [|by destruct Hrest].
    exists t. split; [done|]. cbn in Hrest. destruct Hrest; [left|right]; congruence.
  - destruct (trap_synced E h mcause save c sp start_cycle m (kern s) (code s) HL Hi Hu Hc Hs Hm Hr)
      as (sp' & k' & Htr & _).
    exists sp', k'. split; [done|]. eapply total_next; [done|]. by eapply ts_trap.
Qed.

(** C4. Mutual exclusion.  Under the same conditions, a task that has returned
    from its lock call, has not yet called unlock and has not been terminated is
    the owner recorded in mutex 0, and no other such task is in its critical
    section. *)
Theorem critical_sections_exclude s h i t :
  total s → overrun s = false → task_of h i (kern s) = Some t → state t ≠ Terminated →
  in_section (code s h i) = true →
  (∃ mx, mutex_of 0 (kern s) = Some mx ∧ locked mx = true ∧ owner_task_idx mx = Some (Z.of_nat i)) ∧
  ∀ h' i' t', task_of h' i' (kern s) = Some t' → state t' ≠ Terminated →
    in_section (code s h' i') = true → h' = h ∧ i' = i.
Proof.
  intros Htot Ho Ht Hlive Hin. destruct (total_safe s Htot) as [Hi _ _ Hs].
  destruct (Hs Ho) as (ph & Hok & _ & Hf).
  assert (Hown : ∀ h' i' t', task_of h' i' (kern s) = Some t' → state t' ≠ Terminated →
    in_section (code s h' i') = true → locker h' i' = true ∧ own (abs (kern s)) 0 = Some (Some i')).
  { intros h' i' t' Ht' Hl' Hin'. pose proof (section_held _ _ _ _ (Hf h' i') Hin') as Hp.
    split; [apply (wo_locker _ _ Hok); congruence|].
    pose proof (wo_tied _ _ Hok h' i') as Hti. rewrite Hp in Hti.
    destruct Hti as [_ [?|Hti]]; [done|]. cbn in Hti. rewrite Ht' in Hti. cbn in Hti. congruence. }
  destruct (Hown _ _ _ Ht Hlive Hin) as [Hl Hoi]. split.
  - destruct (own_abs_inv L (kern s) Hi 0 i Hoi) as (mx & ? & ? & ?). by exists mx.
  - intros h' i' t' Ht' Hl' Hin'. destruct (Hown _ _ _ Ht' Hl' Hin') as [Hl2 Hoi'].
    rewrite Hoi in Hoi'. injection Hoi' as <-. split; [|done]. by apply (locker_unique h' h i).
Qed.
End compose.

(** ** Executable runs *)

Inductive deed :=
  | DoTrap (h : hart) (mcause sp : Z)
  | DoReturn (h : hart) (r : Z)
  | DoLocal (h : hart)
  | DoWatchdog (sp : Z).

(** The trap a task raises, if it can. *)
Definition raised (c : cont) (mcause : Z) : option ((Z → Mem → Mem) * cont) :=
  if (mcause =? TIMER_INTERRUPT) || (mcause =? SOFTWARE_INTERRUPT) then Some (λ _ m, m, c)
  else match c with
       | Run (Sys n a0 a1 a2 k) =>
           if mcause =? ECALL_UMODE then Some (λ sp, syscall_frame sp n a0 a1 a2, Ret n k) else None
       | Run (Fault cause k) => if mcause =? cause then Some (λ _ m, m, Run (Fault cause k)) else None
       | _ => None
       end.

Definition sample_buffers : Buffers :=
  mkBuffers 0x3FC80600 0x3FC80620 0x3FC80660 0x3FC80630 0x3FC80640 0x3FC80A00 0x3FC81200 0x3FC81220.

Definition sample_program : hart → nat → Z → prog :=
  program Fips180.sha256 (λ _, replicate 16 0) (λ _, test_frame) sample_buffers.

Definition next_local (h : hart) (s : Total) (p : prog) : option prog :=
  match p with
  | Peek _ n c => Some (c (replicate n 0))
  | Poke _ _ c => Some c
  | Cycles c => Some (c 0)
  | ReadTestCounter c => Some (c (TEST_COUNTER (kern s)))
  | Again v => Some (sample_program h (current h (kern s)) v)
  | _ => None
  end.

Local Abbreviation sample_restarts :=
  (restarts Fips180.sha256 (λ _, replicate 16 0) (λ _, test_frame) sample_buffers).

Definition perform (d : deed) (s : Total) : option Total :=
  match d with
  | DoTrap h mcause sp =>
      match raised (running s h) mcause with
      | Some (save, c) =>
          match trap_handler sample_env h mcause sp 6000 (set_ram (save sp ∅) (kern s)) with
          | Done (_, k') => Some (goes s h c k')
          | _ => None
          end
      | None => None
      end
  | DoReturn h r =>
      match running s h with Ret _ k => Some (goes s h (Run (k r)) (kern s)) | _ => None end
  | DoLocal h =>
      match running s h with
      | Run p => match next_local h s p with
                 | Some p' => Some (goes s h (Run p') (set_ram ∅ (kern s)))
                 | None => None
                 end
      | _ => None
      end
  | DoWatchdog sp =>
      match running s H0 with
      | Run (Iteration p) =>
          let k := set_ram ∅ (kern s) in
          match watchdog_kill sample_env sp 6000 k, watchdog_iteration sample_env sample_entries sp 6000 k with
          | Done (_, k1), Done (_, k') =>
              Some (mkTotal k' (set_code H0 (current H0 k) (Run p) (sample_restarts k1 (code s)))
                            (overrun s || kills_running k))
          | _, _ => None
          end
      | _ => None
      end
  end.

Fixpoint performs (l : list deed) (s : Total) : option Total :=
  match l with
  | [] => Some s
  | d :: l => match perform d s with Some s' => performs l s' | None => None end
  end.

Definition total_booted : Total := mkTotal booted (λ h i, Run (sample_program h i 0)) false.

Local Abbreviation sample_total :=
  (total Fips180.sha256 (λ _, replicate 16 0) (λ _, test_frame) sample_buffers sample_layout sample_entries).

Lemma raised_sound c mcause save c' : raised c mcause = Some (save, c') → raises c mcause save c'.
Proof.
  unfold raised. destruct (Z.eqb_spec mcause TIMER_INTERRUPT) as [-> |]; [intros [= <- <-]; constructor|].
  destruct (Z.eqb_spec mcause SOFTWARE_INTERRUPT) as [-> |]; [intros [= <- <-]; constructor|].
  destruct c as [[]|]; cbn [orb]; try discriminate.
  - destruct (Z.eqb_spec mcause ECALL_UMODE) as [-> |]; [|discriminate]. intros [= <- <-]. constructor.
  - destruct (Z.eqb_spec mcause cause) as [-> |]; [|discriminate]. intros [= <- <-]. constructor.
Qed.

Lemma next_local_sound h s p p' :
  next_local h s p = Some p' →
  local Fips180.sha256 (λ _, replicate 16 0) (λ _, test_frame) sample_buffers
    h (current h (kern s)) (kern s) p p'.
Proof.
  destruct p; cbn [next_local]; try discriminate; intros [= <-]; constructor. apply length_replicate.
Qed.

Lemma perform_total d s s' : sample_total s → perform d s = Some s' → sample_total s'.
Proof.
  intros Hs Hp. apply (total_next _ _ _ _ _ _ s); [done|]. revert Hp. destruct d as [h mcause sp|h r|h|sp]; cbn [perform].
  - destruct (raised (running s h) mcause) as [[save c]|] eqn:Hr; [|discriminate].
    destruct (trap_handler _ _ _ _ _ _) as [[sp' k']| |] eqn:Ht; [|discriminate..].
    intros [= <-]. apply raised_sound in Hr.
    exact (ts_trap _ _ _ _ _ _ s sample_env h mcause save c sp 6000 ∅ sp' k' eq_refl mem_wf_empty Hr Ht).
  - destruct (running s h) as [|n k] eqn:Hr; [discriminate|]. intros [= <-]. exact (ts_return _ _ _ _ _ _ s h n k r Hr).
  - destruct (running s h) as [p|] eqn:Hr; [|discriminate].
    destruct (next_local h s p) as [p'|] eqn:Hn; [|discriminate]. intros [= <-].
    exact (ts_local _ _ _ _ _ _ s h p p' ∅ Hr (next_local_sound _ _ _ _ Hn)).
  - destruct (running s H0) as [[]|] eqn:Hr; try discriminate. cbv zeta.
    destruct (watchdog_kill _ _ _ _) as [[[] k1]| |] eqn:Hk; [|discriminate..].
    destruct (watchdog_iteration _ _ _ _ _) as [[[] k']| |] eqn:Hit; [|discriminate..]. intros [= <-].
    exact (ts_watchdog _ _ _ _ _ _ s sample_env k sp 6000 ∅ k1 k' eq_refl mem_wf_empty Hr Hk Hit).
Qed.

Lemma performs_total l s s' : sample_total s → performs l s = Some s' → sample_total s'.
Proof.
  revert s. induction l as [|d l IH]; intros s Hs; cbn [performs]; [by intros [= <-]|].
  destruct (perform d s) as [s1|] eqn:Hd; [|discriminate]. apply IH. by apply (perform_total d s).
Qed.

Lemma booted_total : sample_total total_booted.
Proof.
  destruct (wp_no_panic _ _ _ (kmain_wp Fips180.sha256 sample_env sample_env sample_entries ∅
    (mkPerHart 0 0) (mkPerHart 0 0) (mkPerHart pmp_reset pmp_reset) sample_secure eq_refl
    pmp_reset_reset_ok pmp_reset_reset_ok)) as (r & k & Hk & _).
  unfold total_booted, booted. fold sample_reset in Hk. rewrite Hk.
  exact (total_boot _ _ _ _ sample_layout sample_entries sample_env sample_env ∅ (mkPerHart 0 0) (mkPerHart 0 0)
    (mkPerHart pmp_reset pmp_reset) r k eq_refl eq_refl
    sample_secure pmp_reset_reset_ok pmp_reset_reset_ok Hk).
Qed.

(** Task B waits for a message; Task C takes the mutex and yields to the idle task. *)
Definition c_locks : list deed :=
  [DoTrap H1 ECALL_UMODE 0x3FC80B80; DoLocal H1; DoTrap H1 ECALL_UMODE 0x3FC80F80; DoReturn H1 0;
   DoTrap H1 ECALL_UMODE 0x3FC80F80].

(** [n] timer interrupts on each hart. *)
Definition ticks (n : nat) : list deed :=
  concat (replicate n [DoTrap H0 TIMER_INTERRUPT 0x3FC80380; DoTrap H1 TIMER_INTERRUPT 0x3FC80F80]).

(** Task C is back on hart 1, about to unlock. *)
Definition in_critical : Total :=
  default total_booted (performs (c_locks ++ ticks 100 ++ [DoReturn H1 0]) total_booted).

Lemma default_total l : is_Some (performs l total_booted) →
  sample_total (default total_booted (performs l total_booted)).
Proof. intros [s Hs]. rewrite Hs. exact (performs_total _ _ _ booted_total Hs). Qed.

Definition ran {A} (o : option A) : bool := match o with Some _ => true | None => false end.

Lemma ran_some {A} (o : option A) : ran o = true → is_Some o.
Proof. by destruct o. Qed.

Lemma in_critical_total : sample_total in_critical.
Proof. apply default_total, ran_some. vm_compute. reflexivity. Qed.


Lemma tasks_never_crash_witness :
  ∃ sp' k', trap_handler sample_env H1 ECALL_UMODE 0x3FC80F80 6000
    (set_ram (syscall_frame 0x3FC80F80 4 0 0 0 ∅) (kern in_critical)) = Done (sp', k').
Proof.
  assert (Hraise : ∃ k, running in_critical H1 = Run (Sys 4 0 0 0 k)) by (vm_compute; eexists; reflexivity).
  destruct Hraise as [k Hrun].
  destruct (tasks_never_crash Fips180.sha256 (λ _, replicate 16 0) (λ _, test_frame) sample_buffers
    sample_layout sample_entries in_critical H1 ECALL_UMODE (λ sp, syscall_frame sp 4 0 0 0) (Ret 4 k)
    sample_env 0x3FC80F80 6000 ∅) as (_ & sp' & k' & Ht & _).
  - exact in_critical_total.
  - vm_compute. reflexivity.
  - reflexivity.
  - exact mem_wf_empty.
  - rewrite Hrun. constructor.
  - exists sp', k'. exact Ht.
Defined.

Lemma critical_sections_exclude_witness :
  ∃ t, task_of H1 3 (kern in_critical) = Some t ∧
    (∃ mx, mutex_of 0 (kern in_critical) = Some mx ∧ locked mx = true ∧ owner_task_idx mx = Some 3) ∧
    ∀ h' i' t', task_of h' i' (kern in_critical) = Some t' → state t' ≠ Terminated →
      in_section (code in_critical h' i') = true → h' = H1 ∧ i' = 3%nat.
Proof.
  assert (Ht : ∃ t, task_of H1 3 (kern in_critical) = Some t ∧ state t = Running)
    by (vm_compute; eexists; split; reflexivity).
  destruct Ht as (t & Ht & Hst). exists t. split; [exact Ht|].
  apply (critical_sections_exclude Fips180.sha256 (λ _, replicate 16 0) (λ _, test_frame) sample_buffers
    sample_layout sample_entries in_critical H1 3 t).
  - exact in_critical_total.
  - vm_compute. reflexivity.
  - exact Ht.
  - rewrite Hst. discriminate.
  - vm_compute. reflexivity.
Defined.

(** ** The overrun *)

(** Task C holds the mutex for 1000 ticks without checking in; the HSM checks in;
    the watchdog wakes up and terminates Task C, which hart 1 is running. *)
Definition overrun_run : list deed :=
  c_locks ++ [DoTrap H0 ECALL_UMODE 0x3FC80380] ++ ticks 450 ++ [DoTrap H0 ECALL_UMODE 0x3FC81380] ++
  ticks 60 ++ [DoReturn H0 0; DoReturn H1 0; DoWatchdog 0x3FC80380].

Definition overrun_state : Total := default total_booted (performs overrun_run total_booted).

(** C39. The watchdog can crash the kernel.  The demo system reaches a state in
    which the watchdog has just terminated Task C while hart 1 was running it
    inside its critical section: the recovery has freed the mutex and the restart
    has made the task Ready, but hart 1 goes on with the old code, whose next call,
    the unlock, panics the kernel. *)
Theorem watchdog_overrun_panics :
  total Fips180.sha256 (λ _, replicate 16 0) (λ _, test_frame) sample_buffers sample_layout sample_entries
    overrun_state ∧
  overrun overrun_state = true ∧ current H1 (kern overrun_state) = 3%nat ∧
  (∃ k, running overrun_state H1 = Run (Sys 4 0 0 0 k)) ∧
  (state <$> task_of H1 3 (kern overrun_state)) = Some Ready ∧
  trap_handler sample_env H1 ECALL_UMODE 0x3FC80F80 6000
    (set_ram (syscall_frame 0x3FC80F80 4 0 0 0 ∅) (kern overrun_state)) = Panicked AssertFailed.
Proof.
  split; [apply default_total, ran_some; vm_compute; reflexivity|].
  split_and!; [| |vm_compute; eexists; reflexivity|..]; vm_compute; reflexivity.
Qed.
