(* ===== verification/Protocol.v ===== *)
(** * Protocol: the authentication of Task A's frames by the HSM, end to end

    [Compose] lets memory be arbitrary at every step.  Here the local buffers of the
    tasks are followed exactly, from the task that writes a message through the
    kernel's copy to the task that reads it; only the rest of memory, the value a call
    returns and the schedule stay arbitrary.  The result: whatever the interleaving,
    the restarts and the interrupts, the HSM is only ever asked for Task A's frame and
    never dies, and when Task A compares tags it compares two correct ones. *)
From S2P Require Import Prelude Memory Tcb Bitmap Can Pmp Spinlock Telemetry Kernel.
From S2P Require Import Trap KernelInv TrapInv Security Boot Reach SyscallSpec IpcSpec.
From S2P Require Import Footprint Parking FaultSpec Watchdog AbsSpec Refine Tasks Discipline.
From S2P Require Import IpcMoves Messages Compose Delivery.

Section protocol.
Context (sha256 : list Z → list Z) (frame_bytes : CanFrame → list Z) (read_frame : list Z → CanFrame).
Context (B : Buffers) (L : Layout) (fn : Entries).
Local Abbreviation task_program := (program sha256 frame_bytes read_frame B).
Local Abbreviation verified := (verified sha256 frame_bytes B).
Local Abbreviation message := (message sha256 frame_bytes).
Local Abbreviation area := (area B).
Local Abbreviation inside := (inside B).
Local Abbreviation total := (total sha256 frame_bytes read_frame B L fn).
Local Abbreviation total_step := (total_step sha256 frame_bytes read_frame B L fn).
Local Abbreviation restarts := (restarts sha256 frame_bytes read_frame B).

(** ** The system with its buffers *)

(** A byte of some task's buffers. *)
Definition protected (x : Z) : Prop := ∃ h i, area h i x.

Definition same_buffers (m m' : Mem) : Prop := ∀ x, protected x → load8 m' x = load8 m x.

(** A register frame at [sp] lies outside all buffers. *)
Definition clear (sp : Z) : Prop := ∀ x, near sp x → ¬ protected x.

(** The local steps of a task, with the memory after them. *)
Inductive exact_local (h : hart) (i : nat) (k : Kernel) : prog → prog → Mem → Prop :=
  | el_peek a n c : exact_local h i k (Peek a n c) (c (load_bytes (ram k) a n)) (ram k)
  | el_poke a bs c : exact_local h i k (Poke a bs c) c (store_bytes (ram k) a bs)
  | el_cycles c z : exact_local h i k (Cycles c) (c z) (ram k)
  | el_test_counter c : exact_local h i k (ReadTestCounter c) (c (TEST_COUNTER k)) (ram k)
  | el_again v : exact_local h i k (Again v) (task_program h i v) (ram k).

(** Between two steps only memory outside the buffers changes. *)
Inductive exact_step (s : Total) : Total → Prop :=
  | ex_trap E h mcause save c sp start_cycle m sp' k' :
      layout E = L → mem_wf m → same_buffers (ram (kern s)) m → clear sp →
      raises (running s h) mcause save c →
      trap_handler E h mcause sp start_cycle (set_ram (save sp m) (kern s)) = Done (sp', k') →
      exact_step s (goes s h c k')
  | ex_return h n k r : running s h = Ret n k → exact_step s (goes s h (Run (k r)) (kern s))
  | ex_local h p p' m m' :
      running s h = Run p → exact_local h (current h (kern s)) (kern s) p p' m → same_buffers m m' →
      exact_step s (goes s h (Run p') (set_ram m' (kern s)))
  | ex_watchdog E p sp start_cycle m k1 k' :
      layout E = L → mem_wf m → same_buffers (ram (kern s)) m → clear sp →
      running s H0 = Run (Iteration p) →
      let k := set_ram m (kern s) in
      watchdog_kill E sp start_cycle k = Done (tt, k1) →
      watchdog_iteration E fn sp start_cycle k = Done (tt, k') →
      exact_step s (mkTotal k' (set_code H0 (current H0 k) (Run p) (restarts k1 (code s)))
                            (overrun s || kills_running k)).

Inductive exact : Total → Prop :=
  | exact_boot E0 E1 m i0 c0 p0 sps k :
      layout E0 = L → layout E1 = L → verify_secure_boot sha256 = true →
      pmp_reset_ok (on0 p0) → pmp_reset_ok (on1 p0) →
      kmain sha256 E0 E1 fn (statics m i0 c0 p0) = Done (sps, k) →
      exact (mkTotal k (λ h i, Run (task_program h i 0)) false)
  | exact_next s s' : exact s → exact_step s s' → exact s'.

(** It is the composed system with fewer memories. *)
Lemma exact_local_local h i k p p' m : exact_local h i k p p' m →
  local sha256 frame_bytes read_frame B h i k p p'.
Proof. destruct 1; constructor. apply load_bytes_length. Qed.

Lemma exact_step_total s s' : exact_step s s' → total_step s s'.
Proof.
  destruct 1; [eapply ts_trap; eassumption|eapply ts_return; eassumption|
    eapply ts_local; [eassumption|eapply exact_local_local; eassumption]|eapply ts_watchdog; eassumption].
Qed.

Lemma exact_total s : exact s → total s.
Proof.
  induction 1 as [E0 E1 m i0 c0 p0 sps k H1 H2 H3 H4 H5 H6|s s' _ IH Hs];
    [exact (total_boot _ _ _ _ L fn E0 E1 m i0 c0 p0 sps k H1 H2 H3 H4 H5 H6)|].
  eapply total_next; [exact IH|]. by apply exact_step_total.
Qed.

(** ** Hypotheses on the layout *)

(** The first frames of the tasks that are restarted: Task C's is clear of all
    buffers, the HSM's of those of other tasks. *)
Record placed : Prop := {
  pl_c : clear (initial_sp (TASK_C_STACK L) 1024);
  pl_hsm : ∀ x h i, near (initial_sp (HSM_STACK L) 1024) x → area h i x → h = H0 ∧ i = 4%nat
}.

(** ** The invariant *)

Definition fact_holds (h : hart) (i : nat) (m : Mem) (f : fact) : Prop :=
  inside h i (fst f) (Z.of_nat (length (snd f))) ∧ load_bytes m (fst f) (length (snd f)) = snd f.

Local Abbreviation holds := (holds B).

(** What is known of a task inside a call that has not blocked it on IPC. *)
Definition resumable (h : hart) (i : nat) (c : Z → prog) (m : Mem) : Prop :=
  ∃ β, holds h i β m ∧ ∀ r, verified h i β (c r).

Definition claim (h : hart) (i : nat) (c : cont) (st : option TaskState) (m : Mem) : Prop :=
  match c, st with
  | Run p, _ => (∀ s, st = Some s → on_ipc s = false) ∧ ∃ β, holds h i β m ∧ verified h i β p
  | Ret n c, Some (BlockedOnIpcSend ep addr len) => n = 6 ∧ len = Z.of_nat (length (message ep)) ∧
      ∃ β rest, holds h i β m ∧ (addr, message ep ++ rest) ∈ β ∧ ∀ r, verified h i β (c r)
  | Ret n c, Some (BlockedOnIpcRecv ep addr len) => n = 7 ∧ len = Z.of_nat (length (message ep)) ∧
      inside h i addr len ∧ ∃ β, (∀ r, verified h i β (c r)) ∧
        ∀ f, f ∈ β → f = (addr, message ep) ∨
          disjoint addr len (fst f) (Z.of_nat (length (snd f))) ∧ fact_holds h i m f
  | Ret n c, Some Terminated => (n = 6 ∨ n = 7) ∧ ¬ (h = H1 ∧ i = 3%nat) ∨ resumable h i c m
  | Ret n c, _ => resumable h i c m
  end.

Definition claims (k : Kernel) (f : hart → nat → cont) : Prop :=
  ∀ h i, claim h i (f h i) (state <$> task_of h i k) (ram k).

(** Where the kernel may write results, no buffer lies. *)
Definition parked (k : Kernel) : Prop :=
  ∀ h i t, task_of h i k = Some t →
    on_ipc (state t) = true ∨ queued (abs k) h i ∨ h = H1 ∧ i = 3%nat →
    ∀ x, result_word (saved_sp t) x → ¬ protected x.

Definition endowed (k : Kernel) : Prop := ∀ h i t, task_of h i k = Some t → capabilities t = caps_of h i.

Definition followed (k : Kernel) (f : hart → nat → cont) : Prop := parked k ∧ claims k f.

(** ** Memory *)

Context (Hco : codec sha256 frame_bytes read_frame) (Hbo : buffers_ok B) (Hpl : placed).

Lemma inside_area h i a n x : inside h i a n → a ≤ x < a + n → area h i x.
Proof. intros (b & Hb & H1 & H2) Hx. exists b. split_and!; [done|lia|lia]. Qed.

Lemma inside_protected h i a n x : inside h i a n → a ≤ x < a + n → protected x.
Proof. intros Hi Hx. exists h, i. by eapply inside_area. Qed.

(** A fact survives when the bytes it speaks of do. *)
Lemma fact_kept h i m m' f :
  (∀ x, area h i x → fst f ≤ x < fst f + Z.of_nat (length (snd f)) → load8 m' x = load8 m x) →
  fact_holds h i m f → fact_holds h i m' f.
Proof.
  intros Hx [Hin Hf]. split; [done|]. rewrite <- Hf at 2. apply load_bytes_ext. intros x Hr.
  apply Hx; [by eapply inside_area|done].
Qed.

(** Claims depend on memory through the facts of the task alone. *)
Lemma claim_facts h i c st m m' :
  (∀ f, fact_holds h i m f →
    (∀ ep a n, st = Some (BlockedOnIpcRecv ep a n) → disjoint a n (fst f) (Z.of_nat (length (snd f)))) →
    fact_holds h i m' f) →
  claim h i c st m → claim h i c st m'.
Proof.
  intros Hf.
  assert (Hh : (∀ ep a n, st ≠ Some (BlockedOnIpcRecv ep a n)) → ∀ β, holds h i β m → holds h i β m').
  { intros Hn β Hβ f Hin. apply Hf; [by apply Hβ|]. intros ep a n Hst. by destruct (Hn ep a n). }
  assert (Hr : (∀ ep a n, st ≠ Some (BlockedOnIpcRecv ep a n)) → ∀ c, resumable h i c m → resumable h i c m').
  { intros Hn c' (β & Hβ & Hv). exists β. split; [by apply Hh|done]. }
  destruct c as [p|n c]; cbn [claim].
  - intros [Hst (β & Hβ & Hv)]. split; [done|]. exists β. split; [|done]. apply Hh; [|done].
    intros ep a n ->. by specialize (Hst _ eq_refl).
  - destruct st as [[| |w|mx|ep a len|ep a len|]|]; try (by apply Hr).
    + intros (-> & -> & β & rest & Hβ & H). split_and!; [done..|]. exists β, rest. split; [by apply Hh|done].
    + intros (-> & -> & Hin & β & Hv & H). split_and!; [done..|]. exists β. split; [done|].
      intros f Hfi. destruct (H f Hfi) as [?|[Hd Hh']]; [by left|right]. split; [done|].
      apply Hf; [done|]. by intros ? ? ? [= <- <- <-].
    + intros [?|?]; auto.
Qed.

Lemma claim_buffers h i c st m m' : same_buffers m m' → claim h i c st m → claim h i c st m'.
Proof.
  intros Hs. apply claim_facts. intros f Hf _. apply (fact_kept h i m); [|done].
  intros x Hx _. apply Hs. by exists h, i.
Qed.

(** The buffer of a blocked receiver is its own. *)
Lemma receiver_inside k f h i t ep buf max :
  claims k f → task_of h i k = Some t → state t = BlockedOnIpcRecv ep buf max → inside h i buf max.
Proof.
  intros Hc Ht Hst. specialize (Hc h i). rewrite Ht in Hc. cbn in Hc. rewrite Hst in Hc.
  destruct (f h i) as [p|n c]; cbn in Hc.
  - destruct Hc as [Hc _]. by specialize (Hc _ eq_refl).
  - by destruct Hc as (_ & _ & ? & _).
Qed.

(** ** What a trap leaves of the buffers *)

Lemma waiter_queued k t :
  one_queue (abs k) → mutex_waiter k t → ∃ w, task_of (home w) w k = Some t ∧ queued (abs k) (home w) w.
Proof.
  intros Hq (m & mx & w & Hm & Hw & Ht). exists w. split; [done|]. split; [done|].
  assert (Hwt : wait (abs k) m w = true) by (cbn; by rewrite Hm).
  destruct (decide (m = 0%nat)) as [-> |Hne]; [done|]. by rewrite Hq in Hwt.
Qed.

Lemma trap_byte E h mcause sp start_cycle k sp' k' x :
  trap_handler E h mcause sp start_cycle k = Done (sp', k') → clear sp → parked k → one_queue (abs k) →
  protected x →
  (∀ h' i t ep buf max, task_of h' i k = Some t → state t = BlockedOnIpcRecv ep buf max →
    ¬ buf ≤ x < buf + max) →
  (mcause = ECALL_UMODE → frame_read (ram k) sp A7 = 7 →
    ¬ frame_read (ram k) sp A1 ≤ x < frame_read (ram k) sp A1 + frame_read (ram k) sp A2) →
  load8 (ram k') x = load8 (ram k) x.
Proof.
  intros Ht Hcl Hp Hq Hx Hrecv Hown. apply (changes_in_footprint E h mcause sp start_cycle k sp'); [done|].
  intros [_ Hn|_ Hn|Hc [t _ Hw Hr|t buf max _ (h' & i & ep & Hti & Hst) Hr|t H7 (h' & i & ep & a & n & Hti & Hst) Hr]].
  - by apply (Hcl x); [apply call_word_near|].
  - by apply (Hcl x).
  - destruct (waiter_queued k t Hq Hw) as (w & Htw & Hqw). by apply (Hp _ _ _ Htw (or_intror (or_introl Hqw)) x).
  - destruct Hr as [Hr|Hr]; [apply (Hp _ _ _ Hti) in Hr; [done|left; by rewrite Hst]|].
    apply (Hrecv _ _ _ _ _ _ Hti Hst). lia.
  - destruct Hr as [Hr|Hr]; [apply (Hp _ _ _ Hti) in Hr; [done|left; by rewrite Hst]|]. by apply Hown.
Qed.

(** The registers of a call with its second and third argument. *)
Lemma call_regs sp n x0 x1 x2 m :
  let m' := syscall_frame sp n x0 x1 x2 m in
  frame_read m' sp A7 = u32 n ∧ frame_read m' sp A0 = u32 x0 ∧
  frame_read m' sp A1 = u32 x1 ∧ frame_read m' sp A2 = u32 x2.
Proof.
  cbv zeta. destruct (syscall_frame_regs sp n x0 x1 x2 m) as [-> ->]. unfold syscall_frame. split_and!; [done|done|..].
  - rewrite (frame_read_write_ne _ _ _ A1) by done. apply frame_read_write_eq.
  - apply frame_read_write_eq.
Qed.

(** Saving registers changes no buffer. *)
Lemma save_buffers c mcause save c' sp m :
  raises c mcause save c' → clear sp → same_buffers m (save sp m).
Proof.
  intros Hr Hcl. destruct Hr; [|done..]. intros x Hx. unfold syscall_frame.
  assert (Hn : ∀ i : nat, (i < 32)%nat → ¬ (sp + 4 * Z.of_nat i ≤ x < sp + 4 * Z.of_nat i + 4)).
  { intros i Hi Hr. apply (Hcl x); [|done]. unfold near. lia. }
  rewrite !load8_frame_write_out; [done|..]; apply Hn; unfold A0, A1, A2, A7; lia.
Qed.

(** ** Claims *)

Lemma claim_resumable h i n c st m :
  (∀ s, st = Some s → on_ipc s = false) → resumable h i c m → claim h i (Ret n c) st m.
Proof.
  intros Hs Hr. destruct st as [[]|]; cbn [claim]; try done; [by specialize (Hs _ eq_refl)..|by right].
Qed.

Lemma claim_unsettled h i n c st m :
  (∀ s, st = Some s → settled s = false) → claim h i (Ret n c) st m → resumable h i c m.
Proof. intros Hs Hc. destruct st as [[]|]; cbn in Hc; try done; by specialize (Hs _ eq_refl). Qed.

(** Task C has no buffers. *)
Lemma c_no_buffers a n : ¬ inside H1 3 a n.
Proof. intros (b & Hb & _). by apply not_elem_of_nil in Hb. Qed.

(** A task that waits for the mutex is not inside an IPC call. *)
Lemma queued_resumable k f ph h i c n st m :
  world_ok (abs k) ph → (∀ h i, follows h i (ph h i) (f h i)) → queued (abs k) h i → f h i = Ret n c →
  claim h i (Ret n c) (Some st) m → settled st = true → st = Terminated ∧ resumable h i c m.
Proof.
  intros Hok Hf [Hh Hw] Hc Hcl Hst. destruct (wo_wait _ _ Hok i Hw) as [Hl Hph]. rewrite Hh in Hl, Hph.
  assert (Hn : (n = 6 ∨ n = 7) → h = H1 ∧ i = 3%nat).
  { intros Hn. destruct h.
    - specialize (Hf H0 i). rewrite Hph, Hc in Hf by done. destruct Hf as [-> _]. lia.
    - split; [done|]. destruct (locker_home H1 i Hl) as [Hh1 [-> | ->]]; done. }
  destruct st; try done; cbn in Hcl.
  - destruct Hcl as (-> & _ & β & rest & Hβ & Hin & _). destruct (Hn ltac:(auto)) as [-> ->].
    destruct (Hβ _ Hin) as [Hins _]. by apply c_no_buffers in Hins.
  - destruct Hcl as (-> & _ & Hins & _). destruct (Hn ltac:(auto)) as [-> ->]. by apply c_no_buffers in Hins.
  - split; [done|]. destruct Hcl as [[H67 Hno]|?]; [|done]. by destruct Hno; apply Hn.
Qed.

(** ** A trap *)

Section trap.
Context (E : Env) (h : hart) (mcause sp start_cycle : Z) (k : Kernel) (sp' : Z) (k' : Kernel).
Context (f : hart → nat → cont) (ph : hart → nat → phase).
Context (Ht : trap_handler E h mcause sp start_cycle k = Done (sp', k')) (Hcl : clear sp).
Context (Hok : world_ok (abs k) ph) (Hrest : rests (abs k)) (Hf : ∀ h' i, follows h' i (ph h' i) (f h' i)).
Context (Hpark : parked k) (Hclaims : claims k f).
Context (Heff : ipc_effect h (trap_event h mcause sp k) (abs k) (abs k')).
Local Abbreviation c := (current h k).
Local Abbreviation a1 := (frame_read (ram k) sp A1).
Local Abbreviation a2 := (frame_read (ram k) sp A2).
Context (Hown : mcause = ECALL_UMODE → frame_read (ram k) sp A7 = 7 → inside h c a1 a2).
Context (Hserved : ∀ h' i t ep buf n, task_of h' i k = Some t → state t = BlockedOnIpcRecv ep buf n →
  state <$> task_of h' i k' = Some Ready → serves (trap_event h mcause sp k) (state t) →
  load_bytes (ram k') buf (length (message ep)) = message ep).

(** Facts a task has that no delivery concerns stay. *)
Lemma trap_fact h' i fa :
  fact_holds h' i (ram k) fa →
  (∀ ep a n, state <$> task_of h' i k = Some (BlockedOnIpcRecv ep a n) →
    disjoint a n (fst fa) (Z.of_nat (length (snd fa)))) →
  (h' = h → i = c → mcause = ECALL_UMODE → frame_read (ram k) sp A7 = 7 →
    disjoint a1 a2 (fst fa) (Z.of_nat (length (snd fa)))) →
  fact_holds h' i (ram k') fa.
Proof.
  intros Hfa Hrecv Hmine. apply (fact_kept h' i (ram k)); [|done]. intros x Hx Hin.
  apply (trap_byte E h mcause sp start_cycle k sp'); try done; [exact (wo_only _ _ Hok)|by exists h', i|..].
  - intros h2 i2 t ep buf n Hti Hst Hb.
    pose proof (receiver_inside _ _ _ _ _ _ _ _ Hclaims Hti Hst) as Hins.
    destruct (bo_tasks _ Hbo h2 i2 h' i x) as [-> ->]; [by eapply inside_area|done|].
    specialize (Hrecv ep buf n). rewrite Hti in Hrecv. cbn in Hrecv. rewrite Hst in Hrecv.
    specialize (Hrecv eq_refl). unfold disjoint in Hrecv. lia.
  - intros Hc H7 Hb. destruct (bo_tasks _ Hbo h c h' i x) as [<- <-]; [eapply inside_area; [by apply Hown|done]|done|].
    specialize (Hmine eq_refl eq_refl Hc H7). unfold disjoint in Hmine. lia.
Qed.

(** The task a hart runs is not settled. *)
Lemma current_unsettled s : state <$> task_of h c k = Some s → settled s = false.
Proof.
  intros Hs. change (state <$> task_of h c k) with (st (abs k) h (cur (abs k) h)) in Hs.
  destruct (Hrest h) as [H|H]; rewrite Hs in H; by injection H as ->.
Qed.

Lemma others_not_ipc h' i s0 :
  ¬ (h' = h ∧ i = c) → (∀ s, state <$> task_of h' i k = Some s → on_ipc s = false) →
  state <$> task_of h' i k' = Some s0 → on_ipc s0 = false.
Proof.
  intros Hn Hs Hs0. apply not_true_iff_false. intros Hi.
  destruct (ie_back _ _ _ _ Heff h' i s0 Hs0 Hi) as [Hb|(-> & -> & _)]; [|by apply Hn].
  by rewrite (Hs _ Hb) in Hi.
Qed.

Lemma trap_others h' i : ¬ (h' = h ∧ i = c) → claim h' i (f h' i) (state <$> task_of h' i k') (ram k').
Proof.
  intros Hn. specialize (Hclaims h' i) as Hcl0.
  assert (Hkeep : ∀ fa, fact_holds h' i (ram k) fa →
    (∀ ep a n, state <$> task_of h' i k = Some (BlockedOnIpcRecv ep a n) →
      disjoint a n (fst fa) (Z.of_nat (length (snd fa)))) → fact_holds h' i (ram k') fa).
  { intros fa H1 H2. apply trap_fact; [done|done|]. intros -> ->. by destruct Hn. }
  assert (Hres : ∀ c0, (∀ s, state <$> task_of h' i k = Some s → on_ipc s = false) →
    resumable h' i c0 (ram k) → resumable h' i c0 (ram k')).
  { intros c0 Hs (β & Hβ & Hv). exists β. split; [|done]. intros fa Hfa. apply Hkeep; [by apply Hβ|].
    intros ep a n Hst. by specialize (Hs _ Hst). }
  destruct (f h' i) as [p|n c0] eqn:Hc.
  { pose proof (claim_facts h' i (Run p) _ _ _ Hkeep Hcl0) as [Hs Hv]. split; [|done].
    intros s. apply (others_not_ipc h' i s Hn). exact Hs. }
  assert (Hplain : ∀ c0, (∀ s, state <$> task_of h' i k = Some s → on_ipc s = false) →
    resumable h' i c0 (ram k) → claim h' i (Ret n c0) (state <$> task_of h' i k') (ram k')).
  { intros c1 Hs Hr. apply claim_resumable; [|by apply Hres]. intros s. by apply others_not_ipc. }
  destruct (state <$> task_of h' i k) as [s|] eqn:Hs.
  2: { apply Hplain; [done|]. by apply (claim_unsettled h' i n c0 None). }
  destruct (settled s) eqn:Hset.
  2: { apply Hplain; [intros ? [= <-]; by destruct s|]. apply (claim_unsettled h' i n c0 (Some s)); [|done].
       by intros ? [= <-]. }
  destruct (decide (home i = h' ∧ wait (abs k) 0 i = true)) as [Hq|Hq].
  { destruct (queued_resumable k f ph h' i c0 n s (ram k)) as [-> Hr]; try done.
    apply Hplain; [by intros ? [= <-]|done]. }
  destruct (ie_settled _ _ _ _ Heff h' i s Hs Hset Hq) as [Hs'|[Hs' Hserve]]; cbn in Hs'; rewrite Hs'.
  { by apply (claim_facts h' i (Ret n c0) (Some s) (ram k)). }
  apply claim_resumable; [by intros ? [= <-]|].
  destruct (task_of h' i k) as [t|] eqn:Hti; [|done]. injection Hs as Hst.
  destruct s as [| |w|mx|ep a len|ep a len|]; try done.
  - destruct Hcl0 as (_ & _ & β & rest & Hβ & _ & Hv). exists β. split; [|done].
    intros fa Hfa. apply Hkeep; [by apply Hβ|done].
  - destruct Hcl0 as (_ & -> & Hins & β & Hv & Hβ). exists β. split; [|done]. intros fa Hfa.
    destruct (Hβ fa Hfa) as [-> |[Hd Hh]]; [|apply Hkeep; [done|by intros ? ? ? [= <- <- <-]]].
    split; [done|]. rewrite <- Hst in Hserve. by apply (Hserved h' i t ep a (Z.of_nat (length (message ep)))).
  - by destruct (trap_event h mcause sp k); cbn in Hserve; try destruct Hserve as (? & _ & ?).
Qed.

(** The trapping task keeps its facts, unless it receives. *)
Lemma own_facts β :
  holds h c β (ram k) → ¬ (mcause = ECALL_UMODE ∧ frame_read (ram k) sp A7 = 7) → holds h c β (ram k').
Proof.
  intros Hβ H7 fa Hfa. apply trap_fact; [by apply Hβ| |by intros _ _ ? ?; destruct H7].
  intros ep a n Hs. by apply current_unsettled in Hs.
Qed.

(** The state it is left in. *)
Lemma own_ipc s :
  state <$> task_of h c k' = Some s → on_ipc s = true → mine (trap_event h mcause sp k) s.
Proof.
  intros Hs Hi. destruct (ie_back _ _ _ _ Heff h c s Hs Hi) as [Hb|(_ & _ & ?)]; [|done].
  apply current_unsettled in Hb. by destruct s.
Qed.

Lemma own_run p β :
  (∀ s, ¬ mine (trap_event h mcause sp k) s) → mcause ≠ ECALL_UMODE →
  holds h c β (ram k) → verified h c β p → claim h c (Run p) (state <$> task_of h c k') (ram k').
Proof.
  intros Hm Hc Hβ Hv. split.
  - intros s Hs. apply not_true_iff_false. intros Hi. by eapply Hm, own_ipc.
  - exists β. split; [|done]. apply own_facts; [done|]. by intros [? _].
Qed.

Lemma own_ret n q :
  (∀ s, ¬ mine (trap_event h mcause sp k) s) → ¬ (mcause = ECALL_UMODE ∧ frame_read (ram k) sp A7 = 7) →
  resumable h c q (ram k) → claim h c (Ret n q) (state <$> task_of h c k') (ram k').
Proof.
  intros Hm H7 (β & Hβ & Hv). apply claim_resumable.
  - intros s Hs. apply not_true_iff_false. intros Hi. by eapply Hm, own_ipc.
  - exists β. split; [|done]. by apply own_facts.
Qed.

(** A task that waits for the mutex does not run, Task C excepted. *)
Lemma queued_not_running k1 ph1 h' :
  world_ok (abs k1) ph1 → rests (abs k1) → queued (abs k1) h' (current h' k1) → h' = H1 ∧ current h' k1 = 3%nat.
Proof.
  intros Hok1 Hrest1 [Hh Hw]. destruct (wo_wait _ _ Hok1 _ Hw) as [Hl Hph]. rewrite Hh in Hl, Hph.
  destruct h'.
  - pose proof (wo_tied _ _ Hok1 H0 (current H0 k1)) as Hti. rewrite Hph in Hti by done.
    destruct Hti as [[_ Hst]|[Hw' _]]; [|congruence]. specialize (Hrest1 H0). unfold at_rest in Hrest1.
    change (cur (abs k1) H0) with (current H0 k1) in Hrest1. destruct Hst, Hrest1; congruence.
  - split; [done|]. by destruct (locker_home H1 (current H1 k1) Hl) as [Hh1 [He|He]]; rewrite He in *.
Qed.

(** No result is written to a buffer later. *)
Lemma trap_parked ph1 : world_ok (abs k') ph1 → rests (abs k') → parked k'.
Proof.
  intros Hok1 Hrest1 h' i t' Ht' Hcase x Hx.
  assert (Hpk : parks h sp k k').
  { pose proof (trap_parking E h sp mcause start_cycle k) as Hp. unfold pwp in Hp. rewrite Ht in Hp. exact Hp. }
  assert (Hst : st (abs k') h' i = Some (state t')) by (cbn; by rewrite Ht').
  assert (Hold : sp_of h' i k' = sp_of h' i k →
    st (abs k) h' i = Some (state t') ∧ on_ipc (state t') = true ∨ queued (abs k) h' i ∨ h' = H1 ∧ i = 3%nat →
    ¬ protected x).
  { intros Hsp Hq. unfold sp_of in Hsp. rewrite Ht' in Hsp. cbn in Hq. destruct (task_of h' i k) as [t|] eqn:Hti; [|done].
    injection Hsp as Hsp. rewrite Hsp in Hx. apply (Hpark _ _ _ Hti); [|done].
    destruct Hq as [[[= <-] ?]|?]; auto. }
  destruct (decide (h' = h ∧ i = c)) as [[-> ->]|Hn].
  - destruct (pk_self _ _ _ _ Hpk) as [[Hsp Hcur]|[Hsp|Hnone]].
    + apply Hold; [done|]. right; right. destruct Hcase as [Hi|[Hq|Hc]]; [exfalso|..|done].
      * specialize (Hrest1 h). unfold at_rest in Hrest1. change (cur (abs k') h) with (current h k') in Hrest1.
        rewrite Hcur, Hst in Hrest1. by destruct Hrest1 as [[= He]|[= He]]; rewrite He in Hi.
      * rewrite <- Hcur in Hq |- *. by apply (queued_not_running k' ph1).
    + unfold sp_of in Hsp. rewrite Ht' in Hsp. injection Hsp as Hsp. rewrite Hsp in Hx. apply Hcl.
      unfold near, result_word in *. lia.
    + specialize (Hrest h). unfold at_rest in Hrest. cbn in Hrest. fold (current h k) in Hrest.
      rewrite Hnone in Hrest. by destruct Hrest.
  - apply Hold; [by apply (pk_other _ _ _ _ Hpk)|]. destruct Hcase as [Hi|[Hq|Hc]]; [..|by right; right].
    + destruct (ie_back _ _ _ _ Heff h' i _ Hst Hi) as [Hb|(-> & -> & _)]; [by left|by destruct Hn].
    + right; left. destruct Hq as [Hh Hw]. destruct (ie_wait _ _ _ _ Heff i Hw) as [?|[-> Hh']]; [by split|].
      destruct Hn. split; [congruence|done].
Qed.

(** ** Sends and receives *)

Context (Hready : ready_for E h k) (Hwf : mem_wf (ram k)).

Lemma current_runnable : runnable <$> (state <$> task_of h c k) = Some true.
Proof.
  specialize (Hrest h). unfold at_rest in Hrest. change (st (abs k) h (cur (abs k) h)) with (state <$> task_of h c k) in Hrest.
  by destruct Hrest as [-> | ->].
Qed.

Lemma holds_protected h' i β m a bs x :
  holds h' i β m → (a, bs) ∈ β → a ≤ x < a + Z.of_nat (length bs) → protected x.
Proof. intros Hβ Hin Hx. destruct (Hβ _ Hin) as [Hins _]. by eapply inside_protected. Qed.

(** The first bytes of a fact. *)
Lemma holds_prefix h' i β m a bs rest :
  holds h' i β m → (a, bs ++ rest) ∈ β → load_bytes m a (length bs) = bs.
Proof.
  intros Hβ Hin. destruct (Hβ _ Hin) as [_ Hl]. cbn [fst snd] in Hl.
  rewrite length_app, load_bytes_app in Hl. by apply app_inj_1 in Hl as [? _]; [|rewrite load_bytes_length].
Qed.

(** A receiver that a send wakes has the message of its endpoint. *)
Lemma send_served ep cr β rest :
  mcause = ECALL_UMODE → frame_read (ram k) sp A7 = 6 → cap_at h (frame_read (ram k) sp A0) k = CapIpc ep true cr →
  a2 = Z.of_nat (length (message ep)) → holds h c β (ram k) → (a1, message ep ++ rest) ∈ β →
  ∀ h' i t ep' buf n, task_of h' i k = Some t → state t = BlockedOnIpcRecv ep' buf n →
    state <$> task_of h' i k' = Some Ready → load_bytes (ram k') buf (length (message ep')) = message ep'.
Proof.
  intros Hm H6 Hcap Ha2 Hβ Hin h' i t ep' buf n Hti Hst Hrdy. pose proof Ht as Htr. rewrite Hm in Htr.
  pose proof (receiver_inside _ _ _ _ _ _ _ _ Hclaims Hti Hst) as Hins.
  assert (Hn : n = Z.of_nat (length (message ep'))).
  { specialize (Hclaims h' i) as Hc. rewrite Hti in Hc. cbn in Hc. rewrite Hst in Hc.
    destruct (f h' i); [by destruct Hc as [Hc _]; specialize (Hc _ eq_refl)|by destruct Hc as (_ & ? & _)]. }
  destruct (send_content E h sp start_cycle k sp' k' Hready Hwf Htr ep cr h' i t ep' buf n) as [-> Hl]; try done.
  - apply current_runnable.
  - lia.
  - intros x Hx Hnear. apply (Hcl x Hnear). eapply holds_protected; [done|done|]. rewrite length_app. lia.
  - intros x Hx. assert (Hp : protected x) by (eapply inside_protected; [done|lia]).
    split; [intros Hnear; by apply (Hcl x)|]. intros Hw. apply (Hpark _ _ _ Hti) in Hw; [done|]. left. by rewrite Hst.
  - rewrite Ha2, Hn, Z.min_id, Nat2Z.id in Hl. rewrite Hl. by eapply holds_prefix.
Qed.

(** The claim of a task that has called receive. *)
Lemma recv_claim ep cs β β' q :
  mcause = ECALL_UMODE → frame_read (ram k) sp A7 = 7 → cap_at h (frame_read (ram k) sp A0) k = CapIpc ep cs true →
  a2 = Z.of_nat (length (message ep)) → inside h c a1 a2 → holds h c β (ram k) → gains a1 (message ep) β β' →
  (∀ r, verified h c β' (q r)) → claim h c (Ret 7 q) (state <$> task_of h c k') (ram k').
Proof.
  intros Hm H7 Hcap Ha2 Hins Hβ Hg Hv.
  assert (Hkept : ∀ fa, fa ∈ β' → fa = (a1, message ep) ∨
    disjoint a1 a2 (fst fa) (Z.of_nat (length (snd fa))) ∧ fact_holds h c (ram k') fa).
  { intros fa Hfa. destruct (Hg fa Hfa) as [?|[Hin Hd]]; [by left|right]. rewrite <- Ha2 in Hd. split; [done|].
    apply trap_fact; [by apply Hβ| |done]. intros ep' a n Hs. by apply current_unsettled in Hs. }
  assert (Hblocked : claim h c (Ret 7 q) (Some (BlockedOnIpcRecv ep a1 a2)) (ram k')).
  { cbn [claim]. split_and!; [done..|]. by exists β'. }
  pose proof Ht as Htr. rewrite Hm in Htr.
  destruct (recv_content E h sp start_cycle k sp' k' Hready Hwf Htr ep cs) as [Hb|Hc]; try done.
  - apply current_runnable.
  - intros x Hx Hnear. apply (Hcl x Hnear). by eapply inside_protected.
  - intros h' i t msg len Hti Hst. specialize (Hclaims h' i) as Hc. rewrite Hti in Hc. cbn in Hc. rewrite Hst in Hc.
    destruct (f h' i) as [p|n c0]; [by destruct Hc as [Hc _]; specialize (Hc _ eq_refl)|].
    destruct Hc as (_ & -> & β2 & rest & Hβ2 & Hin & _). split_and!; [lia|..].
    + intros x Hx Hnear. apply (Hcl x Hnear). eapply holds_protected; [done|done|]. rewrite length_app. lia.
    + intros x Hx Hw. apply (Hpark _ _ _ Hti) in Hw; [|left; by rewrite Hst]. apply Hw.
      eapply inside_protected; [done|]. lia.
  - by rewrite Hb.
  - destruct Hc as (h' & i & t & msg & len & Hti & Hst & Hl).
    assert (Hmsg : load_bytes (ram k') a1 (length (message ep)) = message ep).
    { specialize (Hclaims h' i) as Hc. rewrite Hti in Hc. cbn in Hc. rewrite Hst in Hc.
      destruct (f h' i) as [p|n c0]; [by destruct Hc as [Hc _]; specialize (Hc _ eq_refl)|].
      destruct Hc as (_ & -> & β2 & rest & Hβ2 & Hin & _). rewrite Ha2, Z.min_id, Nat2Z.id in Hl. rewrite Hl.
      by eapply holds_prefix. }
    assert ((∃ s, state <$> task_of h c k' = Some s ∧ on_ipc s = true) ∨
      ∀ s, state <$> task_of h c k' = Some s → on_ipc s = false) as [(s & Hs & Hi)|Hn].
    { destruct (state <$> task_of h c k') as [s|]; [destruct (on_ipc s) eqn:Hi|by right]; [left; eauto|right].
      by intros ? [= <-]. }
    + assert (Hm' : mine (ERecv (CapIpc ep cs true) a1 a2) s).
      { rewrite <- Hcap. pose proof (own_ipc s Hs Hi) as Hm'. unfold trap_event, call_event in Hm'.
        rewrite Hm, H7 in Hm'. exact Hm'. }
      destruct Hm' as (ep' & [= <-] & ->). by rewrite Hs.
    + apply claim_resumable; [done|]. exists β'. split; [|done]. intros fa Hfa.
      destruct (Hkept fa Hfa) as [-> |[_ ?]]; [|done]. split; [|done]. cbn [fst snd]. by rewrite <- Ha2.
Qed.
End trap.

Lemma cap_at_of k h x0 :
  endowed k → 0 ≤ x0 < 8 → is_Some (task_of h (current h k) k) →
  cap_at h x0 k = cap_of h (current h k) x0.
Proof.
  intros Hc Hx [t Ht]. unfold cap_at, cap_of. rewrite (proj2 (Z.ltb_lt _ _)) by lia.
  unfold current in Ht. rewrite Ht. by rewrite (Hc _ _ _ Ht).
Qed.

Lemma sends_inv cap ep : sends cap = Some ep → ∃ cr, cap = CapIpc ep true cr.
Proof. destruct cap as [| |ep' [] cr]; try done. intros [= ->]. eauto. Qed.
Lemma receives_inv cap ep : receives cap = Some ep → ∃ cs, cap = CapIpc ep cs true.
Proof. destruct cap as [| |ep' cs []]; try done. intros [= ->]. eauto. Qed.

(** Only a send serves a receiver. *)
Lemma serves_receiver ev ep buf n : serves ev (BlockedOnIpcRecv ep buf n) → ∃ cap a l, ev = ESend cap a l.
Proof. destruct ev; cbn; try done; [eauto|]. by intros (? & _ & ?). Qed.

(** What the code of the task that a hart runs may rely on. *)
Definition relies (h : hart) (i : nat) (c : cont) (m : Mem) : Prop :=
  match c with
  | Run p => ∃ β, holds h i β m ∧ verified h i β p
  | Ret _ q => resumable h i q m
  end.

(** What a trap leaves of the claims, when what it sends or receives is in order. *)
Section step.
Context (E : Env) (h : hart) (mcause sp start_cycle : Z) (k : Kernel) (sp' : Z) (k' : Kernel).
Context (f : hart → nat → cont) (ph : hart → nat → phase).
Context (Ht : trap_handler E h mcause sp start_cycle k = Done (sp', k')) (Hcl : clear sp).
Context (Hok : world_ok (abs k) ph) (Hrest : rests (abs k)) (Hf : ∀ h' i, follows h' i (ph h' i) (f h' i)).
Context (Hpark : parked k) (Hclaims : claims k f) (Hcaps : endowed k).
Context (Heff : ipc_effect h (trap_event h mcause sp k) (abs k) (abs k')).
Context (Hready : ready_for E h k) (Hwf : mem_wf (ram k)).
Local Abbreviation c := (current h k).

Lemma claims_after c' :
  (mcause = ECALL_UMODE → frame_read (ram k) sp A7 = 7 →
    inside h c (frame_read (ram k) sp A1) (frame_read (ram k) sp A2)) →
  (∀ h' i t ep buf n, task_of h' i k = Some t → state t = BlockedOnIpcRecv ep buf n →
    state <$> task_of h' i k' = Some Ready → serves (trap_event h mcause sp k) (state t) →
    load_bytes (ram k') buf (length (message ep)) = message ep) →
  claim h c c' (state <$> task_of h c k') (ram k') → claims k' (set_code h c c' f).
Proof.
  intros Hown Hserved Hc h' i. unfold set_code. case_decide as Hd; [by destruct Hd as [<- <-]|].
  eapply trap_others; try done. intros [-> ->]. by apply Hd.
Qed.

Lemma current_some : is_Some (task_of h c k).
Proof.
  specialize (Hrest h). unfold at_rest in Hrest. change (st (abs k) h (cur (abs k) h)) with (state <$> task_of h c k) in Hrest.
  by destruct (task_of h c k); [|destruct Hrest].
Qed.

(** An interrupt or a fault. *)
Lemma quiet_event :
  mcause ≠ ECALL_UMODE →
  (∀ s, ¬ mine (trap_event h mcause sp k) s) ∧ ∀ cap a l, trap_event h mcause sp k ≠ ESend cap a l.
Proof.
  intros Hm. unfold trap_event. rewrite (proj2 (Z.eqb_neq mcause ECALL_UMODE)) by done.
  repeat case_match; (split; [intros s Hs; exact Hs|discriminate]).
Qed.

Lemma quiet_step c' : mcause ≠ ECALL_UMODE → relies h c c' (ram k) → claims k' (set_code h c c' f).
Proof.
  intros Hm Hc. destruct (quiet_event Hm) as [Hmine Hns]. apply claims_after; [done|..].
  - intros h' i t ep buf n _ Hst _ Hs. rewrite Hst in Hs. apply serves_receiver in Hs as (? & ? & ? & Hs).
    by apply Hns in Hs.
  - destruct c' as [p|n q]; [destruct Hc as (β & Hβ & Hv); by eapply own_run|]. eapply own_ret; try done. by intros [? _].
Qed.

(** A system call: the send, the receive, the others. *)
Section call.
Context (x0 x1 x2 : Z) (q : Z → prog) (Hm : mcause = ECALL_UMODE).
Context (R0 : frame_read (ram k) sp A0 = u32 x0) (R1 : frame_read (ram k) sp A1 = u32 x1).
Context (R2 : frame_read (ram k) sp A2 = u32 x2).

Lemma message_size ep : u32 (Z.of_nat (length (message ep))) = Z.of_nat (length (message ep)).
Proof.
  apply u32_small. destruct (message_lengths sha256 frame_bytes read_frame Hco) as [H2 H3].
  unfold Messages.message in *. repeat case_match; cbn in *; lia.
Qed.

Lemma send_step β ep rest :
  frame_read (ram k) sp A7 = 6 → 0 ≤ x0 < 8 → is_u32 x1 → sends (cap_of h c x0) = Some ep →
  x2 = Z.of_nat (length (message ep)) → (x1, message ep ++ rest) ∈ β → holds h c β (ram k) →
  (∀ r, verified h c β (q r)) → claims k' (set_code h c (Ret 6 q) f).
Proof.
  intros R7 Hx0 Hx1 Hs Hx2 Hin Hβ Hv. rewrite (u32_small x0) in R0 by lia. rewrite (u32_small x1) in R1 by done.
  rewrite Hx2, message_size in R2. destruct (sends_inv _ _ Hs) as [cr Hcap].
  rewrite <- cap_at_of, <- R0 in Hcap by (done || apply current_some).
  assert (Hown : mcause = ECALL_UMODE → frame_read (ram k) sp A7 = 7 →
    inside h c (frame_read (ram k) sp A1) (frame_read (ram k) sp A2)) by (intros _ R7'; congruence).
  rewrite <- R1 in Hin. apply claims_after; [done|..].
  - intros h' i t ep' buf n Hti Hst Hrdy _. eapply (send_served E h mcause sp start_cycle k sp'); eassumption.
  - assert (Hkept : holds h c β (ram k')) by (eapply own_facts; try done; intros [_ ?]; congruence).
    destruct (state <$> task_of h c k') as [s|] eqn:Hst; [|by exists β].
    destruct (on_ipc s) eqn:Hi; [|apply claim_resumable; [by intros ? [= <-]|by exists β]].
    assert (Hmine : mine (ESend (CapIpc ep true cr) (frame_read (ram k) sp A1) (frame_read (ram k) sp A2)) s).
    { rewrite <- Hcap. pose proof (own_ipc _ _ _ _ _ Hrest Heff s Hst Hi) as Hmine.
      unfold trap_event, call_event in Hmine. rewrite Hm, R7 in Hmine. exact Hmine. }
    destruct Hmine as (ep' & [= <-] & ->). cbn [claim]. split_and!; [done..|]. by exists β, rest.
Qed.

Lemma recv_step β β' ep :
  frame_read (ram k) sp A7 = 7 → 0 ≤ x0 < 8 → is_u32 x1 → receives (cap_of h c x0) = Some ep →
  x2 = Z.of_nat (length (message ep)) → inside h c x1 x2 → gains x1 (message ep) β β' → holds h c β (ram k) →
  (∀ r, verified h c β' (q r)) → claims k' (set_code h c (Ret 7 q) f).
Proof.
  intros R7 Hx0 Hx1 Hs Hx2 Hin Hg Hβ Hv. rewrite (u32_small x0) in R0 by lia. rewrite (u32_small x1) in R1 by done.
  rewrite Hx2, message_size in R2. destruct (receives_inv _ _ Hs) as [cs Hcap].
  rewrite <- cap_at_of, <- R0 in Hcap by (done || apply current_some).
  assert (Hins : inside h c (frame_read (ram k) sp A1) (frame_read (ram k) sp A2)) by (rewrite R1, R2; by rewrite <- Hx2).
  rewrite <- R1 in Hg. apply claims_after; [done|..].
  - intros h' i t ep' buf n _ Hst _ Hse. rewrite Hst in Hse. apply serves_receiver in Hse as (? & ? & ? & Hse).
    unfold trap_event, call_event in Hse. rewrite Hm, R7 in Hse. done.
  - eapply (recv_claim E h mcause sp start_cycle k sp'); try eassumption. done.
Qed.

Lemma other_step n :
  frame_read (ram k) sp A7 = n → n ≠ 6 → n ≠ 7 → resumable h c q (ram k) → claims k' (set_code h c (Ret n q) f).
Proof.
  intros R7 H6 H7 Hres.
  assert (Hev : (∀ s, ¬ mine (trap_event h mcause sp k) s) ∧ ∀ cap a l, trap_event h mcause sp k ≠ ESend cap a l).
  { unfold trap_event, call_event. rewrite Hm, R7, (proj2 (Z.eqb_neq n 6)), (proj2 (Z.eqb_neq n 7)) by done.
    repeat case_match; (split; [intros s Hs; exact Hs|discriminate]). }
  destruct Hev as [Hmine Hns]. apply claims_after; [intros _ ?; congruence|..].
  - intros h' i t ep buf l _ Hst _ Hs. rewrite Hst in Hs. apply serves_receiver in Hs as (? & ? & ? & Hs). by apply Hns in Hs.
  - eapply own_ret; try done; [intros _ ?; congruence|]. intros [_ ?]. congruence.
Qed.
End call.
End step.

Lemma disciplined_call h i held n a0 a1 a2 q : disciplined h i held (Sys n a0 a1 a2 q) → 1 ≤ n ≤ 7.
Proof.
  intros [_ Hd]. destruct (Z.eqb_spec n 3) as [-> |]; [lia|]. destruct (Z.eqb_spec n 4) as [-> |]; [lia|].
  destruct (Z.eqb_spec n 1) as [-> |]; [lia|]. destruct Hd as (Hn & _).
  rewrite !elem_of_cons, elem_of_nil in Hn. lia.
Qed.

Lemma follows_call h i p n a0 a1 a2 q : follows h i p (Run (Sys n a0 a1 a2 q)) → 1 ≤ n ≤ 7.
Proof. destruct p; [|done|]; apply disciplined_call. Qed.

Lemma follows_fault h i p cause q : follows h i p (Run (Fault cause q)) → cause ≠ ECALL_UMODE.
Proof. destruct p; [|done|]; intros (_ & Hc & _) ->; discriminate Hc. Qed.

Lemma current_relies k f h :
  rests (abs k) → claims k f → relies h (current h k) (f h (current h k)) (ram k).
Proof.
  intros Hr Hc. specialize (Hc h (current h k)). destruct (f h (current h k)) as [p|n q]; [apply Hc|].
  eapply claim_unsettled; [|exact Hc]. intros s Hs. by eapply current_unsettled.
Qed.

Lemma claims_same k f m : same_buffers (ram k) m → claims k f → claims (set_ram m k) f.
Proof. intros Hs Hc h i. apply (claim_buffers h i _ _ (ram k)); [done|]. apply Hc. Qed.

Lemma same_buffers_trans m1 m2 m3 : same_buffers m1 m2 → same_buffers m2 m3 → same_buffers m1 m3.
Proof. intros H1 H2 x Hx. by rewrite H2, H1. Qed.

(** What is known of a trap that a task of the system raises. *)
Record trap_view (E : Env) (h : hart) (mcause sp : Z) (k : Kernel) (f : hart → nat → cont) (k' : Kernel) : Prop := {
  tv_ready : ready_for E h k;
  tv_wf : mem_wf (ram k);
  tv_claims : claims k f;
  tv_script : ∃ l, script h (abs k) (trap_event h mcause sp k) l ∧ path h l (abs k) (abs k');
  tv_effect : ipc_effect h (trap_event h mcause sp k) (abs k) (abs k');
  tv_after : ∃ ph', world_ok (abs k') ph' ∧ rests (abs k')
}.

Lemma trap_viewed E h mcause save c' sp start_cycle m k f ph sp' k' :
  layout E = L → kernel_inv L k → unlocked k → can_lock k →
  world_ok (abs k) ph → rests (abs k) → (∀ h i, follows h i (ph h i) (f h i)) → claims k f →
  mem_wf m → same_buffers (ram k) m → clear sp → raises (f h (current h k)) mcause save c' →
  let k0 := set_ram (save sp m) k in
  trap_handler E h mcause sp start_cycle k0 = Done (sp', k') → trap_view E h mcause sp k0 f k'.
Proof.
  intros HL Hi Hu Hlock Hok Hrest Hf Hclaims Hm Hsame Hcl Hrs k0 Ht.
  destruct (raise_lawful h k ph Hlock Hok f mcause save c' sp m Hf Hm Hrs) as (Hwf & Hcause & ph' & Hlaw & _).
  fold k0 in Hlaw, Hwf.
  assert (Hready : ready_for E h k0).
  { destruct (avail_unlocked h k0 Hu). split; [rewrite HL; by apply (inv_fields _ k)|done|done]. }
  pose proof (wp_result _ _ _ _ _ _ (wp_trap_refines E h mcause sp start_cycle k0 Hready Hwf Hcause) Ht)
    as (l & Hscript & Hpath).
  split; [done|done| |by exists l|by eapply lawful_effect|].
  - apply claims_same; [|done]. by eapply same_buffers_trans; [|eapply save_buffers].
  - exists ph'. by apply (script_ok h (abs k0) (abs k') ph ph' _ _ Hok Hrest Hlaw Hscript Hpath).
Qed.

Lemma trap_followed E h mcause save c' sp start_cycle m k f sp' k' :
  layout E = L → kernel_inv L k → unlocked k → can_lock k → synced k f → endowed k → followed k f →
  mem_wf m → same_buffers (ram k) m → clear sp → raises (f h (current h k)) mcause save c' →
  trap_handler E h mcause sp start_cycle (set_ram (save sp m) k) = Done (sp', k') →
  followed k' (set_code h (current h k) c' f).
Proof.
  intros HL Hi Hu Hlock (ph & Hok & Hrest & Hf) Hcaps [Hpark Hclaims] Hm Hsame Hcl Hrs Ht.
  destruct (trap_viewed E h mcause save c' sp start_cycle m k f ph sp' k' HL Hi Hu Hlock Hok Hrest Hf Hclaims
    Hm Hsame Hcl Hrs Ht) as [Hready Hwf Hclaims0 _ Heff (ph1 & Hok' & Hrest')].
  set (k0 := set_ram (save sp m) k) in *.
  split; [by eapply (trap_parked E h mcause sp start_cycle k0 sp')|].
  pose proof (current_relies k0 f h Hrest Hclaims0) as Hrel. change (current h k0) with (current h k) in Hrel.
  inversion Hrs as [n x0 x1 x2 q Hc|cause q Hc|cause q Hc|? Hc|? Hc]; subst; try rewrite <- Hc in Hrel.
  - destruct (call_regs sp n x0 x1 x2 m) as (R7 & R0 & R1 & R2).
    assert (Hn : 1 ≤ n ≤ 7) by (eapply follows_call; rewrite Hc; apply Hf). rewrite u32_small in R7 by lia.
    destruct Hrel as (β & Hβ & Hv). cbn [Messages.verified] in Hv.
    destruct (Z.eqb_spec n 6) as [-> |H6]; [|destruct (Z.eqb_spec n 7) as [-> |H7]].
    + destruct Hv as (ep & rest & Hx0 & Hx1 & Hs & Hx2 & Hin & Hv). by eapply (send_step E h ECALL_UMODE sp start_cycle k0 sp' k' f ph).
    + destruct Hv as (ep & β' & Hx0 & Hx1 & Hs & Hx2 & Hin & Hg & Hv). by eapply (recv_step E h ECALL_UMODE sp start_cycle k0 sp' k' f ph).
    + eapply (other_step E h ECALL_UMODE sp start_cycle k0 sp' k' f ph); try done. by exists β.
  - assert (mcause ≠ ECALL_UMODE) by (eapply follows_fault; rewrite Hc; apply Hf).
    by eapply (quiet_step E h mcause sp start_cycle k0 sp' k' f ph).
  - assert (mcause ≠ ECALL_UMODE) by (eapply follows_fault; rewrite Hc; apply Hf).
    by eapply (quiet_step E h mcause sp start_cycle k0 sp' k' f ph).
  - by eapply (quiet_step E h TIMER_INTERRUPT sp start_cycle k0 sp' k' f ph).
  - by eapply (quiet_step E h SOFTWARE_INTERRUPT sp start_cycle k0 sp' k' f ph).
Qed.

(** ** Steps of the tasks alone *)

Lemma claims_set k f h i c' :
  claims k f → claim h i c' (state <$> task_of h i k) (ram k) → claims k (set_code h i c' f).
Proof.
  intros Hc Hc' h' j. unfold set_code. case_decide as Hd; [by destruct Hd as [<- <-]|apply Hc].
Qed.

(** The task a hart runs goes on with code that relies on no more than is the case. *)
Lemma current_claims k f h p :
  rests (abs k) → claims k f → relies h (current h k) (Run p) (ram k) →
  claims k (set_code h (current h k) (Run p) f).
Proof.
  intros Hr Hc Hp. apply claims_set; [done|]. split; [|done]. intros s Hs.
  apply (current_unsettled h k Hr) in Hs. by destruct s.
Qed.

Lemma return_followed k f h n q r :
  synced k f → followed k f → f h (current h k) = Ret n q → followed k (set_code h (current h k) (Run (q r)) f).
Proof.
  intros (ph & _ & Hr & _) [Hp Hc] Hq. split; [done|]. apply current_claims; [done..|].
  pose proof (current_relies k f h Hr Hc) as Hrel. rewrite Hq in Hrel. destruct Hrel as (β & Hβ & Hv). by exists β.
Qed.

(** A store to a task's own buffer leaves the others alone. *)
Lemma store_claims k f h i a bs :
  inside h i a (Z.of_nat (length bs)) → claims k f →
  ∀ h' j, ¬ (h = h' ∧ i = j) → claim h' j (f h' j) (state <$> task_of h' j k) (store_bytes (ram k) a bs).
Proof.
  intros Hin Hc h' j Hn. apply (claim_facts h' j _ _ (ram k)); [|apply Hc]. intros fa Hfa _.
  apply (fact_kept h' j (ram k)); [|done]. intros x Hx _. apply load8_store_bytes_out. intros Hb.
  apply Hn. eapply (bo_tasks _ Hbo h i h' j x); [by eapply inside_area|done].
Qed.

Lemma gains_holds h i a bs β β' m :
  inside h i a (Z.of_nat (length bs)) → Forall byte bs → holds h i β m → gains a bs β β' →
  holds h i β' (store_bytes m a bs).
Proof.
  intros Hin Hb Hβ Hg fa Hfa. destruct (Hg fa Hfa) as [-> |[Hold Hd]].
  - split; [done|]. by apply load_store_bytes.
  - apply (fact_kept h i m); [|by apply Hβ]. intros x _ Hx. apply load8_store_bytes_out.
    unfold disjoint in Hd. lia.
Qed.

Lemma local_followed k f h p p' m m' :
  synced k f → followed k f → f h (current h k) = Run p →
  exact_local h (current h k) k p p' m → same_buffers m m' →
  followed (set_ram m' k) (set_code h (current h k) (Run p') f).
Proof.
  intros (ph & _ & Hr & _) [Hp Hc] Hrun Hl Hm. split; [done|].
  assert (Hgo : claims (set_ram m k) (set_code h (current h k) (Run p') f)).
  2: { exact (claims_same (set_ram m k) _ m' Hm Hgo). }
  pose proof (current_relies k f h Hr Hc) as Hrel. rewrite Hrun in Hrel. destruct Hrel as (β & Hβ & Hv).
  assert (Hplain : ∀ β', holds h (current h k) β' (ram k) → verified h (current h k) β' p' →
    claims (set_ram (ram k) k) (set_code h (current h k) (Run p') f)).
  { intros β' Hβ' Hv'. apply (current_claims (set_ram (ram k) k)); [done|done|]. by exists β'. }
  destruct Hl as [a n c0|a bs c0|c0 z|c0|v].
  - destruct Hv as (Hin & Hn & _ & Hv). apply (Hplain β); [done|].
    destruct (Hβ _ Hin) as [_ Hld]. cbn [fst snd] in Hld. rewrite Hn in Hld. by rewrite Hld.
  - destruct Hv as (Hin & Hb & β' & Hg & Hv). intros h' j. unfold set_code. case_decide as Hd.
    + destruct Hd as [<- <-]. split.
      * intros s Hs. apply (current_unsettled h k Hr) in Hs. by destruct s.
      * exists β'. split; [|done]. by eapply gains_holds.
    + by apply (store_claims k f h (current h k)).
  - apply (Hplain β); [done|apply Hv].
  - apply (Hplain β); [done|apply Hv].
  - apply (Hplain []); [by intros ? ?%not_elem_of_nil|]. by apply programs_verified.
Qed.

(** ** The watchdog *)

Lemma kill_parks E sp sc : parking H0 sp (watchdog_kill E sp sc).
Proof.
  unfold watchdog_kill, sys_terminate_task. pl. apply parking_guard. pl. case_match; [|pf].
  pr. do 2 pl. pr. apply trap_parking.
Qed.

(** The kill writes to the watchdog's own frame only. *)
Lemma kill_writes E sp sc : writes (near sp) (watchdog_kill E sp sc).
Proof.
  unfold watchdog_kill. apply writes_bind; [apply writes_quiet; foot|intros tick]. apply writes_guard.
  apply writes_bind; [apply writes_quiet; foot|intros failed]. case_match; [|apply writes_quiet; foot].
  apply writes_bind; [|intros _; apply writes_quiet; foot]. intros k. unfold sys_terminate_task.
  apply pwp_bind, pwp_modify, pwp_bind, pwp_modify. set (k2 := set_ram _ (set_ram _ k)).
  assert (R7 : frame_read (ram k2) sp A7 = 8) by apply (terminate_frame_regs (ram k) sp (failed_prio s)).
  assert (Hk2 : outside (near sp) (ram k) (ram k2)).
  { trans (frame_write (ram k) sp A7 8); apply outside_frame_write; intros x; unfold near, A0, A7; lia. }
  clearbody k2. apply pwp_bind. unfold pwp. destruct (trap_handler E H0 ECALL_UMODE sp sc k2) as [[sp' k3]| |] eqn:Ht;
    [cbn|done..]. trans (ram k2); [done|]. intros x Hx.
  apply (changes_in_footprint _ _ _ _ _ _ _ _ _ Ht). intros [_ Hn|_ Hn|_ [t H4|t buf n H6|t H7]]; [by apply call_word_near in Hn|done|congruence..].
Qed.

(** What the kill leaves of the claims. *)
Section kill.
Context (E : Env) (sp sc : Z) (k k1 : Kernel) (f : hart → nat → cont) (ph : hart → nat → phase).
Context (Hk : watchdog_kill E sp sc k = Done (tt, k1)) (Hcl : clear sp).
Context (Hok : world_ok (abs k) ph) (Hrest : rests (abs k)) (Hf : ∀ h' i, follows h' i (ph h' i) (f h' i)).
Context (Hpark : parked k) (Hclaims : claims k f) (Hcur : current H0 k = 0%nat).
Context (Hcase : match failed_task (TICK_COUNT k) k with
  | Some nm => refines H0 (ETerminate (failed_prio nm)) k k1
  | None => abs k1 ≡ abs k
  end).

Lemma kill_states :
  (∀ h i s, st (abs k) h i = Some s → settled s = true → ¬ queued (abs k) h i →
    st (abs k1) h i = Some s ∨
    st (abs k1) h i = Some Terminated ∧
      ∃ nm, failed_task (TICK_COUNT k) k = Some nm ∧ failed_prio nm = Z.of_nat i) ∧
  (∀ h i s, st (abs k1) h i = Some s → on_ipc s = true → st (abs k) h i = Some s) ∧
  (∀ i, wait (abs k1) 0 i = true → wait (abs k) 0 i = true) ∧
  (∀ h i s, st (abs k1) h i = Some s → runnable s = false → st (abs k) h i = Some s ∨
    s = Terminated ∧ ∃ nm, failed_task (TICK_COUNT k) k = Some nm ∧ failed_prio nm = Z.of_nat i).
Proof.
  destruct (failed_task (TICK_COUNT k) k) as [nm|].
  - destruct Hcase as (l & Hs & Hp).
    destruct (terminate_effect H0 (abs k) (abs k1) (failed_prio nm) l) as (H1 & H2 & H3); try done.
    { exact (wo_only _ _ Hok). }
    { intros i Hi. change (cur (abs k) H0) with (current H0 k). rewrite Hcur. unfold failed_prio in Hi. repeat case_match; lia. }
    split_and!; [|..|done|].
    + intros h i s Hst Hset Hq. destruct (H1 h i s Hst Hset Hq) as [?|[? ?]]; [by left|right; eauto].
    + intros h i s Hst Hi. destruct (H2 h i s Hst ltac:(by destruct s)) as [?|[-> _]]; done.
    + intros h i s Hst Hn. destruct (H2 h i s Hst Hn) as [?|[? ?]]; eauto.
  - destruct Hcase as (H1 & _ & _ & H2). split_and!.
    + intros h i s Hs _ _. left. by rewrite H1.
    + intros h i s. by rewrite H1.
    + intros i. by rewrite H2.
    + intros h i s. rewrite H1. by left.
Qed.

Lemma kill_buffers : same_buffers (ram k) (ram k1).
Proof.
  pose proof (kill_writes E sp sc k) as Hw. unfold pwp in Hw. rewrite Hk in Hw. intros x Hx. apply Hw.
  intros Hn. by apply (Hcl x).
Qed.

Lemma kill_parked : parked k1.
Proof.
  destruct kill_states as (_ & Hback & Hwait & _).
  pose proof (kill_parks E sp sc k) as Hp. unfold pwp in Hp. rewrite Hk in Hp. cbn in Hp.
  intros h i t1 Ht1 Hc x Hx.
  assert (Hn : ¬ (h = H0 ∧ i = current H0 k)).
  { rewrite Hcur. intros [-> ->]. destruct Hc as [Hi|[[_ Hw]|[? _]]]; [..|done].
    - specialize (Hback H0 0%nat (state t1)). cbn in Hback. rewrite Ht1 in Hback. specialize (Hback eq_refl Hi).
      rewrite <- Hcur in Hback. apply (current_unsettled H0 k Hrest) in Hback. by destruct (state t1).
    - apply Hwait in Hw. by destruct (wo_wait _ _ Hok 0%nat Hw) as [Hl _]. }
  pose proof (pk_other _ _ _ _ Hp h i Hn) as Hsp. unfold sp_of in Hsp. rewrite Ht1 in Hsp.
  destruct (task_of h i k) as [t|] eqn:Ht; [|done]. injection Hsp as Hsp. rewrite Hsp in Hx.
  apply (Hpark h i t Ht); [|done]. destruct Hc as [Hi|[[Hh Hw]|Hc]]; [left|right; left|by right; right].
  - specialize (Hback h i (state t1)). cbn in Hback. rewrite Ht1, Ht in Hback. specialize (Hback eq_refl Hi).
    by injection Hback as ->.
  - split; [done|]. by apply Hwait.
Qed.

Lemma kill_claims : claims k1 f.
Proof.
  destruct kill_states as (Hset & Hback & _). intros h i.
  apply (claim_buffers h i _ _ (ram k)); [apply kill_buffers|]. specialize (Hclaims h i) as Hc.
  assert (Hipc : (∀ s, state <$> task_of h i k = Some s → on_ipc s = false) →
    ∀ s, state <$> task_of h i k1 = Some s → on_ipc s = false).
  { intros Hn s Hs. apply not_true_iff_false. intros Hi. pose proof (Hback h i s Hs Hi) as Hb. by rewrite (Hn _ Hb) in Hi. }
  destruct (f h i) as [p|n q] eqn:Hfi; [destruct Hc as [Hn Hv]; split; [by apply Hipc|done]|].
  destruct (state <$> task_of h i k) as [s|] eqn:Hs.
  2: { apply claim_resumable; [by apply Hipc|]. by apply (claim_unsettled h i n q None). }
  destruct (settled s) eqn:Hst.
  2: { apply claim_resumable; [apply Hipc; intros ? [= <-]; by destruct s|].
       apply (claim_unsettled h i n q (Some s)); [|done]. by intros ? [= <-]. }
  destruct (decide (home i = h ∧ wait (abs k) 0 i = true)) as [Hq|Hq].
  { destruct (queued_resumable k f ph h i q n s (ram k)) as [-> Hr]; try done.
    apply claim_resumable; [|done]. apply Hipc. by intros ? [= <-]. }
  destruct (Hset h i s Hs Hst Hq) as [Hs1|[Hs1 _]]; cbn in Hs1; rewrite Hs1; [done|].
  destruct s as [| |w|mx|ep a len|ep a len|]; try done; cbn [claim] in *; left.
  - destruct Hc as (-> & _ & β & rest & Hβ & Hin & _). split; [by left|]. intros [-> ->].
    destruct (Hβ _ Hin) as [Hins _]. by apply c_no_buffers in Hins.
  - destruct Hc as (-> & _ & Hins & _). split; [by right|]. intros [-> ->]. by apply c_no_buffers in Hins.
Qed.
End kill.

(** ** Restarts *)

(** The tasks the watchdog restarts, with their stacks. *)
Definition restartable (h : hart) (i : nat) (stack : Z) : Prop :=
  h = H1 ∧ i = 3%nat ∧ stack = TASK_C_STACK L ∨ h = H0 ∧ i = 4%nat ∧ stack = HSM_STACK L.

Lemma restart_followed h i stack entry k f ph :
  restartable h i stack → world_ok (abs k) ph → followed k f →
  followed (restarted h i stack entry k) (set_code h i (Run (task_program h i 0)) f).
Proof.
  intros Hre Hok [Hp Hc].
  assert (Htask : ∀ h' j, task_of h' j (restarted h i stack entry k) =
    if decide (h = h' ∧ i = j) then revived stack <$> task_of h' j k else task_of h' j k).
  { intros h' j. unfold restarted. change (task_of h' j (set_LAST_CHECKIN_TICK _ ?kk)) with (task_of h' j kk).
    by rewrite task_of_upd. }
  split.
  - intros h' j t Ht Hcase x Hx. rewrite Htask in Ht. case_decide as Hd; [|by apply (Hp h' j t)].
    destruct Hd as [<- <-]. destruct (task_of h i k) as [t0|]; [|done]. injection Ht as <-. cbn in Hcase, Hx.
    assert (Hclear : h = H1 ∧ i = 3%nat).
    { destruct Hre as [(-> & -> & _)|(-> & -> & _)]; [done|]. destruct Hcase as [?|[[_ Hw]|[? _]]]; [done| |done].
      by destruct (wo_wait _ _ Hok 4%nat Hw) as [Hl _]. }
    destruct Hclear as [-> ->]. destruct Hre as [(_ & _ & ->)|(? & _)]; [|done].
    apply (pl_c Hpl). unfold near, result_word in *. lia.
  - intros h' j. unfold set_code. rewrite Htask. case_decide as Hd.
    + destruct Hd as [<- <-]. split; [by destruct (task_of h i k); intros ? [= <-]|].
      exists []. split; [by intros ? ?%not_elem_of_nil|]. by apply programs_verified.
    + apply (claim_facts h' j _ _ (ram k)); [|apply Hc]. intros fa Hfa _.
      apply (fact_kept h' j (ram k)); [|done]. intros x Hx _. cbn [ram restarted].
      pose proof (initialize_stack_out (ram k) stack 1024 entry x) as Ho.
      change (ram (restarted h i stack entry k)) with (snd (initialize_stack (ram k) stack 1024 entry)).
      destruct (initialize_stack (ram k) stack 1024 entry) as [sp m'] eqn:Hi. apply Ho. intros Hn.
      assert (sp = initial_sp stack 1024) as -> by (unfold initialize_stack in Hi; congruence).
      destruct Hre as [(-> & -> & ->)|(-> & -> & ->)].
      * apply (pl_c Hpl x Hn). by exists h', j.
      * apply Hd. by destruct (pl_hsm Hpl x h' j Hn Hx) as [-> ->].
Qed.

Lemma restarts_followed E k1 f :
  layout E = L → synced k1 f → followed k1 f →
  followed (revive_hsm E fn (revive_c E fn k1)) (restarts k1 f).
Proof.
  intros HL Hs Hfo. destruct Hs as (ph & Hok & Hr & Hf).
  assert (Hc : followed (revive_c E fn k1)
    (if is_terminated H1 3 k1 && (TEST_COUNTER k1 <? 2) && negb (bool_decide (current H1 k1 = 3%nat))
     then set_code H1 3 (Run (task_program H1 3 0)) f else f) ∧ ∃ ph', world_ok (abs (revive_c E fn k1)) ph').
  { unfold revive_c. destruct (is_terminated H1 3 k1) eqn:Ht; [|eauto]. cbn [andb].
    destruct (TEST_COUNTER k1 <? 2); [|eauto]. cbn [andb].
    rewrite bool_decide_false by by apply current_alive. cbn [negb]. set (k2 := set_TEST_COUNTER _ k1). split.
    - rewrite HL. apply (restart_followed H1 3 _ _ k2 f ph); [by left|done|done].
    - destruct (restart_synced sha256 frame_bytes read_frame B H1 3 (TASK_C_STACK (layout E)) (task_c fn) k2 f 0)
        as (ph' & Hok' & _); [done|by exists ph|eauto]. }
  destruct Hc as [Hc (ph' & Hok')].
  assert (H4 : is_terminated H0 4 (revive_c E fn k1) = is_terminated H0 4 k1).
  { unfold revive_c. by destruct (is_terminated H1 3 k1 && _). }
  unfold revive_hsm, Compose.restarts. rewrite H4. destruct (is_terminated H0 4 k1); [|done].
  rewrite HL. eapply restart_followed; [by right|done|done].
Qed.

(** ** The invariant holds *)

Lemma endowed_static k k' : static_kernel k k' → endowed k → endowed k'.
Proof.
  intros Hst Hc h i t' Ht'. destruct (static_task _ _ _ _ _ Hst Ht') as (t & Ht & He).
  by rewrite (static_capabilities _ _ He), (Hc _ _ _ Ht).
Qed.

Lemma watchdog_followed E p sp sc m k f k1 :
  layout E = L → kernel_inv L k → unlocked k → synced k f → followed k f →
  mem_wf m → same_buffers (ram k) m → clear sp → f H0 (current H0 k) = Run (Iteration p) →
  let k0 := set_ram m k in
  kills_running k0 = false → watchdog_kill E sp sc k0 = Done (tt, k1) →
  watchdog_iteration E fn sp sc k0 = Done (tt, revive_hsm E fn (revive_c E fn k1)) ∧
  followed (revive_hsm E fn (revive_c E fn k1)) (set_code H0 (current H0 k) (Run p) (restarts k1 f)).
Proof.
  intros HL Hi Hu Hsync [Hp Hc] Hm Hs Hcl Hrun k0 Hkills Hk.
  destruct (watchdog_split L fn E sp sc k0 HL ltac:(by apply (inv_fields _ k)) Hu Hm) as (k2 & Hk2 & Hit & Hcase).
  assert (k2 = k1) as -> by congruence. split; [done|].
  assert (Hcur : current H0 k = 0%nat).
  { destruct Hsync as (ph & _ & _ & Hf). specialize (Hf H0 (current H0 k)). rewrite Hrun in Hf.
    destruct (ph H0 _); [|done|]; by destruct Hf as (_ & ? & _). }
  assert (Hsync0 : synced k0 f) by done. assert (Hc0 : claims k0 f) by by apply claims_same.
  pose proof (kill_synced k0 k1 f Hsync0 Hcur Hkills Hcase) as Hsync1.
  destruct Hsync0 as (ph & Hok & Hrest & Hf).
  assert (Hfo1 : followed k1 f).
  { split; [by eapply (kill_parked E sp sc k0 k1)|by eapply (kill_claims E sp sc k0 k1)]. }
  pose proof (restarts_followed E k1 f HL Hsync1 Hfo1) as [Hp' Hc']. split; [done|].
  apply claims_set; [done|]. rewrite Hcur. specialize (Hc' H0 0%nat). rewrite restarts_watchdog in Hc'.
  rewrite Hcur in Hrun. rewrite Hrun in Hc'. exact Hc'.
Qed.

Lemma boot_tcb_facts S h i t :
  slot (task_table (ph_get h (mkPerHart (started 0 (boot_sched (boot_tasks0 S)))
                                        (started 2 (boot_sched (boot_tasks1 S)))))) i = Some t →
  capabilities t = caps_of h i ∧ (h = H1 → i = 3%nat → saved_sp t = sp_c S).
Proof.
  destruct h; cbn [ph_get on0 on1]; intros (t0 & Ht0 & Hst & -> & _)%slot_started; apply slot_table_of in Ht0;
    rewrite (static_capabilities _ _ Hst); unfold boot_tasks0, boot_tasks1 in Ht0;
    rewrite !elem_of_cons, elem_of_nil in Ht0; destruct_or! Ht0; by simplify_eq/=.
Qed.

Lemma boot_followed k :
  SCHEDULERS k = mkPerHart (started 0 (boot_sched (boot_tasks0 (boot_sps L))))
                           (started 2 (boot_sched (boot_tasks1 (boot_sps L)))) →
  MUTEXES k = KERNEL_MUTEXES →
  endowed k ∧ followed k (λ h i, Run (task_program h i 0)).
Proof.
  intros Hsch Hmut.
  assert (Htask : ∀ h i t, task_of h i k = Some t → (state t = Ready ∨ state t = Running) ∧
    capabilities t = caps_of h i ∧ (h = H1 → i = 3%nat → saved_sp t = initial_sp (TASK_C_STACK L) 1024)).
  { intros h i t Ht. unfold task_of, sched_of in Ht. rewrite Hsch in Ht. split; [|exact (boot_tcb_facts _ _ _ _ Ht)].
    destruct (boot_state_cases _ _ _ _ Ht) as [?|[? _]]; auto. }
  destruct (boot_world _ k Hsch Hmut) as [Hok _]. split; [|split].
  - intros h i t Ht. by apply Htask.
  - intros h i t Ht Hcase x Hx. destruct (Htask _ _ _ Ht) as (Hst & _ & Hsp).
    assert (h = H1 ∧ i = 3%nat) as [-> ->].
    { destruct Hcase as [Hi|[[Hh Hw]|?]]; [by destruct Hst as [Hst|Hst]; rewrite Hst in Hi| |done].
      destruct (wo_wait _ _ Hok i Hw) as [Hl Hph]. rewrite Hh in Hl, Hph. destruct h; [by specialize (Hph eq_refl)|].
      by destruct (locker_home H1 i Hl) as [Hh1 [-> | ->]]. }
    rewrite Hsp in Hx by done. apply (pl_c Hpl). unfold near, result_word in *. lia.
  - intros h i. split.
    + intros s Hs. destruct (task_of h i k) as [t|] eqn:Ht; [|done]. injection Hs as <-.
      by destruct (Htask _ _ _ Ht) as [[-> | ->] _].
    + exists []. split; [by intros ? ?%not_elem_of_nil|]. by apply programs_verified.
Qed.

(** No step registers a task, removes one or changes its capabilities. *)
Lemma exact_step_static s s' : exact s → exact_step s s' → static_kernel (kern s) (kern s').
Proof.
  intros Hs Hstep. destruct (total_safe _ _ _ _ _ _ s (exact_total s Hs)) as [Hi Hu _ _].
  destruct Hstep as [E h mcause save c sp sc m sp' k' HL Hm Hsame Hcl Hr Ht|h n q r Hr|h p p' m m' Hr Hl Hsame
                    |E p sp sc m k1 k' HL Hm Hsame Hcl Hr k Hk1 Hk']; cbn [kern goes]; [|done..|].
  - destruct (avail_unlocked h _ Hu) as [Ha Hb]. eapply (keeps_static (layout E) (set_ram (save sp m) (kern s))).
    exact (wp_result _ _ _ _ _ _ (trap_keeps (λ _, True) E h mcause sp sc (set_ram (save sp m) (kern s))
      (λ _ _, I) (λ _, I) ltac:(rewrite HL; by apply (inv_fields _ (kern s))) Ha Hb) Ht).
  - eapply (keeps_static (layout E) k).
    exact (wp_result _ _ _ _ _ _ (watchdog_keeps E fn sp sc k
      ltac:(rewrite HL; by apply (inv_fields _ (kern s))) Hu) Hk').
Qed.

Lemma exact_followed s :
  exact s → endowed (kern s) ∧ (overrun s = false → followed (kern s) (code s)).
Proof.
  intros Hs. induction Hs as [E0 E1 m i0 c0 p0 sps k HL0 HL1 Hsb Hr0 Hr1 Hk|s s' Hs [He IH] Hstep].
  - assert (HL : layout E0 = layout E1) by congruence.
    pose proof (wp_result _ _ _ _ _ _ (kmain_wp sha256 E0 E1 fn m i0 c0 p0 Hsb HL Hr0 Hr1) Hk)
      as (_ & _ & _ & _ & _ & Hsch & Hmut). rewrite HL0 in Hsch.
    by destruct (boot_followed k Hsch Hmut).
  - destruct (total_safe _ _ _ _ _ _ s (exact_total s Hs)) as [Hi Hu Hlock Hsync].
    pose proof (endowed_static _ _ (exact_step_static s s' Hs Hstep) He) as He'.
    destruct Hstep as [E h mcause save c sp sc m sp' k' HL Hm Hsame Hcl Hr Ht|h n q r Hr|h p p' m m' Hr Hl Hsame
                      |E p sp sc m k1 k' HL Hm Hsame Hcl Hr k Hk1 Hk'].
    + split; cbn [kern code overrun goes].
      * exact He'.
      * intros Ho. exact (trap_followed E h mcause save c sp sc m (kern s) (code s) sp' k' HL Hi Hu Hlock
          (Hsync Ho) He (IH Ho) Hm Hsame Hcl Hr Ht).
    + split; [done|]. intros Ho. cbn in Ho. eapply return_followed; [by apply Hsync|by apply IH|done].
    + split; [done|]. intros Ho. cbn in Ho. eapply local_followed; [by apply Hsync|by apply IH|done|done|done].
    + split; cbn [kern code overrun].
      * exact He'.
      * intros [Ho Hkill]%orb_false_iff. specialize (Hsync Ho). specialize (IH Ho).
        destruct (watchdog_followed E p sp sc m (kern s) (code s) k1) as [Hit Hfo]; try done.
        change (watchdog_iteration E fn sp sc k = Done (tt, revive_hsm E fn (revive_c E fn k1))) in Hit.
        rewrite Hk' in Hit. injection Hit as ->. exact Hfo.
Qed.
End protocol.
