(* ===== verification/Authentic.v ===== *)
(** * Authentic: frame authentication works in the running system

    The theorem about the exchange between Task A and the HSM, from the invariant of
    [Protocol], and a run of the whole system, with the real SHA-256, in which Task A
    has its first frame tagged and checked. *)
From S2P Require Import Prelude Memory Tcb Bitmap Can Pmp Spinlock Telemetry Kernel.
From S2P Require Import Trap KernelInv TrapInv Security Boot Reach SyscallSpec IpcSpec.
From S2P Require Import Footprint Watchdog AbsSpec Refine Tasks Discipline Messages Compose Protocol.

(** What the authenticated frame at [a] contains: the frame, then its tag. *)
Definition auth_at (read_frame : list Z → CanFrame) (m : Mem) (a : Z) : AuthFrame :=
  mkAuth (read_frame (load_bytes m a FRAME_SIZE)) (load_bytes m (a + Z.of_nat FRAME_SIZE) HMAC_TAG_LEN).

Section authentic.
Context (sha256 : list Z → list Z) (frame_bytes : CanFrame → list Z) (read_frame : list Z → CanFrame).
Context (B : Buffers) (L : Layout) (fn : Entries).
Context (Hco : codec sha256 frame_bytes read_frame) (Hbo : buffers_ok B) (Hpl : placed B L).

Lemma tags_agree : tag_diff (frame_tag sha256) (frame_tag sha256) = 0.
Proof. destruct (frame_tag_bytes sha256 frame_bytes read_frame Hco) as [_ Hb]. by apply tag_diff_zero. Qed.

(** What Task A compares, once its code gets there. *)
Lemma compared m n q β :
  holds B H0 1 β m → verified sha256 frame_bytes B H0 1 β (Peek (expected_buf B) n q) →
  n = HMAC_TAG_LEN ∧ load_bytes m (expected_buf B) HMAC_TAG_LEN = frame_tag sha256 ∧
  auth_at read_frame m (auth_buf B) = mkAuth test_frame (frame_tag sha256).
Proof.
  intros Hβ (Hin & Hn & Hauth & _). cbn [reads] in Hin, Hn.
  destruct (frame_tag_bytes sha256 frame_bytes read_frame Hco) as [Hl _]. destruct (co_frame _ _ _ Hco) as [Hfl _].
  destruct (Hβ _ Hin) as [_ Htag]. cbn [fst snd] in Htag. rewrite Hl in Htag.
  destruct (Hβ _ (Hauth eq_refl eq_refl eq_refl)) as [_ Hfr]. cbn [fst snd] in Hfr.
  rewrite length_app, load_bytes_app in Hfr. apply app_inj_1 in Hfr as [H1 H2]; [|by rewrite load_bytes_length].
  split; [unfold HMAC_TAG_LEN; lia|]. split; [done|]. unfold auth_at. rewrite Hfl in H1, H2. rewrite Hl in H2.
  change HMAC_TAG_LEN with 8%nat. by rewrite H1, H2, (co_back _ _ _ Hco).
Qed.

(** C5. Authentication works end to end.  In every state the system reaches, whatever the schedule, the
    interrupts, the restarts, the values the calls return and the contents of memory
    outside the tasks' buffers, as long as the watchdog has not terminated a task that
    hart 1 was running: no task panics; when the HSM is about to read a request it is
    Task A's frame; when Task A is about to compare tags, the one it got from the HSM
    is the RFC 2104 tag of its frame, and [verify_frame_secure] accepts. *)
Theorem frames_authenticated s :
  exact sha256 frame_bytes read_frame B L fn s → overrun s = false →
  let m := ram (kern s) in
  (∀ h i, code s h i ≠ Run Dies) ∧
  (∀ n q, code s H0 4 = Run (Peek (req_buf B) n q) →
    read_frame (load_bytes m (req_buf B) n) = test_frame) ∧
  (∀ n q send_res recv_res, code s H0 1 = Run (Peek (expected_buf B) n q) → 0 ≤ send_res → 0 ≤ recv_res →
    load_bytes m (expected_buf B) HMAC_TAG_LEN = frame_tag sha256 ∧
    verify_frame_secure send_res recv_res (load_bytes m (expected_buf B) HMAC_TAG_LEN)
      (auth_at read_frame m (auth_buf B)) = true).
Proof.
  intros Hs Ho m. destruct (exact_followed _ _ _ _ _ _ Hco Hbo Hpl s Hs) as [_ Hfo].
  destruct (Hfo Ho) as [_ Hc]. split_and!.
  - intros h i Hd. specialize (Hc h i). rewrite Hd in Hc. destruct Hc as (_ & β & _ & []).
  - intros n q Hq. specialize (Hc H0 4%nat). rewrite Hq in Hc. destruct Hc as (_ & β & Hβ & Hin & Hn & _).
    destruct (Hβ _ Hin) as [_ Hl]. cbn [fst snd] in Hl. rewrite Hn in Hl. unfold m. rewrite Hl. apply (co_back _ _ _ Hco).
  - intros n q sr rr Hq Hsr Hrr. specialize (Hc H0 1%nat). rewrite Hq in Hc. destruct Hc as (_ & β & Hβ & Hv).
    destruct (compared m n q β Hβ Hv) as (_ & Htag & Hauth). split; [done|]. rewrite Htag, Hauth.
    unfold verify_frame_secure. rewrite !(proj2 (Z.ltb_ge _ _)) by done. cbn [tag]. by rewrite tags_agree.
Qed.
End authentic.

(** ** A run *)

Module Run.

Definition all_buffers : list (Z * Z) :=
  buffers sample_buffers H0 1 ++ buffers sample_buffers H0 4 ++ buffers sample_buffers H1 2.

Definition clear_frame (sp : Z) : bool :=
  forallb (λ b, (sp + 128 <=? fst b) || (fst b + snd b <=? sp)) all_buffers.

Definition auth_program : hart → nat → Z → prog := program Fips180.sha256 sample_bytes sample_read sample_buffers.

Definition auth_restarts : Kernel → (hart → nat → cont) → hart → nat → cont :=
  restarts Fips180.sha256 sample_bytes sample_read sample_buffers.

Definition next (h : hart) (s : Total) (p : prog) : option (prog * Mem) :=
  let m := ram (kern s) in
  match p with
  | Peek a n c => Some (c (load_bytes m a n), m)
  | Poke a bs c => Some (c, store_bytes m a bs)
  | Cycles c => Some (c 0, m)
  | ReadTestCounter c => Some (c (TEST_COUNTER (kern s)), m)
  | Again v => Some (auth_program h (current h (kern s)) v, m)
  | _ => None
  end.

Definition wf_mem (m : Mem) : bool := bool_decide (map_Forall (λ _ b, 0 ≤ b < 256) m).

Definition move (d : deed) (s : Total) : option Total :=
  match d with
  | DoTrap h mcause sp =>
      match raised (running s h) mcause with
      | Some (save, c) =>
          if clear_frame sp && wf_mem (ram (kern s)) then
            match trap_handler sample_env h mcause sp 6000 (set_ram (save sp (ram (kern s))) (kern s)) with
            | Done (_, k') => Some (goes s h c k')
            | _ => None
            end
          else None
      | None => None
      end
  | DoReturn h r => match running s h with Ret _ k => Some (goes s h (Run (k r)) (kern s)) | _ => None end
  | DoLocal h =>
      match running s h with
      | Run p => match next h s p with Some (p', m) => Some (goes s h (Run p') (set_ram m (kern s))) | None => None end
      | _ => None
      end
  | DoWatchdog sp =>
      match running s H0 with
      | Run (Iteration p) =>
          if clear_frame sp && wf_mem (ram (kern s)) then
            let k := set_ram (ram (kern s)) (kern s) in
            match watchdog_kill sample_env sp 6000 k, watchdog_iteration sample_env sample_entries sp 6000 k with
            | Done (_, k1), Done (_, k') =>
                Some (mkTotal k' (set_code H0 (current H0 k) (Run p) (auth_restarts k1 (code s)))
                              (overrun s || kills_running k))
            | _, _ => None
            end
          else None
      | _ => None
      end
  end.

Fixpoint moves (l : list deed) (s : Total) : option Total :=
  match l with
  | [] => Some s
  | d :: l => match move d s with Some s' => moves l s' | None => None end
  end.

Definition start : Total := mkTotal booted (λ h i, Run (auth_program h i 0)) false.

Local Abbreviation sample_exact :=
  (exact Fips180.sha256 sample_bytes sample_read sample_buffers sample_layout sample_entries).

Local Abbreviation sample_step :=
  (exact_step Fips180.sha256 sample_bytes sample_read sample_buffers sample_layout sample_entries).

Definition A_sp : Z := 0x3FC80780.
Definition H_sp : Z := 0x3FC81380.

(** The HSM waits for a request; Task A sends its frame and waits for the tag; the HSM
    answers and waits again.  Task A attaches the tag and has the HSM compute it once
    more. *)
Definition call (sp r : Z) : list deed := [DoTrap H0 ECALL_UMODE sp; DoReturn H0 r].
Definition ask (sp : Z) : list deed := call sp 0 ++ [DoTrap H0 ECALL_UMODE sp].
Definition answer : list deed :=
  [DoReturn H0 12; DoLocal H0; DoLocal H0] ++ call H_sp 0 ++ [DoLocal H0] ++ ask H_sp.
Definition exchange : list deed :=
  [DoTrap H0 ECALL_UMODE 0x3FC80380] ++ call A_sp 0 ++ ask A_sp ++ ask H_sp ++
  [DoReturn H0 0; DoLocal H0; DoLocal H0; DoLocal H0] ++ ask A_sp ++ answer ++
  [DoReturn H0 8; DoLocal H0; DoLocal H0; DoLocal H0] ++ call A_sp 0 ++ [DoLocal H0; DoTrap H0 ECALL_UMODE A_sp] ++
  answer ++ [DoReturn H0 8].

(** ** The run is one of the system *)

Lemma buffer_listed h i b : b ∈ buffers sample_buffers h i → b ∈ all_buffers.
Proof.
  unfold all_buffers. rewrite !elem_of_app. intros Hb.
  destruct h; do 5 (destruct i as [|i]; [first [by apply not_elem_of_nil in Hb|by auto]|]);
    by apply not_elem_of_nil in Hb.
Qed.

Lemma clear_frame_sound sp : clear_frame sp = true → clear sample_buffers sp.
Proof.
  intros Hc x Hx (h & i & b & Hb%buffer_listed & H1 & H2). unfold clear_frame in Hc.
  apply forallb_forall with (x := b) in Hc; [|by apply list_elem_of_In]. unfold near in Hx.
  apply orb_true_iff in Hc as [Hc%Z.leb_le|Hc%Z.leb_le]; lia.
Qed.

Lemma wf_mem_sound m : wf_mem m = true → mem_wf m.
Proof. by intros H%bool_decide_eq_true a b Hb%H. Qed.

Lemma next_sound h s p p' m :
  next h s p = Some (p', m) →
  exact_local Fips180.sha256 sample_bytes sample_read sample_buffers h (current h (kern s)) (kern s) p p' m.
Proof. destruct p; cbn [next]; try discriminate; intros [= <- <-]; constructor. Qed.

Lemma move_step d s s' : move d s = Some s' → sample_step s s'.
Proof.
  destruct d as [h mcause sp|h r|h|sp]; cbn [move].
  - destruct (raised (running s h) mcause) as [[save c]|] eqn:Hr; [|discriminate].
    destruct (clear_frame sp) eqn:Hc; [|discriminate]. destruct (wf_mem (ram (kern s))) eqn:Hw; [cbn [andb]|discriminate].
    destruct (trap_handler _ _ _ _ _ _) as [[sp' k']| |] eqn:Ht; [|discriminate..]. intros [= <-].
    apply raised_sound in Hr. apply clear_frame_sound in Hc. apply wf_mem_sound in Hw.
    exact (ex_trap _ _ _ _ _ _ s sample_env h mcause save c sp 6000 (ram (kern s)) sp' k' eq_refl Hw
      (λ x _, eq_refl) Hc Hr Ht).
  - destruct (running s h) as [|n k] eqn:Hr; [discriminate|]. intros [= <-]. exact (ex_return _ _ _ _ _ _ s h n k r Hr).
  - destruct (running s h) as [p|] eqn:Hr; [|discriminate].
    destruct (next h s p) as [[p' m]|] eqn:Hn; [|discriminate]. intros [= <-]. apply next_sound in Hn.
    exact (ex_local _ _ _ _ _ _ s h p p' m m Hr Hn (λ x _, eq_refl)).
  - destruct (running s H0) as [[]|] eqn:Hr; try discriminate. cbv zeta.
    destruct (clear_frame sp) eqn:Hc; [|discriminate]. destruct (wf_mem (ram (kern s))) eqn:Hw; [cbn [andb]|discriminate].
    destruct (watchdog_kill _ _ _ _) as [[[] k1]| |] eqn:Hk; [|discriminate..].
    destruct (watchdog_iteration _ _ _ _ _) as [[[] k']| |] eqn:Hit; [|discriminate..]. intros [= <-].
    apply clear_frame_sound in Hc. apply wf_mem_sound in Hw.
    exact (ex_watchdog _ _ _ _ _ _ s sample_env k sp 6000 (ram (kern s)) k1 k' eq_refl Hw (λ x _, eq_refl) Hc Hr Hk Hit).
Qed.

Lemma moves_steps l s s' : moves l s = Some s' → rtc sample_step s s'.
Proof.
  revert s. induction l as [|d l IH]; intros s; cbn [moves]; [by intros [= <-]|].
  destruct (move d s) as [s1|] eqn:Hd; [|discriminate]. intros Hl%IH. eapply rtc_l; [|done]. by apply (move_step d).
Qed.

Lemma steps_exact s s' : rtc sample_step s s' → sample_exact s → sample_exact s'.
Proof. induction 1 as [|s s1 s2 Hs _ IH]; [done|]. intros He. by eapply IH, exact_next. Qed.

Lemma moves_exact l s s' : sample_exact s → moves l s = Some s' → sample_exact s'.
Proof. intros Hs Hl%moves_steps. by eapply steps_exact. Qed.

Lemma start_exact : sample_exact start.
Proof.
  destruct (wp_no_panic _ _ _ (kmain_wp Fips180.sha256 sample_env sample_env sample_entries ∅
    (mkPerHart 0 0) (mkPerHart 0 0) (mkPerHart pmp_reset pmp_reset) sample_secure eq_refl
    pmp_reset_reset_ok pmp_reset_reset_ok)) as (r & k & Hk & _).
  unfold start, booted. fold sample_reset in Hk. rewrite Hk.
  exact (exact_boot _ _ _ _ sample_layout sample_entries sample_env sample_env ∅ (mkPerHart 0 0) (mkPerHart 0 0)
    (mkPerHart pmp_reset pmp_reset) r k eq_refl eq_refl
    sample_secure pmp_reset_reset_ok pmp_reset_reset_ok Hk).
Qed.

(** Task A is about to compare. *)
Definition comparing : Total := default start (moves exchange start).

Lemma comparing_exact : sample_exact comparing.
Proof.
  unfold comparing. assert (Hr : ran (moves exchange start) = true) by (vm_compute; reflexivity).
  apply ran_some in Hr as [s Hs]. rewrite Hs. exact (moves_exact _ _ _ start_exact Hs).
Qed.

(** ** The hypotheses hold for SHA-256 and the sample layout *)

Lemma round_length s kw : length s = 8%nat → length (Fips180.round s kw) = 8%nat.
Proof. by do 9 (destruct s as [|? s]; [done|]). Qed.

Lemma rounds_length l s : length s = 8%nat → length (foldl Fips180.round s l) = 8%nat.
Proof. revert s. induction l as [|kw l IH]; intros s Hs; cbn; [done|]. by apply IH, round_length. Qed.

Lemma blocks_length n hs b : length hs = 8%nat → length (Fips180.blocks n hs b) = 8%nat.
Proof.
  revert hs b. induction n as [|n IH]; intros hs b Hh; cbn [Fips180.blocks]; [done|]. apply IH.
  unfold Fips180.compress. by rewrite length_zip_with, rounds_length, Hh.
Qed.

Lemma sha256_bytes m : length (Fips180.sha256 m) = 32%nat ∧ Forall byte (Fips180.sha256 m).
Proof.
  unfold Fips180.sha256. cbv zeta. set (hs := Fips180.blocks _ _ _).
  assert (Hl : length hs = 8%nat) by by apply blocks_length. clearbody hs. split.
  - do 9 (destruct hs as [|? hs]; try done).
  - apply Forall_concat, Forall_fmap, Forall_true. intros z. apply Forall_fmap, Forall_true. intros i.
    unfold byte, u8. apply Z.mod_pos_bound. lia.
Qed.

Lemma sample_codec : codec Fips180.sha256 sample_bytes sample_read.
Proof.
  split; [apply sha256_bytes|split; [done|apply (bool_decide_unpack _); reflexivity]|].
  apply sample_round_trip. split; [vm_compute; split; congruence..|]. split; [done|].
  apply (bool_decide_unpack _). reflexivity.
Qed.

(** Each task's buffers lie in its own stack block. *)
Lemma sample_area h i x :
  area sample_buffers h i x →
  (h = H0 ∧ i = 1%nat ∧ 0x3FC80400 ≤ x < 0x3FC80700) ∨ (h = H1 ∧ i = 2%nat ∧ 0x3FC80800 ≤ x < 0x3FC80B00) ∨
  (h = H0 ∧ i = 4%nat ∧ 0x3FC81000 ≤ x < 0x3FC81300).
Proof.
  intros (b & Hb & H1 & H2).
  assert (Hin : ∀ l lo hi, b ∈ l → forallb (λ b, (lo <=? fst b) && (fst b + snd b <=? hi)) l = true → lo ≤ x < hi).
  { intros l lo hi Hl%list_elem_of_In HF. rewrite forallb_forall in HF.
    apply HF, andb_true_iff in Hl as [?%Z.leb_le ?%Z.leb_le]. lia. }
  destruct h; do 5 (destruct i as [|i]; [first [by apply not_elem_of_nil in Hb
    |left; split; [done|split; [done|]]; solve [eapply (Hin _ _ _ Hb); reflexivity]
    |right; left; split; [done|split; [done|]]; solve [eapply (Hin _ _ _ Hb); reflexivity]
    |right; right; split; [done|split; [done|]]; solve [eapply (Hin _ _ _ Hb); reflexivity]]|]);
    by apply not_elem_of_nil in Hb.
Qed.

Lemma sample_buffers_ok : buffers_ok sample_buffers.
Proof.
  split.
  - intros h i b Hb%buffer_listed%list_elem_of_In. revert b Hb. apply Forall_forall, (bool_decide_unpack _). vm_compute. exact I.
  - right. by vm_compute.
  - left. by vm_compute.
  - done.
  - intros h i h' i' x Ha%sample_area Ha'%sample_area. naive_solver lia.
Qed.

Lemma sample_placed : placed sample_buffers sample_layout.
Proof.
  split.
  - apply clear_frame_sound. reflexivity.
  - intros x h i Hx Ha%sample_area. unfold near in Hx. change (initial_sp (HSM_STACK sample_layout) 1024) with 0x3FC81380 in Hx. lia.
Qed.

End Run.
Import Run.

Lemma frames_authenticated_witness :
  (∃ q, code comparing H0 1 = Run (Peek (expected_buf sample_buffers) 8 q)) ∧
  let m := ram (kern comparing) in
  load_bytes m (expected_buf sample_buffers) 8 = frame_tag Fips180.sha256 ∧
  verify_frame_secure 0 8 (load_bytes m (expected_buf sample_buffers) 8)
    (auth_at sample_read m (auth_buf sample_buffers)) = true.
Proof.
  assert (Hq : ∃ q, code comparing H0 1 = Run (Peek (expected_buf sample_buffers) 8 q)) by (vm_compute; eexists; reflexivity).
  split; [exact Hq|]. destruct Hq as [q Hq].
  destruct (frames_authenticated Fips180.sha256 sample_bytes sample_read sample_buffers sample_layout sample_entries
    sample_codec sample_buffers_ok sample_placed comparing) as (_ & _ & Hcmp).
  - exact comparing_exact.
  - vm_compute. reflexivity.
  - apply (Hcmp 8%nat q 0 8 Hq); lia.
Defined.
