(* ===== verification/Endpoints.v ===== *)
(** * Endpoints: who may block on which endpoint, and what a step does to task states

    The capabilities the boot hands out decide which task can be blocked on which
    endpoint.  [step_view] sums up, for the theorems about the exchange between Task A
    and the HSM, what the invariants say of one step of the exact system. *)
From S2P Require Import Prelude Memory Tcb Bitmap Can Pmp Spinlock Telemetry Kernel.
From S2P Require Import Trap KernelInv TrapInv Security Boot Reach SyscallSpec IpcSpec.
From S2P Require Import Watchdog AbsSpec Refine Tasks Discipline IpcMoves Messages Compose Protocol.

(** ** Who may use which endpoint *)

Definition may_send (h : hart) (i : nat) (ep : Z) : Prop :=
  h = H0 ∧ (i = 1%nat ∧ (ep = 0 ∨ ep = 2) ∨ i = 4%nat ∧ ep = 3).

Definition may_receive (h : hart) (i : nat) (ep : Z) : Prop :=
  h = H0 ∧ (i = 1%nat ∧ ep = 3 ∨ i = 4%nat ∧ ep = 2) ∨ h = H1 ∧ i = 2%nat ∧ ep = 0.

Lemma sends_on h i z ep : sends (cap_of h i z) = Some ep → may_send h i ep.
Proof.
  unfold cap_of, may_send. generalize (Z.to_nat z). intros j.
  destruct h; do 5 (destruct i as [|i]; [do 8 (destruct j as [|j]; [by cbn; naive_solver|]); done|]);
    do 8 (destruct j as [|j]; [done|]); done.
Qed.

Lemma receives_on h i z ep : receives (cap_of h i z) = Some ep → may_receive h i ep.
Proof.
  unfold cap_of, may_receive. generalize (Z.to_nat z). intros j.
  destruct h; do 5 (destruct i as [|i]; [do 8 (destruct j as [|j]; [by cbn; naive_solver|]); done|]);
    do 8 (destruct j as [|j]; [done|]); done.
Qed.

Lemma cap_at_owned k h z :
  endowed k → cap_at h z k = CapNone ∨ cap_at h z k = cap_of h (current h k) z.
Proof.
  intros He. unfold cap_at. destruct (z <? 8); [|by left]. fold (current h k).
  destruct (task_of h (current h k) k) as [t|] eqn:Ht; [|by left]. right. by rewrite (He _ _ _ Ht).
Qed.

(** The endpoint a trap sends to or receives from. *)
Lemma event_send h mcause sp k cap a n :
  trap_event h mcause sp k = ESend cap a n →
  mcause = ECALL_UMODE ∧ frame_read (ram k) sp A7 = 6 ∧ cap = cap_at h (frame_read (ram k) sp A0) k.
Proof.
  unfold trap_event, call_event. repeat (case_match; try discriminate). intros [= <- _ _].
  split_and!; [by apply Z.eqb_eq|by apply Z.eqb_eq|done].
Qed.

Lemma event_recv h mcause sp k cap a n :
  trap_event h mcause sp k = ERecv cap a n →
  mcause = ECALL_UMODE ∧ frame_read (ram k) sp A7 = 7 ∧ cap = cap_at h (frame_read (ram k) sp A0) k.
Proof.
  unfold trap_event, call_event. repeat (case_match; try discriminate). intros [= <- _ _].
  split_and!; [by apply Z.eqb_eq|by apply Z.eqb_eq|done].
Qed.

Lemma event_sends_on h mcause sp k cap a n ep :
  endowed k → trap_event h mcause sp k = ESend cap a n → sends cap = Some ep → may_send h (current h k) ep.
Proof.
  intros He Hev Hs. apply event_send in Hev as (_ & _ & ->).
  destruct (cap_at_owned k h (frame_read (ram k) sp A0) He) as [Hc|Hc]; rewrite Hc in Hs; [done|].
  by apply sends_on in Hs.
Qed.

Lemma event_receives_on h mcause sp k cap a n ep :
  endowed k → trap_event h mcause sp k = ERecv cap a n → receives cap = Some ep → may_receive h (current h k) ep.
Proof.
  intros He Hev Hs. apply event_recv in Hev as (_ & _ & ->).
  destruct (cap_at_owned k h (frame_read (ram k) sp A0) He) as [Hc|Hc]; rewrite Hc in Hs; [done|].
  by apply receives_on in Hs.
Qed.

(** A task blocked on IPC has the capability for it. *)
Definition permitted (h : hart) (i : nat) (s : TaskState) : Prop :=
  match s with
  | BlockedOnIpcSend ep _ _ => may_send h i ep
  | BlockedOnIpcRecv ep _ _ => may_receive h i ep
  | _ => True
  end.

Definition licensed (k : Kernel) : Prop := ∀ h i s, st (abs k) h i = Some s → permitted h i s.

Lemma mine_permitted h mcause sp k s :
  endowed k → mine (trap_event h mcause sp k) s → permitted h (current h k) s.
Proof.
  intros He Hm. destruct (trap_event h mcause sp k) as [| | | | |cap a n|cap a n| | |] eqn:Hev; try done; cbn in Hm.
  - destruct Hm as (ep & Hcap & ->). by eapply event_sends_on.
  - destruct Hm as (ep & Hcap & ->). by eapply event_receives_on.
Qed.

Section endpoints.
Context (sha256 : list Z → list Z) (frame_bytes : CanFrame → list Z) (read_frame : list Z → CanFrame).
Context (B : Buffers) (L : Layout) (fn : Entries).
Context (Hco : codec sha256 frame_bytes read_frame) (Hbo : buffers_ok B) (Hpl : placed B L).
Local Abbreviation task_program := (program sha256 frame_bytes read_frame B).
Local Abbreviation exact := (exact sha256 frame_bytes read_frame B L fn).
Local Abbreviation exact_step := (exact_step sha256 frame_bytes read_frame B L fn).
Local Abbreviation exact_local := (exact_local sha256 frame_bytes read_frame B).
Local Abbreviation restarts := (restarts sha256 frame_bytes read_frame B).
Local Abbreviation claims := (claims sha256 frame_bytes B).

(** ** What a step of the system does to the states of the tasks *)

Lemma is_terminated_st h i k : is_terminated h i k = true → st (abs k) h i = Some Terminated.
Proof.
  unfold is_terminated. fold (sched_of h k). fold (task_of h i k). cbn. destruct (task_of h i k) as [t|]; [|done].
  intros Ht%bool_decide_eq_true. cbn. by rewrite Ht.
Qed.

(** A restart makes a terminated task Ready. *)
Lemma restarted_state h' j stack entry k h i :
  is_terminated h' j k = true →
  st (abs (restarted h' j stack entry k)) h i = st (abs k) h i ∨
  h = h' ∧ i = j ∧ st (abs (restarted h' j stack entry k)) h i = Some Ready ∧ st (abs k) h i = Some Terminated.
Proof.
  intros Ht. cbn. unfold restarted.
  change (task_of h i (set_LAST_CHECKIN_TICK _ ?kk)) with (task_of h i kk). rewrite task_of_upd.
  change (task_of h i (set_ram _ k)) with (task_of h i k).
  case_decide as Hd; [|by left]. destruct Hd as [<- <-]. right. apply is_terminated_st in Ht. cbn in Ht.
  split_and!; [done|done| |done]. by destruct (task_of h' j k).
Qed.

Lemma revive_state E k1 h i :
  let k' := revive_hsm E fn (revive_c E fn k1) in
  st (abs k') h i = st (abs k1) h i ∨
  (h = H0 ∧ i = 4%nat ∨ h = H1 ∧ i = 3%nat) ∧ st (abs k') h i = Some Ready ∧ st (abs k1) h i = Some Terminated.
Proof.
  cbv zeta.
  assert (Hc : st (abs (revive_c E fn k1)) h i = st (abs k1) h i ∨
    (h = H1 ∧ i = 3%nat) ∧ st (abs (revive_c E fn k1)) h i = Some Ready ∧ st (abs k1) h i = Some Terminated).
  { unfold revive_c. destruct (is_terminated H1 3 k1) eqn:Ht; [|by left].
    destruct (TEST_COUNTER k1 <? 2); [cbn [andb]|by left].
    destruct (restarted_state H1 3 (TASK_C_STACK (layout E)) (task_c fn)
      (set_TEST_COUNTER (wrapping_add (TEST_COUNTER k1) 1) k1) h i Ht) as [?|(? & ? & ? & ?)]; [by left|by right]. }
  unfold revive_hsm. destruct (is_terminated H0 4 (revive_c E fn k1)) eqn:Ht; [|naive_solver].
  destruct (restarted_state H0 4 (HSM_STACK (layout E)) (hsm_task fn) (revive_c E fn k1) h i Ht)
    as [He|(-> & -> & Hr & Hi)]; [rewrite He; naive_solver|].
  right. split_and!; [by left|done|]. by destruct Hc as [<-|[[? _] _]].
Qed.

Lemma revive_wait E k1 m i : wait (abs (revive_hsm E fn (revive_c E fn k1))) m i = wait (abs k1) m i.
Proof.
  unfold revive_hsm, revive_c. destruct (is_terminated H1 3 k1 && _); [|by destruct (is_terminated H0 4 k1)].
  by destruct (is_terminated H0 4 _).
Qed.

(** Only terminated tasks start over. *)
Lemma restarts_alive k1 f h i : st (abs k1) h i ≠ Some Terminated → restarts k1 f h i = f h i.
Proof.
  intros Ha. unfold Compose.restarts, set_code.
  destruct (is_terminated H0 4 k1) eqn:H4; [apply is_terminated_st in H4; rewrite decide_False by naive_solver|];
    (destruct (is_terminated H1 3 k1) eqn:H3; [apply is_terminated_st in H3|done]);
    cbn [andb]; case_match; try done; rewrite decide_False by naive_solver; done.
Qed.

(** The watchdog finds the task with priority [i] at fault. *)
Definition failing (k : Kernel) (i : nat) : Prop :=
  ∃ nm, failed_task (TICK_COUNT k) k = Some nm ∧ failed_prio nm = Z.of_nat i.

(** What the kill of a watchdog iteration does to the states of the tasks. *)
Record killed (k k1 : Kernel) : Prop := {
  kl_settled : ∀ h i x, st (abs k) h i = Some x → settled x = true → ¬ queued (abs k) h i →
    st (abs k1) h i = Some x ∨ st (abs k1) h i = Some Terminated ∧ failing k i;
  kl_back : ∀ h i x, st (abs k1) h i = Some x → on_ipc x = true → st (abs k) h i = Some x;
  kl_wait : ∀ i, wait (abs k1) 0 i = true → wait (abs k) 0 i = true;
  kl_stops : ∀ h i x, st (abs k1) h i = Some x → runnable x = false →
    st (abs k) h i = Some x ∨ x = Terminated ∧ failing k i
}.

Lemma watchdog_viewed s E p sp sc m k1 k' :
  exact s → overrun s = false → layout E = L → mem_wf m → running s H0 = Run (Iteration p) →
  watchdog_kill E sp sc (set_ram m (kern s)) = Done (tt, k1) →
  watchdog_iteration E fn sp sc (set_ram m (kern s)) = Done (tt, k') →
  current H0 (kern s) = 0%nat ∧ k' = revive_hsm E fn (revive_c E fn k1) ∧ killed (kern s) k1.
Proof.
  intros Hs Ho HL Hm Hr Hk1 Hk'.
  destruct (total_safe _ _ _ _ _ _ s (exact_total _ _ _ _ _ _ s Hs)) as [Hi Hu _ Hsync].
  destruct (Hsync Ho) as (ph & Hok & _ & Hf). set (k := set_ram m (kern s)) in *.
  destruct (watchdog_split L fn E sp sc k HL ltac:(by apply (inv_fields _ (kern s))) Hu Hm) as (k2 & Hk2 & Hit & Hcase).
  assert (k2 = k1) as -> by congruence. rewrite Hk' in Hit. injection Hit as ->.
  assert (Hcur : current H0 (kern s) = 0%nat).
  { specialize (Hf H0 (current H0 (kern s))). unfold running in Hr. rewrite Hr in Hf.
    destruct (ph H0 _); [|done|]; by destruct Hf as (_ & ? & _). }
  split_and!; [done|done|]. destruct (kill_states k k1 ph Hok Hcur Hcase) as (H1 & H2 & H3 & H4). by split.
Qed.

(** A step of the system, with what the invariants say of it. *)
Inductive step_view (s : Total) : Total → Prop :=
  | sv_trap E h mcause save c sp m k' :
      let k0 := set_ram (save sp m) (kern s) in
      raises (running s h) mcause save c →
      trap_view sha256 frame_bytes B E h mcause sp k0 (code s) k' → step_view s (goes s h c k')
  | sv_own h p k' :
      abs k' = abs (kern s) →
      (∃ n k r, running s h = Ret n k ∧ p = k r) ∨
      (∃ p0 m0, running s h = Run p0 ∧ exact_local h (current h (kern s)) (kern s) p0 p m0) →
      step_view s (goes s h (Run p) k')
  | sv_watchdog E p k1 o :
      current H0 (kern s) = 0%nat → killed (kern s) k1 →
      step_view s (mkTotal (revive_hsm E fn (revive_c E fn k1))
                           (set_code H0 0 (Run p) (restarts k1 (code s))) o).

Lemma exact_step_view s s' : exact s → overrun s = false → exact_step s s' → step_view s s'.
Proof.
  intros Hs Ho Hstep. destruct (total_safe _ _ _ _ _ _ s (exact_total _ _ _ _ _ _ s Hs)) as [Hi Hu Hlock Hsync].
  destruct (exact_followed _ _ _ _ _ _ Hco Hbo Hpl s Hs) as [He Hfo]. destruct (Hfo Ho) as [Hp Hc].
  destruct (Hsync Ho) as (ph & Hok & Hrest & Hf).
  destruct Hstep as [E h mcause save c sp sc m sp' k' HL Hm Hsame Hcl Hr Ht|h n q r Hr|h p p' m m' Hr Hl Hsame
                    |E p sp sc m k1 k' HL Hm Hsame Hcl Hr k Hk1 Hk'].
  - eapply sv_trap; [done|]. by eapply trap_viewed.
  - apply sv_own; [done|]. left. by exists n, q, r.
  - apply sv_own; [done|]. right. by exists p, m.
  - destruct (watchdog_viewed s E p sp sc m k1 k' Hs Ho HL Hm Hr Hk1 Hk') as (Hcur & -> & Hkl).
    change (current H0 k) with (current H0 (kern s)). rewrite Hcur. by apply sv_watchdog.
Qed.

(** A task blocked on IPC is not queued for the mutex. *)
Lemma ipc_unqueued k f ph h i x :
  world_ok (abs k) ph → (∀ h i, follows h i (ph h i) (f h i)) → claims k f →
  st (abs k) h i = Some x → on_ipc x = true → ¬ queued (abs k) h i.
Proof.
  intros Hok Hf Hc Hx Hi Hq. specialize (Hc h i). cbn in Hx. rewrite Hx in Hc.
  destruct (f h i) as [p|m q] eqn:Hcode; [destruct Hc as [Hc _]; by rewrite (Hc _ eq_refl) in Hi|].
  destruct (queued_resumable sha256 frame_bytes B k f ph h i q m x (ram k) Hok Hf Hq Hcode Hc (on_ipc_settled _ Hi))
    as [-> _]. done.
Qed.

(** ** Only owners of a capability block on IPC *)

Lemma step_overrun s s' : exact_step s s' → overrun s' = false → overrun s = false.
Proof. destruct 1; cbn; try done. by intros [? _]%orb_false_iff. Qed.

Lemma exact_endowed s : exact s → endowed (kern s).
Proof. intros Hs. by destruct (exact_followed _ _ _ _ _ _ Hco Hbo Hpl s Hs). Qed.

Lemma exact_licensed s : exact s → overrun s = false → licensed (kern s).
Proof.
  induction 1 as [E0 E1 m i0 c0 p0 sps k HL0 HL1 Hsb Hr0 Hr1 Hk|s s' Hs IH Hstep].
  - intros _ h i x Hst. assert (HL : layout E0 = layout E1) by congruence.
    pose proof (wp_result _ _ _ _ _ _ (kmain_wp sha256 E0 E1 fn m i0 c0 p0 Hsb HL Hr0 Hr1) Hk)
      as (_ & _ & _ & _ & _ & Hsch & _). cbn in Hst. destruct (task_of h i k) as [t|] eqn:Ht; [|done].
    unfold task_of, sched_of in Ht. rewrite Hsch in Ht. injection Hst as <-.
    by destruct (boot_state_cases _ _ _ _ Ht) as [Hst|[Hst _]]; rewrite Hst.
  - intros Ho. specialize (IH (step_overrun _ _ Hstep Ho)).
    pose proof (exact_endowed s Hs) as He.
    destruct (exact_step_view s s' Hs (step_overrun _ _ Hstep Ho) Hstep) as [E h mcause save c sp m k' k0 Hr Htv
      |h p k' Hk' _|E p k1 o Hcur Hkl]; cbn [kern goes]; intros h' i x Hst.
    + destruct (on_ipc x) eqn:Hx; [|by destruct x].
      destruct (ie_back _ _ _ _ (tv_effect _ _ _ _ _ _ _ _ _ _ Htv) h' i _ Hst Hx) as [?|(-> & -> & Hm)];
        [by apply IH|]. by eapply (mine_permitted h mcause sp k0).
    + rewrite Hk' in Hst. by apply IH.
    + destruct (on_ipc x) eqn:Hx; [|by destruct x].
      destruct (revive_state E k1 h' i) as [Hr|(_ & Hr & _)]; cbv zeta in Hr; rewrite Hr in Hst; [|by simplify_eq].
      apply IH. by apply (kl_back _ _ Hkl).
Qed.
End endpoints.
