(* ===== verification/Stranded.v ===== *)
(** * Stranded: a restart of the HSM loses the request it was working on

    The watchdog restarts the HSM from its entry point.  If Task A is waiting for the
    reply to a request at that moment, the reply never comes: the restarted HSM waits
    for a new request, which only Task A could send.  Task A stays blocked for good,
    until the watchdog terminates it too, and it is not restarted. *)
From S2P Require Import Prelude Memory Tcb Bitmap Can Pmp Spinlock Telemetry Kernel.
From S2P Require Import Trap KernelInv TrapInv Security Boot Reach SyscallSpec IpcSpec.
From S2P Require Import Watchdog AbsSpec Refine Tasks Discipline IpcMoves Messages Compose Protocol Endpoints Authentic.

Section stranded.
Context (sha256 : list Z → list Z) (frame_bytes : CanFrame → list Z) (read_frame : list Z → CanFrame).
Context (B : Buffers) (L : Layout) (fn : Entries).
Context (Hco : codec sha256 frame_bytes read_frame) (Hbo : buffers_ok B) (Hpl : placed B L).
Local Abbreviation task_program := (program sha256 frame_bytes read_frame B).
Local Abbreviation exact := (exact sha256 frame_bytes read_frame B L fn).
Local Abbreviation exact_step := (exact_step sha256 frame_bytes read_frame B L fn).
Local Abbreviation exact_local := (exact_local sha256 frame_bytes read_frame B).
Local Abbreviation restarts := (restarts sha256 frame_bytes read_frame B).
Local Abbreviation exact_step_view := (exact_step_view sha256 frame_bytes read_frame B L fn Hco Hbo Hpl).
Local Abbreviation exact_endowed := (exact_endowed sha256 frame_bytes read_frame B L fn Hco Hbo Hpl).
Local Abbreviation exact_licensed := (exact_licensed sha256 frame_bytes read_frame B L fn Hco Hbo Hpl).

(** ** The HSM has no request, Task A waits for a reply *)

(** Code of the HSM that receives a request before it does anything else, its check-in
    excepted. *)
Fixpoint unasked (p : prog) : Prop :=
  match p with
  | Sys n a0 _ _ k => n = 7 ∧ a0 = 0 ∨ n = 5 ∧ ∀ r, unasked (k r)
  | _ => False
  end.

Definition idles (c : cont) (o : option TaskState) : Prop :=
  match c with
  | Run p => unasked p
  | Ret n k => n = 5 ∧ (∀ r, unasked (k r)) ∨ n = 7 ∧ ((∃ a l, o = Some (BlockedOnIpcRecv 2 a l)) ∨ o = Some Terminated)
  end.

(** Where Task A wants the reply. *)
Context (a n : Z).

Definition awaits (o : option TaskState) : Prop := o = Some (BlockedOnIpcRecv 3 a n) ∨ o = Some Terminated.

Record stranded (s : Total) : Prop := {
  sd_waits : awaits (st (abs (kern s)) H0 1);
  sd_queue : wait (abs (kern s)) 0 1 = false;
  sd_quiet : ∀ h i b l, st (abs (kern s)) h i ≠ Some (BlockedOnIpcSend 2 b l);
  sd_hsm : idles (code s H0 4) (st (abs (kern s)) H0 4)
}.

Lemma awaits_settled o : awaits o → ∃ x, o = Some x ∧ settled x = true.
Proof. intros [-> | ->]; eauto. Qed.

(** Settled tasks do not run. *)
Lemma settled_parked w h i x : rests w → st w h i = Some x → settled x = true → cur w h ≠ i.
Proof. intros Hr Hx (H1 & H2 & _)%settled_facts <-. destruct (Hr h) as [H|H]; congruence. Qed.

(** The HSM never waits for the mutex. *)
Lemma hsm_unqueued w ph : world_ok w ph → ¬ queued w H0 4.
Proof. intros Hok [_ Hw]. by destruct (wo_wait _ _ Hok 4%nat Hw) as [? _]. Qed.

Section trap.
Context (s : Total) (Hsd : stranded s) (ph : hart → nat → phase).
Context (Hok : world_ok (abs (kern s)) ph) (Hrest : rests (abs (kern s))) (He : endowed (kern s)).
Context (E : Env) (h : hart) (mcause sp : Z) (save : Z → Mem → Mem) (m : Mem) (c : cont) (k' : Kernel).
Local Abbreviation k0 := (set_ram (save sp m) (kern s)).
Context (Hr : raises (running s h) mcause save c).
Context (Htv : trap_view sha256 frame_bytes B E h mcause sp k0 (code s) k').

Lemma a_not_running : current H0 (kern s) ≠ 1%nat.
Proof. destruct (awaits_settled _ (sd_waits _ Hsd)) as (x & Hx & Hs). by apply (settled_parked (abs (kern s)) H0 1 x). Qed.

(** Nobody sends Task A a reply, or the HSM a request. *)
Lemma nobody_sends cap b l ep :
  trap_event h mcause sp k0 = ESend cap b l → sends cap = Some ep → ep ≠ 2 ∧ ep ≠ 3.
Proof.
  intros Hev Hs. destruct (event_sends_on _ _ _ k0 _ _ _ _ He Hev Hs) as (Hh & Hc).
  change (current h k0) with (current h (kern s)) in Hc. rewrite Hh in Hc.
  destruct Hc as [[Hc _]|[Hc ->]]; [by destruct a_not_running|].
  exfalso. apply event_send in Hev as (Hm & H6 & _). pose proof (sd_hsm _ Hsd) as Hi.
  assert (Hrun : running s h = code s H0 4) by (unfold running; rewrite Hh; by rewrite <- Hc).
  rewrite Hrun in Hr. inversion Hr as [n0 x0 x1 x2 q Hq|cause q Hq|cause q Hq|? Hq|? Hq]; subst; try done.
  - rewrite <- Hq in Hi. cbn in Hi. assert (Hn : n0 = 5 ∨ n0 = 7) by naive_solver.
    destruct (call_regs sp n0 x0 x1 x2 m) as (R7 & _). change (frame_read (syscall_frame sp n0 x0 x1 x2 m) sp A7 = 6) in H6.
    rewrite R7, u32_small in H6; lia.
  - by rewrite <- Hq in Hi.
  - by rewrite <- Hq in Hi.
Qed.

Lemma stays h' i x :
  st (abs (kern s)) h' i = Some x → ¬ queued (abs (kern s)) h' i →
  (∃ ep b l, x = BlockedOnIpcRecv ep b l ∧ (ep = 2 ∨ ep = 3)) ∨ x = Terminated → st (abs k') h' i = Some x.
Proof.
  intros Hx Hq Hkind. assert (Hs : settled x = true) by (destruct Hkind as [(? & ? & ? & -> & _)| ->]; done).
  destruct (ie_settled _ _ _ _ (tv_effect _ _ _ _ _ _ _ _ _ _ Htv) h' i x Hx Hs Hq) as [?|[_ Hse]]; [done|exfalso].
  destruct Hkind as [(ep & b & l & -> & Hep)| ->].
  - apply serves_receiver in Hse as Hev. destruct Hev as (cap & b' & l' & Hev). rewrite Hev in Hse.
    destruct Hse as (ep' & Hcap & Hw). cbn in Hw. apply Z.eqb_eq in Hw. subst ep'.
    destruct (nobody_sends _ _ _ _ Hev Hcap). lia.
  - destruct (trap_event h mcause sp k0); cbn in Hse; try done; by destruct Hse as (? & _ & ?).
Qed.

(** What the trap leaves of the HSM's wait. *)
Lemma idle_others :
  ¬ (h = H0 ∧ current H0 (kern s) = 4%nat) → idles (code s H0 4) (st (abs k') H0 4).
Proof.
  intros Hn. pose proof (sd_hsm _ Hsd) as Hi. destruct (code s H0 4) as [p|n0 q]; [done|].
  destruct Hi as [?|[-> Hst]]; [by left|right]. split; [done|].
  destruct Hst as [(b & l & Hst)|Hst]; [left; exists b, l|right];
    (apply stays; [exact Hst|by eapply hsm_unqueued|naive_solver]).
Qed.

Lemma hsm_receives :
  h = H0 → current H0 (kern s) = 4%nat → mcause = ECALL_UMODE →
  frame_read (ram k0) sp A7 = 7 → frame_read (ram k0) sp A0 = 0 →
  st (abs k') H0 4 = Some (BlockedOnIpcRecv 2 (frame_read (ram k0) sp A1) (frame_read (ram k0) sp A2)).
Proof.
  intros Hh Hc Hm R7 R0. destruct (tv_script _ _ _ _ _ _ _ _ _ _ Htv) as (l & Hscript & Hpath).
  assert (Hsome : is_Some (task_of H0 (current H0 k0) k0)) by by apply current_some.
  unfold trap_event, call_event in Hscript. rewrite Hm, R7, R0 in Hscript. cbn [Z.eqb Pos.eqb] in Hscript.
  change (cur (abs k0) H0 = 4%nat) in Hc. rewrite <- Hc. rewrite Hh in *.
  eapply (recv_blocks H0 (abs k0)); [exact (wo_only _ _ Hok)|..|exact Hscript|exact Hpath].
  - by apply fmap_is_Some.
  - rewrite Hc. by eapply hsm_unqueued.
  - rewrite cap_at_of by (done || lia). change (current H0 k0) with (cur (abs k0) H0). by rewrite Hc.
  - intros h' i. unfold waits_on. destruct (st (abs k0) h' i) as [[]|] eqn:Hst; try done. cbn.
    apply Z.eqb_neq. intros ->. by apply (sd_quiet _ Hsd) in Hst.
Qed.

Lemma idle_own : h = H0 → current H0 (kern s) = 4%nat → idles c (st (abs k') H0 4).
Proof.
  intros Hh Hc. pose proof (sd_hsm _ Hsd) as Hi.
  assert (Hrun : running s h = code s H0 4) by (unfold running; rewrite Hh; by rewrite <- Hc).
  assert (Hsame : idles (code s H0 4) (st (abs k') H0 4)).
  { destruct (code s H0 4) as [p|n0 q]; [done|]. destruct Hi as [?|[-> Hst]]; [by left|exfalso].
    assert (∃ x, st (abs (kern s)) H0 4 = Some x ∧ settled x = true) as (x & Hx & Hs)
      by (destruct Hst as [(? & ? & ?)|?]; eauto).
    by apply (settled_parked (abs (kern s)) H0 4 x Hrest Hx Hs). }
  pose proof Hr as Hr'. rewrite Hrun in Hr'. inversion Hr' as [n0 x0 x1 x2 q Hq|cause q Hq|cause q Hq|? Hq|? Hq].
  - rewrite <- Hq in Hi. cbn in Hi. destruct Hi as [[-> ->]|[-> Hi]]; [|by left].
    right. split; [done|]. left. destruct (call_regs sp 7 0 x1 x2 m) as (R7 & R0 & _).
    exists (frame_read (ram k0) sp A1), (frame_read (ram k0) sp A2).
    assert (Hsv : syscall_frame sp 7 0 x1 x2 m = ram k0) by (subst save; done).
    rewrite Hsv in R7, R0. by apply hsm_receives.
  - by rewrite <- Hq in Hi.
  - by rewrite <- Hq in Hi.
  - exact Hsame.
  - exact Hsame.
Qed.
End trap.

Lemma trap_stranded s ph E h mcause save c sp m k' :
  stranded s → world_ok (abs (kern s)) ph → rests (abs (kern s)) → endowed (kern s) →
  raises (running s h) mcause save c →
  trap_view sha256 frame_bytes B E h mcause sp (set_ram (save sp m) (kern s)) (code s) k' →
  stranded (goes s h c k').
Proof.
  intros Hsd Hok Hrest He Hr Htv. pose proof (a_not_running s Hsd Hrest) as Hna. pose proof Hsd as [Hw Hq Hno _].
  split; cbn [kern code goes].
  - destruct Hw as [Hst|Hst]; [left|right];
      (eapply stays; try done; [intros [_ ?]; congruence|naive_solver]).
  - apply not_true_iff_false. intros Hw'. destruct (ie_wait _ _ _ _ (tv_effect _ _ _ _ _ _ _ _ _ _ Htv) 1%nat Hw')
      as [Hold|[Hc Hh]]; [change (wait (abs (kern s)) 0 1 = true) in Hold; congruence|]. rewrite <- Hh in Hc. by apply Hna.
  - intros h' i b l Hst. destruct (ie_back _ _ _ _ (tv_effect _ _ _ _ _ _ _ _ _ _ Htv) h' i _ Hst eq_refl)
      as [Hold|(-> & -> & Hm)]; [by apply Hno in Hold|].
    eapply mine_permitted in Hm; [|done]. by destruct Hm as [-> [[Hc _]|[_ ?]]].
  - unfold set_code. case_decide as Hd; [destruct Hd as [-> Hc]; by eapply idle_own|].
    eapply idle_others; try done. intros [-> Hc]. by apply Hd.
Qed.

Lemma own_stranded s h p k' :
  stranded s → rests (abs (kern s)) → abs k' = abs (kern s) →
  (∃ n k r, running s h = Ret n k ∧ p = k r) ∨
  (∃ p0 m0, running s h = Run p0 ∧ exact_local h (current h (kern s)) (kern s) p0 p m0) →
  stranded (goes s h (Run p) k').
Proof.
  intros [Hw Hq Hno Hi] Hrest Hk Hown. split; cbn [kern code goes]; rewrite ?Hk; try done.
  unfold set_code. case_decide as Hd; [|done]. destruct Hd as [-> Hc]. unfold running in Hown. rewrite Hc in Hown.
  destruct Hown as [(n0 & q & r & Hr & ->)|(p0 & m0 & Hr & Hl)]; rewrite Hr in Hi; cbn [idles] in *.
  - destruct Hi as [[_ ?]|[_ Hst]]; [done|exfalso].
    assert (∃ x, st (abs (kern s)) H0 4 = Some x ∧ settled x = true) as (x & Hx & Hs)
      by (destruct Hst as [(? & ? & ?)|?]; eauto).
    by apply (settled_parked (abs (kern s)) H0 4 x Hrest Hx Hs).
  - by destruct Hl.
Qed.

Lemma watchdog_stranded s ph E p k1 o :
  stranded s → world_ok (abs (kern s)) ph → killed (kern s) k1 →
  stranded (mkTotal (revive_hsm E fn (revive_c E fn k1)) (set_code H0 0 (Run p) (restarts k1 (code s))) o).
Proof.
  intros [Hw Hq Hno Hi] Hok [H1 H2 H3 _]. split; cbn [kern code].
  - assert (Hk1 : awaits (st (abs k1) H0 1)).
    { destruct (awaits_settled _ Hw) as (x & Hx & Hs). destruct (H1 H0 1%nat x Hx Hs) as [He|[He _]];
        [intros [_ ?]; congruence|rewrite He, <- Hx; done|right; done]. }
    destruct (revive_state fn E k1 H0 1) as [Hr|([[_ ?]|[? _]] & _)]; [cbv zeta in Hr; by rewrite Hr|done..].
  - apply not_true_iff_false. rewrite revive_wait. intros ?%H3. congruence.
  - intros h i b l Hst. destruct (revive_state fn E k1 h i) as [Hr|(_ & Hr & _)]; cbv zeta in Hr; [|congruence].
    rewrite Hr in Hst. apply H2 in Hst; [|done]. by apply Hno in Hst.
  - unfold set_code at 1. rewrite decide_False by naive_solver. unfold Compose.restarts.
    destruct (is_terminated H0 4 k1) eqn:Ht.
    { unfold set_code at 1. rewrite decide_True by done. cbn. right. split; [done|]. intros _. by left. }
    match goal with |- idles ?c _ => assert (Hsame : c = code s H0 4) end.
    { case_match; [|done]. unfold set_code. by rewrite decide_False by naive_solver. }
    rewrite Hsame. destruct (code s H0 4) as [q|n0 q]; [done|]. destruct Hi as [?|[-> Hst]]; [by left|].
    right. split; [done|]. left.
    assert (Halive : st (abs k1) H0 4 ≠ Some Terminated).
    { intros Hd. unfold is_terminated in Ht. fold (sched_of H0 k1) in Ht. cbn in Hd. unfold task_of in Hd.
      destruct (slot (task_table (sched_of H0 k1)) 4) as [t|]; [|done]. apply bool_decide_eq_false in Ht. cbn in Hd. congruence. }
    pose proof (hsm_unqueued _ _ Hok) as Hnq.
    destruct Hst as [(b & l & Hst)|Hst]; (destruct (H1 H0 4%nat _ Hst eq_refl Hnq) as [He|[He _]]; [|done]); [|done].
    exists b, l. destruct (revive_state fn E k1 H0 4) as [Hr|(_ & _ & Hd)]; cbv zeta in *; [by rewrite Hr|done].
Qed.

Lemma step_stranded s s' :
  exact s → overrun s = false → exact_step s s' → stranded s → stranded s'.
Proof.
  intros Hs Ho Hstep Hsd. destruct (total_safe _ _ _ _ _ _ s (exact_total _ _ _ _ _ _ s Hs)) as [_ _ _ Hsync].
  destruct (Hsync Ho) as (ph & Hok & Hrest & _).
  destruct (exact_step_view s s' Hs Ho Hstep) as [E h mcause save c sp m k' k0 Hr Htv|h p k' Hk' Hown|E p k1 o Hcur Hkl].
  - eapply trap_stranded; try done. by apply exact_endowed.
  - by apply own_stranded.
  - by eapply watchdog_stranded.
Qed.

Lemma steps_overrun s s' : rtc exact_step s s' → overrun s' = false → overrun s = false.
Proof. induction 1 as [|s s1 s2 Hstep _ IH]; [done|]. intros Ho. by eapply step_overrun, IH. Qed.

Lemma steps_stranded s s' :
  rtc exact_step s s' → exact s → overrun s' = false → stranded s → stranded s' ∧ exact s'.
Proof.
  induction 1 as [s|s s1 s2 Hstep Hrest IH]; intros Hs Ho Hsd; [done|].
  apply IH; [by eapply exact_next|done|]. eapply step_stranded; try done.
  by eapply step_overrun, steps_overrun.
Qed.

(** A restart of the HSM while Task A waits. *)
Lemma entry_stranded s :
  exact s → overrun s = false → state <$> task_of H0 1 (kern s) = Some (BlockedOnIpcRecv 3 a n) →
  code s H0 4 = Run (task_program H0 4 0) → stranded s.
Proof.
  intros Hs Ho Ha Hh. destruct (total_safe _ _ _ _ _ _ s (exact_total _ _ _ _ _ _ s Hs)) as [_ _ _ Hsync].
  destruct (Hsync Ho) as (ph & Hok & Hrest & Hf). split.
  - by left.
  - apply not_true_iff_false. intros Hw. destruct (exact_followed _ _ _ _ _ _ Hco Hbo Hpl s Hs) as [_ Hfo].
    destruct (Hfo Ho) as [_ Hc].
    by apply (ipc_unqueued _ _ _ _ _ ph H0 1 _ Hok Hf Hc Ha).
  - intros h i b l Hst. destruct (exact_licensed s Hs Ho _ _ _ Hst) as [-> [[-> _]|[_ ?]]]; [|done].
    cbn in Hst. congruence.
  - rewrite Hh. cbn. right. split; [done|]. intros _. by left.
Qed.

(** C38. A restart of the HSM strands Task A.  In every state the system reaches in which
    Task A waits for the HSM's reply while the HSM is about to start from its entry point,
    as it is after the watchdog has restarted it: whatever happens afterwards, as long as
    the watchdog terminates no task that hart 1 runs, Task A stays blocked on that reply
    or is terminated; it is never ready again and never runs. *)
Theorem restart_strands s s' :
  exact s → state <$> task_of H0 1 (kern s) = Some (BlockedOnIpcRecv 3 a n) →
  code s H0 4 = Run (task_program H0 4 0) →
  rtc exact_step s s' → overrun s' = false →
  (state <$> task_of H0 1 (kern s') = Some (BlockedOnIpcRecv 3 a n) ∨
   state <$> task_of H0 1 (kern s') = Some Terminated) ∧
  current H0 (kern s') ≠ 1%nat.
Proof.
  intros Hs Ha Hh Hsteps Ho. pose proof (steps_overrun _ _ Hsteps Ho) as Ho0.
  assert (Hsd : stranded s) by by apply entry_stranded.
  destruct (steps_stranded s s' Hsteps Hs Ho Hsd) as [Hsd' Hs']. split; [apply Hsd'|].
  destruct (total_safe _ _ _ _ _ _ s' (exact_total _ _ _ _ _ _ s' Hs')) as [_ _ _ Hsync].
  destruct (Hsync Ho) as (ph & _ & Hrest & _). by apply a_not_running.
Qed.
End stranded.

(** ** A run in which it happens *)

Module Lost.
Import Run.

Definition W_sp : Z := 0x3FC80380.
Definition rep (n : nat) (l : list deed) : list deed := concat (replicate n l).
Definition tick0 (sp : Z) : deed := DoTrap H0 TIMER_INTERRUPT sp.
Definition tick1 : deed := DoTrap H1 TIMER_INTERRUPT 0x3FC80B80.

(** Task A and the HSM check in at tick 1; the HSM waits for a request, Task A sends one
    and waits for the reply.  The HSM has the request but no reply yet when its slice ends
    at tick 206, more than 200 ticks after its check-in, and the watchdog runs. *)
Definition delayed : list deed :=
  [DoTrap H0 ECALL_UMODE W_sp; tick1] ++ call A_sp 0 ++ call A_sp 0 ++ [DoTrap H0 ECALL_UMODE A_sp] ++
  call H_sp 0 ++ [DoTrap H0 ECALL_UMODE H_sp; DoReturn H0 0; DoLocal H0; DoLocal H0; DoLocal H0] ++
  ask A_sp ++ rep 105 [tick1] ++ rep 100 [tick0 H_sp] ++ [DoReturn H0 0].

(** The watchdog sleeps again; the HSM checks in and waits for a request. *)
Definition afterwards : list deed := [DoLocal H0; DoTrap H0 ECALL_UMODE W_sp] ++ ask H_sp.

Definition awaiting : Total := default start (moves delayed start).
Definition lost : Total := default start (move (DoWatchdog W_sp) awaiting).
Definition later : Total := default start (moves afterwards lost).

Local Abbreviation sample_exact :=
  (exact Fips180.sha256 sample_bytes sample_read sample_buffers sample_layout sample_entries).
Local Abbreviation sample_step :=
  (exact_step Fips180.sha256 sample_bytes sample_read sample_buffers sample_layout sample_entries).

(** A watchdog iteration that finds the HSM terminated restarts its code. *)
Lemma hsm_restart s s' sp :
  move (DoWatchdog sp) s = Some s' → current H0 (kern s) = 0%nat →
  (if watchdog_kill sample_env sp 6000 (set_ram (ram (kern s)) (kern s)) is Done (_, k1)
   then is_terminated H0 4 k1 else false) = true →
  code s' H0 4 = Run (auth_program H0 4 0).
Proof.
  cbn [move]. destruct (running s H0) as [[]|] eqn:Hr; try discriminate. cbv zeta.
  destruct (clear_frame sp && wf_mem (ram (kern s))); [|discriminate].
  destruct (watchdog_kill _ _ _ _) as [[[] k1]| |]; [|discriminate..].
  destruct (watchdog_iteration _ _ _ _ _) as [[[] k']| |]; [|discriminate..]. intros [= <-] Hc Ht.
  change (set_code H0 (current H0 (kern s)) (Run k) (auth_restarts k1 (code s)) H0 4 = Run (auth_program H0 4 0)).
  rewrite Hc. change (auth_restarts k1 (code s) H0 4 = Run (auth_program H0 4 0)).
  unfold auth_restarts, restarts. by rewrite Ht.
Qed.

Definition kills_hsm (s : Total) : bool :=
  if watchdog_kill sample_env W_sp 6000 (set_ram (ram (kern s)) (kern s)) is Done (_, k1)
  then is_terminated H0 4 k1 else false.

Definition a_waits (s : Total) : bool :=
  bool_decide (state <$> task_of H0 1 (kern s) = Some (BlockedOnIpcRecv 3 (tag_buf sample_buffers) 8)).
Definition hsm_waits (s : Total) : bool :=
  bool_decide (state <$> task_of H0 4 (kern s) = Some (BlockedOnIpcRecv 2 (req_buf sample_buffers) 12)).

(** The whole run, evaluated once. *)
Definition happens : bool :=
  match moves delayed start with
  | Some s0 => bool_decide (current H0 (kern s0) = 0%nat) && kills_hsm s0 &&
      match move (DoWatchdog W_sp) s0 with
      | Some s1 => a_waits s1 &&
          match moves afterwards s1 with Some s2 => hsm_waits s2 && negb (overrun s2) | None => false end
      | None => false
      end
  | None => false
  end.

Lemma it_happens : happens = true.
Proof. vm_compute. reflexivity. Qed.

Lemma lost_facts :
  sample_exact lost ∧ a_waits lost = true ∧ code lost H0 4 = Run (auth_program H0 4 0) ∧
  rtc sample_step lost later ∧ overrun later = false ∧ hsm_waits later = true.
Proof.
  pose proof it_happens as Hh. unfold happens in Hh. unfold later, lost, awaiting.
  destruct (moves delayed start) as [s0|] eqn:E0; [|discriminate]. cbn [from_option Datatypes.id].
  apply andb_true_iff in Hh as [[Hc%bool_decide_eq_true Hk]%andb_true_iff Hh].
  destruct (move (DoWatchdog W_sp) s0) as [s1|] eqn:E1; [|discriminate]. cbn [from_option Datatypes.id].
  apply andb_true_iff in Hh as [Ha Hh].
  destruct (moves afterwards s1) as [s2|] eqn:E2; [|discriminate]. cbn [from_option Datatypes.id].
  apply andb_true_iff in Hh as [Hw Ho%negb_true_iff]. split_and!.
  - eapply exact_next; [exact (moves_exact _ _ _ start_exact E0)|exact (move_step _ _ _ E1)].
  - exact Ha.
  - exact (hsm_restart s0 s1 W_sp E1 Hc Hk).
  - exact (moves_steps _ _ _ E2).
  - exact Ho.
  - exact Hw.
Qed.

End Lost.
Import Run Lost.

Lemma restart_strands_witness :
  state <$> task_of H0 1 (kern lost) = Some (BlockedOnIpcRecv 3 (tag_buf sample_buffers) 8) ∧
  state <$> task_of H0 4 (kern later) = Some (BlockedOnIpcRecv 2 (req_buf sample_buffers) 12) ∧
  (state <$> task_of H0 1 (kern later) = Some (BlockedOnIpcRecv 3 (tag_buf sample_buffers) 8) ∨
   state <$> task_of H0 1 (kern later) = Some Terminated) ∧ current H0 (kern later) ≠ 1%nat.
Proof.
  destruct lost_facts as (Hx & Ha%bool_decide_eq_true & He & Hs & Ho & Hh%bool_decide_eq_true).
  split; [exact Ha|]. split; [exact Hh|].
  apply (restart_strands Fips180.sha256 sample_bytes sample_read sample_buffers sample_layout sample_entries
    sample_codec sample_buffers_ok sample_placed (tag_buf sample_buffers) 8 lost later Hx Ha He Hs Ho).
Defined.
