(* ===== verification/Exchange.v ===== *)
(** * Exchange: Task A and the HSM do not deadlock

    The exact system of [Protocol] lets a call return anything.  Here the two IPC calls
    return what the kernel left in the caller's frame, and the watchdog finds neither
    Task A nor the HSM at fault.  Then the two take turns: whenever Task A is blocked on
    a request or a reply, the HSM is not blocked on IPC. *)
From S2P Require Import Prelude Memory Tcb Bitmap Can Pmp Spinlock Telemetry Kernel.
From S2P Require Import Trap KernelInv TrapInv Security Boot Reach SyscallSpec IpcSpec.
From S2P Require Import Watchdog AbsSpec Refine Tasks Discipline IpcMoves Messages Compose Delivery.
From S2P Require Import Protocol Endpoints Authentic.

(** ** Results *)

(** The [a0] word of the frame of a task that a trap leaves with a result: the task that
    made the call, and a task the call wakes from IPC. *)
Definition new_result (h : hart) (mcause sp : Z) (k k' : Kernel) (r : hart → nat → Z) : hart → nat → Z :=
  λ h' i,
    if decide (h' = h ∧ i = current h k) then if mcause =? ECALL_UMODE then frame_read (ram k') sp A0 else r h' i
    else match task_of h' i k, state <$> task_of h' i k' with
         | Some t, Some Ready => if on_ipc (state t) then frame_read (ram k') (saved_sp t) A0 else r h' i
         | _, _ => r h' i
         end.

(** The frame at [sp] overlaps no frame of a task blocked on IPC. *)
Definition apart (sp : Z) (k : Kernel) : Prop :=
  ∀ h i t, task_of h i k = Some t → on_ipc (state t) = true → disjoint sp 128 (saved_sp t) 128.

Record Live := mkLive { tot : Total; returned : hart → nat → Z }.

Section exchange.
Context (sha256 : list Z → list Z) (frame_bytes : CanFrame → list Z) (read_frame : list Z → CanFrame).
Context (B : Buffers) (L : Layout) (fn : Entries).
Local Abbreviation task_program := (program sha256 frame_bytes read_frame B).
Local Abbreviation exact := (exact sha256 frame_bytes read_frame B L fn).
Local Abbreviation exact_step := (exact_step sha256 frame_bytes read_frame B L fn).
Local Abbreviation exact_local := (exact_local sha256 frame_bytes read_frame B).
Local Abbreviation restarts := (restarts sha256 frame_bytes read_frame B).
Local Abbreviation claims := (claims sha256 frame_bytes B).
Local Abbreviation message := (message sha256 frame_bytes).
Local Abbreviation reads := (reads sha256 frame_bytes).
Local Abbreviation trap_view := (trap_view sha256 frame_bytes B).

Inductive live_step (x : Live) : Live → Prop :=
  | lv_trap E h mcause save c sp start_cycle m sp' k' :
      let s := tot x in
      let k0 := set_ram (save sp m) (kern s) in
      layout E = L → mem_wf m → same_buffers B (ram (kern s)) m → clear B sp → apart sp (kern s) →
      raises (running s h) mcause save c →
      trap_handler E h mcause sp start_cycle k0 = Done (sp', k') →
      live_step x (mkLive (goes s h c k') (new_result h mcause sp k0 k' (returned x)))
  | lv_return h n k r :
      let s := tot x in
      running s h = Ret n k → (n = 6 ∨ n = 7 → r = returned x h (current h (kern s))) →
      live_step x (mkLive (goes s h (Run (k r)) (kern s)) (returned x))
  | lv_local h p p' m m' :
      let s := tot x in
      running s h = Run p → exact_local h (current h (kern s)) (kern s) p p' m → same_buffers B m m' →
      live_step x (mkLive (goes s h (Run p') (set_ram m' (kern s))) (returned x))
  | lv_watchdog E p sp start_cycle m k1 k' :
      let s := tot x in
      let k := set_ram m (kern s) in
      layout E = L → mem_wf m → same_buffers B (ram (kern s)) m → clear B sp →
      running s H0 = Run (Iteration p) → ¬ failing (kern s) 1 → ¬ failing (kern s) 4 →
      watchdog_kill E sp start_cycle k = Done (tt, k1) →
      watchdog_iteration E fn sp start_cycle k = Done (tt, k') →
      live_step x (mkLive (mkTotal k' (set_code H0 (current H0 k) (Run p) (restarts k1 (code s)))
                                   (overrun s || kills_running k)) (returned x)).

Inductive live : Live → Prop :=
  | live_boot E0 E1 m i0 c0 p0 sps k r :
      layout E0 = L → layout E1 = L → verify_secure_boot sha256 = true →
      pmp_reset_ok (on0 p0) → pmp_reset_ok (on1 p0) →
      kmain sha256 E0 E1 fn (statics m i0 c0 p0) = Done (sps, k) →
      live (mkLive (mkTotal k (λ h i, Run (task_program h i 0)) false) r)
  | live_next x x' : live x → live_step x x' → live x'.

Lemma live_step_exact x x' : live_step x x' → exact_step (tot x) (tot x').
Proof.
  destruct 1; cbn [tot]; [eapply ex_trap; eassumption|eapply ex_return; eassumption|eapply ex_local; eassumption|
    eapply ex_watchdog; eassumption].
Qed.

Lemma live_exact x : live x → exact (tot x).
Proof.
  induction 1 as [E0 E1 m i0 c0 p0 sps k r H1 H2 H3 H4 H5 H6|x x' _ IH Hs]; cbn [tot].
  - exact (exact_boot _ _ _ _ L fn E0 E1 m i0 c0 p0 sps k H1 H2 H3 H4 H5 H6).
  - eapply exact_next; [exact IH|]. by apply live_step_exact.
Qed.

(** ** Turns *)

(** Requests go over endpoint 2, replies over endpoint 3. *)
Definition shared (ep : Z) : bool := (ep =? 2) || (ep =? 3).

(** What a granted send or receive returns. *)
Definition granted (n ep : Z) : Z := if n =? 6 then 0 else Z.of_nat (length (message ep)).

(** The endpoint a call of the task in slot [i] of hart 0 uses. *)
Definition called (i : nat) (n a0 : Z) : option Z :=
  if n =? 6 then sends (cap_of H0 i a0) else if n =? 7 then receives (cap_of H0 i a0) else None.

(** [session i b p]: with a request under way or not ([b]), [p] uses the two endpoints in
    turn, never sleeps, and its loop ends with no request under way. *)
Fixpoint session (i : nat) (b : bool) (p : prog) : Prop :=
  match p with
  | Sys n a0 _ _ k =>
      n ≠ 2 ∧
      match called i n a0 with
      | Some ep => if shared ep then b = (ep =? 3) ∧ session i (ep =? 2) (k (granted n ep)) else ∀ r, session i b (k r)
      | None => ∀ r, session i b (k r)
      end
  | Peek _ _ k => session i b (k (reads H0 i))
  | Poke _ _ k => session i b k
  | Cycles k | ReadTestCounter k => ∀ z, session i b (k z)
  | Fault _ _ | Iteration _ | Dies => False
  | Again _ => b = false
  end.

Definition endpoint (s : TaskState) : option Z :=
  match s with BlockedOnIpcSend ep _ _ | BlockedOnIpcRecv ep _ _ => Some ep | _ => None end.

(** A task blocked on a shared endpoint has its turn still to come. *)
Definition party (i : nat) (b : bool) (c : cont) (o : option TaskState) (r : Z) : Prop :=
  match c with
  | Run p => session i b p
  | Ret n k =>
      match o ≫= endpoint with
      | Some ep => if shared ep then b = (ep =? 3) ∧ session i (ep =? 2) (k (granted n ep)) else ∀ r, session i b (k r)
      | None => ∀ r', (n = 6 ∨ n = 7 → r' = r) → session i b (k r')
      end
  end.

Context (Hco : codec sha256 frame_bytes read_frame) (Hbo : buffers_ok B) (Hpl : placed B L).

(** ** The programs take turns *)

Lemma telemetry_session v :
  session 1 false (Poke (msg_buf B) [0xDE; 0xAD; 0xBE; 0xEF; 0x12; 0x34; 0x56; 0x78]
    (Sys 6 1 (msg_buf B) 8 (λ _, Sys 1 0 0 0 (λ _, Again v)))).
Proof. by cbn. Qed.

Lemma programs_session i v : i = 1%nat ∨ i = 4%nat → session i false (task_program H0 i v).
Proof.
  destruct (message_lengths sha256 frame_bytes read_frame Hco) as [Hm2 Hm3].
  intros [-> | ->].
  - change (session 1 false (task_a_program frame_bytes B v)). unfold task_a_program. cbv zeta.
    cbn [session called Z.eqb Pos.eqb]. do 3 (split; [done|]; intros _). intros _. do 4 (split; [done|]). intros _.
    case_match; [|apply telemetry_session].
    cbn [session]. unfold verify_frame_program. cbn [session called Z.eqb Pos.eqb].
    do 2 (split; [done|]). change (as_isize (granted 6 2) <? 0) with false. cbv iota. cbn [session called Z.eqb Pos.eqb].
    do 2 (split; [done|]). case_match; apply telemetry_session.
  - change (session 4 false (hsm_program sha256 read_frame B v)). unfold hsm_program.
    cbn [session called Z.eqb Pos.eqb]. split; [done|]. intros _. do 2 (split; [done|]).
    change (reads H0 4) with (frame_bytes test_frame).
    rewrite (hsm_answers sha256 frame_bytes read_frame Hco). unfold granted. cbn [Z.eqb Pos.eqb]. rewrite Hm2.
    by cbn.
Qed.

(** ** Traps *)

Lemma raises_cases c0 mcause save c' :
  raises c0 mcause save c' →
  (∃ n x0 x1 x2 q, c0 = Run (Sys n x0 x1 x2 q) ∧ mcause = ECALL_UMODE ∧
    (∀ sp m, save sp m = syscall_frame sp n x0 x1 x2 m) ∧ c' = Ret n q) ∨
  (∃ cause q, c0 = Run (Fault cause q)) ∨ (mcause = TIMER_INTERRUPT ∨ mcause = SOFTWARE_INTERRUPT) ∧ c' = c0.
Proof. destruct 1; [left; by eexists _, _, _, _, _|right; left; eauto..|right; right; auto|right; right; auto]. Qed.

Lemma endpoint_ipc s : on_ipc s = bool_decide (is_Some (endpoint s)).
Proof. by destruct s. Qed.

Lemma endpoint_none o : (∀ s, o = Some s → on_ipc s = false) → o ≫= endpoint = None.
Proof. intros H. destruct o as [s|]; [|done]. specialize (H s eq_refl). by destruct s. Qed.

(** The endpoint of an event is that of its capability. *)
Lemma event_endpoint w s ep :
  mine w s ∨ serves w s → endpoint s = Some ep →
  (∃ cap a n, w = ESend cap a n ∧ sends cap = Some ep) ∨ (∃ cap a n, w = ERecv cap a n ∧ receives cap = Some ep).
Proof.
  intros Hs Hep. destruct w as [| | | | |cap a n|cap a n| | |]; cbn in Hs; try by destruct Hs.
  - left. exists cap, a, n. split; [done|]. destruct Hs as [(ep' & Hc & ->)|(ep' & Hc & Hw)]; [cbn in Hep; congruence|].
    destruct s; try done. cbn in Hw, Hep. apply Z.eqb_eq in Hw. congruence.
  - right. exists cap, a, n. split; [done|]. destruct Hs as [(ep' & Hc & ->)|(ep' & Hc & Hw)]; [cbn in Hep; congruence|].
    destruct s; try done. cbn in Hw, Hep. apply Z.eqb_eq in Hw. congruence.
Qed.

Lemma serves_endpoint h mcause sp k s ep :
  endowed k → serves (trap_event h mcause sp k) s → endpoint s = Some ep → shared ep = true →
  h = H0 ∧ (current h k = 1%nat ∨ current h k = 4%nat).
Proof.
  intros He Hs Hep Hsh. destruct (event_endpoint _ s ep (or_intror Hs) Hep)
    as [(cap & a & n & Hev & Hcap)|(cap & a & n & Hev & Hcap)].
  - destruct (event_sends_on _ _ _ _ _ _ _ _ He Hev Hcap) as [? ?]. naive_solver.
  - destruct (event_receives_on _ _ _ _ _ _ _ _ He Hev Hcap) as [?|(_ & _ & ->)]; [naive_solver|done].
Qed.

Section trap.
Context (E : Env) (h : hart) (mcause sp start_cycle : Z) (k : Kernel) (sp' : Z) (k' : Kernel).
Context (f : hart → nat → cont) (ph : hart → nat → phase) (r : hart → nat → Z).
Context (Ht : trap_handler E h mcause sp start_cycle k = Done (sp', k')).
Context (Hok : world_ok (abs k) ph) (Hrest : rests (abs k)) (Hf : ∀ h' i, follows h' i (ph h' i) (f h' i)).
Context (Hlic : licensed k) (He : endowed k) (Hap : apart sp k) (Htv : trap_view E h mcause sp k f k').
Local Abbreviation c := (current h k).
Local Abbreviation r' := (new_result h mcause sp k k' r).
Local Abbreviation ev := (trap_event h mcause sp k).

Local Abbreviation Heff := (tv_effect _ _ _ _ _ _ _ _ _ _ Htv).

Lemma result_other h' i :
  ¬ (h' = h ∧ i = c) → (∀ s, st (abs k) h' i = Some s → on_ipc s = false) → r' h' i = r h' i.
Proof.
  intros Hn Hs. unfold new_result. rewrite decide_False by done. cbn in Hs.
  destruct (task_of h' i k) as [t|]; [|done]. rewrite (Hs _ eq_refl). by repeat case_match.
Qed.

(** A task that the trap neither comes from nor serves on a shared endpoint. *)
Lemma party_kept i b :
  ¬ (h = H0 ∧ c = i) →
  (∀ s ep, st (abs k) H0 i = Some s → endpoint s = Some ep → shared ep = true → ¬ serves ev s) →
  party i b (f H0 i) (st (abs k) H0 i) (r H0 i) → party i b (f H0 i) (st (abs k') H0 i) (r' H0 i).
Proof.
  intros Hn Hns Hp. assert (Hn' : ¬ (H0 = h ∧ i = c)) by (intros [<- ->]; by apply Hn).
  destruct (f H0 i) as [p|n q]; [done|]. cbn [party] in *.
  destruct (st (abs k) H0 i ≫= endpoint) as [ep|] eqn:Hpe.
  - apply bind_Some in Hpe as (s & Hs & Hep).
    assert (Hi : on_ipc s = true) by (by rewrite endpoint_ipc, Hep).
    pose proof (ipc_unqueued _ _ _ k f ph H0 i s Hok Hf (tv_claims _ _ _ _ _ _ _ _ _ _ Htv) Hs Hi) as Hq.
    destruct (ie_settled _ _ _ _ Heff H0 i s Hs (on_ipc_settled _ Hi) Hq) as [Hs'|[Hs' Hse]]; rewrite Hs'; cbn [mbind option_bind].
    + by rewrite Hep.
    + destruct (shared ep) eqn:Hsh; [by destruct (Hns s ep Hs Hep Hsh)|]. intros r0 _. apply Hp.
  - assert (Hnone : ∀ s, st (abs k) H0 i = Some s → on_ipc s = false).
    { intros s Hs. rewrite Hs in Hpe. cbn in Hpe. by rewrite endpoint_ipc, Hpe. }
    rewrite endpoint_none; [by rewrite result_other|].
    intros s Hs. apply not_true_iff_false. intros Hi.
    destruct (ie_back _ _ _ _ Heff H0 i s Hs Hi) as [Hb|(<- & -> & _)]; [by rewrite (Hnone _ Hb) in Hi|by apply Hn].
Qed.

(** The task the trap comes from is blocked on IPC only by its own call. *)
Lemma own_unblocked : (∀ s, ¬ mine ev s) → st (abs k') h c ≫= endpoint = None.
Proof.
  intros Hm. apply endpoint_none. intros s Hs. apply not_true_iff_false. intros Hi.
  apply (Hm s). by apply (own_ipc h mcause sp k k' Hrest Heff).
Qed.

Lemma own_running : st (abs k) h c ≫= endpoint = None.
Proof.
  apply endpoint_none. intros s Hs. apply (current_unsettled h k Hrest) in Hs. by destruct s.
Qed.

(** An interrupt leaves the code of its task where it is. *)
Lemma own_interrupted i b :
  h = H0 → c = i → mcause ≠ ECALL_UMODE →
  party i b (f H0 i) (st (abs k) H0 i) (r H0 i) → party i b (f H0 i) (st (abs k') H0 i) (r' H0 i).
Proof.
  intros Hh Hc Hm Hp. destruct (quiet_event h mcause sp k Hm) as [Hq _].
  assert (Hr' : r' H0 i = r H0 i).
  { unfold new_result. rewrite decide_True by done. by rewrite (proj2 (Z.eqb_neq _ _)). }
  destruct (f H0 i) as [p|n q]; [done|]. cbn [party] in *. rewrite Hr'.
  pose proof own_running as H1. pose proof (own_unblocked Hq) as H2. rewrite Hc, Hh in H1, H2. rewrite H1 in Hp. by rewrite H2.
Qed.

(** A call on no shared endpoint. *)
Lemma own_neutral i b n q :
  h = H0 → c = i → (∀ s ep, mine ev s → endpoint s = Some ep → shared ep = false) →
  (∀ r0, session i b (q r0)) → party i b (Ret n q) (st (abs k') H0 i) (r' H0 i).
Proof.
  intros Hh Hc Hm Hq. cbn [party]. destruct (st (abs k') H0 i ≫= endpoint) as [ep|] eqn:Hpe; [|done].
  apply bind_Some in Hpe as (s & Hs & Hep).
  assert (Hmine : mine ev s).
  { apply (own_ipc h mcause sp k k' Hrest Heff); [|by rewrite endpoint_ipc, Hep]. by rewrite Hc, Hh. }
  by rewrite (Hm s ep Hmine Hep).
Qed.

(** A call on a shared endpoint: the caller blocks, or both sides go on to the next turn. *)
Section meeting.
Context (i j : nat) (b : bool) (n0 n1 ep : Z) (q : Z → prog).
Context (p : TaskState → bool) (own_state : TaskState) (own peer : Z → Z).
Context (Hh : h = H0) (Hc : c = i) (Hij : i ≠ j) (Hcause : mcause = ECALL_UMODE) (Hsh : shared ep = true).
Context (Hmet : met h sp k k' p own_state own peer).
Context (Hown : endpoint own_state = Some ep) (Hp : ∀ s, p s = true → endpoint s = Some ep).
Context (Hserve : ∀ s, serves ev s → p s = true) (Hn0 : n0 = 6 ∨ n0 = 7) (Hn1 : n1 = 6 ∨ n1 = 7).
Context (Hpeer : ∀ h' j' t ep' a n, task_of h' j' k = Some t → p (state t) = true →
  state t = BlockedOnIpcRecv ep' a n ∨ state t = BlockedOnIpcSend ep' a n →
  h' = H0 ∧ j' = j ∧ u32 (own n) = granted n0 ep ∧ u32 (peer n) = granted n1 ep ∧ ∃ q', f H0 j = Ret n1 q').
Context (Hb : b = (ep =? 3)) (Hq : session i (ep =? 2) (q (granted n0 ep))).
Context (Hj : party j b (f H0 j) (st (abs k) H0 j) (r H0 j)).

Lemma meeting : ∃ b',
  party i b' (Ret n0 q) (st (abs k') H0 i) (r' H0 i) ∧ party j b' (f H0 j) (st (abs k') H0 j) (r' H0 j).
Proof.
  destruct Hmet as [[Hst Hno]|(h' & j' & t & ep' & a & n & Hti & Hpt & Hstt & R0 & R1 & Hall)].
  - exists b. split.
    + cbn [party]. change (st (abs k') H0 i) with (state <$> task_of H0 i k'). rewrite Hc, Hh in Hst. rewrite Hst.
      cbn [mbind option_bind]. rewrite Hown, Hsh. done.
    + apply party_kept; [by rewrite Hc; intros [_ ?]| |done]. intros s ep' Hs _ _ Hse%Hserve. cbn in Hs.
      destruct (task_of H0 j k) as [t|] eqn:Hti; [|done]. injection Hs as <-. by rewrite (Hno _ _ _ Hti) in Hse.
  - destruct (Hpeer _ _ _ _ _ _ Hti Hpt Hstt) as (-> & -> & Ho & Hpr & q' & Hq'). exists (ep =? 2).
    assert (Hi : on_ipc (state t) = true) by (by rewrite endpoint_ipc, (Hp _ Hpt)).
    split.
    + cbn [party]. pose proof own_running as Hrun. rewrite Hc, Hh in Hrun. cbn in Hrun |- *.
      rewrite Hall, decide_False by (by intros [_ ->]). rewrite Hrun. intros r0 Hr0. rewrite (Hr0 Hn0).
      unfold new_result. rewrite decide_True by done. rewrite Hcause. cbn. by rewrite R0, Ho.
    + rewrite Hq' in Hj |- *. cbn [party] in *. cbn in Hj |- *. rewrite Hti in Hj. cbn in Hj. rewrite (Hp _ Hpt), Hsh in Hj.
      destruct Hj as [_ Hs]. rewrite Hall, decide_True by done. cbn. intros r0 Hr0.
      assert (Hr1 : r' H0 j = granted n1 ep).
      { unfold new_result. rewrite decide_False by (rewrite Hc; by intros [_ ?]). rewrite Hti, Hall, decide_True by done.
        cbn. rewrite Hi, R1 by (by apply (Hap H0 j t)). done. }
      rewrite (Hr0 Hn1), Hr1. exact Hs.
Qed.
End meeting.

Definition pair (i j : nat) : Prop := i = 1%nat ∧ j = 4%nat ∨ i = 4%nat ∧ j = 1%nat.

Lemma pair_left i j : pair i j → i = 1%nat ∨ i = 4%nat.
Proof. intros [[-> ->]|[-> ->]]; auto. Qed.
Lemma pair_right i j : pair i j → j = 1%nat ∨ j = 4%nat.
Proof. intros [[-> ->]|[-> ->]]; auto. Qed.
Lemma pair_ne i j : pair i j → i ≠ j.
Proof. intros [[-> ->]|[-> ->]]; done. Qed.

Section call.
Context (i j : nat) (b : bool) (x0 x1 x2 : Z) (q : Z → prog).
Context (Hij : pair i j) (Hh : h = H0) (Hc : c = i) (Hcause : mcause = ECALL_UMODE).
Context (R0 : frame_read (ram k) sp A0 = u32 x0) (R2 : frame_read (ram k) sp A2 = u32 x2).
Context (Hj : party j b (f H0 j) (st (abs k) H0 j) (r H0 j)).
Local Abbreviation next n := (∃ b',
  party i b' (Ret n q) (st (abs k') H0 i) (r' H0 i) ∧ party j b' (f H0 j) (st (abs k') H0 j) (r' H0 j)).

Lemma neutral_call n :
  (∀ s ep, mine ev s ∨ serves ev s → endpoint s = Some ep → shared ep = false) →
  (∀ r0, session i b (q r0)) → next n.
Proof.
  intros Hev Hq. exists b. split; [apply own_neutral; eauto|].
  apply party_kept; [destruct Hij as [[-> ->]|[-> ->]]; rewrite Hc; by intros [_ ?]| |done].
  intros s ep _ Hep Hsh Hs. by rewrite (Hev s ep (or_intror Hs) Hep) in Hsh.
Qed.

(** The peer on a shared endpoint. *)
Lemma peer_of h' j' ep :
  shared ep = true → may_send H0 i ep ∧ may_receive h' j' ep ∨ may_receive H0 i ep ∧ may_send h' j' ep →
  h' = H0 ∧ j' = j.
Proof.
  intros Hsh Hm. unfold may_send, may_receive in Hm.
  destruct Hij as [[-> ->]|[-> ->]]; destruct Hm as [[Hs Hr]|[Hr Hs]]; naive_solver.
Qed.

Lemma message_u32 ep : u32 (Z.of_nat (length (message ep))) = Z.of_nat (length (message ep)).
Proof. by apply (message_size _ _ read_frame). Qed.

Lemma state_found h' j' t s : task_of h' j' k = Some t → state t = s → st (abs k) h' j' = Some s.
Proof. intros Hti <-. cbn. by rewrite Hti. Qed.

(** A task blocked on IPC is inside its call, with a buffer of the size of the message. *)
Lemma blocked_call h' j' t ep a n :
  task_of h' j' k = Some t →
  (state t = BlockedOnIpcSend ep a n → n = Z.of_nat (length (message ep)) ∧ ∃ q', f h' j' = Ret 6 q') ∧
  (state t = BlockedOnIpcRecv ep a n → n = Z.of_nat (length (message ep)) ∧ ∃ q', f h' j' = Ret 7 q').
Proof.
  intros Hti. pose proof (tv_claims _ _ _ _ _ _ _ _ _ _ Htv h' j') as Hcl. rewrite Hti in Hcl.
  split; intros Hst; cbn in Hcl; rewrite Hst in Hcl;
    (destruct (f h' j') as [p0|n0 q0]; [destruct Hcl as [Hcl _]; by specialize (Hcl _ eq_refl)|]);
    destruct Hcl as (-> & -> & _); eauto.
Qed.

Lemma current_cap z : 0 ≤ z < 8 → cap_at h z k = cap_of H0 i z.
Proof.
  intros Hz. rewrite cap_at_of; [by rewrite Hc, Hh|done|done|]. by apply current_some.
Qed.

Lemma send_call ep :
  frame_read (ram k) sp A7 = 6 → 0 ≤ x0 < 8 → sends (cap_of H0 i x0) = Some ep →
  x2 = Z.of_nat (length (message ep)) → session i b (Sys 6 x0 x1 x2 q) → next 6.
Proof.
  intros R7 Hx0 Hs Hx2 [_ Hses]. unfold called in Hses. cbn [Z.eqb Pos.eqb] in Hses. rewrite Hs in Hses.
  assert (Hev : ev = ESend (cap_of H0 i x0) (frame_read (ram k) sp A1) (frame_read (ram k) sp A2)).
  { unfold trap_event, call_event. rewrite Hcause, R7, R0, (u32_small x0) by lia. cbn. by rewrite current_cap. }
  destruct (shared ep) eqn:Hsh.
  2: { apply neutral_call; [|done]. intros s ep' Hms Hep. rewrite Hev in Hms.
       destruct (event_endpoint _ _ _ Hms Hep) as [(cap & a & n & [= <- _ _] & Hcap)|(? & ? & ? & ? & _)]; [|done]. congruence. }
  destruct Hses as [Hb Hq]. destruct (sends_inv _ _ Hs) as [cr Hcap].
  pose proof Ht as Htr. rewrite Hcause in Htr.
  apply (meeting i j b 6 7 ep q (waits_recv ep) (BlockedOnIpcSend ep (frame_read (ram k) sp A1) (frame_read (ram k) sp A2))
    (λ _, 0) (Z.min (frame_read (ram k) sp A2))); try done; [exact (pair_ne i j Hij)|..].
  - eapply (send_meets E h sp start_cycle k sp' k' (tv_ready _ _ _ _ _ _ _ _ _ _ Htv) Htr (current_runnable h k Hrest) ep cr); [done|].
    rewrite R0, (u32_small x0), current_cap by lia. exact Hcap.
  - intros s Hw. destruct s; try done. cbn in Hw |- *. apply Z.eqb_eq in Hw. congruence.
  - intros s Hse. rewrite Hev in Hse. destruct Hse as (ep' & Hcap' & Hw). congruence.
  - by left.
  - by right.
  - intros h' j' t ep' a n Hti Hw Hst.
    destruct Hst as [Hst|Hst]; rewrite Hst in Hw; [|done]. cbn in Hw. apply Z.eqb_eq in Hw. subst ep'.
    destruct (peer_of h' j' ep Hsh) as [-> ->].
    { left. split; [by eapply sends_on|]. apply (Hlic h' j' _ (state_found h' j' t _ Hti Hst)). }
    destruct (proj2 (blocked_call H0 j t ep a n Hti) Hst) as [-> Hq']. split_and!; [done..| |done].
    rewrite R2, Hx2, message_u32, Z.min_id. apply message_u32.
Qed.

Lemma recv_call ep :
  frame_read (ram k) sp A7 = 7 → 0 ≤ x0 < 8 → receives (cap_of H0 i x0) = Some ep →
  x2 = Z.of_nat (length (message ep)) → session i b (Sys 7 x0 x1 x2 q) → next 7.
Proof.
  intros R7 Hx0 Hs Hx2 [_ Hses]. unfold called in Hses. cbn [Z.eqb Pos.eqb] in Hses. rewrite Hs in Hses.
  assert (Hev : ev = ERecv (cap_of H0 i x0) (frame_read (ram k) sp A1) (frame_read (ram k) sp A2)).
  { unfold trap_event, call_event. rewrite Hcause, R7, R0, (u32_small x0) by lia. cbn. by rewrite current_cap. }
  destruct (shared ep) eqn:Hsh.
  2: { apply neutral_call; [|done]. intros s ep' Hms Hep. rewrite Hev in Hms.
       destruct (event_endpoint _ _ _ Hms Hep) as [(? & ? & ? & ? & _)|(cap & a & n & [= <- _ _] & Hcap)]; [done|]. congruence. }
  destruct Hses as [Hb Hq]. destruct (receives_inv _ _ Hs) as [cs Hcap].
  pose proof Ht as Htr. rewrite Hcause in Htr.
  apply (meeting i j b 7 6 ep q (waits_send ep) (BlockedOnIpcRecv ep (frame_read (ram k) sp A1) (frame_read (ram k) sp A2))
    (λ len, Z.min len (frame_read (ram k) sp A2)) (λ _, 0)); try done; [exact (pair_ne i j Hij)|..].
  - eapply (recv_meets E h sp start_cycle k sp' k' (tv_ready _ _ _ _ _ _ _ _ _ _ Htv) Htr
      (current_runnable h k Hrest) ep cs); [done|].
    rewrite R0, (u32_small x0), current_cap by lia. exact Hcap.
  - intros s Hw. destruct s; try done. cbn in Hw |- *. apply Z.eqb_eq in Hw. congruence.
  - intros s Hse. rewrite Hev in Hse. destruct Hse as (ep' & Hcap' & Hw). congruence.
  - by right.
  - by left.
  - intros h' j' t ep' a n Hti Hw Hst.
    destruct Hst as [Hst|Hst]; rewrite Hst in Hw; [done|]. cbn in Hw. apply Z.eqb_eq in Hw. subst ep'.
    destruct (peer_of h' j' ep Hsh) as [-> ->].
    { right. split; [by eapply receives_on|]. apply (Hlic h' j' _ (state_found h' j' t _ Hti Hst)). }
    destruct (proj1 (blocked_call H0 j t ep a n Hti) Hst) as [-> Hq']. split_and!; [done|done| |done|done].
    rewrite R2, Hx2, message_u32, Z.min_id. apply message_u32.
Qed.

Lemma other_call n :
  frame_read (ram k) sp A7 = n → n ≠ 6 → n ≠ 7 → session i b (Sys n x0 x1 x2 q) → next n.
Proof.
  intros R7 H6 H7 [_ Hses]. unfold called in Hses. rewrite !(proj2 (Z.eqb_neq _ _)) in Hses by done.
  apply neutral_call; [|done]. intros s ep Hms Hep. exfalso.
  destruct (event_endpoint _ _ _ Hms Hep) as [(cap & a & m & Hev & _)|(cap & a & m & Hev & _)].
  - apply event_send in Hev as (_ & ? & _). congruence.
  - apply event_recv in Hev as (_ & ? & _). congruence.
Qed.
End call.

(** A trap of Task A or of the HSM, of another task. *)
Context (save : Z → Mem → Mem) (m : Mem) (c' : cont) (b : bool).
Context (Hr : raises (f h c) mcause save c') (Hram : ram k = save sp m).
Context (Hp : ∀ i, i = 1%nat ∨ i = 4%nat → party i b (f H0 i) (st (abs k) H0 i) (r H0 i)).

Lemma others_turns :
  ¬ (h = H0 ∧ (c = 1%nat ∨ c = 4%nat)) → ∀ i, i = 1%nat ∨ i = 4%nat →
  party i b (set_code h c c' f H0 i) (st (abs k') H0 i) (r' H0 i).
Proof.
  intros Hno i Hi. unfold set_code. rewrite decide_False by naive_solver.
  apply party_kept; [naive_solver| |by apply Hp].
  intros s ep _ Hep Hsh Hse. apply Hno. by apply (serves_endpoint h mcause sp k s ep).
Qed.

Section own.
Context (i j : nat) (Hij : pair i j) (Hh : h = H0) (Hc : c = i).

Lemma interrupt_turns :
  mcause ≠ ECALL_UMODE → ∃ b', party i b' (f H0 i) (st (abs k') H0 i) (r' H0 i) ∧
    party j b' (f H0 j) (st (abs k') H0 j) (r' H0 j).
Proof.
  intros Hm. exists b. split; [apply own_interrupted; try done; exact (Hp i (pair_left i j Hij))|].
  apply party_kept; [rewrite Hc; intros [_ ?]; by apply (pair_ne i j)| |exact (Hp j (pair_right i j Hij))].
  intros s ep _ Hep _ Hse. destruct (quiet_event h mcause sp k Hm) as [_ Hns].
  destruct (event_endpoint _ _ _ (or_intror Hse) Hep) as [(? & ? & ? & Hev & _)|(? & ? & ? & Hev & _)];
    [by apply Hns in Hev|]. by apply event_recv in Hev as (? & _).
Qed.

Lemma call_turns n x0 x1 x2 q :
  f H0 i = Run (Sys n x0 x1 x2 q) → mcause = ECALL_UMODE → ram k = syscall_frame sp n x0 x1 x2 m →
  ∃ b', party i b' (Ret n q) (st (abs k') H0 i) (r' H0 i) ∧ party j b' (f H0 j) (st (abs k') H0 j) (r' H0 j).
Proof.
  intros Hcode Hcause Hsave. destruct (call_regs sp n x0 x1 x2 m) as (R7 & R0 & _ & R2). rewrite <- Hsave in R7, R0, R2.
  assert (Hi : i = 1%nat ∨ i = 4%nat) by exact (pair_left i j Hij).
  assert (Hj : party j b (f H0 j) (st (abs k) H0 j) (r H0 j)) by exact (Hp j (pair_right i j Hij)).
  pose proof (Hp i Hi) as Hses. rewrite Hcode in Hses. cbn [party] in Hses.
  assert (Hn : 1 ≤ n ≤ 7) by (eapply follows_call; rewrite <- Hcode; apply Hf). rewrite u32_small in R7 by lia.
  pose proof (current_relies _ _ _ k f h Hrest (tv_claims _ _ _ _ _ _ _ _ _ _ Htv)) as Hrel.
  rewrite Hc, Hh, Hcode in Hrel. destruct Hrel as (β & _ & Hv). cbn [verified] in Hv.
  destruct (Z.eqb_spec n 6) as [-> |H6]; [|destruct (Z.eqb_spec n 7) as [-> |H7]].
  - destruct Hv as (ep & rest & Hx0 & _ & Hs & Hx2 & _). by eapply send_call.
  - destruct Hv as (ep & β' & Hx0 & _ & Hs & Hx2 & _). by eapply recv_call.
  - by eapply other_call.
Qed.

Lemma own_turns :
  ∃ b', party i b' c' (st (abs k') H0 i) (r' H0 i) ∧ party j b' (f H0 j) (st (abs k') H0 j) (r' H0 j).
Proof.
  assert (Hi : i = 1%nat ∨ i = 4%nat) by exact (pair_left i j Hij). pose proof (Hp i Hi) as Hses.
  assert (Hcode : f h c = f H0 i) by (rewrite Hc, Hh; done). pose proof Hr as Hr'. rewrite Hcode in Hr'.
  destruct (raises_cases _ _ _ _ Hr') as [(n & x0 & x1 & x2 & q & Hq & Hm & Hsv & ->)|[(cause & q & Hq)|[Hm ->]]].
  - apply (call_turns n x0 x1 x2 q); [done|done|]. by rewrite Hram, Hsv.
  - by rewrite Hq in Hses.
  - apply interrupt_turns. by destruct Hm as [-> | ->].
Qed.
End own.

Lemma trap_turns :
  ∃ b', ∀ i, i = 1%nat ∨ i = 4%nat → party i b' (set_code h c c' f H0 i) (st (abs k') H0 i) (r' H0 i).
Proof.
  destruct (decide (h = H0 ∧ (c = 1%nat ∨ c = 4%nat))) as [[Hh Hi]|Hno]; [|exists b; by apply others_turns].
  assert (∃ j, pair c j) as [j Hij] by (destruct Hi as [-> | ->]; [exists 4%nat; by left|exists 1%nat; by right]).
  destruct (own_turns c j Hij Hh eq_refl) as (b' & H1 & H2). exists b'. intros i Hi'. unfold set_code.
  case_decide as Hd; [by destruct Hd as [_ <-]|].
  assert (i = j) as -> by (destruct Hij as [[? ->]|[? ->]]; naive_solver). done.
Qed.
End trap.

(** ** Every step *)

(** Where a party may stop: on IPC, or Task A on the mutex. *)
Definition halts (i : nat) (s : TaskState) : Prop := on_ipc s = true ∨ i = 1%nat ∧ ∃ m, s = BlockedOnMutex m.

(** The two parties and their states. *)
Definition in_turn (k : Kernel) (f : hart → nat → cont) (r : hart → nat → Z) (b : bool) : Prop :=
  ∀ i, i = 1%nat ∨ i = 4%nat →
    party i b (f H0 i) (st (abs k) H0 i) (r H0 i) ∧
    ∀ s, st (abs k) H0 i = Some s → runnable s = false → halts i s.

(** A trap stops neither party elsewhere. *)
Lemma trap_halts E h mcause save c' sp m k f ph r b k' i s :
  let k0 := set_ram (save sp m) k in
  raises (f h (current h k)) mcause save c' → trap_view E h mcause sp k0 f k' →
  (∀ h' i, follows h' i (ph h' i) (f h' i)) → in_turn k f r b → (i = 1%nat ∨ i = 4%nat) →
  st (abs k') H0 i = Some s → runnable s = false → halts i s.
Proof.
  intros k0 Hr Htv Hf Hin Hi Hs Hn. destruct (Hin i Hi) as [Hp Ha].
  destruct (ie_stops _ _ _ _ (tv_effect _ _ _ _ _ _ _ _ _ _ Htv) H0 i s Hs Hn) as [Hold|(<- & Hc & Hst)]; [by apply Ha|].
  change (cur (abs k0) H0) with (current H0 k) in Hc. rewrite <- Hc in Hr.
  destruct (raises_cases _ _ _ _ Hr) as [(n & x0 & x1 & x2 & q & Hq & Hm & Hsv & _)|[(cause & q & Hq)|[Hm _]]].
  - pose proof (Hf H0 i) as Hfi. rewrite Hq in Hfi, Hp. destruct Hp as [H2 _]. pose proof (follows_call _ _ _ _ _ _ _ _ Hfi) as Hn7.
    destruct (call_regs sp n x0 x1 x2 m) as (R7 & _). rewrite <- Hsv in R7. rewrite u32_small in R7 by lia.
    unfold trap_event, call_event in Hst. rewrite Hm in Hst. change (ram k0) with (save sp m) in Hst. rewrite R7 in Hst.
    cbn in Hst. rewrite (proj2 (Z.eqb_neq n 2)) in Hst by done.
    destruct (Z.eqb_spec n 3) as [-> |]; [|left; repeat case_match; cbn in Hst; naive_solver].
    right. split; [|done]. destruct Hi as [?| ->]; [done|exfalso].
    by destruct (ph H0 4%nat); [destruct Hfi as (_ & _ & ? & _)|done|destruct Hfi as (_ & _ & ? & _)].
  - by rewrite Hq in Hp.
  - unfold trap_event in Hst. by destruct Hm as [-> | ->].
Qed.

(** The task a hart runs returns from its call or takes a step of its own. *)
Lemma own_in_turn k k' f r b h p :
  in_turn k f r b → abs k' = abs k →
  (∀ i, h = H0 → current h k = i → i = 1%nat ∨ i = 4%nat → party i b (f H0 i) (st (abs k) H0 i) (r H0 i) → session i b p) →
  in_turn k' (set_code h (current h k) (Run p) f) r b.
Proof.
  intros Hin Hk Hp i Hi. destruct (Hin i Hi) as [Hpi Ha]. rewrite Hk. split; [|done].
  unfold set_code. case_decide as Hd; [|done]. destruct Hd as [-> Hc]. cbn [party]. by apply Hp.
Qed.

Lemma return_session k i b n q r r0 :
  rests (abs k) → current H0 k = i → party i b (Ret n q) (st (abs k) H0 i) r →
  (n = 6 ∨ n = 7 → r0 = r) → session i b (q r0).
Proof.
  intros Hrest Hc Hp Hr. cbn [party] in Hp. pose proof (own_running H0 k Hrest) as Hn. rewrite Hc in Hn.
  rewrite Hn in Hp. by apply Hp.
Qed.

Lemma local_session k f i b p p' m :
  rests (abs k) → claims k f → current H0 k = i → (i = 1%nat ∨ i = 4%nat) → f H0 i = Run p →
  exact_local H0 i k p p' m → session i b p → session i b p'.
Proof.
  intros Hrest Hc Hcur Hi Hrun Hl Hs. pose proof (current_relies _ _ _ k f H0 Hrest Hc) as Hrel.
  rewrite Hcur, Hrun in Hrel. destruct Hrel as (β & Hβ & Hv). destruct Hl as [a n c0|a bs c0|c0 z|c0|v]; cbn [session] in Hs.
  - destruct Hv as (Hin & Hn & _). destruct (Hβ _ Hin) as [_ Hld]. cbn [fst snd] in Hld. rewrite Hn in Hld. by rewrite Hld.
  - done.
  - apply Hs.
  - apply Hs.
  - rewrite Hs. by apply programs_session.
Qed.

(** The watchdog leaves both parties alone. *)
Lemma watchdog_in_turn E k k1 f ph r b p :
  world_ok (abs k) ph → (∀ h i, follows h i (ph h i) (f h i)) → claims k f → killed k k1 →
  ¬ failing k 1 → ¬ failing k 4 → in_turn k f r b →
  in_turn (revive_hsm E fn (revive_c E fn k1)) (set_code H0 0 (Run p) (restarts k1 f)) r b.
Proof.
  intros Hok Hf Hc Hkl H1 H4 Hin i Hi. destruct (Hin i Hi) as [Hp Ha].
  assert (Hfail : ¬ failing k i) by by destruct Hi as [-> | ->].
  assert (Hh : ∀ s, st (abs k1) H0 i = Some s → runnable s = false → halts i s).
  { intros s Hs Hn. destruct (kl_stops _ _ Hkl _ _ _ Hs Hn) as [?|[_ ?]]; [by apply Ha|done]. }
  assert (Hd : st (abs k1) H0 i ≠ Some Terminated).
  { intros Hd. destruct (Hh _ Hd eq_refl) as [?|(_ & ? & ?)]; done. }
  assert (Hst : st (abs (revive_hsm E fn (revive_c E fn k1))) H0 i = st (abs k1) H0 i).
  { by destruct (revive_state fn E k1 H0 i) as [?|(_ & _ & ?)]. }
  assert (Hcode : set_code H0 0 (Run p) (restarts k1 f) H0 i = f H0 i).
  { unfold set_code at 1. rewrite decide_False by naive_solver. by apply restarts_alive. }
  rewrite Hcode, Hst. split; [|done]. destruct (f H0 i) as [p0|n q] eqn:Hfi; [done|]. cbn [party] in *.
  destruct (st (abs k) H0 i ≫= endpoint) as [ep|] eqn:Hpe.
  - apply bind_Some in Hpe as (s & Hs & Hep). assert (Hipc : on_ipc s = true) by (by rewrite endpoint_ipc, Hep).
    pose proof (ipc_unqueued _ _ _ k f ph H0 i s Hok Hf Hc Hs Hipc) as Hq.
    destruct (kl_settled _ _ Hkl H0 i s Hs (on_ipc_settled _ Hipc) Hq) as [Hs1|[? _]]; [|done].
    rewrite Hs1. cbn [mbind option_bind]. by rewrite Hep.
  - rewrite endpoint_none; [done|]. intros s Hs. apply not_true_iff_false. intros Hipc.
    apply (kl_back _ _ Hkl) in Hs; [|done]. rewrite Hs in Hpe. cbn in Hpe. by rewrite endpoint_ipc, Hpe in Hipc.
Qed.

Lemma boot_in_turn k r :
  SCHEDULERS k = mkPerHart (started 0 (boot_sched (boot_tasks0 (boot_sps L))))
                           (started 2 (boot_sched (boot_tasks1 (boot_sps L)))) →
  in_turn k (λ h i, Run (task_program h i 0)) r false.
Proof.
  intros Hsch i Hi. split; [by apply programs_session|]. cbn. intros s Hs Hn.
  destruct (task_of H0 i k) as [t|] eqn:Ht; [|done]. injection Hs as <-. unfold task_of, sched_of in Ht. rewrite Hsch in Ht.
  destruct (boot_state_cases _ _ _ _ Ht) as [Hs|[Hs _]]; by rewrite Hs in Hn.
Qed.

Lemma live_in_turn x :
  live x → overrun (tot x) = false → ∃ b, in_turn (kern (tot x)) (code (tot x)) (returned x) b.
Proof.
  induction 1 as [E0 E1 m i0 c0 p0 sps k r HL0 HL1 Hsb Hr0 Hr1 Hk|x x' Hx IH Hstep]; intros Ho.
  - exists false. assert (HL : layout E0 = layout E1) by congruence.
    pose proof (wp_result _ _ _ _ _ _ (kmain_wp sha256 E0 E1 fn m i0 c0 p0 Hsb HL Hr0 Hr1) Hk)
      as (_ & _ & _ & _ & _ & Hsch & _). rewrite HL0 in Hsch. by apply boot_in_turn.
  - pose proof (live_exact x Hx) as Hs. pose proof (live_step_exact _ _ Hstep) as Hst.
    pose proof (step_overrun _ _ _ _ _ _ _ _ Hst Ho) as Ho0. destruct (IH Ho0) as [b Hin].
    destruct (total_safe _ _ _ _ _ _ _ (exact_total _ _ _ _ _ _ _ Hs)) as [Hi Hu Hlock Hsync].
    destruct (exact_followed _ _ _ _ _ _ Hco Hbo Hpl _ Hs) as [He Hfo]. destruct (Hfo Ho0) as [_ Hc].
    destruct (Hsync Ho0) as (ph & Hok & Hrest & Hf).
    pose proof (exact_licensed _ _ _ _ _ _ Hco Hbo Hpl _ Hs Ho0) as Hlic.
    destruct Hstep as [E h mcause save c sp sc m sp' k' s k0 HL Hm Hsame Hcl Hap Hr Ht|h n q r s Hr Hres
                      |h p p' m m' s Hr Hl Hsame|E p sp sc m k1 k' s k HL Hm Hsame Hcl Hr H1 H4 Hk1 Hk'];
      cbn [tot returned kern code goes overrun].
    + pose proof (trap_viewed sha256 frame_bytes B L E h mcause save c sp sc m (kern s) (code s) ph sp' k'
        HL Hi Hu Hlock Hok Hrest Hf Hc Hm Hsame Hcl Hr Ht) as Htv.
      destruct (trap_turns E h mcause sp sc k0 sp' k' (code s) ph (returned x) Ht Hok Hrest Hf Hlic He Hap Htv save m c b
        Hr eq_refl (λ i Hi, proj1 (Hin i Hi))) as [b' Hb']. exists b'. intros i Hii. split; [by apply Hb'|].
      intros y. by eapply (trap_halts E h mcause save c sp m (kern s) (code s) ph (returned x) b k' i y).
    + exists b. apply own_in_turn; [done|done|]. intros i Hh Hcur Hii Hp. unfold running in Hr. rewrite Hcur, Hh in Hr.
      rewrite Hr in Hp. rewrite Hcur, Hh in Hres. subst h. by eapply return_session.
    + exists b. apply own_in_turn; [done|done|]. intros i Hh Hcur Hii Hp. unfold running in Hr. rewrite Hcur, Hh in Hr.
      rewrite Hr in Hp. rewrite Hcur in Hl. subst h. by eapply local_session.
    + destruct (watchdog_viewed _ _ _ _ _ _ s E p sp sc m k1 k' Hs Ho0 HL Hm Hr Hk1 Hk') as (Hcur & -> & Hkl).
      exists b. change (current H0 k) with (current H0 (kern s)). rewrite Hcur. by eapply watchdog_in_turn.
Qed.

(** ** The theorem *)

Lemma exact_hsm s : exact s → is_Some (task_of H0 4 (kern s)).
Proof.
  induction 1 as [E0 E1 m i0 c0 p0 sps k HL0 HL1 Hsb Hr0 Hr1 Hk|s s' Hs IH Hstep].
  - assert (HL : layout E0 = layout E1) by congruence.
    pose proof (wp_result _ _ _ _ _ _ (kmain_wp sha256 E0 E1 fn m i0 c0 p0 Hsb HL Hr0 Hr1) Hk)
      as (_ & _ & _ & _ & _ & Hsch & _). cbn [kern]. unfold task_of, sched_of. rewrite Hsch. by eexists.
  - by apply (static_is_Some _ _ _ (exact_step_static _ _ _ _ _ _ s s' Hs Hstep H0)).
Qed.

(** A party blocked on a shared endpoint waits for its turn. *)
Lemma blocked_turn k f r b i s ep :
  claims k f → in_turn k f r b → (i = 1%nat ∨ i = 4%nat) → st (abs k) H0 i = Some s →
  endpoint s = Some ep → shared ep = true → b = (ep =? 3).
Proof.
  intros Hc Hin Hi Hs Hep Hsh. destruct (Hin i Hi) as [Hp _]. specialize (Hc H0 i). cbn in Hs. rewrite Hs in Hc.
  destruct (f H0 i) as [p|n q].
  - destruct Hc as [Hc _]. specialize (Hc _ eq_refl). by rewrite endpoint_ipc, Hep in Hc.
  - cbn [party] in Hp. cbn in Hp. rewrite Hs in Hp. cbn in Hp. rewrite Hep, Hsh in Hp. by destruct Hp.
Qed.

End exchange.

(** ** A run *)

Module Talk.
Import Run.

Definition apart_at (sp : Z) (k : Kernel) (hi : hart * nat) : bool :=
  match task_of (fst hi) (snd hi) k with
  | Some t => negb (on_ipc (state t)) || (sp + 128 <=? saved_sp t) || (saved_sp t + 128 <=? sp)
  | None => true
  end.

Definition slots : list (hart * nat) := ((λ i, (H0, i)) <$> seq 0 32) ++ ((λ i, (H1, i)) <$> seq 0 32).

(** The moves of [Run], with the results. *)
Definition talk (d : deed) (x : Live) : option Live :=
  let s := tot x in
  match d with
  | DoTrap h mcause sp =>
      match raised (running s h) mcause, move d s with
      | Some (save, _), Some s' =>
          if forallb (apart_at sp (kern s)) slots
          then Some (mkLive s' (new_result h mcause sp (set_ram (save sp (ram (kern s))) (kern s)) (kern s') (returned x)))
          else None
      | _, _ => None
      end
  | DoReturn h r =>
      match running s h, move d s with
      | Ret n _, Some s' =>
          if (n =? 6) || (n =? 7) then
            if r =? returned x h (current h (kern s)) then Some (mkLive s' (returned x)) else None
          else Some (mkLive s' (returned x))
      | _, _ => None
      end
  | DoLocal h => s' ← move d s; Some (mkLive s' (returned x))
  | DoWatchdog _ => None
  end.

Fixpoint talks (l : list deed) (x : Live) : option Live :=
  match l with
  | [] => Some x
  | d :: l => match talk d x with Some x' => talks l x' | None => None end
  end.

(** The HSM asks for a request, Task A sends one and waits for the reply. *)
Definition request : list deed :=
  [DoTrap H0 ECALL_UMODE 0x3FC80380] ++ call A_sp 0 ++ ask A_sp ++ ask H_sp ++
  [DoReturn H0 0; DoLocal H0; DoLocal H0; DoLocal H0] ++ ask A_sp.

Definition begin : Live := mkLive start (λ _ _, 0).
Definition waiting : Live := default begin (talks request begin).

Local Abbreviation sample_live :=
  (live Fips180.sha256 sample_bytes sample_read sample_buffers sample_layout sample_entries).

Local Abbreviation sample_live_step :=
  (live_step Fips180.sha256 sample_bytes sample_read sample_buffers sample_layout sample_entries).

Lemma apart_sound sp k : length (task_table (sched_of H0 k)) = 32%nat → length (task_table (sched_of H1 k)) = 32%nat →
  forallb (apart_at sp k) slots = true → apart sp k.
Proof.
  intros L0 L1 Hall h i t Ht Hi. rewrite forallb_forall in Hall.
  assert (Hlt : (i < 32)%nat).
  { unfold task_of in Ht. destruct h; [rewrite <- L0|rewrite <- L1]; by apply slot_lt in Ht. }
  assert (Hin : In (h, i) slots).
  { apply list_elem_of_In. unfold slots. rewrite elem_of_app, !list_elem_of_fmap.
    destruct h; [left|right]; (exists i; split; [done|]); apply elem_of_seq; lia. }
  specialize (Hall _ Hin). unfold apart_at in Hall. cbn [fst snd] in Hall. rewrite Ht, Hi in Hall. cbn [negb orb] in Hall.
  unfold disjoint. apply orb_true_iff in Hall as [?%Z.leb_le|?%Z.leb_le]; lia.
Qed.

Lemma talk_step d x x' : 
  length (task_table (sched_of H0 (kern (tot x)))) = 32%nat → length (task_table (sched_of H1 (kern (tot x)))) = 32%nat →
  talk d x = Some x' → sample_live_step x x'.
Proof.
  intros L0 L1. destruct d as [h mcause sp|h r|h|sp]; cbn [talk]; [..|discriminate].
  - destruct (raised (running (tot x) h) mcause) as [[save c]|] eqn:Hr; [|discriminate].
    unfold move. rewrite Hr. destruct (clear_frame sp) eqn:Hc; [|discriminate].
    destruct (wf_mem (ram (kern (tot x)))) eqn:Hw; [cbn [andb]|discriminate].
    destruct (trap_handler _ _ _ _ _ _) as [[sp' k']| |] eqn:Ht; [|discriminate..].
    destruct (forallb _ slots) eqn:Ha; [|discriminate]. intros [= <-].
    apply raised_sound in Hr. apply clear_frame_sound in Hc. apply wf_mem_sound in Hw. apply apart_sound in Ha; [|done..].
    exact (lv_trap _ _ _ _ _ _ x sample_env h mcause save c sp 6000 (ram (kern (tot x))) sp' k' eq_refl Hw
      (λ x _, eq_refl) Hc Ha Hr Ht).
  - unfold move. destruct (running (tot x) h) as [|n k] eqn:Hr; [discriminate|].
    destruct ((n =? 6) || (n =? 7)) eqn:Hn.
    + destruct (r =? _) eqn:Hres; [|discriminate]. intros [= <-]. apply Z.eqb_eq in Hres.
      exact (lv_return _ _ _ _ _ _ x h n k r Hr (λ _, Hres)).
    + intros [= <-]. apply (lv_return _ _ _ _ _ _ x h n k r Hr). intros [-> | ->]; done.
  - unfold move. destruct (running (tot x) h) as [p|] eqn:Hr; [|discriminate].
    destruct (next h (tot x) p) as [[p' m]|] eqn:Hn; [|discriminate]. intros [= <-]. apply next_sound in Hn.
    exact (lv_local _ _ _ _ _ _ x h p p' m m Hr Hn (λ x _, eq_refl)).
Qed.

Lemma talks_live l x x' : sample_live x → talks l x = Some x' → sample_live x'.
Proof.
  revert x. induction l as [|d l IH]; intros x Hx; cbn [talks]; [by intros [= <-]|].
  destruct (talk d x) as [x1|] eqn:Hd; [|discriminate]. apply IH. eapply live_next; [exact Hx|].
  destruct (total_safe _ _ _ _ _ _ _ (exact_total _ _ _ _ _ _ _ (live_exact _ _ _ _ _ _ _ Hx))) as [Hi _ _ _].
  apply (talk_step d); [exact (wf_table _ (wf_shape _ (inv_sched _ _ Hi H0)))|exact (wf_table _ (wf_shape _ (inv_sched _ _ Hi H1)))|done].
Qed.

Lemma begin_live : sample_live begin.
Proof.
  destruct (wp_no_panic _ _ _ (kmain_wp Fips180.sha256 sample_env sample_env sample_entries ∅
    (mkPerHart 0 0) (mkPerHart 0 0) (mkPerHart pmp_reset pmp_reset) sample_secure eq_refl
    pmp_reset_reset_ok pmp_reset_reset_ok)) as (r & k & Hk & _).
  unfold begin, start, booted. fold sample_reset in Hk. rewrite Hk.
  exact (live_boot _ _ _ _ sample_layout sample_entries sample_env sample_env ∅ (mkPerHart 0 0) (mkPerHart 0 0)
    (mkPerHart pmp_reset pmp_reset) r k (λ _ _, 0) eq_refl eq_refl
    sample_secure pmp_reset_reset_ok pmp_reset_reset_ok Hk).
Qed.

Lemma waiting_live : sample_live waiting.
Proof.
  unfold waiting. assert (Hr : ran (talks request begin) = true) by (vm_compute; reflexivity).
  apply ran_some in Hr as [x Hx]. rewrite Hx. exact (talks_live _ _ _ begin_live Hx).
Qed.

End Talk.
Import Run Talk.

