(* ===== verification/Context.v ===== *)
(** * Context: saving and restoring a task's registers

    Models kernel/src/trap_entry.s, the assembly that [start_first_task] of
    kernel/src/main.rs ends with, and the system call wrappers of
    telemetry/src/syscalls.rs and kernel/src/main.rs.  The listings are kept as
    lists of instructions and run by an interpreter of the few instructions they
    use; [user_trap] is a whole trap: the entry code, the handler, the exit code.

    The handler is a C function: it returns in [a0], preserves [sp], [gp] and
    [tp], and may leave anything in the other registers ([clobber]). *)
From S2P Require Import Prelude Memory Tcb Bitmap Can Pmp Spinlock Telemetry Kernel.
From S2P Require Import Trap KernelInv TrapInv Security Boot Reach SyscallSpec Footprint.

(** ** Registers and instructions *)

(** Names of the assembly code, used in this file only. *)
Module Abi.

Definition ra : nat := 1.
Definition sp : nat := 2.
Definition gp : nat := 3.
Definition tp : nat := 4.
Definition t0 : nat := 5.
Definition t1 : nat := 6.
Definition t2 : nat := 7.
Definition s0 : nat := 8.
Definition s1 : nat := 9.
Definition a0 : nat := 10.
Definition a1 : nat := 11.
Definition a2 : nat := 12.
Definition a3 : nat := 13.
Definition a4 : nat := 14.
Definition a5 : nat := 15.
Definition a6 : nat := 16.
Definition a7 : nat := 17.
Definition s2 : nat := 18.
Definition s3 : nat := 19.
Definition s4 : nat := 20.
Definition s5 : nat := 21.
Definition s6 : nat := 22.
Definition s7 : nat := 23.
Definition s8 : nat := 24.
Definition s9 : nat := 25.
Definition s10 : nat := 26.
Definition s11 : nat := 27.
Definition t3 : nat := 28.
Definition t4 : nat := 29.
Definition t5 : nat := 30.
Definition t6 : nat := 31.

Inductive csr := mepc | mstatus | mscratch | mcause | mcycle.

#[export] Instance csr_eq_dec : EqDecision csr.
Proof. solve_decision. Defined.

Inductive instr :=
  | sw (rs : nat) (off : Z) (base : nat)
  | lw (rd : nat) (off : Z) (base : nat)
  | addi (rd rs : nat) (imm : Z)
  | csrr (rd : nat) (k : csr)
  | csrw (k : csr) (rs : nat)
  | csrrw (rd : nat) (k : csr) (rs : nat).
End Abi.
Import Abi.

(** The integer registers and the machine-mode registers the code uses. *)
Record Regs := mkRegs { gpr : nat → Z; csrs : csr → Z }.

Definition set_x (r : nat) (v : Z) (g : Regs) : Regs :=
  mkRegs (λ n, if decide (n = r) then v else gpr g n) (csrs g).
Definition set_c (r : csr) (v : Z) (g : Regs) : Regs :=
  mkRegs (gpr g) (λ n, if decide (n = r) then v else csrs g n).

Definition exec (i : instr) (s : Regs * Mem) : Regs * Mem :=
  let '(g, m) := s in
  match i with
  | sw rs off base => (g, store32 m (gpr g base + off) (gpr g rs))
  | lw rd off base => (set_x rd (load32 m (gpr g base + off)) g, m)
  | addi rd rs imm => (set_x rd (u32 (gpr g rs + imm)) g, m)
  | csrr rd k => (set_x rd (csrs g k) g, m)
  | csrw k rs => (set_c k (gpr g rs) g, m)
  | csrrw rd k rs => (set_c k (gpr g rs) (set_x rd (csrs g k) g), m)
  end.

Definition run_code (l : list instr) (s : Regs * Mem) : Regs * Mem := foldl (flip exec) s l.

(** ** The listings *)

(** Up to [jal trap_handler]. *)
Definition save_code : list instr :=
  [csrrw sp mscratch sp; csrrw sp mscratch sp; addi sp sp (-128);
   sw ra 0 sp; sw t0 4 sp; sw t1 8 sp; sw t2 12 sp; sw s0 16 sp; sw s1 20 sp;
   sw a0 24 sp; sw a1 28 sp; sw a2 32 sp; sw a3 36 sp; sw a4 40 sp; sw a5 44 sp;
   sw a6 48 sp; sw a7 52 sp; sw s2 56 sp; sw s3 60 sp; sw s4 64 sp; sw s5 68 sp;
   sw s6 72 sp; sw s7 76 sp; sw s8 80 sp; sw s9 84 sp; sw s10 88 sp; sw s11 92 sp;
   sw t3 96 sp; sw t4 100 sp; sw t5 104 sp; sw t6 108 sp;
   csrr t0 mepc; sw t0 112 sp; csrr t1 mstatus; sw t1 116 sp].

Definition enter_code : list instr :=
  [csrrw sp mscratch sp; csrr a0 mcause; csrr a1 mscratch; csrr a2 mcycle].

(** From the return of the handler to [mret]. *)
Definition leave_code : list instr := [csrw mscratch a0; csrrw sp mscratch sp].

(** Shared by the exit path and [start_first_task]. *)
Definition restore_code : list instr :=
  [lw t0 112 sp; csrw mepc t0; lw t1 116 sp; csrw mstatus t1;
   lw ra 0 sp; lw t0 4 sp; lw t1 8 sp; lw t2 12 sp; lw s0 16 sp; lw s1 20 sp;
   lw a0 24 sp; lw a1 28 sp; lw a2 32 sp; lw a3 36 sp; lw a4 40 sp; lw a5 44 sp;
   lw a6 48 sp; lw a7 52 sp; lw s2 56 sp; lw s3 60 sp; lw s4 64 sp; lw s5 68 sp;
   lw s6 72 sp; lw s7 76 sp; lw s8 80 sp; lw s9 84 sp; lw s10 88 sp; lw s11 92 sp;
   lw t3 96 sp; lw t4 100 sp; lw t5 104 sp; lw t6 108 sp;
   addi sp sp 128].

Definition trap_entry : list instr := save_code ++ enter_code.
Definition trap_exit : list instr := leave_code ++ restore_code.

(** [csrw mscratch, kernel_stack_top; mv sp, user_sp], then the same loads. *)
Definition launch (kernel_stack_top user_sp : Z) (g : Regs) (m : Mem) : Regs :=
  fst (run_code restore_code (set_x sp user_sp (set_c mscratch kernel_stack_top g), m)).

(** ** A whole trap *)

(** What a C function leaves in the registers it need not preserve. *)
Definition after_call (clobber : nat → Z) (result : Z) (g : Regs) : Regs :=
  mkRegs (λ n, if decide (n = a0) then result
               else if decide (n ∈ [sp; gp; tp]) then gpr g n else clobber n) (csrs g).

(** The hart traps with its registers [g], [mepc] at the trapped instruction: the entry
    code and the handler, which returns the frame to resume. *)
Definition handled (E : Env) (h : hart) (g : Regs) : K Z :=
  m ← gets ram;
  let '(g1, m1) := run_code trap_entry (g, m) in
  _ ← modify (set_ram m1);
  trap_handler E h (gpr g1 a0) (gpr g1 a1) (gpr g1 a2).

(** The exit code, after a trap that was entered with [g] and whose handler returned
    [f]: the registers with which [mret] resumes, [mepc] being where. *)
Definition resume (clobber : nat → Z) (f : Z) (g : Regs) (m : Mem) : Regs :=
  fst (run_code trap_exit (after_call clobber f (fst (run_code trap_entry (g, m))), m)).

Definition user_trap (E : Env) (h : hart) (clobber : nat → Z) (g : Regs) : K Regs :=
  f ← handled E h g;
  m ← gets ram;
  mret (resume clobber f g m).

(** ** System call wrappers *)

(** [ecall] with the given registers; [mepc] is the address of the instruction. *)
Definition ecall_regs (g : Regs) (pc : Z) : Regs := set_c mcause ECALL_UMODE (set_c mepc pc g).

Definition set_args (id : Z) (args : list (nat * Z)) (g : Regs) : Regs :=
  foldl (λ g rv, set_x (fst rv) (snd rv) g) (set_x a7 id g) args.

(** [isize] from the register's bits. *)
Definition isize (z : Z) : Z := if z <? 2 ^ 31 then z else z - 2 ^ 32.

Section wrappers.
Context (E : Env) (h : hart) (clobber : nat → Z) (pc : Z).

Definition syscall (id : Z) (args : list (nat * Z)) (g : Regs) : K Regs :=
  user_trap E h clobber (ecall_regs (set_args id args g) pc).

Definition yield_now : Regs → K Regs := syscall 1 [].
Definition sleep_ticks (ticks : Z) : Regs → K Regs := syscall 2 [(a0, ticks)].
Definition lock_mutex (idx : Z) : Regs → K Regs := syscall 3 [(a0, idx)].
Definition unlock_mutex (idx : Z) : Regs → K Regs := syscall 4 [(a0, idx)].
Definition watchdog_checkin : Regs → K Regs := syscall 5 [].

(** The three wrappers that return [ret], an [isize], from [a0]. *)
Definition returning (call : Regs → K Regs) (g : Regs) : K (Z * Regs) :=
  g' ← call g; mret (isize (gpr g' a0), g').

Definition sys_send (cap_idx msg len : Z) : Regs → K (Z * Regs) :=
  returning (syscall 6 [(a0, cap_idx); (a1, msg); (a2, len)]).
Definition sys_recv (cap_idx buf len : Z) : Regs → K (Z * Regs) :=
  returning (syscall 7 [(a0, cap_idx); (a1, buf); (a2, len)]).
Definition sys_terminate_task (prio : Z) : Regs → K (Z * Regs) :=
  returning (syscall 8 [(a0, prio)]).
End wrappers.

(** kernel/src/main.rs has its own copies, which its tasks call; the security
    crate uses those of the telemetry crate, above. *)
Module KernelCalls.
Section calls.
Context (E : Env) (h : hart) (clobber : nat → Z) (pc : Z).

Definition yield_now : Regs → K Regs := syscall E h clobber pc 1 [].
Definition sleep_ticks (ticks : Z) : Regs → K Regs := syscall E h clobber pc 2 [(a0, ticks)].
Definition lock_mutex (idx : Z) : Regs → K Regs := syscall E h clobber pc 3 [(a0, idx)].
Definition unlock_mutex (idx : Z) : Regs → K Regs := syscall E h clobber pc 4 [(a0, idx)].
Definition watchdog_checkin : Regs → K Regs := syscall E h clobber pc 5 [].
Definition sys_send (cap_idx msg len : Z) : Regs → K (Z * Regs) :=
  returning (syscall E h clobber pc 6 [(a0, cap_idx); (a1, msg); (a2, len)]).
Definition sys_recv (cap_idx buf len : Z) : Regs → K (Z * Regs) :=
  returning (syscall E h clobber pc 7 [(a0, cap_idx); (a1, buf); (a2, len)]).
Definition sys_terminate_task (prio : Z) : Regs → K (Z * Regs) :=
  returning (syscall E h clobber pc 8 [(a0, prio)]).
End calls.
End KernelCalls.

(** ** Lemmas: the saved frame *)

(** Register [r] lives in slot [slot_of r]: the table the CSR emulation uses. *)
Definition slot_of (r : nat) : option nat := frame_idx (Z.of_nat r).

Definition saved_regs : list nat := 1%nat :: seq 5 27.

(** The frame [save_code] builds at [f]. *)
Definition saved_frame (f : Z) (g : Regs) (m : Mem) : Mem :=
  frame_write
    (frame_write
      (foldl (λ m r, match slot_of r with
                     | Some i => frame_write m f i (gpr g r)
                     | None => m
                     end) m saved_regs)
      f MEPC (csrs g mepc)) f MSTATUS (csrs g mstatus).

Definition frame_of (g : Regs) : Z := u32 (gpr g sp + -128).

Lemma trap_entry_spec g m :
  let '(g1, m1) := run_code trap_entry (g, m) in
  m1 = saved_frame (frame_of g) g m ∧
  gpr g1 a0 = csrs g mcause ∧ gpr g1 a1 = frame_of g ∧ gpr g1 a2 = csrs g mcycle ∧
  gpr g1 sp = csrs g mscratch ∧ gpr g1 gp = gpr g gp ∧ gpr g1 tp = gpr g tp.
Proof. split_and!; reflexivity. Qed.

Lemma run_code_app l1 l2 s : run_code (l1 ++ l2) s = run_code l2 (run_code l1 s).
Proof. apply foldl_app. Qed.

(** A block of loads through an unchanged base register. *)
Lemma loads_spec (l : list (nat * Z)) base g m :
  base ∉ l.*1 → NoDup (l.*1) →
  let g' := fst (run_code ((λ ro, lw (fst ro) (snd ro) base) <$> l) (g, m)) in
  (∀ r off, (r, off) ∈ l → gpr g' r = load32 m (gpr g base + off)) ∧
  (∀ r, r ∉ l.*1 → gpr g' r = gpr g r) ∧ csrs g' = csrs g.
Proof.
  revert g. induction l as [|[r0 o0] l IH]; intros g Hb Hn; cbn [fmap list_fmap fst snd].
  { split_and!; [intros ? ? H; by apply elem_of_nil in H|done|done]. }
  cbn [fmap list_fmap fst] in Hb, Hn. apply not_elem_of_cons in Hb as [Hb0 Hb].
  pose proof (NoDup_cons_1_1 _ _ Hn) as Hn0. apply NoDup_cons_1_2 in Hn.
  set (g0 := set_x r0 (load32 m (gpr g base + o0)) g).
  change (run_code _ (g, m)) with (run_code ((λ ro, lw (fst ro) (snd ro) base) <$> l) (g0, m)).
  destruct (IH g0 Hb Hn) as (H1 & H2 & H3).
  assert (Hg : ∀ n, n ≠ r0 → gpr g0 n = gpr g n).
  { intros n Hne. unfold g0, set_x. cbn [gpr]. by rewrite decide_False. }
  split_and!; [|intros r Hr; apply not_elem_of_cons in Hr as [Hr0 Hr]; rewrite H2 by done; auto|done].
  intros r off [[= -> ->]|Hin]%elem_of_cons.
  - rewrite H2 by done. unfold g0, set_x. cbn [gpr]. by rewrite decide_True.
  - rewrite (H1 r off Hin), Hg by done. done.
Qed.

(** The registers [restore_code] loads, with their offsets. *)
Definition load_table : list (nat * Z) := zip saved_regs ((λ i, 4 * Z.of_nat i) <$> seq 0 28).

Lemma load_table_slots r i : slot_of r = Some i → (r, 4 * Z.of_nat i) ∈ load_table.
Proof.
  unfold slot_of, frame_idx. intros Hr.
  assert (Hlt : (r < 32)%nat) by (repeat case_match; simplify_eq; lia).
  do 32 (destruct r as [|r];
    [vm_compute in Hr; (discriminate Hr || injection Hr as <-);
     apply (bool_decide_unpack _); vm_compute; exact I|]).
  lia.
Qed.

Lemma restore_code_split :
  restore_code = [lw t0 112 sp; csrw mepc t0; lw t1 116 sp; csrw mstatus t1] ++
    ((λ ro, lw (fst ro) (snd ro) sp) <$> load_table) ++ [addi sp sp 128].
Proof. reflexivity. Qed.

Lemma loads_mem (l : list (nat * Z)) base g m :
  snd (run_code ((λ ro, lw (fst ro) (snd ro) base) <$> l) (g, m)) = m.
Proof. revert g. induction l as [|ro l IH]; intros g; [done|]. apply IH. Qed.

Lemma restore_spec g m :
  let g' := fst (run_code restore_code (g, m)) in
  let f := gpr g sp in
  (∀ r i, slot_of r = Some i → gpr g' r = frame_read m f i) ∧
  gpr g' sp = u32 (f + 128) ∧ gpr g' gp = gpr g gp ∧ gpr g' tp = gpr g tp ∧
  csrs g' mepc = frame_read m f MEPC ∧ csrs g' mstatus = frame_read m f MSTATUS ∧
  csrs g' mscratch = csrs g mscratch.
Proof.
  set (g0 := fst (run_code (take 4 restore_code) (g, m))).
  assert (Hsplit : run_code restore_code (g, m) = exec (addi sp sp 128)
    (run_code ((λ ro, lw (fst ro) (snd ro) sp) <$> load_table) (g0, m))).
  { rewrite restore_code_split. by rewrite !run_code_app. }
  rewrite Hsplit. clear Hsplit.
  destruct (loads_spec load_table sp g0 m) as (H1 & H2 & H3);
    [apply (bool_decide_unpack _); vm_compute; exact I..|].
  pose proof (loads_mem load_table sp g0 m) as Hm.
  destruct (run_code _ (g0, m)) as [g1 m1]. cbn [fst snd] in *. subst m1.
  cbv zeta. cbn [exec fst set_x gpr csrs]. rewrite H3.
  split_and!; try reflexivity.
  - intros r i Hr. assert (r ≠ sp) by (by intros ->). rewrite decide_False by done. exact (H1 _ _ (load_table_slots _ _ Hr)).
  - rewrite decide_True by done. rewrite H2; [done|].
    apply (bool_decide_unpack _); vm_compute; exact I.
  - rewrite decide_False by done. rewrite H2; [done|].
    apply (bool_decide_unpack _); vm_compute; exact I.
  - rewrite decide_False by done. rewrite H2; [done|].
    apply (bool_decide_unpack _); vm_compute; exact I.
Qed.

Lemma trap_exit_spec clobber f g m :
  let g' := fst (run_code trap_exit (after_call clobber f g, m)) in
  (∀ r i, slot_of r = Some i → gpr g' r = frame_read m f i) ∧
  gpr g' sp = u32 (f + 128) ∧ gpr g' gp = gpr g gp ∧ gpr g' tp = gpr g tp ∧
  csrs g' mepc = frame_read m f MEPC ∧ csrs g' mstatus = frame_read m f MSTATUS ∧
  csrs g' mscratch = gpr g sp.
Proof.
  unfold trap_exit. rewrite run_code_app.
  destruct (run_code leave_code _) as [g1 m1] eqn:H1.
  assert (gpr g1 sp = f ∧ gpr g1 gp = gpr g gp ∧ gpr g1 tp = gpr g tp ∧ csrs g1 mscratch = gpr g sp ∧ m1 = m)
    as (Hsp & Hgp & Htp & Hms & ->) by (injection H1 as <- <-; done).
  pose proof (restore_spec g1 m) as H. by rewrite Hsp, Hgp, Htp, Hms in H.
Qed.

Lemma slot_of_range r i : slot_of r = Some i → (i < 28)%nat ∧ r ∈ saved_regs.
Proof.
  unfold slot_of, frame_idx. intros Hr. repeat case_match; simplify_eq.
  - split; [lia|]. apply elem_of_cons. left. lia.
  - split; [lia|]. apply elem_of_cons. right. apply list_elem_of_In, in_seq. lia.
Qed.

Lemma slot_saved r : r ∈ saved_regs → is_Some (slot_of r).
Proof.
  intros Hr. unfold slot_of, frame_idx.
  assert (r = 1 ∨ 5 ≤ r < 32)%nat as Hr'.
  { apply elem_of_cons in Hr as [->|Hr]; [by left|]. apply list_elem_of_In, in_seq in Hr. lia. }
  case_match; [done|]. case_match eqn:E; [done|]. lia.
Qed.

Lemma slot_of_inj r r' i : slot_of r = Some i → slot_of r' = Some i → r = r'.
Proof. unfold slot_of, frame_idx. intros H H'. repeat case_match; simplify_eq; lia. Qed.

(** Every saved register can be read back from its slot. *)
Lemma saved_frame_read f g m r i :
  slot_of r = Some i → frame_read (saved_frame f g m) f i = u32 (gpr g r).
Proof.
  intros Hr. destruct (slot_of_range _ _ Hr) as [Hi Hin]. unfold saved_frame.
  rewrite !frame_read_write_ne by (unfold MEPC, MSTATUS; lia). revert m Hin.
  assert (Hstep : ∀ l m, (r ∉ l) → frame_read m f i = u32 (gpr g r) →
    frame_read (foldl (λ m r, match slot_of r with
      Some i => frame_write m f i (gpr g r) | None => m end) m l) f i = u32 (gpr g r)).
  { induction l as [|r' l IH]; intros m Hn Hm; simpl; [done|]. apply not_elem_of_cons in Hn as [Hne Hn].
    apply IH; [done|]. destruct (slot_of r') as [i'|] eqn:Hr'; [|done].
    rewrite frame_read_write_ne; [done|]. intros ->. apply Hne. by eapply slot_of_inj. }
  induction saved_regs as [|r' l IH]; intros m Hin; simpl; [by apply elem_of_nil in Hin|].
  destruct (decide (r ∈ l)) as [Hl|Hl]; [by apply IH|].
  apply elem_of_cons in Hin as [->|Hin]; [|done]. apply Hstep; [done|]. rewrite Hr.
  apply frame_read_write_eq.
Qed.

Lemma saved_frame_csrs f g m :
  frame_read (saved_frame f g m) f MEPC = u32 (csrs g mepc) ∧
  frame_read (saved_frame f g m) f MSTATUS = u32 (csrs g mstatus).
Proof.
  unfold saved_frame. split; [rewrite frame_read_write_ne by done|]; apply frame_read_write_eq.
Qed.

(** The entry code writes its frame and nothing else. *)
Lemma saved_frame_out f g m y : ¬ (f ≤ y < f + 120) → load8 (saved_frame f g m) y = load8 m y.
Proof.
  intros Hy. unfold saved_frame. rewrite !load8_frame_write_out by (unfold MEPC, MSTATUS; lia).
  assert (H : ∀ l m, load8 (foldl (λ m r, match slot_of r with
      Some i => frame_write m f i (gpr g r) | None => m end) m l) y = load8 m y).
  { induction l as [|r l IH]; intros m'; simpl; [done|]. rewrite IH.
    destruct (slot_of r) as [i|] eqn:Hr; [|done]. apply slot_of_range in Hr as [Hi _].
    apply load8_frame_write_out. lia. }
  apply H.
Qed.

Lemma saved_frame_wf f g m : mem_wf m → mem_wf (saved_frame f g m).
Proof.
  intros Hm. unfold saved_frame. apply store32_wf, store32_wf. revert m Hm.
  induction saved_regs as [|r l IH]; intros m Hm; simpl; [done|]. apply IH.
  destruct (slot_of r); [by apply store32_wf|done].
Qed.

(** The frame survives a later change of memory elsewhere. *)
Definition same_frame (f : Z) (m m' : Mem) : Prop :=
  ∀ i, (i < 30)%nat → frame_read m' f i = frame_read m f i.

(** Registers hold 32-bit values. *)
Definition regs_wf (g : Regs) : Prop :=
  (∀ r, 0 ≤ gpr g r < 2 ^ 32) ∧ ∀ c, 0 ≤ csrs g c < 2 ^ 32.

(** The registers with which [mret] resumes the frame at [f], entered from [g]. *)
Record resumes (g : Regs) (f : Z) (m : Mem) (g' : Regs) : Prop := {
  res_gpr : ∀ r i, slot_of r = Some i → gpr g' r = frame_read m f i;
  res_sp : gpr g' sp = u32 (f + 128);
  res_gp : gpr g' gp = gpr g gp;
  res_tp : gpr g' tp = gpr g tp;
  res_mepc : csrs g' mepc = frame_read m f MEPC;
  res_mstatus : csrs g' mstatus = frame_read m f MSTATUS;
  res_mscratch : csrs g' mscratch = csrs g mscratch
}.

Lemma resume_spec clobber f g m : resumes g f m (resume clobber f g m).
Proof.
  unfold resume. pose proof (trap_entry_spec g m) as He. destruct (run_code trap_entry (g, m)) as [g1 m1].
  destruct He as (_ & _ & _ & _ & Hsp & Hgp & Htp). cbn [fst].
  destruct (trap_exit_spec clobber f g1 m) as (H1 & H2 & H3 & H4 & H5 & H6 & H7).
  split; [exact H1|exact H2|congruence..].
Qed.

(** A whole trap is the handler, run on the saved frame. *)
Lemma wp_user_trap P E h clobber g (Q : Regs → Kernel → Prop) k :
  wp P (trap_handler E h (csrs g mcause) (frame_of g) (csrs g mcycle))
    (λ f k', ∀ g', resumes g f (ram k') g' → Q g' k')
    (set_ram (saved_frame (frame_of g) g (ram k)) k) →
  wp P (user_trap E h clobber g) Q k.
Proof.
  intros HQ. unfold user_trap. apply wp_bind. unfold handled. apply wp_bind, wp_gets.
  pose proof (trap_entry_spec g (ram k)) as He. destruct (run_code trap_entry (g, ram k)) as [g1 m1].
  destruct He as (-> & -> & -> & -> & _).
  apply wp_bind, wp_modify. eapply wp_mono; [exact HQ|]. intros f k' Hf.
  apply wp_bind, wp_gets, wp_ret, Hf, resume_spec.
Qed.

Lemma slot_total r : (1 ≤ r < 32)%nat → r = sp ∨ r = gp ∨ r = tp ∨ is_Some (slot_of r).
Proof.
  intros Hr. destruct (decide (r = sp)); [by left|]. destruct (decide (r = gp)); [by right; left|].
  destruct (decide (r = tp)); [by right; right; left|]. right. right. right.
  unfold sp, gp, tp in *. unfold slot_of, frame_idx. case_match eqn:E1; [done|].
  case_match eqn:E2; [done|]. lia.
Qed.

Lemma u32_frame_of g : regs_wf g → u32 (frame_of g + 128) = gpr g sp.
Proof.
  intros [Hg _]. specialize (Hg sp). unfold frame_of, u32. rewrite Zplus_mod_idemp_l.
  replace (gpr g sp + -128 + 128) with (gpr g sp) by lia. by apply Z.mod_small.
Qed.

(** What the frame of [g] resumes, wherever it is unchanged. *)
Lemma resumes_saved g g0 m m' g' :
  regs_wf g → same_frame (frame_of g) (saved_frame (frame_of g) g m) m' →
  gpr g gp = gpr g0 gp → gpr g tp = gpr g0 tp →
  resumes g0 (frame_of g) m' g' →
  (∀ r, (1 ≤ r < 32)%nat → gpr g' r = gpr g r) ∧
  csrs g' mepc = csrs g mepc ∧ csrs g' mstatus = csrs g mstatus.
Proof.
  intros Hw Hs Hgp Htp [H1 H2 H3 H4 H5 H6 _].
  destruct (saved_frame_csrs (frame_of g) g m) as [Hpc Hst].
  rewrite Hs in H5, H6 by (unfold MEPC, MSTATUS; lia). rewrite Hpc in H5. rewrite Hst in H6.
  split_and!.
  - intros r Hr. destruct (slot_total r Hr) as [->|[->|[->|[i Hi]]]]; [by rewrite H2, u32_frame_of|congruence|congruence|].
    rewrite (H1 _ _ Hi), Hs by (apply slot_of_range in Hi as [? _]; lia).
    rewrite (saved_frame_read _ _ _ _ _ Hi). apply u32_small, Hw.
  - rewrite H5. apply u32_small, Hw.
  - rewrite H6. apply u32_small, Hw.
Qed.

(** ** Lemmas: system calls through the entry code *)

(** What a call leaves of the caller's registers when it returns [v] and does not
    switch tasks. *)
Record returned (g0 : Regs) (v : Z) (g' : Regs) : Prop := {
  ret_a0 : gpr g' a0 = v;
  ret_gpr : ∀ r, (1 ≤ r < 32)%nat → r ≠ a0 → gpr g' r = gpr g0 r;
  ret_mepc : csrs g' mepc = wrapping_add (csrs g0 mepc) 4;
  ret_mstatus : csrs g' mstatus = csrs g0 mstatus;
  ret_mscratch : csrs g' mscratch = csrs g0 mscratch
}.

Lemma frame_read_saved_small f g m r i :
  regs_wf g → slot_of r = Some i → frame_read (saved_frame f g m) f i = gpr g r.
Proof. intros Hw Hr. rewrite (saved_frame_read _ _ _ _ _ Hr). apply u32_small, Hw. Qed.

Lemma returned_saved g0 v m g' :
  regs_wf g0 → 0 ≤ v < 2 ^ 32 →
  let f := frame_of g0 in
  let m1 := saved_frame f g0 m in
  resumes g0 f (frame_write (frame_write m1 f MEPC (wrapping_add (frame_read m1 f MEPC) 4)) f A0 v) g' →
  returned g0 v g'.
Proof.
  intros Hw Hv f m1 [H1 H2 H3 H4 H5 H6 H7].
  destruct (saved_frame_csrs f g0 m) as [Hpc Hst]. fold m1 in Hpc, Hst.
  rewrite u32_small in Hpc, Hst by apply Hw.
  split.
  - rewrite (H1 a0 A0 eq_refl), frame_read_write_eq. by apply u32_small.
  - intros r Hr Hne. destruct (slot_total r Hr) as [->|[->|[->|[i Hi]]]];
      [rewrite H2; by apply u32_frame_of|done|done|].
    rewrite (H1 _ _ Hi). rewrite !frame_read_write_ne.
    + by apply frame_read_saved_small.
    + apply slot_of_range in Hi as [? _]. unfold MEPC. lia.
    + intros <-. apply Hne. by apply (slot_of_inj r a0 A0).
  - rewrite H5, frame_read_write_ne, frame_read_write_eq, Hpc by done.
    apply u32_small. unfold wrapping_add, u32. by apply Z.mod_pos_bound.
  - by rewrite H6, !frame_read_write_ne by done.
  - done.
Qed.

(** The kernel state up to the memory and the latency counter. *)
Definition only_frame (f : Z) (k k' : Kernel) : Prop :=
  ∃ m lat, same_except f 120 (ram k) m ∧ k' = set_METRIC_TRAP_LATENCY_CYCLES lat (set_ram m k).

Lemma wp_trap_denied E h clobber g0 n k :
  ready_for E h k → regs_wf g0 → csrs g0 mcause = ECALL_UMODE → gpr g0 a7 = n →
  (n = 3 ∨ n = 4 ∨ n = 6 ∨ n = 7) → permits n (cap_at h (gpr g0 a0) k) k = false →
  wp no_panic (user_trap E h clobber g0)
    (λ g' k', returned g0 USIZE_MINUS_ONE g' ∧ only_frame (frame_of g0) k k') k.
Proof.
  intros Hr Hw Hc Hn7 Hn Hp. apply wp_user_trap. rewrite Hc. unfold trap_handler.
  apply wp_bind, wp_modify. cbn [Z.eqb ECALL_UMODE TIMER_INTERRUPT SOFTWARE_INTERRUPT].
  set (f := frame_of g0). set (m1 := saved_frame f g0 (ram k)).
  set (lat := wrapping_sub _ _).
  assert (Hf : ∀ r i, slot_of r = Some i → frame_read m1 f i = gpr g0 r)
    by (intros; by apply frame_read_saved_small).
  change (wp no_panic (ecall E h f)
    (λ f' k', ∀ g', resumes g0 f' (ram k') g' →
       returned g0 USIZE_MINUS_ONE g' ∧ only_frame f k k')
    (set_METRIC_TRAP_LATENCY_CYCLES lat (set_ram m1 k))).
  eapply wp_mono.
  - apply (wp_ecall_denied E h f _ n); [|cbn [ram set_METRIC_TRAP_LATENCY_CYCLES set_ram]..].
    + destruct Hr as [Hi ? ?]. split; [by apply (inv_fields _ k)|done|done].
    + by rewrite (Hf a7 A7 eq_refl).
    + done.
    + by rewrite (Hf a0 A0 eq_refl).
  - intros f' k' [-> ->] g' Hg'. split; [by apply (returned_saved g0 _ (ram k))|].
    exists (ram (return_code f USIZE_MINUS_ONE (advanced f (set_ram m1 k)))), lat.
    split; [|reflexivity]. intros x Hx. cbn [return_code advanced ram set_ram].
    rewrite !load8_frame_write_out by (unfold A0, MEPC; lia). by apply saved_frame_out.
Qed.

(** ** A suspended frame *)

(** The state the handler of a trap with registers [g] starts from: the frame is saved. *)
Definition entered (g : Regs) (k : Kernel) : Kernel :=
  set_ram (saved_frame (frame_of g) g (ram k)) k.

Lemma handled_trap E h g k :
  handled E h g k = trap_handler E h (csrs g mcause) (frame_of g) (csrs g mcycle) (entered g k).
Proof.
  unfold handled. change ((m ← gets ram; ?f m) k) with (f (ram k) k).
  pose proof (trap_entry_spec g (ram k)) as He. unfold mbind, K_bind, gets.
  destruct (run_code trap_entry (g, ram k)) as [g1 m1]. destruct He as (-> & -> & -> & -> & _). reflexivity.
Qed.

(** A trap spares the frame at [f]: nothing of it is in the trap's footprint, except
    that with [res] the result word may be. *)
Definition spares (res : bool) (f mcause sp : Z) (k : Kernel) : Prop :=
  ∀ x, f ≤ x < f + 120 → footprint mcause sp k x → res = true ∧ result_word f x.

(** What happens while the frame at [f] waits for hart [h] to resume it: stores of
    tasks elsewhere, and traps on both harts that save their registers elsewhere and
    spare it.  A state is what the last handler of [h] returned, the registers its trap
    was entered with, and the kernel. *)
Inductive later (h : hart) (f : Z) (res : bool) : Z * Regs * Kernel → Z * Regs * Kernel → Prop :=
  | later_store s g k m :
      (∀ x, f ≤ x < f + 120 → load8 m x = load8 (ram k) x) →
      later h f res (s, g, k) (s, g, set_ram m k)
  | later_trap E h' g' s g k s' k' :
      handled E h' g' k = Done (s', k') →
      frame_of g' + 120 ≤ f ∨ f + 120 ≤ frame_of g' →
      spares res f (csrs g' mcause) (frame_of g') (entered g' k) →
      later h f res (s, g, k) (if decide (h' = h) then (s', g', k') else (s, g, k')).

(** The words of the frame that stay. *)
Definition stays (res : bool) (i : nat) : Prop := (i < 30)%nat ∧ (res = true → i ≠ A0).

Lemma stays_byte res f i x :
  stays res i → f + 4 * Z.of_nat i ≤ x < f + 4 * Z.of_nat i + 4 →
  f ≤ x < f + 120 ∧ ¬ (res = true ∧ result_word f x).
Proof.
  intros [Hi Hr] Hx. split; [lia|]. intros [Ht Hw]. specialize (Hr Ht). unfold result_word, A0 in *. lia.
Qed.

Lemma later_keeps h f res st st' i :
  later h f res st st' → stays res i →
  frame_read (ram (snd st')) f i = frame_read (ram (snd st)) f i.
Proof.
  intros Hl Hi. destruct Hl as [s g k m Hm|E h' g' s g k s' k' Hh Hd Hsp].
  - apply load32_ext. intros x Hx. apply Hm. by apply (stays_byte res f i).
  - rewrite handled_trap in Hh.
    assert (He : frame_read (ram k') f i = frame_read (ram k) f i); [|by case_decide].
    apply load32_ext. intros x Hx. destruct (stays_byte res f i x Hi Hx) as [Hin Hno].
    rewrite (changes_in_footprint _ _ _ _ _ _ _ _ x Hh); [|by intros ?%Hsp].
    apply saved_frame_out. lia.
Qed.

Lemma laters_keep h f res st st' i :
  rtc (later h f res) st st' → stays res i →
  frame_read (ram (snd st')) f i = frame_read (ram (snd st)) f i.
Proof.
  induction 1 as [st|st st1 st2 H _ IH]; intros Hi; [done|]. rewrite IH by done. by eapply later_keeps.
Qed.

(** What the handler leaves of the frame of an interrupt or a system call. *)
Lemma handled_frame E h g k s k' :
  csrs g mcause = TIMER_INTERRUPT ∨ csrs g mcause = SOFTWARE_INTERRUPT ∨ csrs g mcause = ECALL_UMODE →
  handled E h g k = Done (s, k') →
  let f := frame_of g in
  let call := bool_decide (csrs g mcause = ECALL_UMODE) in
  (call = true → ∀ x, f ≤ x < f + 120 → foreign f (entered g k) x → result_word f x) →
  ∀ i, stays call i → frame_read (ram k') f i =
    frame_read (ram (if call then advanced f (entered g k) else entered g k)) f i.
Proof.
  rewrite handled_trap. intros Hc Hh f call Hfo i Hi. destruct Hi as [Hi Hne]. unfold call in *.
  case_bool_decide as Hcall.
  - rewrite Hcall in Hh. pose proof (arm_prints E h f) as Hp. unfold trap_handler, mbind, K_bind in Hh.
    cbn [Z.eqb ECALL_UMODE TIMER_INTERRUPT SOFTWARE_INTERRUPT] in Hh. unfold modify in Hh.
    set (k0 := set_METRIC_TRAP_LATENCY_CYCLES _ (entered g k)) in Hh.
    specialize (Hp k0). unfold pwp in Hp. change (ecall E h f k0 = Done (s, k')) in Hh. rewrite Hh in Hp. cbn in Hp.
    apply load32_ext. intros x Hx. apply Hp. intros [Hr|Hf].
    + specialize (Hne eq_refl). unfold result_word, A0 in *. lia.
    + assert (Hw : result_word f x); [|specialize (Hne eq_refl); unfold result_word, A0 in *; lia].
      apply Hfo; [done|lia|]. destruct Hf; [by eapply fp_waiter|by eapply fp_receiver|by eapply fp_sender].
  - destruct Hc as [Hc|[Hc|Hc]]; [..|done];
      by rewrite (interrupt_footprint E h (csrs g mcause) _ _ _ _ _ ltac:(auto) Hh).
Qed.

(** ** Properties *)

(** C14. Context round trip.  A task traps, by an interrupt or a system call, and the
    entry code saves its registers in the frame below its stack pointer, writing nothing
    else; the handler runs, and so do any number of stores and traps of other tasks on
    both harts, until a handler of this hart returns the frame ([g2] are the registers
    that last trap was entered with, and [k2] the state it left).  The tasks must keep
    off the frame: their stores, the frames they save, and the kernel's writes on their
    behalf, other than to the result word when [res] is set.  Then the exit code resumes
    the task with every integer register but [a0], and [mstatus], as they were; the
    program counter as it was after an interrupt, and past the instruction after a system
    call; [a0] too as it was after an interrupt if no result was delivered to the frame,
    and otherwise the result the kernel left there.  The code saves neither [gp] nor
    [tp], so they must be the same in both tasks. *)
Theorem context_roundtrip E h g k s1 k1 res g2 k2 clobber :
  regs_wf g →
  csrs g mcause = TIMER_INTERRUPT ∨ csrs g mcause = SOFTWARE_INTERRUPT ∨ csrs g mcause = ECALL_UMODE →
  handled E h g k = Done (s1, k1) →
  let f := frame_of g in
  let call := bool_decide (csrs g mcause = ECALL_UMODE) in
  (call = true → ∀ x, f ≤ x < f + 120 → foreign f (entered g k) x → result_word f x) →
  rtc (later h f res) (s1, g, k1) (f, g2, k2) →
  gpr g2 gp = gpr g gp → gpr g2 tp = gpr g tp →
  let g' := resume clobber f g2 (ram k2) in
  same_except f 120 (ram k) (snd (run_code trap_entry (g, ram k))) ∧
  (∀ r, (1 ≤ r < 32)%nat → r ≠ a0 → gpr g' r = gpr g r) ∧
  csrs g' mstatus = csrs g mstatus ∧
  csrs g' mepc = (if call then wrapping_add (csrs g mepc) 4 else csrs g mepc) ∧
  gpr g' a0 = frame_read (ram k2) f A0 ∧
  (call = false → res = false → gpr g' a0 = gpr g a0).
Proof.
  intros Hw Hc Hh f call Hfo Hl Hgp Htp g'.
  assert (Hk : ∀ i, stays (call || res) i → frame_read (ram k2) f i =
    frame_read (ram (if call then advanced f (entered g k) else entered g k)) f i).
  { intros i [Hi Hne]. pose proof (laters_keep _ _ _ _ _ i Hl) as Hl'. cbn [snd] in Hl'. rewrite Hl'.
    - apply (handled_frame E h g k s1 k1 Hc Hh Hfo i). split; [done|]. intros Hb. apply Hne. change (call = true) in Hb; by rewrite Hb.
    - split; [done|]. intros ->. apply Hne. by rewrite orb_true_r. }
  assert (Hreg : ∀ r i, slot_of r = Some i → stays (call || res) i → frame_read (ram k2) f i = gpr g r).
  { intros r i Hr Hi. rewrite Hk by done. apply slot_of_range in Hr as Hr'.
    rewrite <- (frame_read_saved_small f g (ram k) r i Hw Hr). destruct call; [|done].
    apply advanced_reg. unfold MEPC. lia. }
  destruct (saved_frame_csrs f g (ram k)) as [Hpc Hst]. rewrite u32_small in Hpc, Hst by apply Hw.
  destruct (resume_spec clobber f g2 (ram k2)) as [H1 H2 H3 H4 H5 H6 H7]. fold g' in H1, H2, H3, H4, H5, H6, H7.
  split_and!.
  - intros x Hx. pose proof (trap_entry_spec g (ram k)) as He.
    destruct (run_code trap_entry (g, ram k)) as [g1 m1]. destruct He as (-> & _). by apply saved_frame_out.
  - intros r Hr Hne. destruct (slot_total r Hr) as [->|[->|[->|[i Hi]]]];
      [rewrite H2; by apply u32_frame_of|congruence|congruence|].
    rewrite (H1 _ _ Hi). apply Hreg; [done|]. apply slot_of_range in Hi as Hi'. split; [lia|].
    intros _ ->. apply Hne. by apply (slot_of_inj r a0 A0).
  - rewrite H6, Hk by (split; [unfold MSTATUS; lia|done]). destruct call; [|done].
    rewrite advanced_reg by done. done.
  - rewrite H5, Hk by (split; [unfold MEPC; lia|done]). destruct call; [|done].
    unfold advanced. cbn [ram set_ram]. rewrite frame_read_write_eq.
    change (ram (entered g k)) with (saved_frame f g (ram k)). rewrite Hpc.
    apply u32_small. unfold wrapping_add, u32. by apply Z.mod_pos_bound.
  - by apply H1.
  - intros -> ->. rewrite (H1 a0 A0 eq_refl). apply Hreg; [done|]. split; [unfold A0; lia|done].
Qed.

(** Task A's registers, each different, trapped at 0x42001010. *)
Definition sample_regs : Regs :=
  mkRegs (λ r, if decide (r = sp) then 0x3FC80400 else 1000 + Z.of_nat (r mod 32))
    (λ c, match c with mepc => 0x42001010 | mstatus => 128 | mscratch => 0x3FC90400
                     | mcause => ECALL_UMODE | mcycle => 77 end).

Lemma sample_regs_wf : regs_wf sample_regs.
Proof.
  split; [|intros []; vm_compute; split; congruence].
  intros r. unfold sample_regs. cbn [gpr]. case_decide; [lia|].
  pose proof (Nat.mod_upper_bound r 32 ltac:(lia)). lia.
Qed.

(** *** A run: the Watchdog, Task A and the HSM yield in turn *)

Definition yields (sp0 : Z) : Regs := set_x sp sp0 (set_x a7 1 sample_regs).

Definition after_yield (sp0 : Z) (k : Kernel) : Z * Kernel :=
  match handled sample_env H0 (yields sp0) k with Done r => r | _ => (0, k) end.

Definition yielded (sp0 : Z) (k : Kernel) : bool :=
  match handled sample_env H0 (yields sp0) k with Done _ => true | _ => false end.

Lemma yielded_handled sp0 k :
  yielded sp0 k = true →
  handled sample_env H0 (yields sp0) k = Done (fst (after_yield sp0 k), snd (after_yield sp0 k)).
Proof. unfold yielded, after_yield. by destruct (handled _ _ _ _) as [[]| |]. Qed.

Lemma yields_wf sp0 : 0 ≤ sp0 < 2 ^ 32 → regs_wf (yields sp0).
Proof.
  intros Hs. destruct sample_regs_wf as [Hg Hc]. split; [|done]. intros r. cbn [yields set_x gpr].
  repeat case_decide; [done|lia|apply Hg].
Qed.

(** A yield reaches into no other frame. *)
Lemma yields_foreign sp0 k x :
  0 ≤ sp0 < 2 ^ 32 → ¬ foreign (frame_of (yields sp0)) (entered (yields sp0) k) x.
Proof.
  intros Hs. assert (H7 : frame_read (ram (entered (yields sp0) k)) (frame_of (yields sp0)) A7 = 1)
    by exact (frame_read_saved_small _ _ _ a7 A7 (yields_wf _ Hs) eq_refl).
  by intros [t H|t b n H|t H]; rewrite H7 in H.
Qed.

Lemma yield_later f sp0 s g k :
  0 ≤ sp0 < 2 ^ 32 → yielded sp0 k = true →
  frame_of (yields sp0) + 128 ≤ f ∨ f + 128 ≤ frame_of (yields sp0) →
  later H0 f false (s, g, k) (fst (after_yield sp0 k), yields sp0, snd (after_yield sp0 k)).
Proof.
  intros Hs Hy Hd. apply (later_trap H0 f false sample_env H0 (yields sp0) s g k _ _ (yielded_handled _ _ Hy)); [lia|].
  intros x Hx [_ Hn%call_word_near|H _|_ Hf]; [unfold near in Hn; lia|discriminate H|by apply yields_foreign in Hf].
Qed.

Definition turn1 : Z * Kernel := after_yield 0x3FC80400 booted.
Definition turn2 : Z * Kernel := after_yield 0x3FC80800 (snd turn1).
Definition turn3 : Z * Kernel := after_yield 0x3FC81400 (snd turn2).

Lemma context_roundtrip_witness :
  let g' := resume (λ _, 0) 0x3FC80380 (yields 0x3FC81400) (ram (snd turn3)) in
  gpr g' s11 = 1027 ∧ gpr g' sp = 0x3FC80400 ∧ csrs g' mepc = 0x42001014.
Proof.
  assert (Hend : fst turn3 = 0x3FC80380) by (vm_compute; reflexivity).
  destruct (context_roundtrip sample_env H0 (yields 0x3FC80400) booted (fst turn1) (snd turn1) false
    (yields 0x3FC81400) (snd turn3) (λ _, 0)) as (_ & Hr & _ & Hpc & _).
  - apply yields_wf. lia.
  - right. right. reflexivity.
  - apply yielded_handled. vm_compute. reflexivity.
  - intros _ x _ Hf. exfalso. revert Hf. apply yields_foreign. lia.
  - change (frame_of (yields 0x3FC80400)) with 0x3FC80380. rewrite <- Hend at 2.
    apply rtc_l with (fst turn2, yields 0x3FC80800, snd turn2); [|apply rtc_once]; apply yield_later.
    1, 4: lia.
    1, 3: vm_compute; reflexivity.
    all: right; vm_compute; discriminate.
  - reflexivity.
  - reflexivity.
  - split_and!; [apply (Hr s11); unfold s11, a0; lia|apply (Hr sp); unfold sp, a0; lia|exact Hpc].
Defined.

(** The registers at the [ecall] of a wrapper. *)
Lemma call_regs_wf id args g pc :
  regs_wf g → 0 ≤ id < 2 ^ 32 → 0 ≤ pc < 2 ^ 32 → Forall (λ rv, 0 ≤ snd rv < 2 ^ 32) args →
  regs_wf (ecall_regs (set_args id args g) pc).
Proof.
  intros [Hg Hc] Hid Hpc Ha.
  assert (Hx : ∀ r v g, (∀ r, 0 ≤ gpr g r < 2 ^ 32) → 0 ≤ v < 2 ^ 32 →
    ∀ r', 0 ≤ gpr (set_x r v g) r' < 2 ^ 32).
  { intros r v g1 H1 Hv r'. cbn [set_x gpr]. by case_decide. }
  assert (Hs : (∀ r, 0 ≤ gpr (set_args id args g) r < 2 ^ 32) ∧ csrs (set_args id args g) = csrs g).
  { unfold set_args. assert (H0 : ∀ r, 0 ≤ gpr (set_x a7 id g) r < 2 ^ 32) by (by apply Hx).
    change (csrs g) with (csrs (set_x a7 id g)). revert H0. generalize (set_x a7 id g).
    induction Ha as [|[r v] l Hv _ IH]; intros g1 H1; [done|]. cbn [foldl fst snd].
    destruct (IH (set_x r v g1)) as [? ->]; [by apply Hx|done]. }
  destruct Hs as [H1 H2]. split; [done|]. intros c. cbn [ecall_regs set_c csrs]. rewrite H2.
  repeat case_decide; [by vm_compute|done|apply Hc].
Qed.

(** A refused wrapper.  When the caller has no capability for the send, the
    wrapper [sys_send] of the library returns -1: the trap is taken, the entry
    code, the handler and the exit code run, and the caller continues after the
    [ecall] with every register but [a0] as the wrapper set it up; the kernel has
    changed the caller's own frame and the latency counter and nothing else. *)
Lemma sys_send_wrapper_refused E h clobber pc cap_idx msg len g k :
  ready_for E h k → regs_wf g → 0 ≤ pc < 2 ^ 32 → 0 ≤ cap_idx < 2 ^ 32 →
  0 ≤ msg < 2 ^ 32 → 0 ≤ len < 2 ^ 32 →
  permits 6 (cap_at h cap_idx k) k = false →
  ∃ g' k', sys_send E h clobber pc cap_idx msg len g k = Done ((-1, g'), k') ∧
    csrs g' mepc = wrapping_add pc 4 ∧
    (∀ r, (1 ≤ r < 32)%nat → r ∉ [a0; a1; a2; a7] → gpr g' r = gpr g r) ∧
    only_frame (u32 (gpr g sp - 128)) k k'.
Proof.
  intros Hr Hw Hpc Hc Hm Hl Hp.
  set (g0 := ecall_regs (set_args 6 [(a0, cap_idx); (a1, msg); (a2, len)] g) pc).
  destruct (wp_no_panic _ _ _ (wp_trap_denied E h clobber g0 6 k Hr
    ltac:(apply call_regs_wf; [done|lia|lia|repeat constructor; cbn; lia])
    eq_refl eq_refl ltac:(auto) Hp)) as (g' & k' & Hk & Hg' & Hof).
  exists g', k'. split_and!.
  - unfold sys_send, returning, mbind, K_bind, syscall. fold g0. rewrite Hk, (ret_a0 _ _ _ Hg'). done.
  - exact (ret_mepc _ _ _ Hg').
  - intros r Hr1 Hr2. rewrite !not_elem_of_cons in Hr2. destruct Hr2 as (? & ? & ? & ? & _).
    rewrite (ret_gpr _ _ _ Hg') by done. unfold g0, ecall_regs, set_args, set_c, set_x.
    cbn [foldl fst snd gpr]. by rewrite !decide_False.
  - exact Hof.
Qed.

Lemma sys_send_wrapper_refused_witness :
  ∃ g' k', sys_send sample_env H0 (λ _, 0) 0x42001010 0 0x3FC80400 8 sample_regs (demo ∅)
           = Done ((-1, g'), k') ∧ gpr g' s3 = 1019.
Proof.
  destruct (sys_send_wrapper_refused sample_env H0 (λ _, 0) 0x42001010 0 0x3FC80400 8 sample_regs
    (demo ∅) (demo_ready H0 ∅) sample_regs_wf) as (g' & k' & Hk & _ & Hg & _);
    [lia|lia|lia|lia|vm_compute; reflexivity|].
  exists g', k'. split; [exact Hk|]. apply (Hg s3); [unfold s3; lia|].
  apply (bool_decide_unpack _). vm_compute. exact I.
Defined.

(** The mutex wrappers clobber a register they promise to keep.  The inline
    assembly of [lock_mutex] declares [a0] as an input only, so the compiler may
    assume the register still holds the capability index after the [ecall]; when
    the kernel refuses the call it holds [usize::MAX], and the wrapper, which
    returns nothing, lets the caller go on as if it held the mutex. *)
Lemma lock_mutex_wrapper_clobbers_a0 E h clobber pc cap_idx g k :
  ready_for E h k → regs_wf g → 0 ≤ pc < 2 ^ 32 → 0 ≤ cap_idx < 8 →
  permits 3 (cap_at h cap_idx k) k = false →
  ∃ g' k', lock_mutex E h clobber pc cap_idx g k = Done (g', k') ∧
    gpr g' a0 = 2 ^ 32 - 1 ∧ gpr g' a0 ≠ cap_idx ∧ MUTEXES k' = MUTEXES k ∧
    csrs g' mepc = wrapping_add pc 4.
Proof.
  intros Hr Hw Hpc Hc Hp.
  set (g0 := ecall_regs (set_args 3 [(a0, cap_idx)] g) pc).
  destruct (wp_no_panic _ _ _ (wp_trap_denied E h clobber g0 3 k Hr
    ltac:(apply call_regs_wf; [done|lia|lia|repeat constructor; cbn; lia])
    eq_refl eq_refl ltac:(auto) Hp)) as (g' & k' & Hk & Hg' & (m & lat & _ & ->)).
  exists g', (set_METRIC_TRAP_LATENCY_CYCLES lat (set_ram m k)). rewrite (ret_a0 _ _ _ Hg').
  split_and!; [exact Hk|done|unfold USIZE_MINUS_ONE; lia|done|exact (ret_mepc _ _ _ Hg')].
Qed.

Lemma lock_mutex_wrapper_clobbers_a0_witness :
  ∃ g' k', lock_mutex sample_env H0 (λ _, 0) 0x42001010 0 sample_regs (demo ∅) = Done (g', k') ∧
    gpr g' a0 = 2 ^ 32 - 1.
Proof.
  destruct (lock_mutex_wrapper_clobbers_a0 sample_env H0 (λ _, 0) 0x42001010 0 sample_regs
    (demo ∅) (demo_ready H0 ∅) sample_regs_wf) as (g' & k' & Hk & Ha & _);
    [lia|lia|vm_compute; reflexivity|].
  exists g', k'. split; [exact Hk|exact Ha].
Defined.

(** C40. The trap path writes where the task may not.  The entry code runs in
    M-mode, which the unlocked PMP entries do not restrict, and pushes the frame
    below the [sp] the task chose.  So in every reachable state, when a task other than
    its owner sets [sp] into the stack of the Watchdog or of Task A, at least 128 bytes
    above its start, and traps: the PMP refuses the task's own stores to each of the 128
    bytes below [sp], and the entry code stores the task's registers and its program
    counter there. *)
Theorem trap_entry_bypasses_pmp L k h t nm addr e g :
  layout_ok L → reachable L k →
  task_of h (current h k) k = Some t →
  (nm, addr, e) ∈ stacks L → (e < 3)%nat → nm ≠ name t →
  regs_wf g → addr + 128 ≤ gpr g sp ≤ addr + 1024 →
  let m := snd (run_code trap_entry (g, ram k)) in
  (∀ x, gpr g sp - 128 ≤ x < gpr g sp → user_allows (ph_get h (pmp k)) Store x = false) ∧
  (∀ r i, slot_of r = Some i → frame_read m (gpr g sp - 128) i = gpr g r) ∧
  frame_read m (gpr g sp - 128) MEPC = csrs g mepc.
Proof.
  intros HL [Hi _]%reachable_safe Ht Hin He Hne Hw Hsp m.
  destruct (stack_block _ _ HL (stacks_all _ _ _ _ Hin)) as [_ Hsram].
  specialize (Hsram addr ltac:(split; lia)). split.
  - intros x Hx. eapply configured_isolates; [done|by apply (inv_pmp _ _ Hi)|done|split; lia|done|done].
  - pose proof (trap_entry_spec g (ram k)) as Hs. unfold m.
    destruct (run_code trap_entry (g, ram k)) as [g1 m1]. destruct Hs as (-> & _). cbn [snd].
    assert (Hf : frame_of g = gpr g sp - 128).
    { unfold frame_of. apply u32_small. destruct Hsram. unfold SRAM_BASE, SRAM_SIZE in *.
      destruct Hw as [Hg _]. specialize (Hg sp). lia. }
    rewrite <- Hf. split; [intros r i Hr; by apply frame_read_saved_small|].
    destruct (saved_frame_csrs (frame_of g) g (ram k)) as [-> _]. apply u32_small, Hw.
Qed.

(** The Watchdog points its stack pointer into Task A's stack. *)
Lemma trap_entry_bypasses_pmp_witness :
  user_allows (ph_get H0 (pmp booted)) Store 0x3FC80480 = false ∧
  frame_read (snd (run_code trap_entry (set_x sp 0x3FC80500 sample_regs, ram booted))) 0x3FC80480 0 = 1001.
Proof.
  destruct (wf_registered _ (wf_shape _ (inv_sched _ _ booted_inv H0))) as [t Ht].
  fold (task_of H0 (current_partition_idx (sched_of H0 booted)) booted) in Ht.
  destruct (trap_entry_bypasses_pmp sample_layout booted H0 t "Task A" 0x3FC80400 2
           (set_x sp 0x3FC80500 sample_regs)) as (Hd & Hr & _).
  - exact sample_layout_ok.
  - exact booted_reachable.
  - exact Ht.
  - right. left.
  - lia.
  - intros Hn.
    assert (Hw : name <$> task_of H0 (current_partition_idx (sched_of H0 booted)) booted
                 = Some "Watchdog"%string) by (vm_compute; reflexivity).
    rewrite Ht in Hw. injection Hw as Hw. rewrite <- Hn in Hw. discriminate Hw.
  - destruct sample_regs_wf as [Hg Hc]. split; [|exact Hc]. intros r. cbn [set_x gpr].
    case_decide; [lia|apply Hg].
  - change (gpr (set_x sp 0x3FC80500 sample_regs) sp) with 0x3FC80500. lia.
  - change (gpr (set_x sp 0x3FC80500 sample_regs) sp) with 0x3FC80500 in *.
    split; [apply Hd; lia|exact (Hr ra 0%nat eq_refl)].
Defined.

(** First launch.  After a boot that passes verification, the assembly at the
    end of [start_first_task] enters the first task of each hart (the Watchdog,
    Task B) at its entry point, with [mstatus] set for U-mode with interrupts
    enabled on return, every saved register zero, the stack pointer at the end of
    the task's own stack and the kernel stack in [mscratch]. *)
Lemma first_launch sha256 E0 E1 fn m i0 c0 p0 :
  verify_secure_boot sha256 = true → layout_ok (layout E0) → layout E0 = layout E1 →
  pmp_reset_ok (on0 p0) → pmp_reset_ok (on1 p0) →
  let L := layout E0 in
  ∃ sp0 sp1 k, kmain sha256 E0 E1 fn (statics m i0 c0 p0) = Done (Some (sp0, sp1), k) ∧
    ∀ (h : hart) g kst,
      let g' := launch kst (match h with H0 => sp0 | H1 => sp1 end) g (ram k) in
      csrs g' mepc = u32 (match h with H0 => watchdog_task fn | H1 => task_b fn end) ∧
      csrs g' mstatus = 128 ∧ csrs g' mscratch = kst ∧
      gpr g' sp = (match h with H0 => TASK_WD_STACK L | H1 => TASK_B_STACK L end) + 1024 ∧
      ∀ r, r ∈ saved_regs → gpr g' r = 0.
Proof.
  intros Hsb HL He Hr0 Hr1 L.
  destruct (wp_no_panic _ _ _ (kmain_wp sha256 E0 E1 fn m i0 c0 p0 Hsb He Hr0 Hr1))
    as (r & k & Hk & -> & Hi & Hs & Hm & Hram & Hsch & _).
  eexists _, _, k. split; [exact Hk|]. intros h g kst.
  set (a := match h with H0 => TASK_WD_STACK L | H1 => TASK_B_STACK L end).
  assert (Hin : a ∈ all_stacks L) by (destruct h; unfold a, all_stacks; set_solver).
  assert (Hf : fresh_frame (ram k) (initial_sp a 1024)
                 (match h with H0 => watchdog_task fn | H1 => task_b fn end)).
  { rewrite Hram. destruct h; apply (init_ram_fresh L); [done|set_solver|done|set_solver]. }
  assert (Hsp : initial_sp a 1024 = a + 896 ∧ 0 ≤ a + 1024 < 2 ^ 32).
  { pose proof (lay_in_ram _ HL) as Hr. pose proof (lay_aligned _ HL) as Ha.
    rewrite List.Forall_forall in Hr, Ha. apply list_elem_of_In in Hin.
    apply Hr in Hin as Hb. apply Ha in Hin. split; [apply stack_sp|]; lia. }
  replace (match h with H0 => initial_sp _ _ | H1 => _ end) with (initial_sp a 1024) by (by destruct h).
  destruct Hsp as [Hsp Hb]. cbv zeta. unfold launch.
  destruct (restore_spec (set_x sp (initial_sp a 1024) (set_c mscratch kst g)) (ram k))
    as (H1 & H2 & _ & _ & H5 & H6 & H7). cbn [set_x gpr] in H1, H2, H5, H6.
  rewrite decide_True in H1, H2, H5, H6 by done. split_and!.
  - rewrite H5. apply (Hf MEPC). unfold MEPC. lia.
  - rewrite H6. apply (Hf MSTATUS). unfold MSTATUS. lia.
  - exact H7.
  - rewrite H2, Hsp, u32_small; lia.
  - intros r Hr. destruct (slot_saved r Hr) as [i Hri]. rewrite (H1 _ _ Hri).
    apply slot_of_range in Hri as [Hlt _]. rewrite (Hf i) by lia.
    by rewrite !decide_False by (unfold MEPC, MSTATUS; lia).
Qed.

Lemma first_launch_witness :
  ∃ sp0 sp1 k, kmain Fips180.sha256 sample_env sample_env sample_entries sample_reset
       = Done (Some (sp0, sp1), k) ∧
    csrs (launch 0x3FC82000 sp0 sample_regs (ram k)) mepc = 0x42001000 ∧
    gpr (launch 0x3FC82400 sp1 sample_regs (ram k)) sp = 0x3FC80C00.
Proof.
  destruct (first_launch Fips180.sha256 sample_env sample_env sample_entries
    ∅ (mkPerHart 0 0) (mkPerHart 0 0) (mkPerHart pmp_reset pmp_reset)) as (sp0 & sp1 & k & Hk & Hl).
  - exact sample_secure.
  - exact sample_layout_ok.
  - reflexivity.
  - exact pmp_reset_reset_ok.
  - exact pmp_reset_reset_ok.
  - destruct (Hl H0 sample_regs 0x3FC82000) as (Hpc & _).
    destruct (Hl H1 sample_regs 0x3FC82400) as (_ & _ & _ & Hsp & _). clear Hl.
    cbv beta iota zeta in Hpc, Hsp.
    exists sp0, sp1, k. split; [exact Hk|]. split; [rewrite Hpc|rewrite Hsp]; reflexivity.
Defined.
