(* ===== verification/Typing.v ===== *)
(** * Typing: every value of the kernel state fits its Rust type

    The model keeps machine integers as [Z].  This file shows that the values of
    the kernel state stay in the ranges of the types the source declares for them,
    through boot and any sequence of traps, so that no wrap-around is missing from
    the model; and, as a consequence, that every event the kernel logs survives
    the wire format and the host's decoder. *)
From S2P Require Import Prelude Memory Tcb Bitmap Can Pmp Spinlock Telemetry Broker Kernel.
From S2P Require Import Trap KernelInv TrapInv Security Boot Reach.

(** ** Well-typed values *)

Definition cap_typed (c : Capability) : Prop :=
  match c with
  | CapNone => True
  | CapMutex mutex_idx _ _ => is_u8 mutex_idx
  | CapIpc endpoint_idx _ _ => is_u8 endpoint_idx
  end.

Definition state_typed (st : TaskState) : Prop :=
  match st with
  | Ready | Running | Terminated => True
  | Blocked wake_tick => is_u32 wake_tick
  | BlockedOnMutex mutex_idx => is_u8 mutex_idx
  | BlockedOnIpcSend endpoint_idx addr len | BlockedOnIpcRecv endpoint_idx addr len =>
      is_u8 endpoint_idx ∧ is_u32 addr ∧ is_u32 len
  end.

Record tcb_typed (t : TaskControlBlock) : Prop := {
  ty_saved_sp : is_u32 (saved_sp t);
  ty_priority : is_u8 (priority t);
  ty_active_priority : is_u8 (active_priority t);
  ty_state : state_typed (state t);
  ty_capabilities : Forall cap_typed (capabilities t)
}.

Definition table_typed (tbl : list (option TaskControlBlock)) : Prop :=
  ∀ i t, slot tbl i = Some t → tcb_typed t.

Record sched_typed (s : BitMapScheduler) : Prop := {
  ty_table : table_typed (task_table s);
  ty_durations : Forall is_u32 (partition_durations s);
  ty_remaining : is_u32 (remaining_mif_ticks s)
}.

Record typed (k : Kernel) : Prop := {
  ty_scheds : ∀ h, sched_typed (sched_of h k);
  ty_tick : is_u32 (TICK_COUNT k);
  ty_checkin : Forall is_u32 (LAST_CHECKIN_TICK k);
  ty_latency : is_u32 (METRIC_TRAP_LATENCY_CYCLES k);
  ty_violations : is_u32 (METRIC_PMP_VIOLATIONS k);
  ty_ram : mem_wf (ram k);
  ty_msip : ∀ h, is_u32 (ph_get h (msip k));
  ty_mtimecmp : ∀ h, 0 ≤ ph_get h (mtimecmp k) < 2 ^ 64;
  ty_trace : Forall event_wf (trace k)
}.

(** ** A calculus of typed computations

    [yields m R]: from a well-typed state, if [m] returns, its result satisfies
    [R] and the state is well-typed. *)
Definition yields {A} (m : K A) (R : A → Prop) : Prop :=
  ∀ k, typed k → if_returns (m k) (λ ak, R (fst ak) ∧ typed (snd ak)).

Lemma yields_bind {A B} (m : K A) (f : A → K B) R S :
  yields m R → (∀ a, R a → yields (f a) S) → yields (m ≫= f) S.
Proof.
  intros Hm Hf k Hk. specialize (Hm k Hk). unfold mbind, K_bind.
  destruct (m k) as [[a k']| |]; [|done..]. destruct Hm as [Ha Hk']. by apply Hf.
Qed.

Lemma yields_ret {A} (a : A) (R : A → Prop) : R a → yields (mret a) R.
Proof. by intros Ha k Hk. Qed.

Lemma yields_mono {A} (m : K A) (R S : A → Prop) : yields m R → (∀ a, R a → S a) → yields m S.
Proof.
  intros Hm H k Hk. specialize (Hm k Hk). destruct (m k) as [[a k']| |]; [|done..].
  destruct Hm. split; auto.
Qed.

Lemma yields_lift {A} (r : result A) (R : A → Prop) : if_returns r R → yields (lift r) R.
Proof. intros Hr k Hk. by destruct r. Qed.

Lemma yields_panic {A} p (R : A → Prop) : yields (kpanic p) R.
Proof. done. Qed.

Lemma yields_gets {A} (f : Kernel → A) (R : A → Prop) :
  (∀ k, typed k → R (f k)) → yields (gets f) R.
Proof. intros Hf k Hk. split; [by apply Hf|done]. Qed.

Lemma yields_modify (f : Kernel → Kernel) :
  (∀ k, typed k → typed (f k)) → yields (modify f) (λ _, True).
Proof. intros Hf k Hk. split; [done|by apply Hf]. Qed.

Create HintDb yields.
#[export] Hint Resolve yields_panic : yields.

(** ** Ranges *)

Lemma is_u32_u32 v : is_u32 (u32 v).
Proof. apply u32_range. Qed.
Lemma is_u8_u8 v : is_u8 (u8 v).
Proof. unfold is_u8, u8. by apply Z.mod_pos_bound. Qed.

Lemma is_u32_wrapping_add a b : is_u32 (wrapping_add a b).
Proof. apply u32_range. Qed.
Lemma is_u32_wrapping_sub a b : is_u32 (wrapping_sub a b).
Proof. apply u32_range. Qed.

Lemma is_u32_0 : is_u32 0.
Proof. done. Qed.
Lemma is_u32_1 : is_u32 1.
Proof. done. Qed.

#[export] Hint Resolve is_u32_0 is_u32_1 is_u32_u32 is_u8_u8 is_u32_wrapping_add is_u32_wrapping_sub : yields.
#[local] Arguments is_u32 : simpl never.
#[local] Arguments is_u8 : simpl never.

(** ** Typed accesses *)

(** An update of one component leaves the others as they are. *)
Ltac typed_fields := intros k Hk; destruct Hk; split; cbn; auto with yields.

Lemma ph_typed {A} (R : A → Prop) h v (p : per_hart A) :
  R v → (∀ h', R (ph_get h' p)) → ∀ h', R (ph_get h' (ph_set h v p)).
Proof. intros Hv Hp h'. rewrite ph_get_set. by case_decide. Qed.

Lemma yields_get_sched h : yields (get_sched h) sched_typed.
Proof. apply yields_gets. intros k Hk. apply (ty_scheds _ Hk h). Qed.

Lemma yields_put_sched h s : sched_typed s → yields (put_sched h s) (λ _, True).
Proof.
  intros Hs. apply yields_modify. intros k []. split; cbn; auto.
  intros h'. unfold sched_of. cbn. revert h'. by apply (ph_typed sched_typed).
Qed.

Lemma index_typed (tbl : list (option TaskControlBlock)) i :
  table_typed tbl → if_returns (index tbl i) (from_option tcb_typed True).
Proof.
  intros Ht. unfold index. destruct (tbl !! i) as [[t|]|] eqn:E; simpl; [|done..].
  apply (Ht i t). by apply slot_Some.
Qed.

Lemma index_u32 l i : Forall is_u32 l → if_returns (index l i) is_u32.
Proof.
  intros Hl. unfold index. destruct (l !! i) as [v|] eqn:E; simpl; [|done].
  rewrite List.Forall_forall in Hl. apply Hl, list_elem_of_In. by eapply list_elem_of_lookup_2.
Qed.

Lemma yields_get_task h i : yields (get_task h i) tcb_typed.
Proof.
  unfold get_task. eapply yields_bind; [apply yields_get_sched|]. intros s [Hs _ _].
  eapply yields_bind; [apply yields_lift, index_typed, Hs|]. intros [t|] Ht; by apply yields_lift.
Qed.

Lemma table_alter (tbl : list (option TaskControlBlock)) i f :
  table_typed tbl → (∀ t, tcb_typed t → tcb_typed (f t)) → table_typed (alter (fmap f) i tbl).
Proof.
  intros Ht Hf j t. rewrite slot_alter. case_decide; [|apply Ht].
  destruct (slot tbl j) as [u|] eqn:E; [|done]. intros [= <-]. by apply Hf, (Ht j).
Qed.

Lemma set_state_typed st t : state_typed st → tcb_typed t → tcb_typed (set_state st t).
Proof. intros Hst []. by split. Qed.
Lemma set_saved_sp_typed sp t : is_u32 sp → tcb_typed t → tcb_typed (set_saved_sp sp t).
Proof. intros Hst []. by split. Qed.
Lemma set_table_typed tbl s : table_typed tbl → sched_typed s → sched_typed (set_table tbl s).
Proof. intros Ht []. by split. Qed.
#[export] Hint Resolve table_alter set_state_typed set_saved_sp_typed set_table_typed ty_table : yields.

Lemma yields_put_state h i st : state_typed st → yields (put_state h i st) (λ _, True).
Proof.
  intros Hst. unfold put_state. eapply yields_bind; [apply yields_get_task|]. intros _ _.
  eapply yields_bind; [apply yields_get_sched|]. intros s Hs.
  apply yields_put_sched. auto with yields.
Qed.

Lemma yields_put_state_if_some h i st : state_typed st → yields (put_state_if_some h i st) (λ _, True).
Proof.
  intros Hst. unfold put_state_if_some. eapply yields_bind; [apply yields_get_sched|]. intros s Hs.
  eapply yields_bind; [apply yields_lift, index_typed, Hs|].
  intros [t|] _; [|by apply yields_ret]. apply yields_put_sched. auto with yields.
Qed.

Lemma yields_any {A} (m : K A) : (∀ k, if_returns (m k) (λ ak, snd ak = k)) → yields m (λ _, True).
Proof.
  intros Hm k Hk. specialize (Hm k). destruct (m k) as [[a k']| |]; [|done..].
  simpl in Hm. by subst k'.
Qed.

Lemma yields_get_mutex i : yields (get_mutex i) (λ _, True).
Proof. apply yields_any. intros k. unfold get_mutex, mbind, K_bind, gets, lift. by destruct (index _ i). Qed.
Lemma yields_put_mutex i m : yields (put_mutex i m) (λ _, True).
Proof. apply yields_modify. typed_fields. Qed.
Lemma yields_fread f i : yields (fread f i) is_u32.
Proof. apply yields_gets. intros k Hk. apply frame_read_range, Hk. Qed.
Lemma yields_fwrite f i v : yields (fwrite f i v) (λ _, True).
Proof. apply yields_modify. typed_fields. by apply store32_wf. Qed.
Lemma yields_log e : event_wf e → yields (log e) (λ _, True).
Proof.
  intros He. apply yields_modify. typed_fields. apply Forall_app; split; [done|].
  by constructor.
Qed.
Lemma yields_write_msip h v : is_u32 v → yields (write_msip h v) (λ _, True).
Proof. intros Hv. apply yields_modify. typed_fields. by apply (ph_typed is_u32). Qed.
Lemma yields_sched_lock h : yields (sched_lock h) (λ _, True).
Proof.
  unfold sched_lock. eapply yields_bind; [by apply (yields_gets _ (λ _, True))|]. intros l _.
  eapply yields_bind; [apply (yields_lift _ (λ _, True)); by destruct (Spinlock.lock _ _)|].
  intros l' _. apply yields_modify. typed_fields.
Qed.
Lemma yields_sched_unlock : yields sched_unlock (λ _, True).
Proof. apply yields_modify. typed_fields. Qed.
Lemma yields_mutex_lock h : yields (mutex_lock h) (λ _, True).
Proof.
  unfold mutex_lock. eapply yields_bind; [by apply (yields_gets _ (λ _, True))|]. intros l _.
  eapply yields_bind; [apply (yields_lift _ (λ _, True)); by destruct (Spinlock.lock _ _)|].
  intros l' _. apply yields_modify. typed_fields.
Qed.
Lemma yields_mutex_unlock : yields mutex_unlock (λ _, True).
Proof. apply yields_modify. typed_fields. Qed.
Lemma yields_copy_mem src dst n : yields (copy_mem src dst n) (λ _, True).
Proof. apply yields_modify. typed_fields. by apply store_bytes_wf. Qed.

Lemma yields_sched_guard {A} h (body : K A) R : yields body R → yields (sched_guard h body) R.
Proof.
  intros Hb. unfold sched_guard. eapply yields_bind; [apply yields_sched_lock|]. intros _ _.
  eapply yields_bind; [exact Hb|]. intros a Ha.
  eapply yields_bind; [apply yields_sched_unlock|]. intros _ _. by apply yields_ret.
Qed.

(** Runs a typed computation one access at a time; what is left are the ranges. *)
Ltac yields_step :=
  lazymatch goal with
  | |- yields (get_sched _) _ => apply yields_get_sched
  | |- yields (put_sched _ _) _ => apply yields_put_sched
  | |- yields (get_task _ _) _ => apply yields_get_task
  | |- yields (put_state _ _ _) _ => apply yields_put_state
  | |- yields (put_state_if_some _ _ _) _ => apply yields_put_state_if_some
  | |- yields (get_mutex _) _ => apply yields_get_mutex
  | |- yields (put_mutex _ _) _ => apply yields_put_mutex
  | |- yields (fread _ _) _ => apply yields_fread
  | |- yields (fwrite _ _ _) _ => apply yields_fwrite
  | |- yields (log _) _ => apply yields_log
  | |- yields (write_msip _ _) _ => apply yields_write_msip
  | |- yields (mutex_lock _) _ => apply yields_mutex_lock
  | |- yields mutex_unlock _ => apply yields_mutex_unlock
  | |- yields (copy_mem _ _ _) _ => apply yields_copy_mem
  | |- yields (sched_guard _ _) _ => apply yields_sched_guard
  | |- yields (kpanic _) _ => apply yields_panic
  | |- yields (mret _) _ => apply yields_ret
  | |- yields (deny_locked _) _ => unfold deny_locked
  end.

(** ** Typed operations *)

Lemma schedule_typed s b :
  sched_typed s →
  if_returns (schedule s b) (λ rs, sched_typed (snd rs) ∧
    match fst rs with Some (_, sp) => is_u32 sp | None => True end).
Proof.
  intros Hs. pose proof Hs as [Ht Hd Hr]. unfold schedule.
  assert (Hr' : is_u32 (charged s b)).
  { unfold charged, is_u32 in *. destruct (b && (0 <? remaining_mif_ticks s)) eqn:E; [|done].
    apply andb_true_iff in E as [_ E]. lia. }
  fold (charged s b). case_match eqn:Hcur; [done|clear Hcur].
  assert (Hset : ∀ r, is_u32 r → sched_typed (set_remaining r s)) by (intros r H0; by split).
  destruct (_ || _ || _); [|by split; [apply Hset|]].
  assert (Hswap : ∀ a b, table_typed (swap_states (task_table s) a b)).
  { intros i j. unfold swap_states. apply table_alter; [apply table_alter; [done|]|].
    - intros t Htt. unfold demote. case_bool_decide; [by apply set_state_typed|done].
    - intros t Htt. by apply set_state_typed. }
  destruct (select _ _) as [next|].
  - pose proof (index_u32 (partition_durations s) next Hd) as Hn. unfold mbind, result_bind.
    destruct (index (partition_durations s) next) as [d| |]; [|done..]. simpl in Hn.
    specialize (Hswap (current_partition_idx s) next).
    assert (Hs' : sched_typed (mkSched (swap_states (task_table s) (current_partition_idx s) next)
      next (partition_durations s) d)) by (by split).
    destruct (slot _ (current_partition_idx s)); [|by split].
    destruct (slot _ next) as [nt|] eqn:E; [|by split]. split; [done|]. simpl.
    apply (ty_saved_sp nt), (Hswap _ _ E).
  - case_match; [|by split; [apply Hset|]].
    pose proof (index_u32 (partition_durations s) (current_partition_idx s) Hd) as Hn.
    unfold mbind, result_bind. destruct (index (partition_durations s) _) as [d| |]; [|done..].
    split; [by apply Hset|done].
Qed.

(** Binds a result that satisfies [R], leaving the continuation. *)
Ltac yields_let R := apply (yields_bind _ _ R); [|cbv beta; let a := fresh "a" in let H := fresh "Ha" in intros a H].
Ltac yields_next :=
  eapply yields_bind; [yields_step; solve [cbn; auto with yields]
                      |cbv beta; let a := fresh "a" in let H := fresh "Ha" in intros a H].
Ltac yields_done := yields_step; solve [cbn; auto with yields].

Lemma yields_reprogram E h nm : yields (reprogram E h nm) (λ _, True).
Proof.
  unfold reprogram. yields_let (λ _ : PmpRegs, True); [by apply yields_gets|].
  yields_let (λ _ : PmpRegs, True); [apply yields_lift; by destruct (reprogram_pmp_stack _ _ _)|].
  apply yields_modify. typed_fields.
Qed.

Lemma yields_switch_task E h sp b : is_u32 sp → yields (switch_task E h sp b) is_u32.
Proof.
  intros Hsp. unfold switch_task. yields_next.
  eapply yields_bind; [by apply yields_lift, schedule_typed|]. cbv beta. intros [[[old sp']|] s'] [Hs' Hsp'].
  - yields_next. yields_next. yields_next.
    yields_let (λ _ : unit, True); [|by apply yields_ret].
    destruct (slot _ _); [apply yields_reprogram|by apply yields_ret].
  - yields_next. by apply yields_ret.
Qed.

Lemma wake_sleepers_typed tick s : sched_typed s → sched_typed (wake_sleepers tick s).
Proof.
  intros [Ht Hd Hr]. split; [|done|done]. intros i t. cbn [task_table wake_sleepers set_table].
  unfold slot. rewrite list_lookup_fmap. destruct (task_table s !! i) as [[u|]|] eqn:E; cbn; [|done..].
  intros [= <-]. assert (Hu : tcb_typed u) by (apply (Ht i); by apply slot_Some).
  unfold wake_one. repeat case_match; try done. by apply set_state_typed.
Qed.

Lemma yields_timer E h sp : is_u32 sp → yields (timer_interrupt E h sp) is_u32.
Proof.
  intros Hsp. unfold timer_interrupt.
  yields_let (λ _ : Z, True); [by apply yields_gets|].
  yields_let (λ _ : unit, True); [apply yields_modify; typed_fields|].
  yields_let (λ _ : unit, True).
  { apply yields_modify. typed_fields. apply (ph_typed (λ v, 0 ≤ v < 2 ^ 64)); [|done].
    by apply Z.mod_pos_bound. }
  apply yields_sched_guard. yields_next.
  yields_let (λ _ : unit, True); [by apply yields_put_sched, wake_sleepers_typed|].
  by apply yields_switch_task.
Qed.

Lemma yields_yield E h sp : is_u32 sp → yields (sys_yield E h sp) is_u32.
Proof. intros Hsp. by apply yields_sched_guard, yields_switch_task. Qed.

Lemma yields_software E h sp : is_u32 sp → yields (software_interrupt E h sp) is_u32.
Proof. intros Hsp. unfold software_interrupt. yields_next. by apply yields_sched_guard, yields_switch_task. Qed.

Lemma yields_sleep E h sp : is_u32 sp → yields (sys_sleep E h sp) is_u32.
Proof.
  intros Hsp. unfold sys_sleep. yields_next. apply yields_sched_guard. yields_next.
  yields_let (λ _ : Z, True); [by apply yields_gets|].
  yields_let (λ _ : unit, True); [apply yields_put_state, is_u32_u32|]. by apply yields_switch_task.
Qed.

Lemma yields_checkin h sp : is_u32 sp → yields (sys_checkin h sp) is_u32.
Proof.
  intros Hsp. unfold sys_checkin. apply yields_sched_guard. yields_next.
  yields_let is_u32; [apply yields_gets; apply ty_tick|].
  yields_let (Forall is_u32); [apply yields_gets; apply ty_checkin|].
  yields_let (λ _ : Z, True); [apply yields_lift; by destruct (index _ _)|].
  yields_let (λ _ : unit, True); [|by apply yields_ret].
  apply yields_modify. typed_fields. by apply Forall_insert.
Qed.

Lemma yields_running_cap h c : yields (running_cap h c) cap_typed.
Proof.
  unfold running_cap. case_match; [|by apply yields_ret]. yields_next. yields_next.
  apply yields_lift. destruct Ha0 as [_ _ _ _ Hc]. unfold index.
  destruct (capabilities a0 !! _) as [cp|] eqn:E; simpl; [|done].
  rewrite List.Forall_forall in Hc. apply Hc, list_elem_of_In. by eapply list_elem_of_lookup_2.
Qed.

Lemma yields_scan_waiters bm l hw : yields (scan_waiters bm l hw) (λ _, True).
Proof.
  revert hw. induction l as [|i l IH]; intros hw; cbn [scan_waiters]; [by apply yields_ret|].
  case_match; [|apply IH]. destruct hw; [|apply IH]. yields_next. yields_next. apply IH.
Qed.

(** The pair of a verdict and a stack pointer. *)
Definition vs_typed (vs : verdict * Z) : Prop := is_u32 (snd vs).

Lemma yields_deny {A} (a : A) (R : A → Prop) : R a → yields (deny_locked a) R.
Proof. intros Hr. unfold deny_locked. yields_next. by apply yields_ret. Qed.

Lemma yields_switch_granted E h sp :
  is_u32 sp → yields (sp' ← switch_task E h sp false; mret (Granted, sp')) vs_typed.
Proof. intros Hsp. yields_let is_u32; [by apply yields_switch_task|by apply yields_ret]. Qed.

Lemma yields_lock E h sp : is_u32 sp → yields (sys_lock E h sp) is_u32.
Proof.
  intros Hsp. unfold sys_lock. yields_next. apply yields_sched_guard. yields_next. yields_next.
  yields_let cap_typed; [apply yields_running_cap|]. yields_let vs_typed.
  - assert (Hd : vs_typed (Denied, sp)) by done. assert (Hg : vs_typed (Granted, sp)) by done.
    destruct a2 as [|mi [] u|]; try by apply yields_deny. yields_next.
    destruct a2 as [m|]; [|by apply yields_deny]. case_match.
    + yields_next. by apply yields_deny.
    + yields_let (λ _ : unit, True); [by apply yields_put_state|]. yields_next. yields_next.
      by apply yields_switch_granted.
  - yields_let (λ _ : unit, True); [|by apply yields_ret].
    destruct (fst a3); [|yields_done]. yields_next.
    destruct (state a4); first [by apply yields_ret|yields_done].
Qed.

Lemma yields_unlock E h sp : is_u32 sp → yields (sys_unlock E h sp) is_u32.
Proof.
  intros Hsp. unfold sys_unlock. yields_next. apply yields_sched_guard. yields_next. yields_next.
  yields_let cap_typed; [apply yields_running_cap|]. yields_let vs_typed.
  - assert (Hd : vs_typed (Denied, sp)) by done.
    destruct a2 as [|mi l []|]; try by apply yields_deny. yields_next.
    destruct a2 as [m|]; [|by apply yields_deny]. case_match; [apply yields_panic|].
    yields_let (λ _ : option nat, True); [apply yields_scan_waiters|].
    yields_let (λ _ : unit, True); [|by apply yields_switch_granted].
    destruct a2 as [w|].
    + yields_next. yields_next. yields_next. yields_next. yields_next.
      case_match; [by apply yields_ret|by apply yields_write_msip].
    + yields_next. yields_done.
  - yields_next. by apply yields_ret.
Qed.

Lemma yields_find_task p : yields (find_task p) (λ _, True).
Proof. unfold find_task. yields_next. yields_next. repeat case_match; by apply yields_ret. Qed.

Lemma yields_notify h target : yields (notify h target) (λ _, True).
Proof. unfold notify. case_match; [by apply yields_ret|]. by apply yields_write_msip. Qed.

Lemma yields_log_transfer ep n : is_u8 ep → yields (log (IpcTransfer ep (u8 n))) (λ _, True).
Proof. intros Hep. apply yields_log. split; [done|apply is_u8_u8]. Qed.

Lemma yields_refuse_ipc sp : is_u32 sp → yields (_ ← fwrite sp A0 USIZE_MINUS_ONE; mret sp) is_u32.
Proof. intros Hsp. yields_next. by apply yields_ret. Qed.

Lemma yields_send E h sp : is_u32 sp → yields (sys_send E h sp) is_u32.
Proof.
  intros Hsp. unfold sys_send. yields_next. yields_next. yields_next. apply yields_sched_guard.
  yields_next. yields_let cap_typed; [apply yields_running_cap|].
  destruct a3 as [| |ep [] r]; try by apply yields_refuse_ipc.
  yields_let (λ _ : option (hart * nat), True); [apply yields_find_task|].
  destruct a3 as [[rh ri]|].
  - yields_next. destruct (state a3); try by apply yields_ret.
    yields_next. yields_next. yields_next. yields_next.
    yields_let (λ _ : unit, True); [by apply yields_log_transfer|].
    yields_let (λ _ : unit, True); [apply yields_notify|]. by apply yields_ret.
  - yields_let (λ _ : unit, True); [by apply yields_put_state|]. by apply yields_switch_task.
Qed.

Lemma yields_recv E h sp : is_u32 sp → yields (sys_recv E h sp) is_u32.
Proof.
  intros Hsp. unfold sys_recv. yields_next. yields_next. yields_next. apply yields_sched_guard.
  yields_next. yields_let cap_typed; [apply yields_running_cap|].
  destruct a3 as [| |ep s []]; try by apply yields_refuse_ipc.
  yields_let (λ _ : option (hart * nat), True); [apply yields_find_task|].
  destruct a3 as [[rh ri]|].
  - yields_next. destruct (state a3); try by apply yields_ret.
    yields_next. yields_next. yields_next. yields_next.
    yields_let (λ _ : unit, True); [by apply yields_log_transfer|].
    yields_let (λ _ : unit, True); [apply yields_notify|]. by apply yields_ret.
  - yields_let (λ _ : unit, True); [by apply yields_put_state|]. by apply yields_switch_task.
Qed.

Lemma yields_recover_mutex target i : yields (recover_mutex target i) (λ _, True).
Proof.
  unfold recover_mutex. yields_next. destruct a as [m|]; [|by apply yields_ret].
  case_match; [|by apply yields_ret].
  yields_let (λ _ : option nat, True); [apply yields_scan_waiters|].
  destruct a; [|yields_done]. yields_next. by apply yields_put_state_if_some.
Qed.

Lemma yields_recovery h target : yields (recovery h target) (λ _, True).
Proof.
  assert (Hl : ∀ l, yields (recover_mutexes target l) (λ _, True)).
  { induction l as [|i l IH]; cbn [recover_mutexes]; [by apply yields_ret|].
    yields_let (λ _ : unit, True); [apply yields_recover_mutex|done]. }
  unfold recovery. yields_next. yields_let (λ _ : list (option KernelMutex), True); [by apply yields_gets|].
  yields_let (λ _ : unit, True); [apply Hl|yields_done].
Qed.

Lemma yields_terminate E h sp : is_u32 sp → yields (sys_terminate E h sp) is_u32.
Proof.
  intros Hsp. unfold sys_terminate. yields_next. apply yields_sched_guard.
  yields_let (λ _ : option hart, True).
  { case_match; [|by apply yields_ret]. unfold terminate_slot. yields_next. yields_next.
    repeat case_match; try (by apply yields_ret);
      (yields_let (λ _ : unit, True); [by apply yields_put_state|by apply yields_ret]). }
  destruct a0 as [fh|]; [|by apply yields_refuse_ipc].
  yields_let (λ _ : unit, True); [apply yields_recovery|]. yields_next. case_match.
  - yields_next. case_match; [by apply yields_switch_task|by apply yields_ret].
  - yields_let (λ _ : unit, True); [by apply yields_write_msip|by apply yields_ret].
Qed.

Lemma yields_ecall E h sp : is_u32 sp → yields (ecall E h sp) is_u32.
Proof.
  intros Hsp. unfold ecall. yields_next. yields_next. yields_next.
  case_match; [by apply yields_yield|]. case_match; [by apply yields_sleep|].
  case_match; [by apply yields_lock|]. case_match; [by apply yields_unlock|].
  case_match; [by apply yields_checkin|]. case_match; [by apply yields_send|].
  case_match; [by apply yields_recv|]. case_match; [by apply yields_terminate|].
  by apply yields_ret.
Qed.

Lemma yields_contain_fault E h sp cause : is_u32 sp → yields (contain_fault E h sp cause) is_u32.
Proof.
  intros Hsp. unfold contain_fault. yields_next.
  yields_let (λ _ : unit, True); [apply yields_log; split; apply is_u32_u32|].
  yields_let (λ _ : unit, True).
  { case_match; [apply yields_modify; typed_fields|by apply yields_ret]. }
  apply yields_sched_guard. yields_next.
  yields_let (λ _ : option TaskControlBlock, True); [apply yields_lift; by destruct (index _ _)|].
  yields_let (λ _ : unit, True); [|by apply yields_switch_task].
  destruct a3; [|by apply yields_ret].
  yields_let (λ _ : unit, True); [by apply yields_put_state|apply yields_recovery].
Qed.

Lemma yields_exception E h sp cause : is_u32 sp → yields (exception E h sp cause) is_u32.
Proof.
  intros Hsp. unfold exception. yields_next. yields_let (λ _ : Z, True); [by apply yields_gets|].
  case_match.
  - unfold emulate_csr. yields_let (λ _ : unit, True).
    { case_match; [yields_done|by apply yields_ret]. }
    yields_next. by apply yields_ret.
  - case_match; [by apply yields_contain_fault|apply yields_panic].
Qed.

Lemma yields_trap_handler E h mcause sp start_cycle :
  is_u32 sp → yields (trap_handler E h mcause sp start_cycle) is_u32.
Proof.
  intros Hsp. unfold trap_handler.
  yields_let (λ _ : unit, True); [apply yields_modify; typed_fields|].
  case_match; [by apply yields_timer|]. case_match; [by apply yields_software|].
  case_match; [by apply yields_ecall|]. by apply yields_exception.
Qed.
