(* ===== verification/System.v ===== *)
(** * System: the whole machine

    Boot, then any interleaving of U-mode memory writes, traps on either hart and
    iterations of the watchdog, which changes the task tables and the stacks from
    U-mode under [SCHED_LOCK].  An iteration is one step, so no trap comes inside it:
    [Preempt] has the traps that do.  As in [Reach], stores of tasks change [ram] and
    not the statics.  The steps carry what the hardware
    guarantees: memory holds bytes, registers hold 32-bit values. *)
From S2P Require Import Prelude Memory Tcb Bitmap Can Pmp Spinlock Telemetry Broker Kernel.
From S2P Require Import Trap KernelInv TrapInv Security Boot Reach SyscallSpec.
From S2P Require Import FaultSpec Watchdog Typing.

(** ** The machine *)

Record reset_ok (m : Mem) (i0 c0 : per_hart Z) (p0 : per_hart PmpRegs) : Prop := {
  ro_mem : mem_wf m;
  ro_msip : ∀ h, is_u32 (ph_get h i0);
  ro_mtimecmp : ∀ h, 0 ≤ ph_get h c0 < 2 ^ 64;
  ro_pmp : ∀ h, pmp_reset_ok (ph_get h p0)
}.

Inductive machine_step (L : Layout) : Kernel → Kernel → Prop :=
  | mach_user k m : mem_wf m → machine_step L k (set_ram m k)
  | mach_trap E h mcause sp start_cycle k sp' k' :
      layout E = L → is_u32 sp →
      trap_handler E h mcause sp start_cycle k = Done (sp', k') → machine_step L k k'
  | mach_watchdog E fn sp start_cycle k k' :
      layout E = L → is_u32 sp →
      watchdog_iteration E fn sp start_cycle k = Done (tt, k') → machine_step L k k'.

Inductive machine (L : Layout) : Kernel → Prop :=
  | mach_boot sha256 E0 E1 fn m i0 c0 p0 r k :
      layout E0 = L → layout E1 = L → verify_secure_boot sha256 = true → reset_ok m i0 c0 p0 →
      kmain sha256 E0 E1 fn (statics m i0 c0 p0) = Done (r, k) → machine L k
  | mach_step k k' : machine L k → machine_step L k k' → machine L k'.

(** ** The kernel invariant *)

Lemma machine_safe L k : machine L k → kernel_inv L k ∧ unlocked k.
Proof.
  induction 1 as [sha256 E0 E1 fn m i0 c0 p0 r k HL0 HL1 Hsb Hro Hk|k k' _ [Hi Hu] Hstep].
  - apply reachable_safe.
    exact (reach_boot L sha256 E0 E1 fn m i0 c0 p0 r k HL0 HL1 Hsb
      (ro_pmp _ _ _ _ Hro H0) (ro_pmp _ _ _ _ Hro H1) Hk).
  - revert Hi Hu. destruct Hstep as [k0 m _|E h mcause sp sc k0 sp' k1 HL _ Ht|E fn sp sc k0 k1 HL _ Hw];
      intros Hi Hu.
    + apply (step_safe L k0); [done|done|apply step_user].
    + apply (step_safe L k0); [done|done|]. exact (step_trap L E h mcause sp sc k0 sp' k1 HL Ht).
    + subst L. destruct (wp_result _ _ _ _ _ _ (watchdog_keeps E fn sp sc k0 Hi Hu) Hw) as [H1 _ H3 H4].
      destruct Hu. split; [done|]. split; congruence.
Qed.

(** ** Typed boot and watchdog *)

Lemma clear_frame_wf m f n : mem_wf m → mem_wf (clear_frame m f n).
Proof. intros Hm. induction n as [|n IH]; simpl; [done|]. by apply store32_wf. Qed.

Lemma yields_init_stack addr entry : yields (init_stack addr entry) is_u32.
Proof.
  unfold init_stack. apply (yields_bind _ _ mem_wf); [apply yields_gets, ty_ram|]. intros m Hm.
  cbn [initialize_stack].
  apply (yields_bind _ _ (λ _, True)); [|intros _ _; apply yields_ret, u32_range].
  apply yields_modify. intros k []. split; try done. by apply store32_wf, store32_wf, clear_frame_wf.
Qed.

Lemma yields_restart h i stack entry : yields (restart h i stack entry) (λ _, True).
Proof.
  unfold restart. eapply yields_bind; [apply yields_init_stack|]. intros sp Hsp.
  eapply yields_bind; [apply yields_get_sched|]. intros s Hs.
  apply (yields_bind _ _ (λ _, True)).
  - apply yields_put_sched, set_table_typed; [|done]. apply table_alter; [apply Hs|].
    intros t Ht. by apply set_state_typed, set_saved_sp_typed.
  - intros _ _. apply yields_modify. intros k []. split; try done. cbn. by apply Forall_insert.
Qed.

Lemma yields_watchdog E fn sp start_cycle :
  is_u32 sp → yields (watchdog_iteration E fn sp start_cycle) (λ _, True).
Proof.
  intros Hsp. unfold watchdog_iteration.
  yields_let (λ _ : Z, True); [by apply yields_gets|]. apply yields_sched_guard.
  yields_let (λ _ : option string, True); [by apply yields_gets|].
  yields_let (λ _ : unit, True).
  { destruct a0; [|by apply yields_ret]. yields_let (λ _ : Z, True); [|by apply yields_ret].
    unfold sys_terminate_task. yields_next. yields_next.
    yields_let is_u32; [by apply yields_trap_handler|].
    eapply yields_mono; [apply yields_fread|done]. }
  yields_let (λ _ : unit, True).
  { unfold restart_task_c. yields_let (λ _ : bool, True); [by apply yields_gets|].
    yields_let (λ _ : Z, True); [by apply yields_gets|]. case_match; [|by apply yields_ret].
    yields_let (λ _ : unit, True); [apply yields_modify; typed_fields|]. apply yields_restart. }
  unfold restart_hsm. yields_let (λ _ : bool, True); [by apply yields_gets|].
  destruct a3; [apply yields_restart|by apply yields_ret].
Qed.

Lemma yields_register h t : tcb_typed t → yields (register h t) (λ _, True).
Proof.
  intros Ht. unfold register. yields_next.
  apply (yields_bind _ _ sched_typed); [|intros s Hs; by apply yields_put_sched].
  apply yields_lift. unfold register_task. case_match; [|done]. cbn.
  destruct Ha as [H1 H2 H3]. split; [|done|done]. intros i u. cbn. intros Hu.
  assert (Hta : tcb_typed (set_active_priority t)) by (destruct Ht; by split).
  destruct (decide (Z.to_nat (priority t) < length (task_table a))%nat).
  - rewrite slot_insert in Hu by done. case_decide; [by simplify_eq|by apply (H1 i)].
  - rewrite list_insert_ge in Hu by lia. by apply (H1 i).
Qed.

Lemma yields_protect E h : yields (protect E h) (λ _, True).
Proof.
  unfold protect. yields_let (λ _ : PmpRegs, True); [by apply yields_gets|].
  yields_let (λ _ : PmpRegs, True); [apply yields_lift; by destruct (init_memory_protection _ _)|].
  apply yields_modify. typed_fields.
Qed.

Lemma yields_init_timer E h : yields (init_timer E h) (λ _, True).
Proof.
  apply yields_modify. typed_fields. apply (ph_typed (λ v, 0 ≤ v < 2 ^ 64)); [|done].
  by apply Z.mod_pos_bound.
Qed.

Lemma yields_start_first_task E h : yields (start_first_task E h) is_u32.
Proof.
  unfold start_first_task. yields_next. destruct (find _ _) as [i|]; [|apply yields_panic].
  apply (yields_bind _ _ is_u32); [apply yields_lift, index_u32, Ha|]. intros d Hd.
  yields_next. apply (yields_bind _ _ (λ _, True)).
  { apply yields_put_sched. destruct Ha as [H1 H2 H3]. split; [|done|done].
    apply table_alter; [done|]. intros t Ht. by apply set_state_typed. }
  intros _ _. apply (yields_bind _ _ (λ _, True)); [apply yields_reprogram|]. intros _ _.
  apply yields_ret. by destruct Ha0.
Qed.

Lemma boot_tcb_typed sp prio nm caps :
  is_u32 sp → is_u8 prio → Forall cap_typed caps → tcb_typed (boot_tcb sp prio nm caps).
Proof. intros. by split. Qed.

Ltac caps_typed :=
  repeat (apply List.Forall_cons; [first [exact I|split; lia]|]); apply List.Forall_nil.

Lemma yields_register_tasks E fn : yields (register_tasks E fn) (λ _, True).
Proof.
  unfold register_tasks, register_core1. cbv zeta.
  do 7 (eapply yields_bind; [apply yields_init_stack|cbv beta; intros ? ?]).
  do 6 (apply (yields_bind _ _ (λ _, True));
    [apply yields_register, boot_tcb_typed; [done|split; lia|caps_typed]|intros _ _]).
  apply yields_register, boot_tcb_typed; [done|split; lia|caps_typed].
Qed.

Lemma yields_kmain sha256 E0 E1 fn : yields (kmain sha256 E0 E1 fn) (λ _, True).
Proof.
  unfold kmain. yields_let (λ _ : unit, True); [apply yields_protect|].
  destruct (verify_secure_boot sha256); [|by apply yields_ret].
  yields_let (λ _ : Z * Z * option CanFrame, True);
    [apply yields_lift; by destruct verify_network_and_security|].
  yields_let (λ _ : unit, True); [apply yields_register_tasks|].
  yields_let (λ _ : unit, True); [apply yields_init_timer|].
  yields_let (λ _ : unit, True); [apply yields_protect|].
  yields_let (λ _ : unit, True); [apply yields_init_timer|].
  yields_let is_u32; [apply yields_start_first_task|].
  yields_let is_u32; [apply yields_start_first_task|]. by apply yields_ret.
Qed.

Lemma statics_typed m i0 c0 p0 : reset_ok m i0 c0 p0 → typed (statics m i0 c0 p0).
Proof.
  intros []. split; try done; cbn.
  - intros h. assert (Hn : sched_typed new); [|by destruct h].
    split; [|by apply Forall_replicate|done]. intros i t Ht%slot_Some.
    cbn in Ht. by apply (lookup_replicate_1 32) in Ht as [? _].
  - by apply (Forall_replicate _ 32).
Qed.

Lemma yields_done_typed {A} (m : K A) R k a k' : yields m R → typed k → m k = Done (a, k') → typed k'.
Proof. intros Hm Hk He. specialize (Hm k Hk). rewrite He in Hm. apply Hm. Qed.

Lemma machine_typed L k : machine L k → typed k.
Proof.
  induction 1 as [sha256 E0 E1 fn m i0 c0 p0 r k HL0 HL1 Hsb Hro Hk|k k' _ Ht Hstep].
  - exact (yields_done_typed _ _ _ _ _ (yields_kmain sha256 E0 E1 fn) (statics_typed _ _ _ _ Hro) Hk).
  - revert Ht. destruct Hstep as [k0 m Hm|E h mcause sp sc k0 sp' k1 HL Hsp Ht|E fn sp sc k0 k1 HL Hsp Hw];
      intros Ht0.
    + destruct Ht0. by split.
    + exact (yields_done_typed _ _ _ _ _ (yields_trap_handler E h mcause sp sc Hsp) Ht0 Ht).
    + exact (yields_done_typed _ _ _ _ _ (yields_watchdog E fn sp sc Hsp) Ht0 Hw).
Qed.

(** ** Properties *)

(** The state stays well-typed.  In every state the machine reaches, through
    boot, U-mode memory writes outside the statics, traps on both harts and whole
    watchdog iterations: the
    kernel invariant holds with both spinlocks free, and every integer of the
    kernel state is in the range of the Rust type the source gives it, so none of
    the model's unbounded integers hides an overflow: stack pointers, ticks,
    check-ins, wake-up times, IPC addresses and lengths, the slice counters, the
    metrics, the CLINT registers and every byte of memory; mutex owners are
    partition indices and waiter bitmaps are 32 bits wide.  In each such state a
    watchdog iteration returns: its nested environment call neither panics nor
    deadlocks on the lock the task already holds. *)
Lemma machine_well_typed L k :
  machine L k →
  kernel_inv L k ∧ unlocked k ∧ typed k ∧
  (∀ i m, mutex_of i k = Some m →
    is_u32 (waiters_bitmap m) ∧ ∀ z, owner_task_idx m = Some z → 0 ≤ z < 32) ∧
  ∀ E fn sp start_cycle, layout E = L → is_u32 sp →
    ∃ k', watchdog_iteration E fn sp start_cycle k = Done (tt, k') ∧ machine L k'.
Proof.
  intros Hm. destruct (machine_safe L k Hm) as [Hi Hu]. split_and!; [done|done|by eapply machine_typed| |].
  2: { intros E fn sp sc HL Hsp. subst L.
    destruct (wp_no_panic _ _ _ (watchdog_keeps E fn sp sc k Hi Hu)) as ([] & k' & He & _).
    exists k'. split; [done|]. eapply mach_step; [done|]. by eapply mach_watchdog. }
  intros i m Him. destruct (inv_mutex _ _ Hi _ _ Him) as [_ Hr _ _ Ho]. split; [done|].
  intros z (n & -> & Hn & _)%Ho. lia.
Qed.

Lemma sample_reset_ok : reset_ok ∅ (mkPerHart 0 0) (mkPerHart 0 0) (mkPerHart pmp_reset pmp_reset).
Proof. split; [apply mem_wf_empty|by intros []|by intros []|intros []; exact pmp_reset_reset_ok]. Qed.

Lemma booted_machine : machine sample_layout booted.
Proof.
  destruct (wp_no_panic _ _ _ (kmain_wp Fips180.sha256 sample_env sample_env sample_entries ∅
    (mkPerHart 0 0) (mkPerHart 0 0) (mkPerHart pmp_reset pmp_reset) sample_secure eq_refl
    pmp_reset_reset_ok pmp_reset_reset_ok)) as (r & k & Hk & _).
  fold sample_reset in Hk. unfold booted. rewrite Hk.
  exact (mach_boot _ Fips180.sha256 sample_env sample_env sample_entries ∅ (mkPerHart 0 0)
    (mkPerHart 0 0) (mkPerHart pmp_reset pmp_reset) r k eq_refl eq_refl sample_secure
    sample_reset_ok Hk).
Qed.

(** A timer interrupt on hart 0, a yield, then a fault of the task that runs. *)
Definition sample_actions : list action :=
  [Trap H0 TIMER_INTERRUPT 0x3FC80380; User (syscall_frame 0x3FC80380 1 0 0 0 ∅);
   Trap H0 8 0x3FC80380; Trap H0 5 0x3FC80780].

Definition sample_run : Kernel := default sample_reset (run sample_actions booted).

Definition action_ok (a : action) : Prop :=
  match a with User m => mem_wf m | Trap _ _ sp => is_u32 sp end.

Lemma run_machine l k k' :
  Forall action_ok l → machine sample_layout k → run l k = Some k' → machine sample_layout k'.
Proof.
  intros Hl. revert k. induction Hl as [|a l Ha _ IH]; intros k Hm; cbn [run].
  - by intros [= <-].
  - destruct a as [m|h mcause sp].
    + apply IH. eapply mach_step; [done|]. by apply mach_user.
    + destruct (trap_handler sample_env h mcause sp 6000 k) as [[sp' k1]| |] eqn:E; [|done..].
      apply IH. eapply mach_step; [done|]. exact (mach_trap _ sample_env h mcause sp 6000 k sp' k1 eq_refl Ha E).
Qed.

Lemma sample_run_machine : machine sample_layout sample_run.
Proof.
  apply (run_machine sample_actions booted); [|exact booted_machine|].
  - repeat (apply List.Forall_cons; [first [split; lia|repeat apply store32_wf; apply mem_wf_empty]|]).
    apply List.Forall_nil.
  - assert (H : match run sample_actions booted with Some _ => true | None => false end = true)
      by (vm_compute; reflexivity).
    unfold sample_run. by destruct (run sample_actions booted).
Qed.

Lemma machine_well_typed_witness : typed sample_run ∧ trace sample_run ≠ [].
Proof.
  split; [|vm_compute; discriminate].
  apply (machine_well_typed sample_layout sample_run). exact sample_run_machine.
Defined.

(** C29. What the host sees is what the kernel did.  In every state the machine
    reaches, the whole event trace survives the trip through the encoder and the
    RTT channel to the host: however the records are grouped into reads that end
    between two records, the broker decodes exactly the kernel's trace, in order,
    with nothing lost or invented. *)
Theorem machine_telemetry L k to_slice (chunks : list (list TraceEvent)) :
  machine L k → Postcard to_slice → concat chunks = trace k →
  let records es := foldl (λ rtt e, log_telemetry to_slice e rtt) [] es in
  tail_file (mkBytesIO [] 0) (map (λ es, concat (records es)) chunks) = trace k.
Proof.
  intros Hm HP Hc records.
  assert (Hwf : Forall (Forall event_wf) chunks).
  { apply List.Forall_forall. intros es Hes. pose proof (ty_trace _ (machine_typed L k Hm)) as Ht.
    rewrite <- Hc, List.Forall_forall in Ht. apply List.Forall_forall. intros e He. apply Ht.
    apply List.in_concat. by exists es. }
  rewrite <- Hc, <- (tail_file_aligned chunks Hwf). f_equal. apply map_ext_in. intros es Hes.
  unfold records. rewrite (records_wire to_slice es []); [done|done|].
  rewrite List.Forall_forall in Hwf. by apply Hwf.
Qed.

Lemma machine_telemetry_witness :
  tail_file (mkBytesIO [] 0)
    (map (λ es, concat (foldl (λ rtt e, log_telemetry reference_to_slice e rtt) [] es))
      [trace sample_run]) = trace sample_run ∧ length (trace sample_run) = 3%nat.
Proof.
  split; [|vm_compute; reflexivity].
  apply (machine_telemetry sample_layout sample_run reference_to_slice [trace sample_run]).
  - exact sample_run_machine.
  - exact reference_postcard.
  - cbn [concat]. apply app_nil_r.
Defined.
